(** * fits2idia: the FITS to HDF5 (IDIA schema) converter, [main.cc]

    A shallow embedding of the in-memory conversion pipeline of [main.cc]
    (slice statistics and transpose, XYZ consolidation, Z-profile statistics,
    histograms, header translation, output-name derivation and the driver's
    status handling), with the properties of the specification stated over it.

    Conventions of the embedding.
    - [float] and [double] values are IEEE-754 binary32/binary64 numbers,
      represented by [spec_float] and operated on with the reference
      operations of [SpecFloat] at precision 24/128 and 53/1024.
    - [long] dimensions and indices are natural numbers: the buffers are
      allocated with [cubeSize] elements, so no [long] index computation
      wraps.  [int64_t] counters are integers in [Z].  [size_t] arithmetic
      that the source lets wrap ([fitsIndex - 4], [commentPos - eqPos - 1])
      is written out modulo 2^64.
    - The loop counters declared [auto i = 0] are [int]s.  Those that run
      over one axis are natural numbers here, which is what they are for
      axes up to [INT_MAX]; the counter over the pixels of a slice and the
      [int] products and [unsigned int] sums in the histogram indices are
      written out with their overflow ([int_loop], [int_mul],
      [unsigned_index]).
    - [vector]s and raw buffers are lists, read with [!!!] and written with
      [<[i:=v]>]; every [omp parallel for] writes disjoint cells, so its
      iterations are run in index order. *)

From Stdlib Require Import ZArith List Bool Lia Ascii String.
From Stdlib Require Import Floats.SpecFloat.
From Stdlib Require Import Reals Lra.
From stdpp Require Import base list.

Local Open Scope nat_scope.

(** ** IEEE-754 arithmetic of the two C++ floating-point types *)

Abbreviation float := spec_float.
Abbreviation double := spec_float.

#[global] Instance spec_float_inhabited : Inhabited spec_float := populate S754_nan.

(** [std::isnan] *)
Definition isnan (x : spec_float) : bool :=
  match x with S754_nan => true | _ => false end.

(** [std::isinf] *)
Definition isinf (x : spec_float) : bool :=
  match x with S754_infinity _ => true | _ => false end.

(** The macro [NAN]. *)
Definition NAN : float := S754_nan.

Module F32.
Definition prec : Z := 24.
Definition emax : Z := 128.
Definition add : float -> float -> float := SFadd prec emax.
Definition sub : float -> float -> float := SFsub prec emax.
Definition mul : float -> float -> float := SFmul prec emax.
Definition div : float -> float -> float := SFdiv prec emax.
Definition ltb : float -> float -> bool := SFltb.
Definition leb : float -> float -> bool := SFleb.
Definition eqb : float -> float -> bool := SFeqb.
(** Conversion of an integer ([long], [int64_t]) to [float]. *)
Definition of_Z (n : Z) : float := binary_normalize prec emax n 0 false.
(** [numeric_limits<float>::max()] *)
Definition max : float := SFmax_float prec emax.
Definition zero : float := S754_zero false.
Definition infinity : float := S754_infinity false.
End F32.

Module F64.
Definition prec : Z := 53.
Definition emax : Z := 1024.
Definition add : double -> double -> double := SFadd prec emax.
Definition sub : double -> double -> double := SFsub prec emax.
Definition mul : double -> double -> double := SFmul prec emax.
Definition div : double -> double -> double := SFdiv prec emax.
Definition sqrt : double -> double := SFsqrt prec emax.
Definition ltb : double -> double -> bool := SFltb.
Definition leb : double -> double -> bool := SFleb.
Definition eqb : double -> double -> bool := SFeqb.
(** Conversion of an integer ([int], [long], [int64_t]) to [double]. *)
Definition of_Z (n : Z) : double := binary_normalize prec emax n 0 false.
Definition zero : double := S754_zero false.
(** The literal [0.5]. *)
Definition half : double := S754_finite false 4503599627370496 (-53).
End F64.

(** Implicit conversion [float] to [double]: exact, renormalised. *)
Definition float_to_double (x : float) : double :=
  match x with
  | S754_finite s m e =>
      binary_normalize F64.prec F64.emax (cond_Zopp s (Zpos m)) e s
  | _ => x
  end.

(** Implicit conversion [double] to [float]: rounded to nearest even. *)
Definition double_to_float (x : double) : float :=
  match x with
  | S754_finite s m e =>
      binary_normalize F32.prec F32.emax (cond_Zopp s (Zpos m)) e s
  | _ => x
  end.

Definition INT_MIN : Z := - 2 ^ 31.
Definition INT_MAX : Z := 2 ^ 31 - 1.

(** The cast [(int) x] of a [double]: truncation toward zero.  It is
    undefined ([None]) for NaN, for the infinities and when the truncated
    value is not an [int]. *)
Definition double_to_int (x : double) : option Z :=
  match x with
  | S754_zero _ => Some 0%Z
  | S754_finite s m e =>
      let t := match e with
               | Zneg p => Z.shiftr (Zpos m) (Zpos p)
               | _ => Z.shiftl (Zpos m) e
               end in
      let n := cond_Zopp s t in
      if (INT_MIN <=? n)%Z && (n <=? INT_MAX)%Z then Some n else None
  | _ => None
  end.

(** [a * b] on [int]: a product that is not an [int] is undefined. *)
Definition int_mul (a b : Z) : option Z :=
  let p := (a * b)%Z in
  if (INT_MIN <=? p)%Z && (p <=? INT_MAX)%Z then Some p else None.

(** [for (auto i = 0; i < bound; i++)] where [bound] is a [long]: [auto]
    makes the counter an [int].  The counter holds [bound] when the loop
    ends, so with a bound above [INT_MAX] the increment leaves the [int]s,
    which is undefined. *)
Definition int_loop {T : Type} (bound : nat)
    (body : option T -> nat -> option T) (st : option T) : option T :=
  if (INT_MAX <? Z.of_nat bound)%Z then None
  else fold_left body (seq 0 bound) st.

(** [std::min] and [std::max] on [float]:
    [min(a,b) = (b < a) ? b : a] and [max(a,b) = (a < b) ? b : a]. *)
Definition std_min (a b : float) : float := if F32.ltb b a then b else a.
Definition std_max (a b : float) : float := if F32.ltb a b then b else a.

(** [fmin] and [fmax] of [<cmath>] on [double]: a NaN argument is ignored. *)
Definition fmin (x y : double) : double :=
  if F64.leb x y then x
  else if F64.ltb y x then y
  else if isnan y then x else y.

Definition fmax (x y : double) : double :=
  if F64.leb y x then x
  else if F64.ltb x y then y
  else if isnan y then x else y.

(** ** The statistics accumulators of the two reduction loops *)

Record acc : Type := mkAcc {
  minVal : float;
  maxVal : float;
  sum : float;
  nanCount : Z
}.

(** [float minVal = numeric_limits<float>::max(); float maxVal = -minVal;
    float sum = 0; int64_t nanCount = 0;] *)
Definition acc0 : acc :=
  mkAcc F32.max (SFopp F32.max) F32.zero 0%Z.

(** The body [if (!isnan(val)) { ... } else { nanCount += 1; }], the same
    text in the slice loop and in the profile loop. *)
Definition accumulate (a : acc) (val : float) : acc :=
  if negb (isnan val)
  then mkAcc (std_min (minVal a) val) (std_max (maxVal a) val)
             (F32.add (sum a) val) (nanCount a)
  else mkAcc (minVal a) (maxVal a) (sum a) (nanCount a + 1)%Z.

(** The per-slice statistics vectors, of length [depth * stokes]. *)
Record xy_stats : Type := mkXY {
  minValsXY : list float;
  maxValsXY : list float;
  meanValsXY : list float;
  nanValsXY : list Z
}.

(** The per-profile statistics vectors, of length [width * height * stokes]. *)
Record z_stats : Type := mkZ {
  minValsZ : list float;
  maxValsZ : list float;
  meanValsZ : list float;
  nanValsZ : list Z
}.

(** The per-cube statistics vectors, of length [stokes]. *)
Record xyz_stats : Type := mkXYZ {
  minValsXYZ : list float;
  maxValsXYZ : list float;
  meanValsXYZ : list float;
  nanValsXYZ : list Z
}.

Section Pipeline.

(** The resolved axis lengths of the image and the cube being held. *)
Variables width height depth : nat.
Variable standardCube : list float.
Variable currentStokes : nat.

Definition cubeSize : nat := depth * height * width.

(** *** First loop: statistics of each XY slice, and the rotation *)

Definition sourceIndex (i j k : nat) : nat :=
  k + width * j + (height * width) * i.

Definition destIndex (i j k : nat) : nat :=
  i + depth * j + (height * depth) * k.

(** One iteration of the innermost loop over [k]. *)
Definition xy_pixel (i j : nat) (st : list float * acc) (k : nat)
  : list float * acc :=
  let val := standardCube !!! sourceIndex i j k in
  let rotatedCube :=
    if 1 <? depth then <[destIndex i j k := val]> (fst st) else fst st in
  (rotatedCube, accumulate (snd st) val).

Definition xy_row (i : nat) (st : list float * acc) (j : nat)
  : list float * acc :=
  fold_left (xy_pixel i j) (seq 0 width) st.

Definition xy_slice (i : nat) (rotatedCube : list float) : list float * acc :=
  fold_left (xy_row i) (seq 0 height) (rotatedCube, acc0).

(** [if (nanCount != (height * width)) { ... } else { ... }] *)
Definition publish_xy (i : nat) (a : acc) (xy : xy_stats) : xy_stats :=
  let idx := currentStokes * depth + i in
  if negb (nanCount a =? Z.of_nat (height * width))%Z
  then mkXY (<[idx := minVal a]> (minValsXY xy))
            (<[idx := maxVal a]> (maxValsXY xy))
            (<[idx := F32.div (sum a)
                       (F32.of_Z (Z.of_nat (height * width) - nanCount a))]>
               (meanValsXY xy))
            (<[idx := nanCount a]> (nanValsXY xy))
  else mkXY (<[idx := NAN]> (minValsXY xy))
            (<[idx := NAN]> (maxValsXY xy))
            (<[idx := NAN]> (meanValsXY xy))
            (<[idx := nanCount a]> (nanValsXY xy)).

(** One iteration of the loop over the slices [i]. *)
Definition slice_iter (st : list float * xy_stats) (i : nat)
  : list float * xy_stats :=
  let r := xy_slice i (fst st) in
  (fst r, publish_xy i (snd r) (snd st)).

Definition slice_stats_pass (rotatedCube : list float) (xy : xy_stats)
  : list float * xy_stats :=
  fold_left slice_iter (seq 0 depth) (rotatedCube, xy).

(** *** Consolidation of the XY statistics into the XYZ statistics *)

Record xyz_acc : Type := mkXyzAcc {
  xyzSum : double;
  xyzNanCount : Z;
  xyzMin : double;
  xyzMax : double
}.

(** [double xyzSum = 0; int64_t xyzNanCount = 0;
    xyzMin = minValsXY[currentStokes * depth];
    xyzMax = maxValsXY[currentStokes * depth];] *)
Definition xyz_acc0 (xy : xy_stats) : xyz_acc :=
  mkXyzAcc F64.zero 0%Z
    (float_to_double (minValsXY xy !!! (currentStokes * depth)))
    (float_to_double (maxValsXY xy !!! (currentStokes * depth))).

(** One iteration of the consolidation loop.  The product
    [meanVal * (height * width - nanCount)] is a [float] product. *)
Definition consolidate_iter (xy : xy_stats) (st : xyz_acc) (i : nat)
  : xyz_acc :=
  let idx := currentStokes * depth + i in
  let meanVal := meanValsXY xy !!! idx in
  let nanCount := nanValsXY xy !!! idx in
  if negb (isnan meanVal)
  then mkXyzAcc
         (F64.add (xyzSum st)
            (float_to_double
               (F32.mul meanVal
                  (F32.of_Z (Z.of_nat (height * width) - nanCount)))))
         (xyzNanCount st + nanCount)%Z
         (fmin (xyzMin st) (float_to_double (minValsXY xy !!! idx)))
         (fmax (xyzMax st) (float_to_double (maxValsXY xy !!! idx)))
  else mkXyzAcc (xyzSum st) (xyzNanCount st + nanCount)%Z
                (xyzMin st) (xyzMax st).

Definition consolidate_loop (xy : xy_stats) : xyz_acc :=
  fold_left (consolidate_iter xy) (seq 0 depth) (xyz_acc0 xy).

(** The stores after the loop; [meanValsXYZ] is written only
    [if (xyzNanCount != cubeSize)]. *)
Definition publish_xyz (st : xyz_acc) (xyz : xyz_stats) : xyz_stats :=
  mkXYZ (<[currentStokes := double_to_float (xyzMin st)]> (minValsXYZ xyz))
        (<[currentStokes := double_to_float (xyzMax st)]> (maxValsXYZ xyz))
        (if negb (xyzNanCount st =? Z.of_nat cubeSize)%Z
         then <[currentStokes :=
                  double_to_float
                    (F64.div (xyzSum st)
                       (F64.of_Z (Z.of_nat cubeSize - xyzNanCount st)))]>
                (meanValsXYZ xyz)
         else meanValsXYZ xyz)
        (<[currentStokes := xyzNanCount st]> (nanValsXYZ xyz)).

(** *** Second loop: statistics of each Z profile *)

Definition z_profile (j k : nat) : acc :=
  fold_left (fun a i => accumulate a (standardCube !!! sourceIndex i j k))
    (seq 0 depth) acc0.

(** [if (nanCount != (height * width)) { ... } else { ... }] *)
Definition publish_z (j k : nat) (a : acc) (z : z_stats) : z_stats :=
  let idx := currentStokes * width * height + k + j * width in
  if negb (nanCount a =? Z.of_nat (height * width))%Z
  then mkZ (<[idx := minVal a]> (minValsZ z))
           (<[idx := maxVal a]> (maxValsZ z))
           (<[idx := F32.div (sum a)
                      (F32.of_Z (Z.of_nat depth - nanCount a))]>
              (meanValsZ z))
           (<[idx := nanCount a]> (nanValsZ z))
  else mkZ (<[idx := NAN]> (minValsZ z))
           (<[idx := NAN]> (maxValsZ z))
           (<[idx := NAN]> (meanValsZ z))
           (<[idx := nanCount a]> (nanValsZ z)).

Definition z_row (z : z_stats) (j : nat) : z_stats :=
  fold_left (fun z k => publish_z j k (z_profile j k) z) (seq 0 width) z.

Definition profile_stats_pass (z : z_stats) : z_stats :=
  fold_left z_row (seq 0 height) z.

(** *** Third loop: histograms *)

(** [int numBinsHistXY = sqrt(width * height) + 0.5;] *)
Definition numBinsHist : option Z :=
  double_to_int
    (F64.add (F64.sqrt (F64.of_Z (Z.of_nat (width * height)))) F64.half).

Variable numBinsHistXY : Z.

(** [min(numBins - 1, (int)(numBins * (val - lo) / range))] *)
Definition bin_index (val : float) (lo range : double) : option Z :=
  match double_to_int
          (F64.div
             (F64.mul (F64.of_Z numBinsHistXY)
                (F64.sub (float_to_double val) lo))
             range) with
  | Some n => Some (Z.min (numBinsHistXY - 1) n)
  | None => None
  end.

(** [h[idx]++] on a vector: undefined outside the vector. *)
Definition vec_incr (h : list Z) (idx : Z) : option (list Z) :=
  if (0 <=? idx)%Z && (idx <? Z.of_nat (length h))%Z
  then Some (<[Z.to_nat idx := (h !!! Z.to_nat idx + 1)%Z]> h)
  else None.

(** [currentStokes * depth * numBinsHistXY + i * numBinsHistXY], the first
    cell of row [(currentStokes, i)] of a histogram vector.  The first
    product is computed in [long] ([currentStokes] is an [unsigned int] and
    [depth] a [long]); [i * numBinsHistXY] is a product of two [int]s. *)
Definition hist_row_base (i : nat) : option Z :=
  match int_mul (Z.of_nat i) numBinsHistXY with
  | Some row =>
      Some (Z.of_nat currentStokes * Z.of_nat depth * numBinsHistXY + row)%Z
  | None => None
  end.

(** One iteration of the loop over the pixels [j] of slice [i]. *)
Definition hist_pixel (i : nat) (sliceMin range cubeMin cubeRange : double)
    (st : option (list Z * list Z)) (j : nat) : option (list Z * list Z) :=
  match st with
  | None => None
  | Some (histogramsXY, partialHistogramsXYZ) =>
      let val := standardCube !!! (i * width * height + j) in
      if negb (isnan val) then
        match bin_index val sliceMin range with
        | None => None
        | Some binIndex =>
            match hist_row_base i with
            | None => None
            | Some base =>
                match vec_incr histogramsXY (base + binIndex) with
                | None => None
                | Some hxy =>
                    if 1 <? depth then
                      match bin_index val cubeMin cubeRange with
                      | None => None
                      | Some binIndexXYZ =>
                          match vec_incr partialHistogramsXYZ
                                  (base + binIndexXYZ) with
                          | None => None
                          | Some pxyz => Some (hxy, pxyz)
                          end
                      end
                    else Some (hxy, partialHistogramsXYZ)
                end
            end
        end
      else st
  end.

(** One iteration of the loop over the slices [i], with its [continue];
    the loop over the pixels counts with an [int] [j] up to
    [width * height]. *)
Definition hist_slice (xy : xy_stats) (cubeMin cubeRange : double)
    (st : option (list Z * list Z)) (i : nat) : option (list Z * list Z) :=
  let sliceMin := float_to_double (minValsXY xy !!! (currentStokes * depth + i)) in
  let sliceMax := float_to_double (maxValsXY xy !!! (currentStokes * depth + i)) in
  let range := F64.sub sliceMax sliceMin in
  if isnan sliceMin || isnan sliceMax || F64.eqb range F64.zero
  then st
  else int_loop (width * height)
         (hist_pixel i sliceMin range cubeMin cubeRange) st.

Definition histogram_pass (xy : xy_stats) (cubeMin cubeMax : double)
    (histogramsXY partialHistogramsXYZ : list Z)
  : option (list Z * list Z) :=
  int_loop depth (hist_slice xy cubeMin (F64.sub cubeMax cubeMin))
    (Some (histogramsXY, partialHistogramsXYZ)).

End Pipeline.

(** ** [std::string] operations used by [main] *)

Definition SIZE_MAX : Z := 2 ^ 64 - 1.

(** [string::npos], the value [find] returns when nothing is found. *)
Definition npos : Z := SIZE_MAX.

(** Subtraction on [size_t]: it wraps modulo 2^64. *)
Definition size_t_sub (a b : Z) : Z := ((a - b) mod 2 ^ 64)%Z.

Definition char_in (c : ascii) (chars : string) : bool :=
  existsb (Ascii.eqb c) (list_ascii_of_string chars).

(** The position of the first character of [s] that is in [chars]. *)
Fixpoint find_first_of_nat (chars s : string) : option nat :=
  match s with
  | EmptyString => None
  | String c s' =>
      if char_in c chars then Some 0
      else option_map S (find_first_of_nat chars s')
  end.

(** The position of the last character of [s] that is in [chars]. *)
Fixpoint find_last_of_nat (chars s : string) : option nat :=
  match s with
  | EmptyString => None
  | String c s' =>
      match find_last_of_nat chars s' with
      | Some n => Some (S n)
      | None => if char_in c chars then Some 0 else None
      end
  end.

Definition pos_or_npos (r : option nat) : Z :=
  match r with Some n => Z.of_nat n | None => npos end.

(** [s.find(c)] for a character [c]. *)
Definition find_char (c : ascii) (s : string) : Z :=
  pos_or_npos (find_first_of_nat (String c EmptyString) s).

(** [s.find_last_of(chars)]: a search for any one character of [chars]. *)
Definition find_last_of (chars s : string) : Z :=
  pos_or_npos (find_last_of_nat chars s).

(** [s.find(t) == 0] *)
Definition starts_with (t s : string) : bool := String.prefix t s.

(** [s.substr(pos, count)] for [pos <= s.size()]: [count] is clamped to
    what is left of the string. *)
Definition substr (s : string) (pos count : Z) : string :=
  String.substring (Z.to_nat pos)
    (Z.to_nat (Z.min count (Z.of_nat (String.length s) - pos))) s.

(** [isspace] in the C locale. *)
Definition isspace (c : ascii) : bool :=
  let n := nat_of_ascii c in (n =? 32) || ((9 <=? n) && (n <=? 13)).

(** [ltrim]: erase up to the first character that is not a space. *)
Fixpoint ltrim (s : string) : string :=
  match s with
  | EmptyString => EmptyString
  | String c s' => if isspace c then ltrim s' else s
  end.

(** [rtrim]: erase what follows the last character that is not a space. *)
Fixpoint rtrim (s : string) : string :=
  match s with
  | EmptyString => EmptyString
  | String c s' =>
      match rtrim s' with
      | EmptyString => if isspace c then EmptyString else String c EmptyString
      | r => String c r
      end
  end.

Definition trim (s : string) : string := rtrim (ltrim s).

(** ** Output file name *)

(** The [else] branch of [if (argc == 3)]. *)
Definition derive_output_name (inputFileName : string) : string :=
  let fitsIndex := find_last_of ".fits" inputFileName in
  if negb (fitsIndex =? npos)%Z
  then (substr inputFileName 0 (size_t_sub fitsIndex 4) ++ ".hdf5")%string
  else (inputFileName ++ ".hdf5")%string.

Definition output_file_name (argv : list string) : string :=
  match argv with
  | [_; inputFileName; outputFileName] => outputFileName
  | [_; inputFileName] => derive_output_name inputFileName
  | _ => EmptyString
  end.

(** ** Header translation *)

Definition quote : ascii := "'"%char.

(** The name and the value [main] extracts from one header record, [None]
    for the records it skips. *)
Definition header_attribute (headerLine : string) : option (string * string) :=
  if starts_with "COMMENT" headerLine then None
  else if starts_with "HISTORY" headerLine then None
  else
    let eqPos := find_char "="%char headerLine in
    let commentPos := find_last_of "/" headerLine in
    if negb (eqPos =? npos)%Z then
      let attributeName := substr headerLine 0 eqPos in
      let endPos :=
        if negb (commentPos =? npos)%Z
        then size_t_sub (size_t_sub commentPos eqPos) 1
        else npos in
      let attributeValue := substr headerLine (eqPos + 1) endPos in
      let attributeName := trim attributeName in
      let attributeValue := trim attributeValue in
      let len := Z.of_nat (String.length attributeValue) in
      let attributeValue :=
        if (2 <=? len)%Z
           && (find_char quote attributeValue =? 0)%Z
           && (find_last_of "'" attributeValue =? len - 1)%Z
        then trim (substr attributeValue 1 (len - 2))
        else attributeValue in
      Some (attributeName, attributeValue)
    else None.

(** The attributes of the output group, in creation order. *)
Definition attributes : Type := list (string * string).

(** [outputGroup.attrExists(name)] *)
Definition attrExists (name : string) (attrs : attributes) : bool :=
  existsb (fun kv => String.eqb (fst kv) name) attrs.

(** The value of the attribute called [name]. *)
Fixpoint attr_value (name : string) (attrs : attributes) : option string :=
  match attrs with
  | [] => None
  | (k, v) :: rest => if String.eqb k name then Some v else attr_value name rest
  end.

(** [createAttribute] followed by [write]. *)
Definition createAttribute (name value : string) (attrs : attributes)
  : attributes := attrs ++ [(name, value)].

Definition duplicate_warning (name : string) : string :=
  ("Warning: Skipping duplicate attribute '" ++ name ++ "'")%string.

(** The state of the header loop: the attributes and the lines printed. *)
Definition header_state : Type := attributes * list string.

(** The body of the header loop once the record is read. *)
Definition header_step (st : header_state) (headerLine : string)
  : header_state :=
  match header_attribute headerLine with
  | None => st
  | Some (attributeName, attributeValue) =>
      if negb (attrExists attributeName (fst st))
      then (createAttribute attributeName attributeValue (fst st), snd st)
      else (fst st, snd st ++ [duplicate_warning attributeName])
  end.

(** The three attributes written before the header loop. *)
Definition fixed_attributes : attributes :=
  [("SCHEMA_VERSION", "0.1"); ("HDF5_CONVERTER", "hdf_convert");
   ("HDF5_CONVERTER_VERSION", "0.1.4")]%string.

(** [fits_read_record(fptr, keynum, card, &status)] of CFITSIO on a header
    that holds the records [cards]: the records are numbered from 1, and
    [keynum = 0] hands back an empty card. *)
Definition cfitsio_record (cards : list string) (keynum : nat) : string :=
  match keynum with
  | 0 => EmptyString
  | S n => nth n cards EmptyString
  end.

(** The header loop; [fits_read_record i] is the record the reader hands
    back for the index [i] that [main] passes. *)
Definition translate_headers (fits_read_record : nat -> string)
    (numHeaders : nat) (st : header_state) : header_state :=
  fold_left header_step (map fits_read_record (seq 0 numHeaders)) st.

(** ** One polarization: the three loops in sequence *)

Record buffers : Type := mkBuffers {
  rotatedCube : list float;
  statsXY : xy_stats;
  statsZ : z_stats;
  statsXYZ : xyz_stats;
  histogramsXY : list Z;
  partialHistogramsXYZ : list Z;
  histogramsXYZ : list Z
}.

(** [currentStokes * numBins + j] where [currentStokes] is an
    [unsigned int] and the other two are [int]s: both are converted to
    [unsigned int] and the arithmetic wraps modulo 2^32. *)
Definition unsigned_index (currentStokes numBins j : nat) : nat :=
  Z.to_nat
    ((Z.of_nat currentStokes * Z.of_nat numBins + Z.of_nat j) mod 2 ^ 32)%Z.

(** The consolidation of the partial XYZ histograms:
    [histogramsXYZ[currentStokes * numBins + j] +=
       partialHistogramsXYZ[currentStokes * depth * numBins + i * numBins + j]]
    with [int] counters [i] and [j]; [i * numBins] is a product of two
    [int]s. *)
Definition reduce_partial (depth currentStokes numBins : nat)
    (partial hist : list Z) : option (list Z) :=
  int_loop depth
    (fun h i =>
       fold_left
         (fun h j =>
            match h, int_mul (Z.of_nat i) (Z.of_nat numBins) with
            | Some h, Some row =>
                let dst := unsigned_index currentStokes numBins j in
                let src := currentStokes * depth * numBins + Z.to_nat row + j in
                Some (<[dst := Z.add (h !!! dst) (partial !!! src)]> h)
            | _, _ => None
            end)
         (seq 0 numBins) h)
    (Some hist).

(** The body of the loop over [currentStokes], from the first statistics
    loop to the consolidation of the histograms.  [None] is undefined
    behaviour (a bin index that cannot be computed or that falls outside
    its vector, an [int] counter or product that overflows). *)
Definition process_stokes (width height depth : nat)
    (standardCube : list float) (currentStokes : nat) (numBins : Z)
    (b : buffers) : option buffers :=
  let r := slice_stats_pass width height depth standardCube currentStokes
             (rotatedCube b) (statsXY b) in
  let c := consolidate_loop width height depth currentStokes (snd r) in
  let xyz :=
    if 1 <? depth
    then publish_xyz width height depth currentStokes c (statsXYZ b)
    else statsXYZ b in
  let z :=
    if 1 <? depth
    then profile_stats_pass width height depth standardCube currentStokes
           (statsZ b)
    else statsZ b in
  match histogram_pass width height depth standardCube currentStokes numBins
          (snd r) (xyzMin c) (xyzMax c)
          (histogramsXY b) (partialHistogramsXYZ b) with
  | None => None
  | Some (hxy, pxyz) =>
      match (if 1 <? depth
             then reduce_partial depth currentStokes (Z.to_nat numBins)
                    pxyz (histogramsXYZ b)
             else Some (histogramsXYZ b)) with
      | None => None
      | Some hxyz => Some (mkBuffers (fst r) (snd r) z xyz hxy pxyz hxyz)
      end
  end.

(** ** The driver and the status of the FITS reader *)

(** What the reader answers to each call of [main]: the status a call sets
    when it is entered with a zero status, and the values it hands back. *)
Record fits_reader : Type := mkReader {
  open_file_status : Z;
  get_img_type_status : Z;
  get_img_dim_status : Z;
  get_img_size_status : Z;
  get_hdrspace_status : Z;
  read_record_status : nat -> Z;
  read_pix_status : nat -> Z;
  bitpix : Z;
  naxis : Z;
  numHeaders : nat;
  stokes : nat
}.

(** A CFITSIO routine entered with a positive status returns at once and
    leaves the status as it is. *)
Definition fits_call (outcome status : Z) : Z :=
  if (0 <? status)%Z then status else outcome.

(** What [main] does, as far as the outside can tell.  The lines it
    prints are events when the arguments and the input fix their text; the
    progress lines, which report measured times, are left out. *)
Inductive event : Type :=
| Print (msg : string)
| CreateTmpFile
| TranslateHeader (i : nat)
| CreateDataSets
| Allocate
| ProcessStokes (s : nat)
| WriteStokes (s : nat)
| WriteStatistics
| CloseOutput
| RenameTmpToFinal.

(** How a run of [main] ends: it returns; an exception of HDF5 or of [new]
    leaves [main], which has no [try]; or it reads a variable that no call
    has stored, after which nothing is known of it. *)
Inductive outcome : Type :=
| Returns (code : Z)
| Aborts
| Undefined.

(** A run so far: the events, and the outcome once the run has ended. *)
Definition run (A : Type) : Type := list event -> list event * (outcome + A).

Definition ret {A : Type} (a : A) : run A := fun t => (t, inr a).

Definition bind {A B : Type} (m : run A) (f : A -> run B) : run B :=
  fun t =>
    match m t with
    | (t', inl o) => (t', inl o)
    | (t', inr a) => f a t'
    end.

#[global] Instance run_ret : MRet run := @ret.
#[global] Instance run_bind : MBind run := fun A B f m => bind m f.

Definition stop {A : Type} (o : outcome) : run A := fun t => (t, inl o).

(** A step that cannot fail. *)
Definition emit (e : event) : run unit := fun t => (t ++ [e], inr tt).

(** A step that allocates or calls HDF5: [throws e] tells whether it
    throws. *)
Definition perform (throws : event -> bool) (e : event) : run unit :=
  fun t => if throws e then (t, inl Aborts) else (t ++ [e], inr tt).

(** The read of a variable that a CFITSIO call was given to fill
    ([bitpix], [N], [dims], [numHeaders]): [status] is the status after
    that call, and the variable holds a value only if it is zero. *)
Definition stored (status : Z) : run unit :=
  if (status =? 0)%Z then ret tt else stop Undefined.

Fixpoint for_each {X T : Type} (body : T -> X -> run T) (l : list X) (s : T)
  : run T :=
  match l with
  | [] => ret s
  | x :: l' => s' ← body s x; for_each body l' s'
  end.

(** The body of the header loop: the status of [fits_read_record] is not
    looked at.  [headerTmp] is declared before the loop, so an iteration
    whose read fails works on what the buffer holds. *)
Definition header_body (r : fits_reader) (throws : event -> bool)
    (status : Z) (i : nat) : run Z :=
  let status := fits_call (read_record_status r i) status in
  perform throws (TranslateHeader i);;
  ret status.

(** The body of the loop over the polarizations: the status of
    [fits_read_pix] is not looked at, and the three loops run on what
    [standardCube] holds. *)
Definition stokes_body (r : fits_reader) (throws : event -> bool)
    (status : Z) (s : nat) : run Z :=
  let status := fits_call (read_pix_status r s) status in
  emit (ProcessStokes s);;
  perform throws (WriteStokes s);;
  ret status.

Definition converting_line (inputFileName outputFileName : string) : string :=
  ("Converting FITS file " ++ inputFileName ++ " to HDF5 file "
     ++ outputFileName)%string.

(** The statements of [main], in order. *)
Definition main_body (argv : list string) (r : fits_reader)
    (throws : event -> bool) : run Z :=
  let argc := Z.of_nat (length argv) in
  if (argc <? 2)%Z || (3 <? argc)%Z then
    emit (Print "Usage: hdf_convert {INPUT FITS file} {OUTPUT HDF5 file}");;
    ret 1%Z
  else
    let inputFileName := nth 1 argv EmptyString in
    let outputFileName := output_file_name argv in
    emit (Print (converting_line inputFileName outputFileName));;
    let status := 0%Z in
    let status := fits_call (open_file_status r) status in
    if negb (status =? 0)%Z then
      emit (Print "error opening FITS file");; ret 1%Z
    else
      let type_status := fits_call (get_img_type_status r) status in
      let status := fits_call (get_img_dim_status r) type_status in
      stored type_status;;
      if negb (bitpix r =? -32)%Z then
        emit (Print "Currently only supports FP32 files");; ret 1%Z
      else
        stored status;;
        if (naxis r <? 2)%Z || (4 <? naxis r)%Z then
          emit (Print "Currently only supports 2D, 3D and 4D cubes");;
          ret 1%Z
        else
          let status := fits_call (get_img_size_status r) status in
          stored status;;
          perform throws CreateTmpFile;;
          let status := fits_call (get_hdrspace_status r) status in
          stored status;;
          status ← for_each (header_body r throws)
                      (seq 0 (numHeaders r)) status;
          perform throws CreateDataSets;;
          perform throws Allocate;;
          status ← for_each (stokes_body r throws)
                      (seq 0 (stokes r)) status;
          perform throws WriteStatistics;;
          perform throws CloseOutput;;
          emit RenameTmpToFinal;;
          ret 0%Z.

(** [main]: the events and the way the run ends. *)
Definition main_driver (argv : list string) (r : fits_reader)
    (throws : event -> bool) : list event * outcome :=
  match main_body argv r throws [] with
  | (t, inl o) => (t, o)
  | (t, inr code) => (t, Returns code)
  end.

(** The sibling reader of [Util.cc], [readFitsData]: it throws when the
    status of [fits_read_pix] is not zero. *)
Definition readFitsData (read_status : Z) : option unit :=
  let status := fits_call read_status 0%Z in
  if negb (status =? 0)%Z then None else Some tt.

(** * Definitions used to state the properties *)

(** ** A fold of stores into a buffer *)

(** [stores pos val l r] is [r] after [r[pos x] = val x] for each [x] of
    [l] in turn. *)
Definition stores {A X : Type} (pos : X -> nat) (val : X -> A)
    (l : list X) (r : list A) : list A :=
  fold_left (fun r x => <[pos x := val x]> r) l r.

(** The index triples [(i, j, k)] in the order the first loop visits them. *)
Definition triples (width height depth : nat) : list (nat * nat * nat) :=
  i ← seq 0 depth; j ← seq 0 height; k ← seq 0 width; [(i, j, k)].

(** The index pairs [(j, k)] in the order the second loop visits them. *)
Definition pairs (width height : nat) : list (nat * nat) :=
  j ← seq 0 height; k ← seq 0 width; [(j, k)].

(** The cell of the Z statistics vectors for the pair [(j, k)]. *)
Definition z_pos (width height currentStokes : nat) (t : nat * nat) : nat :=
  currentStokes * width * height + t.2 + t.1 * width.

(** ** Pixels of a slice and of a profile *)

(** The pixels of slice [i], in the order the first loop reads them. *)
Definition slice_pixels (width height : nat) (cube : list float) (i : nat)
  : list float :=
  j ← seq 0 height; k ← seq 0 width; [cube !!! sourceIndex width height i j k].

(** The pixels of the Z profile at [(j, k)], in reading order. *)
Definition profile_pixels (width height depth : nat) (cube : list float)
    (j k : nat) : list float :=
  map (fun i => cube !!! sourceIndex width height i j k) (seq 0 depth).

Definition non_nan (l : list float) : list float :=
  List.filter (fun v => negb (isnan v)) l.

Definition nan_count (l : list float) : Z :=
  Z.of_nat (length (List.filter isnan l)).

(** The running single-precision sum, from the left. *)
Definition float_sum (l : list float) : float := fold_left F32.add l F32.zero.

(** The mean the specification describes: the sum is accumulated in double
    precision and the quotient is rounded to [float] when it is stored. *)
Definition double_sum (l : list float) : double :=
  fold_left (fun s v => F64.add s (float_to_double v)) l F64.zero.

Definition mean_in_double (l : list float) (count : Z) : float :=
  double_to_float (F64.div (double_sum l) (F64.of_Z count)).

(** [m] is a minimum of the numbers [l]: one of them, below all of them. *)
Definition is_min_of (m : float) (l : list float) : Prop :=
  m ∈ l /\ forall x, x ∈ l -> F32.leb m x = true.

Definition is_max_of (m : float) (l : list float) : Prop :=
  m ∈ l /\ forall x, x ∈ l -> F32.leb x m = true.

(** The accumulator of slice [i], and of the profile at [(j, k)], when
    their pixel loops end. *)
Definition slice_acc (width height : nat) (cube : list float) (i : nat) : acc :=
  fold_left accumulate (slice_pixels width height cube i) acc0.

Definition profile_acc (width height depth : nat) (cube : list float)
    (j k : nat) : acc :=
  fold_left accumulate (profile_pixels width height depth cube j k) acc0.

(** What [publish_xy] and [publish_z] store for an accumulator: [n] is the
    count the guard compares with, [d] the count the mean divides by. *)
Definition published_min (n : Z) (a : acc) : float :=
  if negb (nanCount a =? n)%Z then minVal a else NAN.

Definition published_max (n : Z) (a : acc) : float :=
  if negb (nanCount a =? n)%Z then maxVal a else NAN.

Definition published_mean (n d : Z) (a : acc) : float :=
  if negb (nanCount a =? n)%Z
  then F32.div (sum a) (F32.of_Z (d - nanCount a)) else NAN.

(** ** Order and validity of numbers *)

(** A key that orders the numbers as [SFcompare] does. *)
Definition SFkey (x : spec_float) : Z * Z * Z :=
  match x with
  | S754_nan => (0, 0, 0)%Z
  | S754_zero _ => (0, 0, 0)%Z
  | S754_infinity true => (-2, 0, 0)%Z
  | S754_infinity false => (2, 0, 0)%Z
  | S754_finite false m e => (1, e, Zpos m)%Z
  | S754_finite true m e => (-1, - e, Zneg m)%Z
  end.

Definition lex3 (a b : Z * Z * Z) : comparison :=
  match (a.1.1 ?= b.1.1)%Z with
  | Eq => match (a.1.2 ?= b.1.2)%Z with
          | Eq => (a.2 ?= b.2)%Z
          | c => c
          end
  | c => c
  end.

(** A binary32 number: [valid_binary] at the [float] format. *)
Definition valid_float (x : spec_float) : bool :=
  valid_binary F32.prec F32.emax x.

(** The real number a floating-point number stands for; 0 for those that
    stand for none. *)
Definition bpow (e : Z) : R := powerRZ 2 e.

Definition SF2R (x : spec_float) : R :=
  match x with
  | S754_finite s m e => (IZR (cond_Zopp s (Zpos m)) * bpow e)%R
  | _ => 0%R
  end.

(** The shape of a [double] converted from a finite [float]: a zero, or a
    mantissa of 53 digits with an exponent between -201 and 75. *)
Definition from_float (x : double) : Prop :=
  match x with
  | S754_zero _ => True
  | S754_finite _ m e =>
      (2 ^ 52 <= Zpos m < 2 ^ 53)%Z /\ (-201 <= e <= 75)%Z
  | _ => False
  end.

(** A [float] that is a number: neither NaN nor infinite. *)
Definition is_number (x : float) : bool := negb (isnan x) && negb (isinf x).

(** ** Slices of a polarization *)

(** The sum over the slices of a polarization of the published NaN counts. *)
Definition nan_total (depth currentStokes : nat) (xy : xy_stats) : Z :=
  foldr Z.add 0%Z
    (map (fun z => nanValsXY xy !!! (currentStokes * depth + z)) (seq 0 depth)).

(** The slices of a polarization that hold a number:
    [nanXY[s,z] < H*W]. *)
Definition rows_with_data (width height depth currentStokes : nat)
    (xy : xy_stats) : list nat :=
  List.filter
    (fun z => Z.ltb (nanValsXY xy !!! (currentStokes * depth + z))
                (Z.of_nat (height * width)))
    (seq 0 depth).

Definition row_minima (width height depth currentStokes : nat)
    (xy : xy_stats) : list float :=
  map (fun z => minValsXY xy !!! (currentStokes * depth + z))
    (rows_with_data width height depth currentStokes xy).

Definition row_maxima (width height depth currentStokes : nat)
    (xy : xy_stats) : list float :=
  map (fun z => maxValsXY xy !!! (currentStokes * depth + z))
    (rows_with_data width height depth currentStokes xy).

(** The slices the consolidation loop takes: those with a mean. *)
Definition rows_with_mean (depth currentStokes : nat) (xy : xy_stats)
    (l : list nat) : list nat :=
  List.filter
    (fun z => negb (isnan (meanValsXY xy !!! (currentStokes * depth + z)))) l.

(** ** Rows of a histogram vector *)

(** Row [(currentStokes, z)] of a histogram vector laid out as
    [stokes x depth x numBins]. *)
Definition hist_row (depth currentStokes : nat) (numBins : Z) (h : list Z)
    (z : nat) : list Z :=
  take (Z.to_nat numBins)
    (drop ((currentStokes * depth + z) * Z.to_nat numBins) h).

(** The index of the first cell of row [(currentStokes, z)]. *)
Definition row_start (depth currentStokes : nat) (numBins : Z) (z : nat) : Z :=
  (Z.of_nat currentStokes * Z.of_nat depth * numBins
   + Z.of_nat z * numBins)%Z.

(** The sum of the counts of a row. *)
Definition row_total (l : list Z) : Z := foldr Z.add 0%Z l.

(** The guard of the histogram loop: the slice is skipped when it holds. *)
Definition degenerate (sliceMin sliceMax : float) : bool :=
  isnan (float_to_double sliceMin) || isnan (float_to_double sliceMax)
  || F64.eqb (F64.sub (float_to_double sliceMax) (float_to_double sliceMin))
       F64.zero.

(** ** The header fields as the specification words them *)

(** The text of a record between the ['='] at [eq] and the last ['/'], or
    the end of the record when no ['/'] follows the ['=']. *)
Definition field_text (record : string) (eq : nat) : string :=
  match find_last_of_nat "/" record with
  | Some slash =>
      if eq <? slash
      then String.substring (eq + 1) (slash - eq - 1) record
      else String.substring (eq + 1) (String.length record - eq - 1) record
  | None => String.substring (eq + 1) (String.length record - eq - 1) record
  end.

(** The last character of a string. *)
Fixpoint last_char (s : string) : option ascii :=
  match s with
  | EmptyString => None
  | String c EmptyString => Some c
  | String _ s' => last_char s'
  end.

Definition is_char (c : ascii) (o : option ascii) : bool :=
  match o with Some a => Ascii.eqb a c | None => false end.

(** A value of two characters or more that starts and ends with a quote. *)
Definition quoted (v : string) : bool :=
  (2 <=? String.length v)
  && is_char quote (String.get 0 v) && is_char quote (last_char v).

Definition unquote (v : string) : string :=
  if quoted v then trim (String.substring 1 (String.length v - 2) v) else v.

(** The name and value of a record that is not a comment and holds ['=']. *)
Definition keyword_field (record : string) : option (string * string) :=
  if starts_with "COMMENT" record || starts_with "HISTORY" record then None
  else
    match find_first_of_nat "=" record with
    | Some eq =>
        Some (trim (String.substring 0 eq record),
              unquote (trim (field_text record eq)))
    | None => None
    end.

(** The number of attributes called [name]. *)
Definition attr_count (name : string) (attrs : attributes) : nat :=
  length (List.filter (fun kv => String.eqb (fst kv) name) attrs).

(** The state of the header loop when it reaches record [i]. *)
Definition headers_before (fits_read_record : nat -> string) (i : nat)
    (st : header_state) : header_state :=
  translate_headers fits_read_record i st.

(** ** Sample inputs *)

(** The header of scenario 5 of the specification. *)
Definition sample_header (i : nat) : string :=
  nth i ["NAXIS   = 3 / number of axes"; "OBJECT  = 'NGC 1068     '";
         "COMMENT hello"; "OBJECT = 'OTHER'"]%string EmptyString.

(** A reader whose pixel read of polarization 0 fails with READ_ERROR. *)
Definition failing_reader : fits_reader :=
  mkReader 0 0 0 0 0 (fun _ => 0%Z) (fun _ => 108%Z) (-32) 3 2 1.

(** ** White space *)

(** A string of white space only. *)
Fixpoint all_space (s : string) : bool :=
  match s with
  | EmptyString => true
  | String c s' => isspace c && all_space s'
  end.

(** A character that is there and is not white space. *)
Definition not_space (o : option ascii) : bool :=
  match o with Some c => negb (isspace c) | None => false end.

(** ** NaN counts of the Z profiles *)

(** The sum over the Z profiles of a polarization of the published NaN
    counts. *)
Definition nan_total_z (width height currentStokes : nat) (z : z_stats) : Z :=
  foldr Z.add 0%Z
    (map (fun t => nanValsZ z !!! z_pos width height currentStokes t)
       (pairs width height)).

(** ** Rows of a vector of rows *)

(** Row [r] of a vector made of rows of [B] cells. *)
Definition grid_row (B r : nat) (h : list Z) : list Z :=
  take B (drop (r * B) h).

(** [h'] is [h] with [c] more counts in row [r] and the other rows as
    they were. *)
Definition adds_to_row (B r : nat) (c : Z) (h h' : list Z) : Prop :=
  length h' = length h
  /\ row_total (grid_row B r h') = (row_total (grid_row B r h) + c)%Z
  /\ forall r', r' <> r -> grid_row B r' h' = grid_row B r' h.

(** The same when [cond] holds, and [h'] is [h] otherwise. *)
Definition adds_to_row_if (cond : bool) (B r : nat) (c : Z) (h h' : list Z)
  : Prop :=
  if cond then adds_to_row B r c h h' else h' = h.

(** The row of polarization [currentStokes] in the XYZ histograms. *)
Definition hist_row_xyz (currentStokes : nat) (numBins : Z) (h : list Z)
  : list Z :=
  grid_row (Z.to_nat numBins) currentStokes h.

(** ** Header records *)

(** A record that starts with neither COMMENT nor HISTORY and holds an
    ['=']. *)
Definition keyword_record (record : string) : bool :=
  negb (String.prefix "COMMENT" record)
  && negb (String.prefix "HISTORY" record)
  && existsb (fun c => Ascii.eqb c "="%char) (list_ascii_of_string record).

(** The indices, among those [main] passes to the reader, that are
    answered with such a record. *)
Definition keyword_records (fits_read_record : nat -> string)
    (numHeaders : nat) : list nat :=
  List.filter (fun i => keyword_record (fits_read_record i))
    (seq 0 numHeaders).

(** ** The checks of [main] *)

(** The input passes the four checks [main] makes before it creates the
    output file. *)
Definition accepted (argc : Z) (r : fits_reader) : Prop :=
  (2 <= argc <= 3)%Z /\ open_file_status r = 0%Z /\ bitpix r = (-32)%Z
  /\ (2 <= naxis r <= 4)%Z.
(** ** The vectors [main] allocates, and the loop over the polarizations *)

(** The vectors before the first polarization.  [vector<T>(n)] and
    [resize(n)] fill with zeros, [resize(n, x)] with [x]; [rot0] is what
    [new float[cubeSize]] holds.  The Z and XYZ vectors and the rotated
    cube are allocated only under [depth > 1]. *)
Definition allocate (width height depth stokes : nat) (numBins : Z)
    (rot0 : list float) : buffers :=
  let B := Z.to_nat numBins in
  mkBuffers
    (if 1 <? depth then rot0 else [])
    (mkXY (replicate (depth * stokes) F32.zero)
       (replicate (depth * stokes) F32.zero)
       (replicate (depth * stokes) F32.zero)
       (replicate (depth * stokes) 0%Z))
    (if 1 <? depth
     then mkZ (replicate (width * height * stokes) F32.max)
            (replicate (width * height * stokes) (SFopp F32.max))
            (replicate (width * height * stokes) F32.zero)
            (replicate (width * height * stokes) 0%Z)
     else mkZ [] [] [] [])
    (if 1 <? depth
     then mkXYZ (replicate stokes F32.zero) (replicate stokes F32.zero)
            (replicate stokes F32.zero) (replicate stokes 0%Z)
     else mkXYZ [] [] [] [])
    (replicate (depth * stokes * B) 0%Z)
    (if 1 <? depth then replicate (depth * stokes * B) 0%Z else [])
    (if 1 <? depth then replicate (stokes * B) 0%Z else []).

(** [for (currentStokes = 0; currentStokes < stokes; currentStokes++)]:
    [cubes s] is what [fits_read_pix] leaves in [standardCube] for
    polarization [s]. *)
Definition stokes_passes (width height depth stokes : nat) (numBins : Z)
    (cubes : nat -> list float) (b : buffers) : option buffers :=
  fold_left
    (fun st s =>
       match st with
       | None => None
       | Some b => process_stokes width height depth (cubes s) s numBins b
       end)
    (seq 0 stokes) (Some b).

(** The allocation and the loop, with the number of bins [main]
    computes.  A negative number of bins makes the size of the histogram
    vectors wrap around as a [size_t], and the allocation throws. *)
Definition convert (width height depth stokes : nat)
    (cubes : nat -> list float) (rot0 : list float) : option buffers :=
  match numBinsHist width height with
  | None => None
  | Some numBins =>
      if (numBins <? 0)%Z then None
      else
        stokes_passes width height depth stokes numBins cubes
          (allocate width height depth stokes numBins rot0)
  end.

(** The counts slice [z] of a cube adds to its histogram row: none when
    the histogram loop skips the slice, one for each pixel that is not
    NaN otherwise. *)
Definition slice_counted (width height : nat) (cube : list float) (z : nat)
  : Z :=
  let n := Z.of_nat (height * width) in
  let a := slice_acc width height cube z in
  if degenerate (published_min n a) (published_max n a)
  then 0%Z else (n - nanCount a)%Z.

(** ** The shapes of the data sets *)

(** The axis lengths [main] reads from [long dims[4]]:
    [stokes = N == 4 ? dims[3] : 1; depth = N >= 3 ? dims[2] : 1;
     height = dims[1]; width = dims[0]]. *)
Definition axis_stokes (N : Z) (dims : list nat) : nat :=
  if (N =? 4)%Z then dims !!! 3 else 1.
Definition axis_depth (N : Z) (dims : list nat) : nat :=
  if (3 <=? N)%Z then dims !!! 2 else 1.
Definition axis_height (dims : list nat) : nat := dims !!! 1.
Definition axis_width (dims : list nat) : nat := dims !!! 0.

(** The conversion of an [int] to [hsize_t]. *)
Definition to_hsize (n : Z) : Z := (n mod 2 ^ 64)%Z.

(** The seven [vector<hsize_t>] of extents. *)
Record dim_vectors : Type := mkDims {
  standardDims : list Z;
  swizzledDims : list Z;
  xyHistogramDims : list Z;
  xyStatsDims : list Z;
  zStatsDims : list Z;
  xyzHistogramDims : list Z;
  xyzStatsDims : list Z
}.

(** The extents as [main] builds them: the initializers, then the
    insertions under [N >= 3] and under [N == 4]. *)
Definition make_dims (N : Z) (dims : list nat) (numBins : Z) : dim_vectors :=
  let stokes := Z.of_nat (axis_stokes N dims) in
  let depth := Z.of_nat (axis_depth N dims) in
  let height := Z.of_nat (axis_height dims) in
  let width := Z.of_nat (axis_width dims) in
  let d :=
    mkDims [height; width] [width; height] [to_hsize numBins] []
      [height; width] [to_hsize numBins] [] in
  let d :=
    if (3 <=? N)%Z
    then mkDims (depth :: standardDims d) (swizzledDims d ++ [depth])
           (depth :: xyHistogramDims d) (depth :: xyStatsDims d)
           (zStatsDims d) (xyzHistogramDims d) (xyzStatsDims d)
    else d in
  if (N =? 4)%Z
  then mkDims (stokes :: standardDims d) (stokes :: swizzledDims d)
         (stokes :: xyHistogramDims d) (stokes :: xyStatsDims d)
         (stokes :: zStatsDims d) (stokes :: xyzHistogramDims d)
         (stokes :: xyzStatsDims d)
  else d.

(** [DataSpace(rank, v.data())]: the first [rank] extents of the vector.
    Reading more extents than the vector holds is undefined. *)
Definition data_space (rank : Z) (v : list Z) : option (list Z) :=
  if (0 <=? rank)%Z && (rank <=? Z.of_nat (length v))%Z
  then Some (take (Z.to_nat rank) v) else None.

(** The number of elements of a data space. *)
Definition elements (extents : list Z) : Z := foldr Z.mul 1%Z extents.

(** The data spaces of the statistics, as [main] builds them when it
    writes the [Statistics] group. *)
Definition xyStatsDataSpace (N : Z) (d : dim_vectors) : option (list Z) :=
  data_space (N - 2) (xyStatsDims d).
Definition xyHistogramDataSpace (N : Z) (d : dim_vectors) : option (list Z) :=
  data_space (N - 1) (xyHistogramDims d).
Definition xyzStatsDataSpace (N : Z) (d : dim_vectors) : option (list Z) :=
  data_space (N - 3) (xyStatsDims d).
Definition xyzHistogramDataSpace (N : Z) (d : dim_vectors) : option (list Z) :=
  data_space (N - 2) (xyzHistogramDims d).
Definition zStatsDataSpace (N : Z) (d : dim_vectors) : option (list Z) :=
  data_space (N - 1) (zStatsDims d).
Definition standardDataSpace (N : Z) (d : dim_vectors) : option (list Z) :=
  data_space N (standardDims d).
Definition swizzledDataSpace (N : Z) (d : dim_vectors) : option (list Z) :=
  data_space N (swizzledDims d).

(** The hyperslab [main] selects to write polarization [currentStokes]:
    [count] and [start]. *)
Definition hyperslab (N : Z) (dims : list nat) (currentStokes : nat)
  : list Z * list Z :=
  let depth := Z.of_nat (axis_depth N dims) in
  let height := Z.of_nat (axis_height dims) in
  let width := Z.of_nat (axis_width dims) in
  let count := [height; width] in
  let start := [0; 0]%Z in
  let '(count, start) :=
    if (3 <=? N)%Z then (depth :: count, 0%Z :: start) else (count, start) in
  if (N =? 4)%Z
  then (1%Z :: count, Z.of_nat currentStokes :: start)
  else (count, start).

(** ** [Util.cc] *)

Module Util.

(** What one [std::getline(stream, substr, separator)] extracts from the
    characters left in the stream: the field, and the characters left
    after it.  [None] for the rest is a stream that reached its end while
    it was read ([eofbit]). *)
Fixpoint read_field (separator : ascii) (s : string) : string * option string :=
  match s with
  | EmptyString => (EmptyString, None)
  | String c s' =>
      if Ascii.eqb c separator then (EmptyString, Some s')
      else
        let r := read_field separator s' in
        (String c (fst r), snd r)
  end.

(** [std::getline]: it fails on a stream that has reached its end, and
    on one from which it can extract nothing. *)
Definition getline (separator : ascii) (stream : option string)
  : option (string * option string) :=
  match stream with
  | None => None
  | Some EmptyString => None
  | Some s => Some (read_field separator s)
  end.

(** [while (std::getline(stream, substr, separator)) result.push_back(substr);] *)
Fixpoint split_loop (fuel : nat) (separator : ascii) (stream : option string)
    (result : list string) : list string :=
  match fuel with
  | 0 => result
  | S fuel =>
      match getline separator stream with
      | None => result
      | Some (substr, stream) =>
          split_loop fuel separator stream (result ++ [substr])
      end
  end.

(** [split]: every turn of the loop extracts a character, so the loop
    has ended after [length str + 1] turns. *)
Definition split (str : string) (separator : ascii) : list string :=
  split_loop (S (String.length str)) separator (Some str) [].

(** [join] puts the separator between the fields. *)
Definition join (separator : ascii) (fields : list string) : string :=
  String.concat (String separator EmptyString) fields.

Fixpoint contains (c : ascii) (s : string) : bool :=
  match s with
  | EmptyString => false
  | String d s' => Ascii.eqb d c || contains c s'
  end.

Definition ends_with (c : ascii) (s : string) : bool :=
  match last_char s with Some d => Ascii.eqb d c | None => false end.

(** [trimAxes]: [while (trimmed.size() > (unsigned int)N)
    trimmed.erase(trimmed.begin());] *)
Fixpoint trimAxes (dims : list Z) (N : Z) : list Z :=
  match dims with
  | [] => []
  | _ :: rest =>
      if (N mod 2 ^ 32 <? Z.of_nat (length dims))%Z
      then trimAxes rest N else dims
  end.

(** [extend]: the two insertions at the end of an empty vector. *)
Definition extend (left right : list Z) : list Z := ([] ++ left) ++ right.

(** [product]: [std::accumulate] from [(hsize_t)1] with
    [std::multiplies<hsize_t>]. *)
Definition product (dims : list Z) : Z :=
  fold_left (fun acc d => (acc * d) mod 2 ^ 64)%Z dims 1%Z.

(** [std::ceil] on a [float]: the least integer that is not below the
    number, which a [float] holds exactly; a zero result has the sign of
    the number. *)
Definition ceilf (x : float) : float :=
  match x with
  | S754_finite s m (Zneg p) =>
      binary_normalize F32.prec F32.emax
        (- ((- cond_Zopp s (Zpos m)) / 2 ^ Zpos p))%Z 0 s
  | _ => x
  end.

(** The conversion of a [float] to [hsize_t]: truncation toward zero.  It
    is undefined ([None]) for NaN, for the infinities and when the
    truncated value is not an [hsize_t]. *)
Definition float_to_hsize (x : float) : option Z :=
  match x with
  | S754_zero _ => Some 0%Z
  | S754_finite s m e =>
      let t := match e with
               | Zneg p => Z.shiftr (Zpos m) (Zpos p)
               | _ => Z.shiftl (Zpos m) e
               end in
      let n := cond_Zopp s t in
      if (0 <=? n)%Z && (n <? 2 ^ 64)%Z then Some n else None
  | _ => None
  end.

(** [std::ceil((float)mipDims[i] / mip)], converted back to [hsize_t]. *)
Definition mip_extent (extent mip : Z) : option Z :=
  float_to_hsize (ceilf (F32.div (F32.of_Z extent) (F32.of_Z mip))).

(** [mipDims]: the loop over the last two axes, [i] from
    [std::max(0, N - 2)] to [N - 1]. *)
Definition mipDims (dims : list Z) (mip : Z) : option (list Z) :=
  let N := Z.of_nat (length dims) in
  let first := Z.max 0 (N - 2) in
  fold_left
    (fun st i =>
       match st with
       | None => None
       | Some mipDims =>
           match mip_extent (mipDims !!! i) mip with
           | None => None
           | Some extent => Some (<[i := extent]> mipDims)
           end
       end)
    (seq (Z.to_nat first) (Z.to_nat (N - first))) (Some dims).

(** The path of [createHdf5Dataset]: [split(path, '/')], the name taken
    with [back()] and removed with [pop_back()]; [back()] on an empty
    vector is undefined. *)
Definition dataset_path (path : string) : option (list string * string) :=
  let splitPath := split path "/"%char in
  match last splitPath with
  | None => None
  | Some name => Some (removelast splitPath, name)
  end.

(** [openFitsFile]: the message it throws, or nothing. *)
Definition openFitsFile (r : fits_reader) : string + unit :=
  let status := 0%Z in
  let status := fits_call (open_file_status r) status in
  if negb (status =? 0)%Z then inl "Could not open FITS file"%string
  else
    let status := fits_call (get_img_type_status r) status in
    if negb (status =? 0)%Z then inl "Could not read image type"%string
    else if negb (bitpix r =? -32)%Z
    then inl "Currently only supports FP32 files"%string
    else inr tt.

(** [getFitsDims]: the message it throws, or the number of axes. *)
Definition getFitsDims (r : fits_reader) : string + Z :=
  let status := 0%Z in
  let status := fits_call (get_img_dim_status r) status in
  if negb (status =? 0)%Z then inl "Could not read image dimensions"%string
  else if (naxis r <? 2)%Z || (4 <? naxis r)%Z
  then inl "Currently only supports 2D, 3D and 4D cubes"%string
  else
    let status := fits_call (get_img_size_status r) status in
    if negb (status =? 0)%Z then inl "Could not read image size"%string
    else inr (naxis r).

End Util.

(** * Properties *)

Import ListNotations.

(** ** Folds over index lists *)

Lemma fold_left_fst {S T X : Type} (f : S * T -> X -> S * T) (g : S -> X -> S) :
  (forall st x, fst (f st x) = g (fst st) x) ->
  forall l st, fst (fold_left f l st) = fold_left g l (fst st).
Proof.
  intros Hf l. induction l as [|x l IH]; intros st; simpl; [reflexivity|].
  rewrite IH, Hf. reflexivity.
Qed.

Lemma fold_left_snd {S T X : Type} (f : S * T -> X -> S * T) (g : T -> X -> T) :
  (forall st x, snd (f st x) = g (snd st) x) ->
  forall l st, snd (fold_left f l st) = fold_left g l (snd st).
Proof.
  intros Hf l. induction l as [|x l IH]; intros st; simpl; [reflexivity|].
  rewrite IH, Hf. reflexivity.
Qed.

Lemma fold_left_ext_in {S X : Type} (f g : S -> X -> S) (l : list X) :
  (forall s x, x ∈ l -> f s x = g s x) ->
  forall s, fold_left f l s = fold_left g l s.
Proof.
  induction l as [|x l IH]; intros Hfg s; simpl; [reflexivity|].
  rewrite Hfg by left. apply IH. intros s' y Hy. apply Hfg. by right.
Qed.

Lemma fold_left_bind {S X Y : Type} (f : S -> Y -> S) (g : X -> list Y)
    (l : list X) (s : S) :
  fold_left f (l ≫= g) s = fold_left (fun s x => fold_left f (g x) s) l s.
Proof.
  revert s. induction l as [|x l IH]; intros s; [reflexivity|].
  rewrite bind_cons, fold_left_app. simpl. apply IH.
Qed.

(** A fold of stores: the length is kept, and a cell written once holds
    what was written there. *)
Section Stores.
Context {A X : Type} (pos : X -> nat) (val : X -> A).

Lemma length_stores l r : length (stores pos val l r) = length r.
Proof.
  revert r. induction l as [|x l IH]; intros r; simpl; [reflexivity|].
  unfold stores in *. simpl. rewrite IH. apply length_insert.
Qed.

Lemma stores_lookup l r x :
  x ∈ l ->
  (forall y z, y ∈ l -> z ∈ l -> pos y = pos z -> y = z) ->
  pos x < length r ->
  stores pos val l r !! pos x = Some (val x).
Proof.
  revert r. induction l as [|y l IH] using rev_ind; intros r Hx Hinj Hlen.
  - inversion Hx.
  - unfold stores. rewrite fold_left_app. simpl. fold (stores pos val l r).
    destruct (decide (pos y = pos x)) as [Heq|Hne].
    + assert (y = x) as ->.
      { apply Hinj; [apply elem_of_app; right; by left|done|done]. }
      apply list_lookup_insert_eq. by rewrite length_stores.
    + rewrite list_lookup_insert_ne by done.
      apply IH; [|intros; apply Hinj; try done; apply elem_of_app; by left|done].
      apply elem_of_app in Hx as [Hx|Hx]; [done|].
      apply list_elem_of_singleton in Hx. congruence.
Qed.

Lemma stores_lookup_other l r n :
  (forall y, y ∈ l -> pos y <> n) -> stores pos val l r !! n = r !! n.
Proof.
  revert r. induction l as [|y l IH]; intros r Hn; [reflexivity|].
  unfold stores. simpl. fold (stores pos val l (<[pos y := val y]> r)).
  rewrite IH by (intros; apply Hn; by right).
  apply list_lookup_insert_ne. apply Hn. by left.
Qed.
End Stores.

Section Transpose.
Variables width height depth : nat.
Variable standardCube : list spec_float.
Variable currentStokes : nat.

Local Abbreviation src := (sourceIndex width height).
Local Abbreviation dst := (destIndex height depth).

Lemma elem_of_triples i j k :
  (i, j, k) ∈ triples width height depth <-> i < depth /\ j < height /\ k < width.
Proof.
  unfold triples. rewrite list_elem_of_bind. split.
  - intros (i' & Hjk & Hi). apply list_elem_of_bind in Hjk as (j' & Hk & Hj).
    apply list_elem_of_bind in Hk as (k' & Hk & Hk').
    apply list_elem_of_singleton in Hk. inversion Hk; subst.
    apply elem_of_seq in Hi, Hj, Hk'. lia.
  - intros (Hi & Hj & Hk). exists i. split; [|apply elem_of_seq; lia].
    apply list_elem_of_bind. exists j. split; [|apply elem_of_seq; lia].
    apply list_elem_of_bind. exists k. split; [by left|apply elem_of_seq; lia].
Qed.

Lemma mixed_radix_inj n a b a' b' :
  a < n -> a' < n -> a + n * b = a' + n * b' -> a = a' /\ b = b'.
Proof.
  intros Ha Ha' Heq.
  assert (b = b') as ->.
  { destruct (Nat.lt_trichotomy b b') as [Hlt|[->|Hlt]]; [|done|].
    - assert (n * S b <= n * b') by (apply Nat.mul_le_mono_l; lia). lia.
    - assert (n * S b' <= n * b) by (apply Nat.mul_le_mono_l; lia). lia. }
  split; [lia|done].
Qed.

Lemma mixed_radix_lt n m a b : a < n -> b < m -> a + n * b < n * m.
Proof.
  intros Ha Hb.
  assert (n * S b <= n * m) by (apply Nat.mul_le_mono_l; lia). lia.
Qed.

Lemma destIndex_inj i j k i' j' k' :
  i < depth -> j < height -> i' < depth -> j' < height ->
  dst i j k = dst i' j' k' -> (i, j, k) = (i', j', k').
Proof.
  unfold destIndex. intros Hi Hj Hi' Hj' Heq.
  destruct (mixed_radix_inj depth i (j + height * k) i' (j' + height * k'))
    as [-> Hjk]; [done|done| |].
  { rewrite !Nat.mul_add_distr_l, !Nat.mul_assoc, (Nat.mul_comm depth height).
    lia. }
  destruct (mixed_radix_inj height j k j' k') as [-> ->]; done.
Qed.

Lemma destIndex_lt i j k :
  i < depth -> j < height -> k < width -> dst i j k < depth * height * width.
Proof.
  unfold destIndex. intros Hi Hj Hk.
  pose proof (mixed_radix_lt depth height i j Hi Hj) as H1.
  pose proof (mixed_radix_lt (depth * height) width (i + depth * j) k) as H2.
  rewrite (Nat.mul_comm height depth). by apply H2.
Qed.

Lemma sourceIndex_lt i j k :
  i < depth -> j < height -> k < width -> src i j k < depth * height * width.
Proof.
  unfold sourceIndex. intros Hi Hj Hk.
  pose proof (mixed_radix_lt width height k j Hk Hj) as H1.
  pose proof (mixed_radix_lt (height * width) depth (k + width * j) i) as H2.
  replace (depth * height * width) with (height * width * depth) by lia.
  apply H2; [|done]. by rewrite (Nat.mul_comm height width).
Qed.

(** The rotated buffer after the first loop is the buffer after the stores
    [rotatedCube[destIndex] = standardCube[sourceIndex]] in visiting order. *)
Lemma slice_stats_pass_rotated rot xy :
  1 < depth ->
  fst (slice_stats_pass width height depth standardCube currentStokes rot xy)
  = stores (fun t : nat * nat * nat => dst t.1.1 t.1.2 t.2)
      (fun t => standardCube !!! src t.1.1 t.1.2 t.2)
      (triples width height depth) rot.
Proof.
  intros Hd. unfold slice_stats_pass, stores, triples.
  rewrite fold_left_bind.
  erewrite fold_left_fst with (g := fun r i => _); [reflexivity|].
  intros st i. unfold slice_iter. simpl.
  rewrite fold_left_bind. unfold xy_slice.
  erewrite fold_left_fst with (g := fun r j => _); [reflexivity|].
  intros st' j. rewrite fold_left_bind. unfold xy_row.
  erewrite fold_left_fst with (g := fun r k => _); [reflexivity|].
  intros st'' k. simpl. unfold xy_pixel. simpl.
  apply Nat.ltb_lt in Hd. rewrite Hd. reflexivity.
Qed.

End Transpose.


Lemma SFcompare_key x y :
  isnan x = false -> isnan y = false ->
  SFcompare x y = Some (lex3 (SFkey x) (SFkey y)).
Proof.
  intros Hx Hy.
  destruct x as [sx|sx| |sx mx ex]; try discriminate Hx;
  destruct y as [sy|sy| |sy my ey]; try discriminate Hy;
    try (destruct sx); try (destruct sy); try reflexivity.
  unfold SFcompare, SFkey, lex3; simpl.
  rewrite Z.compare_opp, (Z.compare_antisym ey ex).
  destruct (ey ?= ex)%Z; reflexivity.
Qed.

Lemma lex3_refl a : lex3 a a = Eq.
Proof. unfold lex3. by rewrite !Z.compare_refl. Qed.

Lemma lex3_antisym a b : lex3 b a = CompOpp (lex3 a b).
Proof.
  unfold lex3.
  rewrite (Z.compare_antisym a.1.1), (Z.compare_antisym a.1.2),
    (Z.compare_antisym a.2).
  destruct (a.1.1 ?= b.1.1)%Z, (a.1.2 ?= b.1.2)%Z, (a.2 ?= b.2)%Z; reflexivity.
Qed.

Lemma lex3_le_trans a b c :
  lex3 a b <> Gt -> lex3 b c <> Gt -> lex3 a c <> Gt.
Proof.
  unfold lex3.
  destruct (Z.compare_spec a.1.1 b.1.1), (Z.compare_spec b.1.1 c.1.1),
    (Z.compare_spec a.1.1 c.1.1); try lia; try congruence;
  destruct (Z.compare_spec a.1.2 b.1.2), (Z.compare_spec b.1.2 c.1.2),
    (Z.compare_spec a.1.2 c.1.2); try lia; try congruence;
  destruct (Z.compare_spec a.2 b.2), (Z.compare_spec b.2 c.2),
    (Z.compare_spec a.2 c.2); try lia; congruence.
Qed.

Lemma SFleb_key x y :
  isnan x = false -> isnan y = false ->
  SFleb x y = true <-> lex3 (SFkey x) (SFkey y) <> Gt.
Proof.
  intros Hx Hy. unfold SFleb. rewrite (SFcompare_key x y Hx Hy).
  destruct (lex3 (SFkey x) (SFkey y)); split; congruence.
Qed.

Lemma SFltb_key x y :
  isnan x = false -> isnan y = false ->
  SFltb x y = true <-> lex3 (SFkey x) (SFkey y) = Lt.
Proof.
  intros Hx Hy. unfold SFltb. rewrite (SFcompare_key x y Hx Hy).
  destruct (lex3 (SFkey x) (SFkey y)); split; congruence.
Qed.

Lemma SFleb_refl x : isnan x = false -> SFleb x x = true.
Proof. intros Hx. apply SFleb_key; try done. by rewrite lex3_refl. Qed.

Lemma SFleb_trans x y z :
  isnan x = false -> isnan y = false -> isnan z = false ->
  SFleb x y = true -> SFleb y z = true -> SFleb x z = true.
Proof.
  intros Hx Hy Hz Hxy Hyz. apply SFleb_key; try done.
  apply SFleb_key in Hxy, Hyz; try done. eapply lex3_le_trans; eauto.
Qed.

Lemma SFltb_leb x y : SFltb x y = true -> SFleb x y = true.
Proof. unfold SFltb, SFleb. by destruct (SFcompare x y) as [[]|]. Qed.

Lemma SFltb_false_leb x y :
  isnan x = false -> isnan y = false -> SFltb y x = false -> SFleb x y = true.
Proof.
  intros Hx Hy Hlt. apply SFleb_key; try done. intros Hgt.
  enough (SFltb y x = true) by congruence.
  apply SFltb_key; try done. rewrite lex3_antisym, Hgt. reflexivity.
Qed.

Lemma SFleb_nan_l x : SFleb S754_nan x = false.
Proof. reflexivity. Qed.

Lemma SFleb_not_nan x y : SFleb x y = true -> isnan x = false /\ isnan y = false.
Proof. by destruct x as [| | |], y as [| | |]. Qed.

Lemma length_bind_const {X Y : Type} (f : X -> list Y) (n : nat) (l : list X) :
  (forall x, length (f x) = n) -> length (l ≫= f) = length l * n.
Proof.
  intros Hf. induction l as [|x l IH]; [reflexivity|].
  rewrite bind_cons, length_app, Hf, IH. simpl. lia.
Qed.

Lemma length_slice_pixels width height cube i :
  length (slice_pixels width height cube i) = height * width.
Proof.
  unfold slice_pixels. rewrite (length_bind_const _ width).
  - by rewrite length_seq.
  - intros j. rewrite (length_bind_const _ 1); [rewrite length_seq; lia|done].
Qed.

Lemma non_nan_elem v l : v ∈ non_nan l <-> v ∈ l /\ isnan v = false.
Proof.
  unfold non_nan. rewrite !list_elem_of_In, filter_In.
  by destruct (isnan v); intuition.
Qed.

Lemma nan_count_bounds l : (0 <= nan_count l <= Z.of_nat (length l))%Z.
Proof.
  unfold nan_count. pose proof (List.filter_length_le isnan l). lia.
Qed.

Lemma nan_count_cons v l :
  nan_count (v :: l) = ((if isnan v then 1 else 0) + nan_count l)%Z.
Proof. unfold nan_count. simpl. destruct (isnan v); simpl; lia. Qed.

Lemma nan_count_full l :
  nan_count l = Z.of_nat (length l) <-> non_nan l = [].
Proof.
  induction l as [|v l IH]; [done|].
  rewrite nan_count_cons. unfold non_nan in *. simpl.
  pose proof (nan_count_bounds l).
  destruct (isnan v); simpl.
  - rewrite <- IH. lia.
  - split; [lia|discriminate].
Qed.

(** The accumulator after a run of pixels. *)
Lemma fold_accumulate l a :
  fold_left accumulate l a
  = mkAcc (fold_left std_min (non_nan l) (minVal a))
          (fold_left std_max (non_nan l) (maxVal a))
          (fold_left F32.add (non_nan l) (sum a))
          (nanCount a + nan_count l)%Z.
Proof.
  revert a. induction l as [|v l IH]; intros a.
  - destruct a. simpl. f_equal. unfold nan_count. simpl. lia.
  - simpl. rewrite IH, nan_count_cons. unfold accumulate, non_nan.
    destruct (isnan v); simpl; f_equal; lia.
Qed.

Section SliceStats.
Variables width height depth stokes : nat.
Variable standardCube : list spec_float.
Variable currentStokes : nat.

(** The accumulator of slice [i] when its pixel loops end. *)
Lemma snd_xy_slice i rot :
  snd (xy_slice width height depth standardCube i rot)
  = fold_left accumulate (slice_pixels width height standardCube i) acc0.
Proof.
  unfold xy_slice, slice_pixels. rewrite fold_left_bind.
  erewrite fold_left_snd with (g := fun a j => _); [reflexivity|].
  intros st j. rewrite fold_left_bind. unfold xy_row.
  erewrite fold_left_snd with (g := fun a k => _); [reflexivity|].
  intros st' k. reflexivity.
Qed.

Lemma nanCount_slice_acc i :
  nanCount (slice_acc width height standardCube i)
  = nan_count (slice_pixels width height standardCube i).
Proof. unfold slice_acc. rewrite fold_accumulate. reflexivity. Qed.

(** The statistics vectors after the first loop: slice [i] stored what
    [publish_xy] computes from its accumulator. *)
Lemma slice_stats_pass_stats rot xy :
  let hw := Z.of_nat (height * width) in
  let pos := fun i => currentStokes * depth + i in
  snd (slice_stats_pass width height depth standardCube currentStokes rot xy)
  = mkXY
      (stores pos (fun i => published_min hw (slice_acc width height standardCube i)) (seq 0 depth)
         (minValsXY xy))
      (stores pos (fun i => published_max hw (slice_acc width height standardCube i)) (seq 0 depth)
         (maxValsXY xy))
      (stores pos (fun i => published_mean hw hw (slice_acc width height standardCube i)) (seq 0 depth)
         (meanValsXY xy))
      (stores pos (fun i => nanCount (slice_acc width height standardCube i)) (seq 0 depth)
         (nanValsXY xy)).
Proof.
  intros hw pos. unfold slice_stats_pass, stores.
  erewrite fold_left_snd
    with (g := fun xy i => publish_xy width height depth currentStokes i
                             (slice_acc width height standardCube i) xy).
  2:{ intros st i. unfold slice_iter. simpl. by rewrite snd_xy_slice. }
  simpl. generalize (seq 0 depth). intros l. revert xy.
  induction l as [|i l IH]; intros xy; [by destruct xy|].
  simpl. rewrite IH. unfold publish_xy, published_min, published_max,
    published_mean, pos, hw.
  destruct (negb _); reflexivity.
Qed.

Lemma stats_index_lt i :
  currentStokes < stokes -> i < depth ->
  currentStokes * depth + i < depth * stokes.
Proof.
  intros Hs Hi. pose proof (mixed_radix_lt depth stokes i currentStokes Hi Hs).
  lia.
Qed.

Lemma slice_stats_lookup {A} (val : nat -> A) (r : list A) i :
  currentStokes < stokes -> i < depth -> length r = depth * stokes ->
  stores (fun i => currentStokes * depth + i) val (seq 0 depth) r
    !! (currentStokes * depth + i) = Some (val i).
Proof.
  intros Hs Hi Hlen.
  apply (stores_lookup (fun i => currentStokes * depth + i) val (seq 0 depth) r i).
  - apply elem_of_seq. lia.
  - intros; lia.
  - rewrite Hlen. by apply stats_index_lt.
Qed.
Lemma slice_stats_lookup_total {A} `{Inhabited A} (val : nat -> A)
    (r : list A) i :
  currentStokes < stokes -> i < depth -> length r = depth * stokes ->
  stores (fun i => currentStokes * depth + i) val (seq 0 depth) r
    !!! (currentStokes * depth + i) = val i.
Proof.
  intros Hs Hi Hlen. apply list_lookup_total_correct.
  by apply slice_stats_lookup.
Qed.
End SliceStats.

(** *** Running extremes

    A fold of an operation that returns the smaller (or the larger) of its
    two arguments ends on an element that is below (above) all the others. *)
Section FoldExtreme.
Variable le : spec_float -> spec_float -> bool.
Variable op : spec_float -> spec_float -> spec_float.
Hypothesis le_refl : forall x, isnan x = false -> le x x = true.
Hypothesis le_trans : forall x y z,
  isnan x = false -> isnan y = false -> isnan z = false ->
  le x y = true -> le y z = true -> le x z = true.
Hypothesis op_cases : forall a v, op a v = a \/ op a v = v.
Hypothesis op_le : forall a v,
  isnan a = false -> isnan v = false ->
  le (op a v) a = true /\ le (op a v) v = true.

Lemma fold_extreme_not_nan l a :
  isnan a = false -> (forall x, x ∈ l -> isnan x = false) ->
  isnan (fold_left op l a) = false.
Proof.
  revert a. induction l as [|v l IH]; intros a Ha Hl; [done|].
  simpl. apply IH; [|intros; apply Hl; by right].
  destruct (op_cases a v) as [-> | ->]; [done|apply Hl; by left].
Qed.

Lemma fold_extreme l a :
  isnan a = false -> (forall x, x ∈ l -> isnan x = false) ->
  let r := fold_left op l a in
  r ∈ a :: l /\ forall x, x ∈ a :: l -> le r x = true.
Proof.
  revert a. induction l as [|v l IH]; intros a Ha Hl; simpl.
  - split; [by left|]. intros x Hx. apply list_elem_of_singleton in Hx as ->.
    by apply le_refl.
  - assert (Hv : isnan v = false) by (apply Hl; by left).
    assert (Hm : isnan (op a v) = false)
      by (destruct (op_cases a v) as [-> | ->]; done).
    assert (Hl' : forall x, x ∈ l -> isnan x = false)
      by (intros; apply Hl; by right).
    destruct (IH (op a v) Hm Hl') as [Hin Hle].
    pose proof (fold_extreme_not_nan l (op a v) Hm Hl') as Hr.
    destruct (op_le a v Ha Hv) as [Hma Hmv].
    split.
    + apply elem_of_cons in Hin as [Hin|Hin].
      * rewrite Hin. destruct (op_cases a v) as [-> | ->];
          [by left|right; by left].
      * right; by right.
    + intros x Hx.
      assert (Hmx : le (fold_left op l (op a v)) (op a v) = true)
        by (apply Hle; by left).
      apply elem_of_cons in Hx as [->|Hx];
        [|apply elem_of_cons in Hx as [->|Hx]].
      * by apply (le_trans _ (op a v)).
      * by apply (le_trans _ (op a v)).
      * apply Hle. by right.
Qed.
End FoldExtreme.

Lemma SFgeb_trans x y z :
  isnan x = false -> isnan y = false -> isnan z = false ->
  SFleb y x = true -> SFleb z y = true -> SFleb z x = true.
Proof. intros. by apply (SFleb_trans z y x). Qed.

Lemma std_min_cases a v : std_min a v = a \/ std_min a v = v.
Proof. unfold std_min. destruct (F32.ltb v a); auto. Qed.

Lemma std_max_cases a v : std_max a v = a \/ std_max a v = v.
Proof. unfold std_max. destruct (F32.ltb a v); auto. Qed.

Lemma std_min_le a v :
  isnan a = false -> isnan v = false ->
  SFleb (std_min a v) a = true /\ SFleb (std_min a v) v = true.
Proof.
  intros Ha Hv. unfold std_min, F32.ltb. destruct (SFltb v a) eqn:E.
  - split; [by apply SFltb_leb|by apply SFleb_refl].
  - split; [by apply SFleb_refl|by apply SFltb_false_leb].
Qed.

Lemma std_max_le a v :
  isnan a = false -> isnan v = false ->
  SFleb a (std_max a v) = true /\ SFleb v (std_max a v) = true.
Proof.
  intros Ha Hv. unfold std_max, F32.ltb. destruct (SFltb a v) eqn:E.
  - split; [by apply SFltb_leb|by apply SFleb_refl].
  - split; [by apply SFleb_refl|by apply SFltb_false_leb].
Qed.

Lemma fmin_cases a v : fmin a v = a \/ fmin a v = v.
Proof.
  unfold fmin. destruct (F64.leb a v), (F64.ltb v a), (isnan v); auto.
Qed.

Lemma fmax_cases a v : fmax a v = a \/ fmax a v = v.
Proof.
  unfold fmax. destruct (F64.leb v a), (F64.ltb a v), (isnan v); auto.
Qed.

Lemma fmin_le a v :
  isnan a = false -> isnan v = false ->
  SFleb (fmin a v) a = true /\ SFleb (fmin a v) v = true.
Proof.
  intros Ha Hv. unfold fmin, F64.leb, F64.ltb. destruct (SFleb a v) eqn:E.
  - split; [by apply SFleb_refl|done].
  - destruct (SFltb v a) eqn:E'.
    + split; [by apply SFltb_leb|by apply SFleb_refl].
    + rewrite (SFltb_false_leb a v) in E; done.
Qed.

Lemma fmax_le a v :
  isnan a = false -> isnan v = false ->
  SFleb a (fmax a v) = true /\ SFleb v (fmax a v) = true.
Proof.
  intros Ha Hv. unfold fmax, F64.leb, F64.ltb. destruct (SFleb v a) eqn:E.
  - split; [by apply SFleb_refl|done].
  - destruct (SFltb a v) eqn:E'.
    + split; [by apply SFltb_leb|by apply SFleb_refl].
    + rewrite (SFltb_false_leb v a) in E; done.
Qed.

(** [fmin] and [fmax] drop a NaN first argument. *)
Lemma fmin_nan_l v : fmin S754_nan v = v.
Proof. by destruct v. Qed.

Lemma fmax_nan_l v : fmax S754_nan v = v.
Proof. by destruct v. Qed.

Lemma fold_std_min l a :
  isnan a = false -> (forall x, x ∈ l -> isnan x = false) ->
  let r := fold_left std_min l a in
  r ∈ a :: l /\ forall x, x ∈ a :: l -> F32.leb r x = true.
Proof.
  apply (fold_extreme SFleb std_min SFleb_refl SFleb_trans std_min_cases
           std_min_le).
Qed.

Lemma fold_std_max l a :
  isnan a = false -> (forall x, x ∈ l -> isnan x = false) ->
  let r := fold_left std_max l a in
  r ∈ a :: l /\ forall x, x ∈ a :: l -> F32.leb x r = true.
Proof.
  apply (fold_extreme (fun x y => SFleb y x) std_max SFleb_refl SFgeb_trans
           std_max_cases std_max_le).
Qed.

(** A fold of [fmin] that starts on a NaN or on an element of the list. *)
Lemma fold_fmin l a :
  (forall x, x ∈ l -> isnan x = false) -> l <> [] ->
  isnan a = true \/ a ∈ l ->
  let r := fold_left fmin l a in
  r ∈ l /\ forall x, x ∈ l -> F64.leb r x = true.
Proof.
  intros Hl Hne Ha r.
  destruct (isnan a) eqn:Ea.
  - destruct l as [|v l]; [done|]. destruct a; try discriminate.
    unfold r. cbn [fold_left]. rewrite fmin_nan_l.
    apply (fold_extreme SFleb fmin SFleb_refl SFleb_trans fmin_cases fmin_le);
      [apply Hl; by left|intros; apply Hl; by right].
  - destruct Ha as [Ha|Ha]; [discriminate|].
    destruct (fold_extreme SFleb fmin SFleb_refl SFleb_trans fmin_cases fmin_le
                l a Ea Hl) as [Hin Hle].
    split.
    + apply elem_of_cons in Hin as [Hin|Hin]; [unfold r; by rewrite Hin|done].
    + intros x Hx. apply Hle. by right.
Qed.

Lemma fold_fmax l a :
  (forall x, x ∈ l -> isnan x = false) -> l <> [] ->
  isnan a = true \/ a ∈ l ->
  let r := fold_left fmax l a in
  r ∈ l /\ forall x, x ∈ l -> F64.leb x r = true.
Proof.
  intros Hl Hne Ha r.
  destruct (isnan a) eqn:Ea.
  - destruct l as [|v l]; [done|]. destruct a; try discriminate.
    unfold r. cbn [fold_left]. rewrite fmax_nan_l.
    apply (fold_extreme (fun x y => SFleb y x) fmax SFleb_refl SFgeb_trans
             fmax_cases fmax_le);
      [apply Hl; by left|intros; apply Hl; by right].
  - destruct Ha as [Ha|Ha]; [discriminate|].
    destruct (fold_extreme (fun x y => SFleb y x) fmax SFleb_refl SFgeb_trans
                fmax_cases fmax_le l a Ea Hl) as [Hin Hle].
    split.
    + apply elem_of_cons in Hin as [Hin|Hin]; [unfold r; by rewrite Hin|done].
    + intros x Hx. apply Hle. by right.
Qed.

Lemma lex3_eq a b : lex3 a b = Eq -> a = b.
Proof.
  destruct a as [[a1 a2] a3], b as [[b1 b2] b3]. unfold lex3. simpl.
  destruct (Z.compare_spec a1 b1); try discriminate.
  destruct (Z.compare_spec a2 b2); try discriminate.
  destruct (Z.compare_spec a3 b3); try discriminate.
  congruence.
Qed.

(** Two numbers that compare equal are the same number when one of them
    is neither a zero nor a NaN. *)
Lemma SFleb_antisym_finite x s m e :
  SFleb x (S754_finite s m e) = true -> SFleb (S754_finite s m e) x = true ->
  x = S754_finite s m e.
Proof.
  intros H1 H2.
  destruct (SFleb_not_nan _ _ H1) as [Hx _].
  apply SFleb_key in H1, H2; try done.
  rewrite lex3_antisym in H2.
  assert (Heq : lex3 (SFkey x) (SFkey (S754_finite s m e)) = Eq)
    by (destruct (lex3 (SFkey x) (SFkey (S754_finite s m e))); simpl in *; congruence).
  apply lex3_eq in Heq.
  destruct x as [sx|[]| |[] mx ex], s; simpl in Heq; try discriminate;
    inversion Heq; subst; try reflexivity.
  f_equal. lia.
Qed.

(** The minimum of a run of numbers that holds one below the sentinel is
    one of the numbers. *)
Lemma fold_std_min_is_min l :
  (forall x, x ∈ l -> isnan x = false) ->
  (exists v, v ∈ l /\ F32.leb v F32.max = true) ->
  is_min_of (fold_left std_min l F32.max) l.
Proof.
  intros Hl (v & Hv & Hle).
  destruct (fold_std_min l F32.max eq_refl Hl) as [Hin Hall].
  split; [|intros x Hx; apply Hall; by right].
  apply elem_of_cons in Hin as [Heq|Hin]; [|done].
  rewrite Heq in *.
  assert (v = F32.max) as <-; [|done].
  apply SFleb_antisym_finite; [done|]. apply Hall. by right.
Qed.

Lemma fold_std_max_is_max l :
  (forall x, x ∈ l -> isnan x = false) ->
  (exists v, v ∈ l /\ F32.leb (SFopp F32.max) v = true) ->
  is_max_of (fold_left std_max l (SFopp F32.max)) l.
Proof.
  intros Hl (v & Hv & Hle).
  destruct (fold_std_max l (SFopp F32.max) eq_refl Hl) as [Hin Hall].
  split; [|intros x Hx; apply Hall; by right].
  apply elem_of_cons in Hin as [Heq|Hin]; [|done].
  rewrite Heq in *.
  assert (v = SFopp F32.max) as <-; [|done].
  apply SFleb_antisym_finite; [|done]. apply Hall. by right.
Qed.

(** ** The binary32 numbers and their conversion to [double] *)

Section Binary32.
Local Open Scope Z_scope.
(** *** Digits and shifts of mantissas *)

Lemma digits2_pos_bounds m :
  2 ^ (Zpos (digits2_pos m) - 1) <= Zpos m < 2 ^ Zpos (digits2_pos m).
Proof.
  induction m as [m IH|m IH|]; cbn [digits2_pos].
  - rewrite Pos2Z.inj_succ.
    replace (Z.succ (Zpos (digits2_pos m)) - 1) with (Zpos (digits2_pos m)) by lia.
    rewrite Z.pow_succ_r by lia.
    assert (0 < 2 ^ (Zpos (digits2_pos m) - 1)) by (apply Z.pow_pos_nonneg; lia).
    replace (2 ^ Zpos (digits2_pos m))
      with (2 * 2 ^ (Zpos (digits2_pos m) - 1)) in *
      by (rewrite <- Z.pow_succ_r by lia; f_equal; lia).
    lia.
  - rewrite Pos2Z.inj_succ.
    replace (Z.succ (Zpos (digits2_pos m)) - 1) with (Zpos (digits2_pos m)) by lia.
    rewrite Z.pow_succ_r by lia.
    replace (2 ^ Zpos (digits2_pos m))
      with (2 * 2 ^ (Zpos (digits2_pos m) - 1)) in *
      by (rewrite <- Z.pow_succ_r by lia; f_equal; lia).
    lia.
  - simpl. lia.
Qed.

Lemma digits2_pos_lt m1 m2 :
  (digits2_pos m1 < digits2_pos m2)%positive -> (m1 < m2)%positive.
Proof.
  intros Hlt. pose proof (digits2_pos_bounds m1) as [_ H1].
  pose proof (digits2_pos_bounds m2) as [H2 _].
  assert (2 ^ Zpos (digits2_pos m1) <= 2 ^ (Zpos (digits2_pos m2) - 1))
    by (apply Z.pow_le_mono_r; lia).
  lia.
Qed.

Lemma nat_iter_xO_digits n m :
  Zpos (digits2_pos (Nat.iter n xO m)) = Zpos (digits2_pos m) + Z.of_nat n.
Proof.
  induction n as [|n IH]; [simpl; lia|].
  change (Nat.iter (S n) xO m) with (xO (Nat.iter n xO m)).
  cbn [digits2_pos]. rewrite Pos2Z.inj_succ. lia.
Qed.

Lemma nat_iter_xO_compare n m1 m2 :
  (Nat.iter n xO m1 ?= Nat.iter n xO m2)%positive = (m1 ?= m2)%positive.
Proof. induction n as [|n IH]; [reflexivity|exact IH]. Qed.

Lemma iter_pos_nat {A} (f : A -> A) p x :
  SpecFloat.iter_pos f p x = Nat.iter (Pos.to_nat p) f x.
Proof.
  revert x. induction p as [p IH|p IH|]; intros x; cbn [SpecFloat.iter_pos].
  - rewrite !IH, Pos2Nat.inj_xI. rewrite <- Nat.iter_succ_r, <- Nat.iter_add.
    f_equal. lia.
  - rewrite !IH, Pos2Nat.inj_xO. rewrite <- Nat.iter_add.
    f_equal. lia.
  - reflexivity.
Qed.

(** Shifting back what was shifted in is exact. *)
Lemma nat_iter_shr_1 n m :
  Nat.iter n shr_1 (Build_shr_record (Zpos (Nat.iter n xO m)) false false)
  = Build_shr_record (Zpos m) false false.
Proof.
  induction n as [|n IH]; [reflexivity|].
  rewrite Nat.iter_succ_r.
  change (Nat.iter (S n) xO m) with (xO (Nat.iter n xO m)).
  cbn [shr_1 orb]. exact IH.
Qed.

(** *** The binary32 numbers *)

Lemma valid_float_finite s m e :
  valid_float (S754_finite s m e) = true ->
  Zpos (digits2_pos m) <= 24 /\ -149 <= e <= 104
  /\ fexp F32.prec F32.emax (Zpos (digits2_pos m) + e) = e.
Proof.
  unfold valid_float, valid_binary, bounded, canonical_mantissa.
  intros H. apply andb_prop in H as [H1 H2].
  apply Z.eqb_eq in H1. apply Z.leb_le in H2.
  unfold fexp, emin, F32.prec, F32.emax in *. lia.
Qed.

(** The conversion to [double] of a finite binary32 number shifts its
    mantissa to 53 digits. *)
Lemma float_to_double_finite s m e :
  valid_float (S754_finite s m e) = true ->
  let n := Z.to_nat (53 - Zpos (digits2_pos m)) in
  float_to_double (S754_finite s m e)
  = S754_finite s (Nat.iter n xO m) (e - Z.of_nat n).
Proof.
  intros Hv n. apply valid_float_finite in Hv as (Hd & He & _).
  pose proof (Pos2Z.is_pos (digits2_pos m)) as Hd0.
  unfold float_to_double.
  assert (Hbn : binary_normalize F64.prec F64.emax (cond_Zopp s (Zpos m)) e s
                = binary_round F64.prec F64.emax s m e) by (by destruct s).
  rewrite Hbn. unfold binary_round.
  assert (Hfexp : fexp F64.prec F64.emax (Zpos (digits2_pos m) + e)
                  = e - Z.of_nat n)
    by (unfold fexp, emin, F64.prec, F64.emax, n; lia).
  rewrite Hfexp. unfold shl_align.
  destruct (e - Z.of_nat n - e) as [|p|p] eqn:Ediff; [lia|lia|].
  assert (Hn : n = Pos.to_nat p) by lia.
  replace (Pos.iter xO m p) with (Nat.iter n xO m)
    by (rewrite Pos2Nat.inj_iter, Hn; reflexivity).
  unfold binary_round_aux, shr_fexp.
  cbn [Zdigits2]. rewrite nat_iter_xO_digits.
  assert (Hfexp' : fexp F64.prec F64.emax
                     (Zpos (digits2_pos m) + Z.of_nat n + (e - Z.of_nat n))
                   - (e - Z.of_nat n) = 0)
    by (unfold fexp, emin, F64.prec, F64.emax, n; lia).
  rewrite Hfexp'. cbn [shr shr_record_of_loc shr_m loc_of_shr_record
                         round_nearest_even Zdigits2].
  rewrite nat_iter_xO_digits, Hfexp'. cbn [shr shr_record_of_loc shr_m].
  replace (e - Z.of_nat n <=? F64.emax - F64.prec) with true
    by (symmetry; apply Z.leb_le; unfold F64.prec, F64.emax, n; lia).
  reflexivity.
Qed.

(** The conversion back to [float] undoes the shift. *)
Lemma double_to_float_to_double x :
  valid_float x = true -> double_to_float (float_to_double x) = x.
Proof.
  destruct x as [s|s| |s m e]; try reflexivity. intros Hv.
  rewrite float_to_double_finite by done. cbv zeta.
  apply valid_float_finite in Hv as (Hd & He & Hc).
  pose proof (Pos2Z.is_pos (digits2_pos m)) as Hd0.
  set (n := Z.to_nat (53 - Zpos (digits2_pos m))).
  unfold double_to_float.
  assert (Hbn : forall m' e',
            binary_normalize F32.prec F32.emax (cond_Zopp s (Zpos m')) e' s
            = binary_round F32.prec F32.emax s m' e') by (by destruct s).
  rewrite Hbn. unfold binary_round. rewrite nat_iter_xO_digits.
  replace (Zpos (digits2_pos m) + Z.of_nat n + (e - Z.of_nat n))
    with (Zpos (digits2_pos m) + e) by lia.
  rewrite Hc. unfold shl_align.
  destruct (e - (e - Z.of_nat n)) as [|p|p] eqn:Ediff; [lia| |lia].
  unfold binary_round_aux, shr_fexp. cbn [Zdigits2].
  rewrite nat_iter_xO_digits.
  replace (Zpos (digits2_pos m) + Z.of_nat n + (e - Z.of_nat n))
    with (Zpos (digits2_pos m) + e) by lia.
  rewrite Hc, Ediff. cbn [shr shr_record_of_loc].
  rewrite iter_pos_nat.
  replace (Pos.to_nat p) with n by lia.
  rewrite nat_iter_shr_1.
  cbn [shr_m loc_of_shr_record round_nearest_even Zdigits2].
  replace (e - Z.of_nat n + Zpos p) with e by lia.
  rewrite Hc, Z.sub_diag. cbn [shr shr_record_of_loc shr_m].
  replace (e <=? F32.emax - F32.prec) with true
    by (symmetry; apply Z.leb_le; unfold F32.prec, F32.emax; lia).
  reflexivity.
Qed.

Lemma isnan_float_to_double x :
  valid_float x = true -> isnan (float_to_double x) = isnan x.
Proof.
  destruct x as [s|s| |s m e]; try reflexivity. intros Hv.
  by rewrite float_to_double_finite.
Qed.

(** Shifting two canonical mantissas to 53 digits keeps their order. *)
Lemma shifted_compare mx ex my ey :
  fexp F32.prec F32.emax (Zpos (digits2_pos mx) + ex) = ex ->
  fexp F32.prec F32.emax (Zpos (digits2_pos my) + ey) = ey ->
  let nx := Z.to_nat (53 - Zpos (digits2_pos mx)) in
  let ny := Z.to_nat (53 - Zpos (digits2_pos my)) in
  match ex - Z.of_nat nx ?= ey - Z.of_nat ny with
  | Eq => (Nat.iter nx xO mx ?= Nat.iter ny xO my)%positive
  | c => c
  end
  = match ex ?= ey with
    | Eq => (mx ?= my)%positive
    | c => c
    end.
Proof.
  intros Hcx Hcy nx ny.
  unfold fexp, emin, F32.prec, F32.emax in Hcx, Hcy.
  pose proof (Pos2Z.is_pos (digits2_pos mx)).
  pose proof (Pos2Z.is_pos (digits2_pos my)).
  destruct (Z.compare_spec ex ey) as [E|E|E].
  - subst ey.
    destruct (Z.compare_spec (ex - Z.of_nat nx) (ex - Z.of_nat ny)) as [E|E|E].
    + assert (nx = ny) as -> by lia. apply nat_iter_xO_compare.
    + symmetry. apply Pos.compare_lt_iff. apply digits2_pos_lt.
      unfold nx, ny in E. lia.
    + symmetry. apply Pos.compare_gt_iff. apply digits2_pos_lt.
      unfold nx, ny in E. lia.
  - rewrite (proj2 (Z.compare_lt_iff _ _)); [reflexivity|].
    unfold nx, ny. lia.
  - rewrite (proj2 (Z.compare_gt_iff _ _)); [reflexivity|].
    unfold nx, ny. lia.
Qed.

(** The conversion to [double] keeps the order. *)
Lemma SFkey_float_to_double x y :
  valid_float x = true -> valid_float y = true ->
  lex3 (SFkey (float_to_double x)) (SFkey (float_to_double y))
  = lex3 (SFkey x) (SFkey y).
Proof.
  intros Hx Hy.
  destruct x as [sx|sx| |sx mx ex]; destruct y as [sy|sy| |sy my ey];
    try rewrite (float_to_double_finite sx mx ex) by done;
    try rewrite (float_to_double_finite sy my ey) by done;
    cbv zeta; try reflexivity;
    try (by destruct sx); try (by destruct sy);
    try (by destruct sx, sy).
  apply valid_float_finite in Hx as (_ & _ & Hcx).
  apply valid_float_finite in Hy as (_ & _ & Hcy).
  destruct sx, sy; unfold lex3, SFkey; cbn [fst snd]; try reflexivity.
  - (* both negative *)
    change (-1 ?= -1) with Eq. cbv iota. rewrite !Z.compare_opp.
    change (Z.neg ?a ?= Z.neg ?b) with (CompOpp (a ?= b)%positive).
    rewrite <- !Pos.compare_antisym.
    apply (shifted_compare my ey mx ex Hcy Hcx).
  - (* both positive *)
    change (1 ?= 1) with Eq. cbv iota.
    apply (shifted_compare mx ex my ey Hcx Hcy).
Qed.

Lemma SFcompare_float_to_double x y :
  valid_float x = true -> valid_float y = true ->
  SFcompare (float_to_double x) (float_to_double y) = SFcompare x y.
Proof.
  intros Hx Hy.
  destruct (isnan x) eqn:Ex; [by destruct x|].
  destruct (isnan y) eqn:Ey.
  { destruct y; try discriminate.
    destruct x as [sx|sx| |sx mx ex]; try reflexivity.
    by rewrite float_to_double_finite. }
  rewrite !SFcompare_key by (rewrite ?isnan_float_to_double; done).
  by rewrite SFkey_float_to_double.
Qed.
End Binary32.

Section XYStatistics.
Variables width height depth stokes : nat.
Variable standardCube : list spec_float.
Variable currentStokes : nat.

End XYStatistics.



Section ProfileStats.
Variables width height depth stokes : nat.
Variable standardCube : list spec_float.
Variable currentStokes : nat.

Lemma z_profile_acc j k :
  z_profile width height depth standardCube j k = profile_acc width height depth standardCube j k.
Proof.
  unfold z_profile, profile_acc, profile_pixels.
  generalize acc0. induction (seq 0 depth) as [|i l IH]; intros a;
    [reflexivity|apply IH].
Qed.

Lemma elem_of_pairs j k : (j, k) ∈ (pairs width height) <-> j < height /\ k < width.
Proof.
  unfold pairs. rewrite list_elem_of_bind. split.
  - intros (j' & Hk & Hj). apply list_elem_of_bind in Hk as (k' & Hk & Hk').
    apply list_elem_of_singleton in Hk. inversion Hk; subst.
    apply elem_of_seq in Hj, Hk'. lia.
  - intros (Hj & Hk). exists j. split; [|apply elem_of_seq; lia].
    apply list_elem_of_bind. exists k. split; [by left|apply elem_of_seq; lia].
Qed.

Lemma profile_stats_pass_stats z :
  let hw := Z.of_nat (height * width) in
  let d := Z.of_nat depth in
  profile_stats_pass width height depth standardCube currentStokes z
  = mkZ
      (stores (z_pos width height currentStokes) (fun t => published_min hw (profile_acc width height depth standardCube t.1 t.2)) (pairs width height)
         (minValsZ z))
      (stores (z_pos width height currentStokes) (fun t => published_max hw (profile_acc width height depth standardCube t.1 t.2)) (pairs width height)
         (maxValsZ z))
      (stores (z_pos width height currentStokes) (fun t => published_mean hw d (profile_acc width height depth standardCube t.1 t.2)) (pairs width height)
         (meanValsZ z))
      (stores (z_pos width height currentStokes) (fun t => nanCount (profile_acc width height depth standardCube t.1 t.2)) (pairs width height)
         (nanValsZ z)).
Proof.
  intros hw d.
  transitivity
    (fold_left
       (fun z t => publish_z width height depth currentStokes t.1 t.2
                     (profile_acc width height depth standardCube t.1 t.2) z)
       (pairs width height) z).
  { unfold profile_stats_pass, z_row, pairs.
    rewrite fold_left_bind. apply fold_left_ext_in.
    intros z' j _. rewrite fold_left_bind. apply fold_left_ext_in.
    intros z'' k _. cbn [fold_left fst snd]. rewrite z_profile_acc.
    reflexivity. }
  unfold stores. generalize (pairs width height). intros l. revert z.
  induction l as [|t l IH]; intros z; [by destruct z|].
  simpl. rewrite IH. unfold publish_z, published_min, published_max,
    published_mean, z_pos, hw, d.
  destruct (negb _); reflexivity.
Qed.

Lemma z_pos_inj t t' : t ∈ (pairs width height) -> t' ∈ (pairs width height) -> (z_pos width height currentStokes) t = (z_pos width height currentStokes) t' -> t = t'.
Proof.
  destruct t as [j k], t' as [j' k']. intros Ht Ht' Heq.
  apply elem_of_pairs in Ht, Ht'. unfold z_pos in Heq. simpl in Heq.
  destruct (mixed_radix_inj width k j k' j') as [-> ->]; [lia|lia|lia|done].
Qed.

Lemma z_pos_lt j k :
  currentStokes < stokes -> j < height -> k < width ->
  (z_pos width height currentStokes) (j, k) < width * height * stokes.
Proof.
  intros Hs Hj Hk. unfold z_pos. simpl.
  pose proof (mixed_radix_lt width height k j Hk Hj) as H1.
  pose proof (mixed_radix_lt (width * height) stokes (k + width * j)
                currentStokes H1 Hs) as H2.
  lia.
Qed.

Lemma profile_stats_lookup {A} (val : nat * nat -> A) (r : list A) j k :
  currentStokes < stokes -> j < height -> k < width ->
  length r = width * height * stokes ->
  stores (z_pos width height currentStokes) val (pairs width height) r !! (z_pos width height currentStokes) (j, k) = Some (val (j, k)).
Proof.
  intros Hs Hj Hk Hlen. apply stores_lookup.
  - by apply elem_of_pairs.
  - apply z_pos_inj.
  - rewrite Hlen. by apply z_pos_lt.
Qed.
End ProfileStats.

Section Consolidation.
Variables width height depth stokes : nat.
Variable currentStokes : nat.
Variable xy : xy_stats.

Local Abbreviation iter := (consolidate_iter width height depth currentStokes xy).

Lemma consolidate_nan_count l st :
  xyzNanCount (fold_left iter l st)
  = (xyzNanCount st
     + foldr Z.add 0
         (map (fun z => nanValsXY xy !!! (currentStokes * depth + z)%nat) l))%Z.
Proof.
  revert st. induction l as [|i l IH]; intros st; simpl; [lia|].
  rewrite IH. unfold consolidate_iter. destruct (negb _); simpl; lia.
Qed.

Lemma xyzNanCount_consolidate_loop :
  xyzNanCount (consolidate_loop width height depth currentStokes xy)
  = nan_total depth currentStokes xy.
Proof. unfold consolidate_loop. rewrite consolidate_nan_count. reflexivity. Qed.

(** Slices whose published mean is NaN leave the extremes and the sum as
    they are. *)
Lemma consolidate_skip l st :
  (forall i, i ∈ l ->
     isnan (meanValsXY xy !!! (currentStokes * depth + i)) = true) ->
  xyzMin (fold_left iter l st) = xyzMin st
  /\ xyzMax (fold_left iter l st) = xyzMax st
  /\ xyzSum (fold_left iter l st) = xyzSum st.
Proof.
  revert st. induction l as [|i l IH]; intros st Hl; [done|].
  simpl. destruct (IH (iter st i)) as (-> & -> & ->).
  { intros; apply Hl; by right. }
  unfold consolidate_iter. rewrite Hl by left. done.
Qed.
End Consolidation.

(** A sum of terms that are each at most [b] reaches [length l * b] only
    when every term is [b]. *)
Lemma bounded_sum_full {X} (f : X -> Z) (b : Z) (l : list X) :
  (forall x, x ∈ l -> (f x <= b)%Z) ->
  foldr Z.add 0%Z (map f l) = (Z.of_nat (length l) * b)%Z ->
  forall x, x ∈ l -> f x = b.
Proof.
  intros Hb.
  assert (Hle : forall l', (forall x, x ∈ l' -> (f x <= b)%Z) ->
            (foldr Z.add 0 (map f l') <= Z.of_nat (length l') * b)%Z).
  { induction l' as [|y l' IH]; intros Hb'; simpl; [lia|].
    pose proof (Hb' y ltac:(by left)).
    pose proof (IH ltac:(intros; apply Hb'; by right)). lia. }
  induction l as [|y l IH]; intros Hsum x Hx; [inversion Hx|].
  simpl in Hsum.
  pose proof (Hb y ltac:(by left)) as Hy.
  pose proof (Hle l ltac:(intros; apply Hb; by right)) as Hl.
  assert (f y = b) by lia.
  apply elem_of_cons in Hx as [->|Hx]; [done|].
  apply IH; [intros; apply Hb; by right|lia|done].
Qed.

Section NanCounts.
Variables width height depth stokes : nat.
Variable standardCube : list spec_float.
Variable currentStokes : nat.

(** What holds when a NaN count reaches its upper bound.  A slice whose NaN
    count is [H*W] publishes NaN as its minimum, maximum and mean; a Z
    profile that is NaN throughout publishes the count [D] and a NaN mean;
    and when the depth is above 1 and the NaN count of the polarization is
    [D*H*W], its minimum and maximum are NaN and its mean is left as it
    was allocated. *)
Lemma nan_count_upper_bound rot xy z xyz i j k :
  currentStokes < stokes -> i < depth -> j < height -> k < width ->
  length (minValsXY xy) = depth * stokes ->
  length (maxValsXY xy) = depth * stokes ->
  length (meanValsXY xy) = depth * stokes ->
  length (nanValsXY xy) = depth * stokes ->
  length (meanValsZ z) = width * height * stokes ->
  length (nanValsZ z) = width * height * stokes ->
  length (minValsXYZ xyz) = stokes ->
  length (maxValsXYZ xyz) = stokes ->
  length (nanValsXYZ xyz) = stokes ->
  let xy' :=
    snd (slice_stats_pass width height depth standardCube currentStokes rot xy) in
  let z' :=
    profile_stats_pass width height depth standardCube currentStokes z in
  let xyz' :=
    publish_xyz width height depth currentStokes
      (consolidate_loop width height depth currentStokes xy') xyz in
  let idx := currentStokes * depth + i in
  let zidx := currentStokes * width * height + k + j * width in
  (nanValsXY xy' !! idx = Some (Z.of_nat (height * width)) ->
   minValsXY xy' !! idx = Some NAN /\ maxValsXY xy' !! idx = Some NAN
   /\ meanValsXY xy' !! idx = Some NAN)
  /\ (non_nan (profile_pixels width height depth standardCube j k) = [] ->
      nanValsZ z' !! zidx = Some (Z.of_nat depth)
      /\ meanValsZ z' !! zidx = Some NAN)
  /\ (1 < depth ->
      nanValsXYZ xyz' !! currentStokes
      = Some (Z.of_nat (depth * height * width)) ->
      minValsXYZ xyz' !! currentStokes = Some NAN
      /\ maxValsXYZ xyz' !! currentStokes = Some NAN
      /\ meanValsXYZ xyz' !! currentStokes = meanValsXYZ xyz !! currentStokes).
Proof.
  intros Hs Hi Hj Hk Lmin Lmax Lmean Lnan LmeanZ LnanZ LminC LmaxC LnanC
    xy' z' xyz' idx zidx.
  assert (Hxy' : xy' = _) by apply slice_stats_pass_stats.
  cbv zeta in Hxy'.
  split; [|split].
  - (* XY *)
    rewrite Hxy'. cbn [minValsXY maxValsXY meanValsXY nanValsXY]. unfold idx.
    rewrite !(slice_stats_lookup depth stokes currentStokes) by done.
    intros [= Hn]. unfold published_min, published_max, published_mean.
    rewrite Hn, Z.eqb_refl. done.
  - (* Z *)
    intros Hall. unfold z'. rewrite profile_stats_pass_stats. cbv zeta.
    cbn [meanValsZ nanValsZ].
    change zidx with (z_pos width height currentStokes (j, k)).
    rewrite !(profile_stats_lookup width height stokes currentStokes) by done.
    cbn [fst snd]. unfold published_mean, profile_acc.
    rewrite fold_accumulate, Hall. unfold acc0. cbn [nanCount sum fold_left].
    assert (Hcount : nan_count (profile_pixels width height depth standardCube j k)
                     = Z.of_nat depth).
    { apply nan_count_full in Hall. rewrite Hall. unfold profile_pixels.
      by rewrite length_map, length_seq. }
    rewrite Hcount, Z.add_0_l, Z.sub_diag. split; [done|].
    by destruct (negb _).
  - (* XYZ *)
    intros Hd Hfull. unfold xyz', publish_xyz in *.
    cbn [minValsXYZ maxValsXYZ meanValsXYZ nanValsXYZ] in *.
    rewrite list_lookup_insert_eq in Hfull by lia.
    injection Hfull as Hfull.
    rewrite !list_lookup_insert_eq by lia.
    unfold cubeSize. rewrite Hfull, Z.eqb_refl. cbn [negb].
    rewrite xyzNanCount_consolidate_loop in Hfull. unfold nan_total in Hfull.
    assert (Hnan : forall z0, z0 ∈ seq 0 depth ->
              nanValsXY xy' !!! (currentStokes * depth + z0)
              = nan_count (slice_pixels width height standardCube z0)).
    { intros z0 Hz0. apply elem_of_seq in Hz0.
      rewrite Hxy'. cbn [nanValsXY].
      rewrite (slice_stats_lookup_total depth stokes currentStokes)
        by (done || lia).
      by rewrite nanCount_slice_acc. }
    assert (Heach : forall z0, z0 ∈ seq 0 depth ->
              nanValsXY xy' !!! (currentStokes * depth + z0)
              = Z.of_nat (height * width)).
    { apply bounded_sum_full.
      - intros z0 Hz0. rewrite Hnan by done.
        pose proof (nan_count_bounds (slice_pixels width height standardCube z0)) as Hb.
        rewrite length_slice_pixels in Hb. lia.
      - rewrite Hfull, length_seq. lia. }
    assert (Hmean : forall z0, z0 ∈ seq 0 depth ->
              meanValsXY xy' !!! (currentStokes * depth + z0) = NAN
              /\ minValsXY xy' !!! (currentStokes * depth + z0) = NAN
              /\ maxValsXY xy' !!! (currentStokes * depth + z0) = NAN).
    { intros z0 Hz0. pose proof (Heach z0 Hz0) as He.
      rewrite Hnan in He by done. apply elem_of_seq in Hz0.
      rewrite Hxy'. cbn [minValsXY maxValsXY meanValsXY].
      rewrite !(slice_stats_lookup_total depth stokes currentStokes)
        by (done || lia).
      unfold published_min, published_max, published_mean.
      rewrite nanCount_slice_acc, He, Z.eqb_refl. done. }
    destruct (consolidate_skip width height depth currentStokes xy'
                (seq 0 depth)
                (xyz_acc0 depth currentStokes xy')) as (Hmin & Hmax & _).
    { intros z0 Hz0. destruct (Hmean z0 Hz0) as (-> & _). done. }
    unfold consolidate_loop. rewrite Hmin, Hmax. unfold xyz_acc0.
    cbn [xyzMin xyzMax].
    destruct (Hmean 0) as (_ & Hmn & Hmx); [apply elem_of_seq; lia|].
    rewrite Nat.add_0_r in Hmn, Hmx. rewrite Hmn, Hmx. done.
Qed.
End NanCounts.

(** ** The guard of the Z-profile loop *)

Section ProfileGuard.
Variables width height depth stokes : nat.
Variable standardCube : list spec_float.
Variable currentStokes : nat.

(** C2, the defect.  The Z-profile loop tests the NaN count of a profile,
    which has [D] values, against [H*W].  So when [D] differs from [H*W] a
    profile that is NaN throughout publishes the count [D] and the two
    sentinels [FLT_MAX] and [-FLT_MAX] as its minimum and maximum, not
    NaN; and a profile with [H*W] NaN values publishes NaN as its minimum,
    maximum and mean, whatever numbers it holds besides. *)
Theorem profile_guard_tests_slice_size z j k :
  currentStokes < stokes -> j < height -> k < width ->
  length (minValsZ z) = width * height * stokes ->
  length (maxValsZ z) = width * height * stokes ->
  length (meanValsZ z) = width * height * stokes ->
  length (nanValsZ z) = width * height * stokes ->
  let z' := profile_stats_pass width height depth standardCube currentStokes z in
  let px := profile_pixels width height depth standardCube j k in
  let idx := currentStokes * width * height + k + j * width in
  (non_nan px = [] -> depth <> height * width ->
   nanValsZ z' !! idx = Some (Z.of_nat depth)
   /\ minValsZ z' !! idx = Some F32.max
   /\ maxValsZ z' !! idx = Some (SFopp F32.max))
  /\ (nan_count px = Z.of_nat (height * width) ->
      minValsZ z' !! idx = Some NAN /\ maxValsZ z' !! idx = Some NAN
      /\ meanValsZ z' !! idx = Some NAN).
Proof.
  intros Hs Hj Hk Lmin Lmax Lmean Lnan z' px idx.
  assert (Hidx : idx = z_pos width height currentStokes (j, k)) by reflexivity.
  unfold z'. rewrite profile_stats_pass_stats. cbv zeta.
  cbn [minValsZ maxValsZ meanValsZ nanValsZ]. rewrite Hidx.
  rewrite !(profile_stats_lookup width height stokes currentStokes) by done.
  cbn [fst snd]. unfold published_min, published_max, published_mean.
  unfold profile_acc. fold px. rewrite fold_accumulate. unfold acc0.
  cbn [minVal maxVal sum nanCount]. rewrite Z.add_0_l. split.
  - intros Hall Hne.
    assert (Hcount : nan_count px = Z.of_nat depth).
    { apply nan_count_full in Hall. rewrite Hall. unfold px, profile_pixels.
      by rewrite length_map, length_seq. }
    rewrite Hall, Hcount. cbn [fold_left].
    replace (Z.of_nat depth =? Z.of_nat (height * width))%Z with false
      by (symmetry; apply Z.eqb_neq; lia).
    done.
  - intros ->. by rewrite Z.eqb_refl.
Qed.
End ProfileGuard.

Lemma profile_guard_tests_slice_size_witness :
  let z := mkZ [F32.max] [SFopp F32.max] [F32.zero] [0%Z] in
  let dark := profile_stats_pass 1 1 2 [NAN; NAN] 0 z in
  let lit := profile_stats_pass 1 1 3 [NAN; F32.of_Z 4; F32.of_Z 6] 0 z in
  (nanValsZ dark !! 0 = Some 2%Z
   /\ minValsZ dark !! 0 = Some F32.max
   /\ maxValsZ dark !! 0 = Some (SFopp F32.max)
   /\ isnan F32.max = false)
  /\ (non_nan (profile_pixels 1 1 3 [NAN; F32.of_Z 4; F32.of_Z 6] 0 0)
      = [F32.of_Z 4; F32.of_Z 6]
      /\ minValsZ lit !! 0 = Some NAN /\ maxValsZ lit !! 0 = Some NAN
      /\ meanValsZ lit !! 0 = Some NAN).
Proof.
  intros z dark lit. split.
  - destruct (profile_guard_tests_slice_size 1 1 2 1 [NAN; NAN] 0 z 0 0)
      as [Hdark _]; try reflexivity; try lia.
    destruct Hdark as (Hn & Hmin & Hmax); [reflexivity|lia|].
    repeat split; assumption || reflexivity.
  - destruct (profile_guard_tests_slice_size 1 1 3 1
                [NAN; F32.of_Z 4; F32.of_Z 6] 0 z 0 0)
      as [_ Hlit]; try reflexivity; try lia.
    split; [reflexivity|]. apply Hlit. reflexivity.
Defined.

(** ** The sums behind the means *)

Section Sums.
Variables width height depth stokes : nat.
Variable standardCube : list spec_float.
Variable currentStokes : nat.

End Sums.



Section ConsolidationExtremes.
Variables width height depth stokes : nat.
Variable currentStokes : nat.
Variable xy : xy_stats.

Local Abbreviation iter := (consolidate_iter width height depth currentStokes xy).

Lemma consolidate_extremes l st :
  xyzMin (fold_left iter l st)
  = fold_left fmin
      (map (fun z => float_to_double
                       (minValsXY xy !!! (currentStokes * depth + z)))
         (rows_with_mean depth currentStokes xy l))
      (xyzMin st)
  /\ xyzMax (fold_left iter l st)
     = fold_left fmax
         (map (fun z => float_to_double
                          (maxValsXY xy !!! (currentStokes * depth + z)))
            (rows_with_mean depth currentStokes xy l))
         (xyzMax st).
Proof.
  revert st. induction l as [|i l IH]; intros st; [done|].
  cbn [fold_left]. destruct (IH (iter st i)) as [-> ->].
  unfold rows_with_mean. cbn [List.filter]. unfold consolidate_iter.
  destruct (negb (isnan _)); done.
Qed.
End ConsolidationExtremes.

Lemma valid_float_max : valid_float F32.max = true.
Proof. reflexivity. Qed.

Lemma valid_float_opp x : valid_float (SFopp x) = valid_float x.
Proof. by destruct x. Qed.

Section XYZConsolidation.
Variables width height depth stokes : nat.
Variable standardCube : list spec_float.
Variable currentStokes : nat.
Hypothesis cube_valid : forall v, v ∈ standardCube -> valid_float v = true.

Lemma slice_pixels_valid i v :
  v ∈ slice_pixels width height standardCube i -> valid_float v = true.
Proof.
  unfold slice_pixels. intros Hv.
  apply list_elem_of_bind in Hv as (j & Hv & _).
  apply list_elem_of_bind in Hv as (k & Hv & _).
  apply list_elem_of_singleton in Hv as ->.
  destruct (standardCube !! sourceIndex width height i j k) as [x|] eqn:E.
  - rewrite (list_lookup_total_correct _ _ _ E). apply cube_valid.
    by apply list_elem_of_lookup_2 in E.
  - by rewrite (list_lookup_total_alt standardCube), E.
Qed.

(** What a slice with a number publishes as its extremes: binary32
    numbers that are not NaN. *)
Lemma slice_extremes_valid i :
  let a := slice_acc width height standardCube i in
  valid_float (minVal a) = true /\ isnan (minVal a) = false
  /\ valid_float (maxVal a) = true /\ isnan (maxVal a) = false.
Proof.
  intros a. unfold a, slice_acc. rewrite fold_accumulate. unfold acc0.
  cbn [minVal maxVal].
  set (px := non_nan (slice_pixels width height standardCube i)).
  assert (Hnn : forall x, x ∈ px -> isnan x = false)
    by (intros x Hx; apply non_nan_elem in Hx as [_ Hx]; exact Hx).
  assert (Hval : forall x, x ∈ px -> valid_float x = true).
  { intros x Hx. apply non_nan_elem in Hx as [Hx _].
    by apply (slice_pixels_valid i). }
  destruct (fold_std_min px F32.max eq_refl Hnn) as [Hmin Hmin'].
  destruct (fold_std_max px (SFopp F32.max) eq_refl Hnn) as [Hmax Hmax'].
  repeat split.
  - apply elem_of_cons in Hmin as [->|Hmin]; [done|by apply Hval].
  - apply (SFleb_not_nan _ F32.max). apply Hmin'. by left.
  - apply elem_of_cons in Hmax as [->|Hmax]; [done|by apply Hval].
  - apply (SFleb_not_nan (SFopp F32.max) _). apply Hmax'. by left.
Qed.

(** What the first loop leaves for slice [z] of the polarization. *)
Lemma slice_stats_at rot xy z :
  currentStokes < stokes -> z < depth ->
  length (minValsXY xy) = depth * stokes ->
  length (maxValsXY xy) = depth * stokes ->
  length (meanValsXY xy) = depth * stokes ->
  length (nanValsXY xy) = depth * stokes ->
  let xy' :=
    snd (slice_stats_pass width height depth standardCube currentStokes rot xy) in
  let a := slice_acc width height standardCube z in
  let hw := Z.of_nat (height * width) in
  let idx := currentStokes * depth + z in
  nanValsXY xy' !!! idx = nanCount a
  /\ minValsXY xy' !!! idx = published_min hw a
  /\ maxValsXY xy' !!! idx = published_max hw a
  /\ meanValsXY xy' !!! idx = published_mean hw hw a
  /\ (0 <= nanCount a <= hw)%Z.
Proof.
  intros Hs Hz Lmin Lmax Lmean Lnan xy' a hw idx.
  unfold xy', idx. rewrite slice_stats_pass_stats. cbv zeta.
  cbn [minValsXY maxValsXY meanValsXY nanValsXY].
  rewrite !(slice_stats_lookup_total depth stokes currentStokes) by done.
  repeat split; try reflexivity; unfold a; rewrite nanCount_slice_acc;
    pose proof (nan_count_bounds (slice_pixels width height standardCube z)) as Hb;
    rewrite length_slice_pixels in Hb; unfold hw; lia.
Qed.

End XYZConsolidation.



Lemma find_first_of_nat_lt chars s n :
  find_first_of_nat chars s = Some n -> n < String.length s.
Proof.
  revert n. induction s as [|c s IH]; intros n; simpl; [discriminate|].
  destruct (char_in c chars); [intros [= <-]; lia|].
  destruct (find_first_of_nat chars s) as [m|]; simpl; [|discriminate].
  intros [= <-]. specialize (IH m eq_refl). lia.
Qed.

Lemma find_last_of_nat_lt chars s n :
  find_last_of_nat chars s = Some n -> n < String.length s.
Proof.
  revert n. induction s as [|c s IH]; intros n; simpl; [discriminate|].
  destruct (find_last_of_nat chars s) as [m|].
  - intros [= <-]. specialize (IH m eq_refl). lia.
  - destruct (char_in c chars); [intros [= <-]; lia|discriminate].
Qed.

Lemma char_in_single c d : char_in c (String d EmptyString) = Ascii.eqb c d.
Proof. unfold char_in. simpl. apply orb_false_r. Qed.

Lemma find_first_single_0 c s :
  find_first_of_nat (String c EmptyString) s = Some 0
  <-> is_char c (String.get 0 s) = true.
Proof.
  destruct s as [|a s]; simpl; [done|].
  rewrite char_in_single. destruct (Ascii.eqb a c) eqn:E; [done|].
  destruct (find_first_of_nat _ s); done.
Qed.

Lemma find_last_single_end c s :
  s <> EmptyString ->
  find_last_of_nat (String c EmptyString) s = Some (String.length s - 1)
  <-> is_char c (last_char s) = true.
Proof.
  induction s as [|a s IH]; intros Hne; [done|]. clear Hne.
  destruct s as [|b s].
  - simpl. rewrite char_in_single. by destruct (Ascii.eqb a c).
  - specialize (IH ltac:(discriminate)).
    change (last_char (String a (String b s))) with (last_char (String b s)).
    rewrite <- IH.
    change (find_last_of_nat (String c EmptyString) (String a (String b s)))
      with (match find_last_of_nat (String c EmptyString) (String b s) with
            | Some n => Some (S n)
            | None => if char_in a (String c EmptyString) then Some 0 else None
            end).
    destruct (find_last_of_nat (String c EmptyString) (String b s)) as [n|] eqn:E.
    + simpl String.length. split; intros [= H]; f_equal; lia.
    + split; [|discriminate]. destruct (char_in a _); discriminate.
Qed.

Lemma size_t_sub_small a b :
  (0 <= a - b < 2 ^ 64)%Z -> size_t_sub a b = (a - b)%Z.
Proof. intros H. unfold size_t_sub. by apply Z.mod_small. Qed.

Lemma size_t_sub_wrap a b :
  (- 2 ^ 64 <= a - b < 0)%Z -> size_t_sub a b = (a - b + 2 ^ 64)%Z.
Proof.
  intros H. unfold size_t_sub. symmetry.
  apply (Z.mod_unique _ _ (-1)); lia.
Qed.

Lemma length_substring n m s :
  String.length (String.substring n m s) <= String.length s.
Proof.
  revert n m. induction s as [|c s IH]; intros [|n] [|m]; simpl; try lia.
  - specialize (IH 0 m). lia.
  - specialize (IH n 0). lia.
  - specialize (IH n (S m)). lia.
Qed.

Lemma length_ltrim s : String.length (ltrim s) <= String.length s.
Proof.
  induction s as [|c s IH]; simpl; [lia|].
  destruct (isspace c); simpl; lia.
Qed.

Lemma length_rtrim s : String.length (rtrim s) <= String.length s.
Proof.
  induction s as [|c s IH]; simpl; [lia|].
  destruct (rtrim s); [destruct (isspace c)|]; simpl in *; lia.
Qed.

Lemma length_trim s : String.length (trim s) <= String.length s.
Proof.
  unfold trim. pose proof (length_rtrim (ltrim s)). pose proof (length_ltrim s).
  lia.
Qed.

(** The quote test of [main] is the test that the value is quoted. *)
Lemma quote_test v :
  (Z.of_nat (String.length v) < 2 ^ 63)%Z ->
  let len := Z.of_nat (String.length v) in
  (2 <=? len)%Z && (find_char quote v =? 0)%Z
    && (find_last_of "'" v =? len - 1)%Z
  = quoted v.
Proof.
  intros Hlen len. unfold quoted.
  destruct (Nat.leb_spec 2 (String.length v)) as [H2|H2].
  2:{ replace (2 <=? len)%Z with false by (symmetry; apply Z.leb_gt; lia).
      reflexivity. }
  replace (2 <=? len)%Z with true by (symmetry; apply Z.leb_le; lia).
  cbn [andb]. f_equal.
  - unfold find_char.
    pose proof (find_first_single_0 quote v) as Hq.
    destruct (find_first_of_nat (String quote EmptyString) v) as [[|n]|];
      destruct (is_char quote (String.get 0 v)); simpl; try reflexivity;
      try (by destruct Hq as [H1 H3]; (discriminate (H1 eq_refl)
                                       || discriminate (H3 eq_refl))).
  - unfold find_last_of.
    pose proof (find_last_single_end quote v) as Hq.
    assert (Hne : v <> EmptyString) by (destruct v; [simpl in H2; lia|done]).
    specialize (Hq Hne). change "'"%string with (String quote EmptyString).
    destruct (find_last_of_nat (String quote EmptyString) v) as [n|] eqn:E.
    + cbn [pos_or_npos].
      destruct (Nat.eq_dec n (String.length v - 1)) as [->|Hn].
      * replace (Z.of_nat (String.length v - 1) =? len - 1)%Z with true
          by (symmetry; apply Z.eqb_eq; lia).
        symmetry. by apply Hq.
      * replace (Z.of_nat n =? len - 1)%Z with false
          by (symmetry; apply Z.eqb_neq; lia).
        destruct (is_char quote (last_char v)); [|done].
        destruct Hq as [_ Hq]. specialize (Hq eq_refl). congruence.
    + cbn [pos_or_npos]. replace (npos =? len - 1)%Z with false
        by (symmetry; apply Z.eqb_neq; unfold npos, SIZE_MAX; lia).
      destruct (is_char quote (last_char v)); [|done].
      destruct Hq as [_ Hq]. discriminate (Hq eq_refl).
Qed.

(** What [main] extracts from a record is the field the specification
    describes. *)
Lemma header_attribute_keyword_field record :
  (Z.of_nat (String.length record) < 2 ^ 63)%Z ->
  header_attribute record = keyword_field record.
Proof.
  intros Hlen. unfold header_attribute, keyword_field.
  destruct (starts_with "COMMENT" record); [reflexivity|].
  destruct (starts_with "HISTORY" record); [reflexivity|]. cbn [orb].
  unfold find_char. change (String "="%char EmptyString) with "="%string.
  destruct (find_first_of_nat "=" record) as [eq|] eqn:Eeq; cbn [pos_or_npos].
  2:{ rewrite Z.eqb_refl. reflexivity. }
  pose proof (find_first_of_nat_lt _ _ _ Eeq) as Heq.
  replace (Z.of_nat eq =? npos)%Z with false
    by (symmetry; apply Z.eqb_neq; unfold npos, SIZE_MAX; lia).
  cbn [negb].
  assert (Hname : substr record 0 (Z.of_nat eq) = String.substring 0 eq record).
  { unfold substr. f_equal. lia. }
  assert (Hval :
    substr record (Z.of_nat eq + 1)
      (if negb (find_last_of "/" record =? npos)%Z
       then size_t_sub (size_t_sub (find_last_of "/" record) (Z.of_nat eq)) 1
       else npos)
    = field_text record eq).
  { unfold field_text, find_last_of, substr.
    destruct (find_last_of_nat "/" record) as [sl|] eqn:Esl; cbn [pos_or_npos].
    - pose proof (find_last_of_nat_lt _ _ _ Esl) as Hsl.
      replace (Z.of_nat sl =? npos)%Z with false
        by (symmetry; apply Z.eqb_neq; unfold npos, SIZE_MAX; lia).
      cbn [negb].
      destruct (Nat.ltb_spec eq sl) as [Hlt|Hge].
      + rewrite (size_t_sub_small (Z.of_nat sl)) by lia.
        rewrite size_t_sub_small by lia. f_equal; lia.
      + destruct (Nat.eq_dec sl eq) as [->|Hne].
        * rewrite (size_t_sub_small (Z.of_nat eq)) by lia.
          rewrite size_t_sub_wrap by lia. f_equal; lia.
        * rewrite (size_t_sub_wrap (Z.of_nat sl)) by lia.
          rewrite size_t_sub_small by lia. f_equal; lia.
    - rewrite Z.eqb_refl. cbn [negb]. unfold npos, SIZE_MAX. f_equal; lia. }
  cbv zeta. rewrite Hname, Hval. f_equal. f_equal.
  set (v := trim (field_text record eq)).
  assert (Hv : (Z.of_nat (String.length v) < 2 ^ 63)%Z).
  { unfold v. pose proof (length_trim (field_text record eq)).
    assert (String.length (field_text record eq) <= String.length record).
    { unfold field_text.
      destruct (find_last_of_nat "/" record); [destruct (eq <? _)|];
        apply length_substring. }
    lia. }
  pose proof (quote_test v Hv) as Hq. cbv zeta in Hq. unfold find_char in Hq.
  rewrite Hq.
  unfold unquote.
  destruct (quoted v) eqn:Eq; [|reflexivity].
  unfold substr. f_equal. f_equal.
  unfold quoted in Eq. apply andb_prop in Eq as [Eq _].
  apply andb_prop in Eq as [Eq _]. apply Nat.leb_le in Eq. lia.
Qed.

(** *** The attributes through the header loop *)

Lemma attrExists_elem name attrs :
  attrExists name attrs = true <-> name ∈ map fst attrs.
Proof.
  unfold attrExists. rewrite existsb_exists, list_elem_of_In, in_map_iff.
  split.
  - intros (kv & Hin & Heq). apply String.eqb_eq in Heq. eauto.
  - intros (kv & Heq & Hin). exists kv. split; [done|]. by apply String.eqb_eq.
Qed.

Lemma attr_value_None name attrs :
  attrExists name attrs = false -> attr_value name attrs = None.
Proof.
  induction attrs as [|[k v] attrs IH]; simpl; [done|].
  destruct (String.eqb k name); simpl; [discriminate|done].
Qed.

Lemma attr_value_app name attrs k v :
  attr_value name (attrs ++ [(k, v)])
  = match attr_value name attrs with
    | Some x => Some x
    | None => if String.eqb k name then Some v else None
    end.
Proof.
  induction attrs as [|[k' v'] attrs IH]; simpl; [done|].
  by destruct (String.eqb k' name).
Qed.

Lemma attr_value_Some name attrs :
  attrExists name attrs = true -> exists v, attr_value name attrs = Some v.
Proof.
  induction attrs as [|[k v] attrs IH]; simpl; [discriminate|].
  destruct (String.eqb k name); simpl; eauto.
Qed.

Lemma attr_count_NoDup name attrs :
  NoDup (map fst attrs) -> name ∈ map fst attrs -> attr_count name attrs = 1.
Proof.
  unfold attr_count. induction attrs as [|[k v] attrs IH]; simpl.
  - intros _ Hin. inversion Hin.
  - intros Hnd Hin. apply NoDup_cons in Hnd as [Hk Hnd].
    destruct (String.eqb_spec k name) as [->|Hne]; simpl.
    + f_equal. apply length_zero_iff_nil.
      destruct (List.filter _ attrs) as [|[k' v'] l] eqn:E; [done|].
      exfalso. apply Hk.
      assert (Hin' : In (k', v') (List.filter (fun kv => String.eqb kv.1 name) attrs))
        by (rewrite E; by left).
      apply filter_In in Hin' as [Hin' Heq]. apply String.eqb_eq in Heq.
      simpl in Heq. subst k'. apply list_elem_of_In, in_map_iff.
      by exists (name, v').
    + apply IH; [done|]. apply elem_of_cons in Hin as [Heq|Hin]; [congruence|done].
Qed.

Lemma header_step_NoDup (st : header_state) record :
  NoDup (map fst (fst st)) -> NoDup (map fst (fst (header_step st record))).
Proof.
  intros Hnd. unfold header_step.
  destruct (header_attribute record) as [[name value]|]; [|done].
  destruct (negb (attrExists name (fst st))) eqn:E; cbn [fst snd]; [|exact Hnd].
  apply negb_true_iff in E.
  unfold createAttribute. rewrite map_app. cbn [map fst].
  apply NoDup_app. split; [done|]. split; [|apply NoDup_singleton].
  intros x Hx Hx'. apply list_elem_of_singleton in Hx' as ->.
  apply attrExists_elem in Hx. congruence.
Qed.

(** An attribute that exists keeps its value, and a line printed stays. *)
Lemma header_step_keeps (st : header_state) record name :
  attrExists name (fst st) = true ->
  attrExists name (fst (header_step st record)) = true
  /\ attr_value name (fst (header_step st record)) = attr_value name (fst st).
Proof.
  intros Hex. unfold header_step.
  destruct (header_attribute record) as [[n v]|]; [|done].
  destruct (negb (attrExists n (fst st))); cbn [fst snd]; [|done].
  unfold createAttribute. split.
  - apply attrExists_elem. rewrite map_app. apply elem_of_app. left.
    by apply attrExists_elem.
  - rewrite attr_value_app. by destruct (attr_value_Some _ _ Hex) as [x ->].
Qed.

Lemma header_step_printed (st : header_state) record line :
  line ∈ snd st -> line ∈ snd (header_step st record).
Proof.
  intros Hin. unfold header_step.
  destruct (header_attribute record) as [[n v]|]; [|done].
  destruct (negb (attrExists n (fst st))); cbn [fst snd]; [done|].
  apply elem_of_app. by left.
Qed.

Lemma header_steps_NoDup records (st : header_state) :
  NoDup (map fst (fst st)) ->
  NoDup (map fst (fst (fold_left header_step records st))).
Proof.
  revert st. induction records as [|r records IH]; intros st Hnd; [done|].
  simpl. apply IH. by apply header_step_NoDup.
Qed.

Lemma header_steps_keep records (st : header_state) name :
  attrExists name (fst st) = true ->
  attrExists name (fst (fold_left header_step records st)) = true
  /\ attr_value name (fst (fold_left header_step records st))
     = attr_value name (fst st).
Proof.
  revert st. induction records as [|r records IH]; intros st Hex; [done|].
  simpl. destruct (header_step_keeps st r name Hex) as [Hex' Hval].
  destruct (IH _ Hex') as [Hex'' Hval']. split; [done|]. congruence.
Qed.

Lemma header_steps_printed records (st : header_state) line :
  line ∈ snd st -> line ∈ snd (fold_left header_step records st).
Proof.
  revert st. induction records as [|r records IH]; intros st Hin; [done|].
  simpl. apply IH. by apply header_step_printed.
Qed.

(** One record that holds a keyword: the attribute exists afterwards, with
    the value of the record when the name is new and with the value it had
    when the name was taken, a warning being printed then. *)
Lemma header_step_keyword (st : header_state) record name value :
  header_attribute record = Some (name, value) ->
  let st' := header_step st record in
  attrExists name (fst st') = true
  /\ (attrExists name (fst st) = false ->
      attr_value name (fst st') = Some value)
  /\ (attrExists name (fst st) = true ->
      attr_value name (fst st') = attr_value name (fst st)
      /\ duplicate_warning name ∈ snd st').
Proof.
  intros Hattr st'. unfold st', header_step. rewrite Hattr.
  destruct (negb (attrExists name (fst st))) eqn:E; cbn [fst snd];
    [apply negb_true_iff in E|apply negb_false_iff in E]; rewrite E.
  2:{ split; [done|]. split; [discriminate|]. intros _. split; [done|].
      apply elem_of_app. right. by left. }
  - split; [|split; [|discriminate]].
    + apply attrExists_elem. unfold createAttribute. rewrite map_app.
      apply elem_of_app. right. by left.
    + intros _. unfold createAttribute.
      rewrite attr_value_app, (attr_value_None _ _ E), String.eqb_refl. done.
Qed.

Lemma seq_split_at i n : i < n -> seq 0 n = seq 0 i ++ i :: seq (S i) (n - S i).
Proof.
  intros Hi. replace n with (i + S (n - S i)) at 1 by lia.
  rewrite seq_app. reflexivity.
Qed.

Section HeaderTranslation.
Variable fits_read_record : nat -> string.
Variable numHeaders : nat.

(** What the loop does with the records it is handed.  A record that
    starts with neither COMMENT nor HISTORY and
    has its first ['='] at [eq] ends as exactly one attribute, named by the
    trimmed text before the ['=']; if the name was free when the record was
    reached, the value is the text between the ['='] and the last ['/'] (or
    the end of the record), trimmed, with one pair of wrapping quotes
    stripped and trimmed again; if the name was taken, the earlier value
    stays and the warning is printed. *)
Lemma header_translation (st : header_state) i eq :
  NoDup (map fst (fst st)) ->
  i < numHeaders ->
  String.length (fits_read_record i) < 255 ->
  starts_with "COMMENT" (fits_read_record i) = false ->
  starts_with "HISTORY" (fits_read_record i) = false ->
  find_first_of_nat "=" (fits_read_record i) = Some eq ->
  let record := fits_read_record i in
  let name := trim (String.substring 0 eq record) in
  let value := unquote (trim (field_text record eq)) in
  let before := headers_before fits_read_record i st in
  let final := translate_headers fits_read_record numHeaders st in
  attr_count name (fst final) = 1
  /\ (attrExists name (fst before) = false ->
      attr_value name (fst final) = Some value)
  /\ (attrExists name (fst before) = true ->
      attr_value name (fst final) = attr_value name (fst before)
      /\ duplicate_warning name ∈ snd final).
Proof.
  intros Hnd Hi Hlen Hc Hh Heq record name value before final.
  assert (Hattr : header_attribute record = Some (name, value)).
  { rewrite header_attribute_keyword_field by (unfold record; lia).
    unfold keyword_field. fold record in Hc, Hh, Heq.
    by rewrite Hc, Hh, Heq. }
  assert (Hfinal : final
    = fold_left header_step
        (map fits_read_record (seq (S i) (numHeaders - S i)))
        (header_step before record)).
  { unfold final, before, headers_before, translate_headers.
    rewrite (seq_split_at i numHeaders Hi), map_app, fold_left_app.
    reflexivity. }
  destruct (header_step_keyword before record name value Hattr)
    as (Hex & Hnew & Hdup).
  destruct (header_steps_keep
              (map fits_read_record (seq (S i) (numHeaders - S i)))
              _ name Hex) as [Hex' Hval].
  rewrite <- Hfinal in Hex', Hval.
  split; [|split].
  - apply attr_count_NoDup; [|by apply attrExists_elem].
    by apply header_steps_NoDup.
  - intros Hfree. rewrite Hval. by apply Hnew.
  - intros Htaken. destruct (Hdup Htaken) as [Hsame Hwarn].
    split; [congruence|]. rewrite Hfinal. by apply header_steps_printed.
Qed.
End HeaderTranslation.

Lemma header_translation_witness :
  let final := translate_headers sample_header 4 (fixed_attributes, []) in
  attr_count "OBJECT" (fst final) = 1
  /\ attr_value "OBJECT" (fst final) = Some "NGC 1068"%string
  /\ duplicate_warning "OBJECT" ∈ snd final.
Proof.
  intros final.
  assert (Hnd : NoDup (map fst (fst (fixed_attributes, @nil string)))).
  { simpl.
    repeat (constructor;
            [intros H;
             repeat (apply elem_of_cons in H as [H|H]; [discriminate H|]);
             by apply elem_of_nil in H|]).
    constructor. }
  assert (Hlen : String.length (sample_header 3) < 255)
    by (vm_compute; lia).
  destruct (header_translation sample_header 4 (fixed_attributes, []) 3 7
              Hnd ltac:(lia) Hlen eq_refl eq_refl eq_refl)
    as (Hcount & _ & Hdup).
  split; [exact Hcount|].
  destruct Hdup as [Hval Hwarn]; [reflexivity|].
  split; [|exact Hwarn]. exact Hval.
Defined.

(** *** The records [main] asks CFITSIO for *)

Lemma header_step_absent (st : header_state) record name :
  attrExists name (fst st) = false ->
  (forall value, header_attribute record <> Some (name, value)) ->
  attrExists name (fst (header_step st record)) = false.
Proof.
  intros Hfree Hrec. unfold header_step.
  destruct (header_attribute record) as [[n v]|] eqn:E; [|done].
  destruct (negb (attrExists n (fst st))); cbn [fst]; [|done].
  unfold createAttribute, attrExists in *. rewrite existsb_app, Hfree.
  cbn [existsb fst orb]. rewrite orb_false_r.
  apply String.eqb_neq. intros ->. by apply (Hrec v).
Qed.

Lemma header_steps_absent records (st : header_state) name :
  attrExists name (fst st) = false ->
  (forall record value,
     record ∈ records -> header_attribute record <> Some (name, value)) ->
  attrExists name (fst (fold_left header_step records st)) = false.
Proof.
  revert st. induction records as [|r records IH]; intros st Hfree Hrec;
    [done|].
  cbn [fold_left]. apply IH.
  - apply header_step_absent; [done|]. intros value. apply Hrec. by left.
  - intros record value Hin. apply Hrec. by right.
Qed.

Lemma cfitsio_records cards rest :
  map (cfitsio_record (cards ++ rest)) (seq 1 (length cards)) = cards.
Proof.
  rewrite <- seq_shift, map_map. cbn [cfitsio_record].
  induction cards as [|c cards IH] in rest |- *; [done|].
  cbn [length seq map app nth]. f_equal.
  rewrite <- seq_shift, map_map. cbn [nth]. apply IH.
Qed.



(** ** The driver *)

Lemma run_bind_eq {A B : Type} (m : run A) (f : A -> run B) t :
  (m ≫= f) t
  = match m t with
    | (t', inl o) => (t', inl o)
    | (t', inr a) => f a t'
    end.
Proof. reflexivity. Qed.

Section QuietHost.
Variable r : fits_reader.
Variable throws : event -> bool.
Hypothesis quiet : forall e, throws e = false.

Lemma perform_quiet e t : perform throws e t = (t ++ [e], inr tt).
Proof. unfold perform. by rewrite quiet. Qed.

Lemma header_body_quiet status i t :
  header_body r throws status i t
  = (t ++ [TranslateHeader i],
     inr (fits_call (read_record_status r i) status)).
Proof. unfold header_body. by rewrite run_bind_eq, perform_quiet. Qed.

Lemma stokes_body_quiet status s t :
  stokes_body r throws status s t
  = (t ++ [ProcessStokes s; WriteStokes s],
     inr (fits_call (read_pix_status r s) status)).
Proof.
  unfold stokes_body, emit. rewrite !run_bind_eq, perform_quiet.
  by rewrite <- app_assoc.
Qed.

Lemma header_loop_events l status t :
  for_each (header_body r throws) l status t
  = (t ++ (l ≫= (fun i => [TranslateHeader i])),
     inr (fold_left (fun st i => fits_call (read_record_status r i) st)
            l status)).
Proof.
  revert status t. induction l as [|i l IH]; intros status t.
  - cbn. by rewrite app_nil_r.
  - cbn [for_each fold_left]. rewrite run_bind_eq, header_body_quiet, IH.
    by rewrite bind_cons, app_assoc.
Qed.

Lemma stokes_loop_events l status t :
  for_each (stokes_body r throws) l status t
  = (t ++ (l ≫= (fun s => [ProcessStokes s; WriteStokes s])),
     inr (fold_left (fun st s => fits_call (read_pix_status r s) st)
            l status)).
Proof.
  revert status t. induction l as [|s l IH]; intros status t.
  - cbn. by rewrite app_nil_r.
  - cbn [for_each fold_left]. rewrite run_bind_eq, stokes_body_quiet, IH.
    by rewrite bind_cons, app_assoc.
Qed.
End QuietHost.



(** A query that fails does not store its variable, and [main] reads it
    all the same: when [fits_get_img_type] fails, nothing is known of the
    run from the test of [bitpix] on. *)
Lemma failed_query_is_undefined argv r throws :
  2 <= length argv <= 3 ->
  open_file_status r = 0%Z ->
  get_img_type_status r <> 0%Z ->
  snd (main_driver argv r throws) = Undefined.
Proof.
  intros Hargc Hopen Htype. unfold main_driver, main_body.
  replace ((Z.of_nat (length argv) <? 2)%Z || (3 <? Z.of_nat (length argv))%Z)
    with false
    by (symmetry; apply orb_false_iff; split; apply Z.ltb_ge; lia).
  rewrite Hopen. cbn [fits_call Z.ltb Z.compare]. rewrite Z.eqb_refl.
  cbn [negb]. unfold stored.
  replace (get_img_type_status r =? 0)%Z with false
    by (symmetry; by apply Z.eqb_neq).
  reflexivity.
Qed.

(** *** Output file name *)

Lemma find_last_of_nat_fits base :
  find_last_of_nat ".fits" (base ++ ".fits")%string
  = Some (String.length base + 4).
Proof.
  induction base as [|c base IH]; [reflexivity|].
  change (String c base ++ ".fits")%string with (String c (base ++ ".fits")).
  cbn [find_last_of_nat]. rewrite IH. reflexivity.
Qed.

Lemma substring_prefix a b :
  String.substring 0 (String.length a) (a ++ b) = a.
Proof.
  induction a as [|c a IH]; simpl.
  - by destruct b.
  - by rewrite IH.
Qed.

Lemma length_append a b :
  String.length (a ++ b) = String.length a + String.length b.
Proof. induction a as [|c a IH]; simpl; [done|]. by rewrite IH. Qed.

(** A name that ends in [.fits] loses the suffix. *)
Lemma derive_output_name_fits base :
  (Z.of_nat (String.length base) < 2 ^ 63)%Z ->
  derive_output_name (base ++ ".fits") = (base ++ ".hdf5")%string.
Proof.
  intros Hlen. unfold derive_output_name, find_last_of.
  rewrite find_last_of_nat_fits. cbn [pos_or_npos].
  replace (Z.of_nat (String.length base + 4) =? npos)%Z with false
    by (symmetry; apply Z.eqb_neq; unfold npos, SIZE_MAX; lia).
  cbn [negb]. f_equal. unfold substr, size_t_sub.
  rewrite Z.mod_small by lia. rewrite length_append.
  change (String.length ".fits") with 5.
  replace (Z.to_nat (Z.min _ _)) with (String.length base) by lia.
  apply substring_prefix.
Qed.

(** C9, what the code does instead.  A name that does not end in [.fits]
    is cut four characters before its last character among ['.'], ['f'],
    ['i'], ['t'] and ['s']: [data.txt] gives [dat.hdf5], not
    [data.txt.hdf5]; a name with none of these characters is kept whole. *)
Theorem derive_output_name_searches_characters :
  derive_output_name "data.txt" = "dat.hdf5"%string
  /\ derive_output_name "data.txt" <> "data.txt.hdf5"%string
  /\ derive_output_name "image.fits.gz" = "image..hdf5"%string
  /\ derive_output_name "cube" = "cube.hdf5"%string.
Proof. repeat split; try reflexivity. discriminate. Qed.

(** ** Rounding to nearest even *)

Section Rounding.
Local Open Scope Z_scope.

Lemma digits2_pos_unique m k :
  2 ^ (k - 1) <= Zpos m < 2 ^ k -> Zpos (digits2_pos m) = k.
Proof.
  intros [Hlo Hhi]. pose proof (digits2_pos_bounds m) as [Hlo' Hhi'].
  pose proof (Pos2Z.is_pos (digits2_pos m)) as Hd.
  assert (Hk : 0 < k).
  { destruct (Z.ltb_spec 0 k) as [|Hk]; [done|].
    rewrite (Z.pow_neg_r 2 (k - 1)) in Hlo by lia.
    destruct (Z.eq_dec k 0) as [->|]; [simpl in Hhi; lia|].
    rewrite (Z.pow_neg_r 2 k) in Hhi by lia. lia. }
  destruct (Z.lt_trichotomy (Zpos (digits2_pos m)) k) as [Hlt|[Heq|Hgt]];
    [|done|].
  - assert (2 ^ Zpos (digits2_pos m) <= 2 ^ (k - 1))
      by (apply Z.pow_le_mono_r; lia). lia.
  - assert (2 ^ k <= 2 ^ (Zpos (digits2_pos m) - 1))
      by (apply Z.pow_le_mono_r; lia). lia.
Qed.

(** [shr_1] halves a mantissa that is not negative. *)
Lemma shr_m_shr_1 mrs : 0 <= shr_m mrs -> shr_m (shr_1 mrs) = shr_m mrs / 2.
Proof.
  destruct mrs as [m r s]. cbn [shr_m]. intros Hm. unfold shr_1.
  destruct m as [|[p|p|]|p]; cbn [shr_m]; try lia; try reflexivity.
  - rewrite Pos2Z.inj_xI. apply (Z.div_unique _ _ _ 1); lia.
  - rewrite Pos2Z.inj_xO. apply (Z.div_unique _ _ _ 0); lia.
Qed.

Lemma shr_m_iter n mrs :
  0 <= shr_m mrs ->
  shr_m (Nat.iter n shr_1 mrs) = shr_m mrs / 2 ^ Z.of_nat n.
Proof.
  intros Hm. induction n as [|n IH].
  - simpl. by rewrite Z.div_1_r.
  - change (Nat.iter (S n) shr_1 mrs) with (shr_1 (Nat.iter n shr_1 mrs)).
    rewrite shr_m_shr_1, IH.
    + rewrite Z.div_div by lia. f_equal.
      rewrite Nat2Z.inj_succ, Z.pow_succ_r by lia. lia.
    + rewrite IH. apply Z.div_pos; [done|]. apply Z.pow_pos_nonneg; lia.
Qed.

Lemma round_nearest_even_cases m l :
  round_nearest_even m l = m \/ round_nearest_even m l = m + 1.
Proof.
  unfold round_nearest_even. destruct l as [|[]]; auto.
  destruct (Z.even m); auto.
Qed.

Lemma shr_m_record m l : shr_m (shr_record_of_loc m l) = m.
Proof. by destruct l as [|[]]. Qed.

Lemma shr_m_shr mrs e n : 0 <= shr_m mrs -> 0 <= shr_m (fst (shr mrs e n)).
Proof.
  intros Hm. unfold shr. destruct n as [|p|p]; cbn [fst]; try done.
  rewrite iter_pos_nat, shr_m_iter by done.
  apply Z.div_pos; [done|]. apply Z.pow_pos_nonneg; lia.
Qed.

Variables prec emax : Z.

(** The rounding of a mantissa that is not negative is never NaN. *)
Lemma binary_round_aux_not_nan s mx ex lx :
  0 <= mx -> isnan (binary_round_aux prec emax s mx ex lx) = false.
Proof.
  intros Hm. unfold binary_round_aux.
  pose proof (shr_m_shr (shr_record_of_loc mx lx) ex
                (fexp prec emax (Zdigits2 mx + ex) - ex)
                ltac:(by rewrite shr_m_record)) as H1.
  fold (shr_fexp prec emax mx ex lx) in H1.
  destruct (shr_fexp prec emax mx ex lx) as [mrs' e']. cbn [fst] in H1.
  set (m2 := round_nearest_even (shr_m mrs') (loc_of_shr_record mrs')).
  assert (H2 : 0 <= m2).
  { unfold m2.
    destruct (round_nearest_even_cases (shr_m mrs') (loc_of_shr_record mrs'))
      as [-> | ->]; lia. }
  pose proof (shr_m_shr (shr_record_of_loc m2 loc_Exact) e'
                (fexp prec emax (Zdigits2 m2 + e') - e')
                ltac:(by rewrite shr_m_record)) as H3.
  fold (shr_fexp prec emax m2 e' loc_Exact) in H3.
  destruct (shr_fexp prec emax m2 e' loc_Exact) as [mrs'' e'']. cbn [fst] in H3.
  destruct (shr_m mrs'') as [|p|p]; [done| |lia].
  by destruct (e'' <=? emax - prec).
Qed.

Lemma binary_round_not_nan s mx ex :
  isnan (binary_round prec emax s mx ex) = false.
Proof.
  unfold binary_round.
  destruct (shl_align mx ex (fexp prec emax (Zpos (digits2_pos mx) + ex)))
    as [mz ez].
  apply binary_round_aux_not_nan. lia.
Qed.

Lemma binary_normalize_not_nan m e sz :
  isnan (binary_normalize prec emax m e sz) = false.
Proof. destruct m; [done|apply binary_round_not_nan..]. Qed.

Hypothesis Hprec : 0 < prec.

(** The mantissa and exponent [shr_fexp] hands to the rounding, for a
    mantissa of at least [prec] digits in the normal range. *)
Lemma shr_fexp_normal (mx : positive) ex lx :
  let d := Zpos (digits2_pos mx) in
  prec <= d -> 3 - emax - prec <= d + ex - prec ->
  let r := shr_fexp prec emax (Zpos mx) ex lx in
  shr_m (fst r) = Zpos mx / 2 ^ (d - prec) /\ snd r = ex + (d - prec).
Proof.
  intros d Hd Hn r. unfold r, shr_fexp. cbn [Zdigits2]. fold d.
  assert (Hfexp : fexp prec emax (d + ex) - ex = d - prec)
    by (unfold fexp, emin; lia).
  rewrite Hfexp. unfold shr.
  destruct (d - prec) as [|p|p] eqn:E; [| |lia].
  - cbn [fst snd]. rewrite Z.div_1_r, Z.add_0_r.
    split; [apply shr_m_record|done].
  - cbn [fst snd]. rewrite iter_pos_nat, shr_m_iter.
    + rewrite positive_nat_Z, shr_m_record. done.
    + rewrite shr_m_record. lia.
Qed.

(** What [binary_round_aux] returns for a mantissa of at least [prec]
    digits in the normal range: with [m1] the mantissa cut to [prec] digits
    and [e1] its exponent, the number [m1 * 2^e1] or the next one. *)
Lemma binary_round_aux_normal s (mx : positive) ex lx :
  let d := Zpos (digits2_pos mx) in
  prec <= d -> 3 - emax - prec <= d + ex - prec -> d + ex <= emax - 1 ->
  let m1 := Zpos mx / 2 ^ (d - prec) in
  let e1 := ex + (d - prec) in
  exists m' e',
    binary_round_aux prec emax s (Zpos mx) ex lx = S754_finite s m' e'
    /\ 2 ^ (prec - 1) <= Zpos m' < 2 ^ prec
    /\ (lx = loc_Exact -> d = prec -> m' = mx /\ e' = ex)
    /\ ((Zpos m' = m1 /\ e' = e1)
        \/ (Zpos m' = m1 + 1 /\ e' = e1)
        \/ (m1 + 1 = 2 ^ prec /\ Zpos m' = 2 ^ (prec - 1) /\ e' = e1 + 1)).
Proof.
  intros d Hd Hn Ho m1 e1.
  pose proof (shr_fexp_normal mx ex lx Hd Hn) as [Hm He]. cbv zeta in Hm, He.
  fold d in Hm, He. fold m1 in Hm. fold e1 in He.
  pose proof (digits2_pos_bounds mx) as [Hlo Hhi]. fold d in Hlo, Hhi.
  assert (Hhalf : 0 < 2 ^ (prec - 1)) by (apply Z.pow_pos_nonneg; lia).
  assert (Hpow : 2 ^ prec = 2 * 2 ^ (prec - 1))
    by (rewrite <- Z.pow_succ_r by lia; f_equal; lia).
  assert (Hm1 : 2 ^ (prec - 1) <= m1 < 2 ^ prec).
  { unfold m1.
    assert (Hp : 0 < 2 ^ (d - prec)) by (apply Z.pow_pos_nonneg; lia).
    assert (H1 : 2 ^ (d - 1) = 2 ^ (prec - 1) * 2 ^ (d - prec))
      by (rewrite <- Z.pow_add_r by lia; f_equal; lia).
    assert (H2 : 2 ^ d = 2 ^ prec * 2 ^ (d - prec))
      by (rewrite <- Z.pow_add_r by lia; f_equal; lia).
    split.
    - apply Z.div_le_lower_bound; [done|]. lia.
    - apply Z.div_lt_upper_bound; [done|]. lia. }
  unfold binary_round_aux.
  destruct (shr_fexp prec emax (Zpos mx) ex lx) as [mrs' e'] eqn:E1.
  cbn [fst snd] in Hm, He. subst e'.
  set (m2 := round_nearest_even (shr_m mrs') (loc_of_shr_record mrs')).
  assert (Hm2 : m2 = m1 \/ m2 = m1 + 1)
    by (unfold m2; rewrite Hm; apply round_nearest_even_cases).
  assert (Hexact : lx = loc_Exact -> d = prec -> m2 = Zpos mx).
  { intros -> Hdp. unfold m2. revert E1. unfold shr_fexp. cbn [Zdigits2].
    fold d. replace (fexp prec emax (d + ex) - ex) with 0
      by (unfold fexp, emin; lia).
    cbn [shr shr_record_of_loc]. intros [= <- _]. reflexivity. }
  destruct m2 as [|p2|p2] eqn:Em2; [lia| |lia].
  destruct (Z.eq_dec (Zpos p2) (2 ^ prec)) as [Hcarry|Hnocarry].
  - (* the rounding carried to 2^prec: one more shift, exact *)
    assert (Hstep : shr_fexp prec emax (Zpos p2) e1 loc_Exact
                    = (shr_1 (shr_record_of_loc (Zpos p2) loc_Exact), e1 + 1)).
    { unfold shr_fexp. cbn [Zdigits2].
      rewrite (digits2_pos_unique p2 (prec + 1))
        by (replace (prec + 1 - 1) with prec by lia;
            rewrite Z.pow_add_r by lia; change (2 ^ 1) with 2; lia).
      replace (fexp prec emax (prec + 1 + e1) - e1) with 1
        by (unfold fexp, emin, e1; lia).
      reflexivity. }
    rewrite Hstep.
    assert (Hs : shr_m (shr_1 (shr_record_of_loc (Zpos p2) loc_Exact))
                 = 2 ^ (prec - 1)).
    { rewrite shr_m_shr_1 by (rewrite shr_m_record; lia).
      rewrite shr_m_record, Hcarry, Hpow, Z.mul_comm. by apply Z.div_mul. }
    rewrite Hs.
    destruct (2 ^ (prec - 1)) as [|q|q] eqn:Eq; [lia| |lia].
    replace (e1 + 1 <=? emax - prec) with true
      by (symmetry; apply Z.leb_le; unfold e1; lia).
    eexists _, _. split; [reflexivity|]. split; [lia|]. split.
    + intros Hl Hdp. specialize (Hexact Hl Hdp). rewrite Hdp in Hhi. lia.
    + right; right. lia.
  - assert (Hm2pos : 2 ^ (prec - 1) <= Zpos p2 < 2 ^ prec) by lia.
    unfold shr_fexp. cbn [Zdigits2].
    rewrite (digits2_pos_unique p2 prec) by done.
    replace (fexp prec emax (prec + e1) - e1) with 0
      by (unfold fexp, emin, e1; lia).
    cbn [shr shr_record_of_loc shr_m].
    replace (e1 <=? emax - prec) with true
      by (symmetry; apply Z.leb_le; unfold e1; lia).
    eexists _, _. split; [reflexivity|]. split; [lia|]. split.
    + intros Hl Hdp. specialize (Hexact Hl Hdp). unfold e1.
      split; [congruence|lia].
    + destruct Hm2 as [Hm2|Hm2]; [left|right; left]; lia.
Qed.
End Rounding.

(** The same at the [double] format. *)
Lemma binary_round_aux_normal64 s (mx : positive) ex lx :
  let d := Zpos (digits2_pos mx) in
  (53 <= d -> -1074 <= d + ex - 53 -> d + ex <= 1023 ->
   let m1 := Zpos mx / 2 ^ (d - 53) in
   let e1 := ex + (d - 53) in
   exists m' e',
     binary_round_aux F64.prec F64.emax s (Zpos mx) ex lx = S754_finite s m' e'
     /\ 2 ^ 52 <= Zpos m' < 2 ^ 53
     /\ (lx = loc_Exact -> d = 53 -> m' = mx /\ e' = ex)
     /\ ((Zpos m' = m1 /\ e' = e1)
         \/ (Zpos m' = m1 + 1 /\ e' = e1)
         \/ (m1 + 1 = 2 ^ 53 /\ Zpos m' = 2 ^ 52 /\ e' = e1 + 1)))%Z.
Proof. exact (binary_round_aux_normal F64.prec F64.emax eq_refl s mx ex lx). Qed.

(** ** The real value of a [double] and the error of a rounding *)

Section RealValue.
Local Open Scope R_scope.

Lemma bpow_pos e : 0 < bpow e.
Proof. apply powerRZ_lt. lra. Qed.

Lemma bpow_add a b : bpow (a + b) = bpow a * bpow b.
Proof. apply powerRZ_add. lra. Qed.

Lemma bpow_IZR n : (0 <= n)%Z -> bpow n = IZR (2 ^ n).
Proof.
  intros Hn. unfold bpow. rewrite <- (Z2Nat.id n Hn) at 1.
  rewrite <- pow_powerRZ, pow_IZR, Z2Nat.id by done. reflexivity.
Qed.

Lemma bpow_le a b : (a <= b)%Z -> bpow a <= bpow b.
Proof.
  intros Hab. replace b with (a + (b - a))%Z by lia.
  rewrite bpow_add, (bpow_IZR (b - a)) by lia.
  pose proof (bpow_pos a).
  assert (1 <= IZR (2 ^ (b - a))).
  { apply IZR_le. pose proof (Z.pow_pos_nonneg 2 (b - a)). lia. }
  nra.
Qed.

Lemma bpow_opp e : bpow (- e) = / bpow e.
Proof.
  pose proof (bpow_pos e). pose proof (bpow_add e (- e)) as H1.
  rewrite Z.add_opp_diag_r in H1. change (bpow 0) with 1 in H1.
  apply Rmult_eq_reg_l with (bpow e); [|lra].
  rewrite <- H1. field. lra.
Qed.

(** A mantissa shifted left with its exponent lowered keeps its value. *)
Lemma bpow_shift m n e :
  (0 <= n)%Z -> IZR (m * 2 ^ n) * bpow (e - n) = IZR m * bpow e.
Proof.
  intros Hn. rewrite mult_IZR, <- (bpow_IZR n) by done.
  replace e with ((e - n) + n)%Z at 2 by lia. rewrite bpow_add. ring.
Qed.

(** The rounding of a positive real [x] known between the mantissa [mx]
    and the next, at exponent [ex]: a [double] within [2^-52] of [x],
    relatively. *)
Lemma binary_round_aux_error s (mx : positive) ex lx x :
  let d := Zpos (digits2_pos mx) in
  (53 <= d)%Z -> (-1074 <= d + ex - 53)%Z -> (d + ex <= 1023)%Z ->
  IZR (Zpos mx) * bpow ex <= x < IZR (Zpos mx + 1) * bpow ex ->
  exists m' e',
    binary_round_aux F64.prec F64.emax s (Zpos mx) ex lx = S754_finite s m' e'
    /\ (2 ^ 52 <= Zpos m' < 2 ^ 53)%Z
    /\ (d + ex - 53 <= e' <= d + ex - 52)%Z
    /\ x * (1 - bpow (-52)) <= IZR (Zpos m') * bpow e' <= x * (1 + bpow (-52)).
Proof.
  intros d Hd Hn Ho [Hxlo Hxhi].
  destruct (binary_round_aux_normal64 s mx ex lx Hd Hn Ho)
    as (m' & e' & Hres & Hm' & _ & Hcases).
  cbv zeta in Hcases. fold d in Hcases.
  set (n := (d - 53)%Z) in *. set (m1 := (Zpos mx / 2 ^ n)%Z) in *.
  set (e1 := (ex + n)%Z) in *.
  exists m', e'. split; [exact Hres|]. split; [exact Hm'|].
  assert (Hn0 : (0 <= n)%Z) by (unfold n; lia).
  assert (Hpn : (0 < 2 ^ n)%Z) by (apply Z.pow_pos_nonneg; lia).
  assert (Hdiv : (2 ^ n * m1 <= Zpos mx < 2 ^ n * (m1 + 1))%Z).
  { unfold m1. split; [apply Z.mul_div_le; lia|].
    pose proof (Z.mul_succ_div_gt (Zpos mx) (2 ^ n) Hpn). lia. }
  assert (Hm1 : (2 ^ 52 <= m1)%Z).
  { pose proof (digits2_pos_bounds mx) as [Hlo _]. fold d in Hlo.
    assert (H2 : (2 ^ (d - 1) = 2 ^ 52 * 2 ^ n)%Z)
      by (unfold n; rewrite <- Z.pow_add_r by lia; f_equal; lia).
    unfold m1. apply Z.div_le_lower_bound; [done|].
    rewrite H2 in Hlo. by rewrite Z.mul_comm. }
  set (u := bpow e1). set (a := IZR m1 * u).
  assert (Hu : 0 < u) by apply bpow_pos.
  assert (Hex : bpow ex * IZR (2 ^ n) = u).
  { unfold u, e1. rewrite bpow_add, (bpow_IZR n) by lia. reflexivity. }
  assert (Ha : a <= x).
  { apply Rle_trans with (IZR (Zpos mx) * bpow ex); [|done].
    unfold a. rewrite <- Hex.
    assert (IZR (2 ^ n * m1) <= IZR (Zpos mx)) by (apply IZR_le; lia).
    rewrite mult_IZR in H. pose proof (bpow_pos ex). nra. }
  assert (Hb : x < a + u).
  { apply Rlt_le_trans with (IZR (Zpos mx + 1) * bpow ex); [done|].
    unfold a. rewrite <- Hex.
    assert (IZR (Zpos mx + 1) <= IZR (2 ^ n * (m1 + 1)))
      by (apply IZR_le; lia).
    rewrite mult_IZR, !plus_IZR in H. rewrite plus_IZR.
    pose proof (bpow_pos ex). nra. }
  assert (Hau : IZR (2 ^ 52) * u <= a).
  { unfold a. assert (IZR (2 ^ 52) <= IZR m1) by (by apply IZR_le). nra. }
  assert (Heps : bpow (-52) * IZR (2 ^ 52) = 1).
  { rewrite <- (bpow_IZR 52) by lia. rewrite <- bpow_add. reflexivity. }
  assert (Hp52 : 0 < bpow (-52)) by apply bpow_pos.
  assert (Hue : u <= bpow (-52) * x).
  { apply Rle_trans with (bpow (-52) * a); [|nra].
    apply Rle_trans with (bpow (-52) * (IZR (2 ^ 52) * u)); [|nra].
    rewrite <- Rmult_assoc, Heps. lra. }
  assert (Hval : IZR (Zpos m') * bpow e' = a \/ IZR (Zpos m') * bpow e' = a + u).
  { destruct Hcases as [[H1 H2]|[[H1 H2]|(H0 & H1 & H2)]].
    - left. unfold a, u. by rewrite H1, H2.
    - right. unfold a, u. rewrite H1, H2, plus_IZR. ring.
    - right. unfold a. rewrite H1, H2, bpow_add. fold u.
      replace (bpow 1) with 2 by (unfold bpow; simpl; lra).
      assert (Hm : IZR m1 + 1 = IZR (2 ^ 53)) by (rewrite <- H0, plus_IZR; done).
      change (2 ^ 53)%Z with (2 * 2 ^ 52)%Z in Hm. rewrite mult_IZR in Hm.
      nra. }
  split.
  - destruct Hcases as [[_ H2]|[[_ H2]|(_ & _ & H2)]]; unfold e1, n in H2; lia.
  - destruct Hval as [-> | ->]; nra.
Qed.

(** The real value of a positive [double] with a mantissa of 53 digits. *)
Lemma SF2R_pos m e : SF2R (S754_finite false m e) = IZR (Zpos m) * bpow e.
Proof. reflexivity. Qed.

Lemma SF2R_neg m e : SF2R (S754_finite true m e) = - (IZR (Zpos m) * bpow e).
Proof. unfold SF2R. cbn [cond_Zopp]. rewrite opp_IZR. ring. Qed.

Lemma SF2R_pos_gt m e : 0 < IZR (Zpos m) * bpow e.
Proof.
  pose proof (bpow_pos e). assert (0 < IZR (Zpos m)) by (apply IZR_lt; lia).
  nra.
Qed.
End RealValue.

(** ** The [double] operations of the histogram loop *)

Section DoubleOps.
Local Open Scope R_scope.

Lemma nat_iter_xO_val n m :
  Zpos (Nat.iter n xO m) = (Zpos m * 2 ^ Z.of_nat n)%Z.
Proof.
  induction n as [|n IH]; [simpl; lia|].
  change (Nat.iter (S n) xO m) with (xO (Nat.iter n xO m)).
  rewrite Pos2Z.inj_xO, IH, Nat2Z.inj_succ, Z.pow_succ_r by lia. lia.
Qed.

(** [shl_align] lowers the exponent to the smaller of the two and shifts
    the mantissa to match. *)
Lemma shl_align_spec m e e' :
  let r := shl_align m e e' in
  snd r = Z.min e e' /\ Zpos (fst r) = (Zpos m * 2 ^ (e - snd r))%Z.
Proof.
  unfold shl_align. destruct (e' - e)%Z as [|p|p] eqn:E; cbn [fst snd].
  - split; [lia|]. rewrite Z.sub_diag. simpl. lia.
  - split; [lia|]. rewrite Z.sub_diag. simpl. lia.
  - split; [lia|]. rewrite Pos2Nat.inj_iter.
    change (nat_rect (fun _ => positive) m (fun _ => xO) (Pos.to_nat p))
      with (Nat.iter (Pos.to_nat p) xO m).
    rewrite nat_iter_xO_val, positive_nat_Z. f_equal. f_equal. lia.
Qed.

Lemma digits2_pos_le_of_lt m k :
  (0 <= k)%Z -> (Zpos m < 2 ^ k)%Z -> (Zpos (digits2_pos m) <= k)%Z.
Proof.
  intros Hk Hm. pose proof (digits2_pos_bounds m) as [Hlo _].
  destruct (Z.leb_spec (Zpos (digits2_pos m)) k) as [|Hgt]; [done|].
  assert (2 ^ k <= 2 ^ (Zpos (digits2_pos m) - 1))%Z
    by (apply Z.pow_le_mono_r; lia).
  lia.
Qed.

Lemma digits2_pos_ge_of_le m k :
  (2 ^ (k - 1) <= Zpos m)%Z -> (k <= Zpos (digits2_pos m))%Z.
Proof.
  intros Hm. pose proof (digits2_pos_bounds m) as [_ Hhi].
  pose proof (Pos2Z.is_pos (digits2_pos m)).
  destruct (Z.leb_spec k (Zpos (digits2_pos m))) as [|Hgt]; [done|].
  assert (2 ^ Zpos (digits2_pos m) <= 2 ^ (k - 1))%Z
    by (apply Z.pow_le_mono_r; lia).
  lia.
Qed.

Lemma bpow_eps_lt_1 : bpow (-52) < 1.
Proof.
  pose proof (bpow_add 52 (-52)) as H. change (bpow (52 + -52)) with 1 in H.
  pose proof (bpow_pos (-52)).
  assert (2 <= bpow 52) by (rewrite bpow_IZR by lia; apply IZR_le; lia).
  nra.
Qed.

(** The rounding of a positive integer multiple of a power of two. *)
Lemma binary_round_error (p : positive) e :
  (-1021 <= Zpos (digits2_pos p) + e <= 1023)%Z ->
  exists m' e',
    binary_round F64.prec F64.emax false p e = S754_finite false m' e'
    /\ (2 ^ 52 <= Zpos m' < 2 ^ 53)%Z
    /\ (Zpos (digits2_pos p) + e - 53 <= e'
        <= Zpos (digits2_pos p) + e - 52)%Z
    /\ IZR (Zpos p) * bpow e * (1 - bpow (-52))
       <= IZR (Zpos m') * bpow e'
       <= IZR (Zpos p) * bpow e * (1 + bpow (-52)).
Proof.
  intros Hr. unfold binary_round.
  set (d := Zpos (digits2_pos p)) in *.
  assert (Hfexp : fexp F64.prec F64.emax (d + e) = (d + e - 53)%Z)
    by (unfold fexp, emin, F64.prec, F64.emax; lia).
  rewrite Hfexp.
  pose proof (shl_align_spec p e (d + e - 53)) as [He2 Hm2]. cbv zeta in *.
  destruct (shl_align p e (d + e - 53)) as [mz ez]. cbn [fst snd] in He2, Hm2.
  pose proof (digits2_pos_bounds p) as [Hplo Hphi]. fold d in Hplo, Hphi.
  pose proof (Pos2Z.is_pos (digits2_pos p)) as Hd0. fold d in Hd0.
  assert (Hsh : (0 <= e - ez)%Z) by lia.
  assert (Hdz : Zpos (digits2_pos mz) = (d + (e - ez))%Z).
  { apply digits2_pos_unique. rewrite Hm2.
    assert (H1 : (2 ^ (d + (e - ez) - 1) = 2 ^ (d - 1) * 2 ^ (e - ez))%Z)
      by (rewrite <- Z.pow_add_r by lia; f_equal; lia).
    assert (H2 : (2 ^ (d + (e - ez)) = 2 ^ d * 2 ^ (e - ez))%Z)
      by (rewrite <- Z.pow_add_r by lia; f_equal; lia).
    assert (0 < 2 ^ (e - ez))%Z by (apply Z.pow_pos_nonneg; lia).
    rewrite H1, H2. nia. }
  assert (Hval : IZR (Zpos mz) * bpow ez = IZR (Zpos p) * bpow e).
  { rewrite Hm2. replace ez with (e - (e - ez))%Z at 2 by lia.
    by apply bpow_shift. }
  destruct (binary_round_aux_error false mz ez loc_Exact
              (IZR (Zpos p) * bpow e)) as (m' & e' & Hres & Hm' & He' & Herr).
  - rewrite Hdz. lia.
  - rewrite Hdz. lia.
  - rewrite Hdz. lia.
  - rewrite <- Hval. split; [lra|]. rewrite plus_IZR.
    pose proof (bpow_pos ez). nra.
  - exists m', e'. split; [exact Hres|]. split; [exact Hm'|].
    split; [rewrite Hdz in He'; lia|exact Herr].
Qed.

(** The signed mantissa of a [double] at a lower exponent. *)
Lemma aligned_value s m e ez :
  (ez <= e)%Z ->
  IZR (cond_Zopp s (Zpos (fst (shl_align m e ez)))) * bpow ez
  = SF2R (S754_finite s m e).
Proof.
  intros Hez. pose proof (shl_align_spec m e ez) as [He Hm]. cbv zeta in *.
  rewrite Z.min_r in He by done. rewrite He in Hm.
  unfold SF2R. destruct s; cbn [cond_Zopp]; rewrite ?opp_IZR, Hm;
    pose proof (bpow_shift (Zpos m) (e - ez) e ltac:(lia)) as Hs;
    replace (e - (e - ez))%Z with ez in Hs by lia; lra.
Qed.

Lemma from_float_value_bound s m e :
  from_float (S754_finite s m e) ->
  Rabs (SF2R (S754_finite s m e)) < bpow 128.
Proof.
  intros [[_ Hm] [_ He]].
  assert (H1 : IZR (Zpos m) < IZR (2 ^ 53)) by (by apply IZR_lt).
  rewrite <- (bpow_IZR 53) in H1 by lia.
  assert (H2 : bpow e <= bpow 75) by (by apply bpow_le).
  assert (H3 : bpow 53 * bpow 75 = bpow 128) by (by rewrite <- bpow_add).
  pose proof (bpow_pos e). pose proof (SF2R_pos_gt m e).
  assert (Habs : Rabs (SF2R (S754_finite s m e)) = IZR (Zpos m) * bpow e).
  { destruct s; [rewrite SF2R_neg, Rabs_Ropp|rewrite SF2R_pos];
      apply Rabs_pos_eq; lra. }
  rewrite Habs. pose proof (bpow_pos 53). nra.
Qed.

(** The difference of two [double]s that come from [float]s, the first
    one the larger: a zero when they are equal, and otherwise a positive
    [double] within [2^-52] of the difference. *)
Lemma SFsub_error x y :
  from_float x -> from_float y -> SF2R y <= SF2R x ->
  let r := F64.sub x y in
  ((exists s, r = S754_zero s) /\ SF2R x = SF2R y)
  \/ (exists m e,
        r = S754_finite false m e
        /\ (2 ^ 52 <= Zpos m < 2 ^ 53)%Z /\ (-260 <= e <= 80)%Z
        /\ 0 < SF2R x - SF2R y
        /\ (SF2R x - SF2R y) * (1 - bpow (-52))
           <= SF2R r <= (SF2R x - SF2R y) * (1 + bpow (-52))).
Proof.
  intros Hx Hy Hle r. pose proof (bpow_pos (-52)) as Heps.
  pose proof bpow_eps_lt_1 as Heps1.
  destruct x as [sx|sx| |sx mx ex]; try done;
    destruct y as [sy|sy| |sy my ey]; try done.
  - left. split; [|done]. unfold r, F64.sub, SFsub.
    destruct sx, sy; eauto.
  - (* 0 - y *)
    right. destruct Hy as [Hm He].
    assert (sy = true) as ->.
    { destruct sy; [done|]. rewrite SF2R_pos in Hle. simpl SF2R in Hle.
      pose proof (SF2R_pos_gt my ey). lra. }
    exists my, ey. unfold r, F64.sub, SFsub. cbn [negb].
    split; [done|]. split; [done|]. split; [lia|].
    rewrite SF2R_neg, SF2R_pos. simpl SF2R.
    pose proof (SF2R_pos_gt my ey). split; [lra|]. split; nra.
  - (* x - 0 *)
    right. destruct Hx as [Hm He].
    assert (sx = false) as ->.
    { destruct sx; [|done]. rewrite SF2R_neg in Hle. simpl SF2R in Hle.
      pose proof (SF2R_pos_gt mx ex). lra. }
    exists mx, ex. unfold r, F64.sub, SFsub.
    split; [done|]. split; [done|]. split; [lia|].
    rewrite SF2R_pos. simpl SF2R.
    pose proof (SF2R_pos_gt mx ex). split; [lra|]. split; nra.
  - (* both finite *)
    pose proof (from_float_value_bound sx mx ex Hx) as Hbx.
    pose proof (from_float_value_bound sy my ey Hy) as Hby.
    destruct Hx as [Hmx Hex], Hy as [Hmy Hey].
    unfold r, F64.sub, SFsub.
    set (ez := Z.min ex ey).
    set (zx := cond_Zopp sx (Zpos (fst (shl_align mx ex ez)))).
    set (zy := cond_Zopp sy (Zpos (fst (shl_align my ey ez)))).
    assert (Hvx : IZR zx * bpow ez = SF2R (S754_finite sx mx ex))
      by (apply aligned_value; unfold ez; lia).
    assert (Hvy : IZR zy * bpow ez = SF2R (S754_finite sy my ey))
      by (apply aligned_value; unfold ez; lia).
    set (X := SF2R (S754_finite sx mx ex)) in *.
    set (Y := SF2R (S754_finite sy my ey)) in *.
    assert (Hdiff : IZR (zx - zy) * bpow ez = X - Y)
      by (rewrite minus_IZR; lra).
    pose proof (bpow_pos ez) as Hbz.
    destruct (zx - zy)%Z as [|p|p] eqn:Ez.
    + left. split; [eauto|]. simpl in Hdiff. lra.
    + right. cbn [binary_normalize].
      assert (Hplt : IZR (Zpos p) * bpow ez < bpow 129).
      { rewrite Hdiff. replace 129%Z with (128 + 1)%Z by lia.
        rewrite bpow_add. replace (bpow 1) with 2 by (unfold bpow; simpl; lra).
        apply Rabs_def2 in Hbx, Hby. lra. }
      assert (Hdp : (Zpos (digits2_pos p) + ez <= 129)%Z).
      { assert (Hlt : (Zpos p < 2 ^ (129 - ez))%Z).
        { apply lt_IZR. rewrite <- bpow_IZR by (unfold ez; lia).
          apply Rmult_lt_reg_r with (bpow ez); [done|].
          rewrite <- bpow_add. replace (129 - ez + ez)%Z with 129%Z by lia.
          done. }
        pose proof (digits2_pos_le_of_lt p (129 - ez) ltac:(unfold ez; lia) Hlt).
        lia. }
      pose proof (Pos2Z.is_pos (digits2_pos p)) as Hd0.
      destruct (binary_round_error p ez) as (m' & e' & Hres & Hm' & He' & Herr);
        [unfold ez in *; lia|].
      exists m', e'. split; [exact Hres|]. split; [exact Hm'|].
      split; [unfold ez in *; lia|].
      rewrite Hdiff in Herr.
      assert (0 < IZR (Zpos p)) by (apply IZR_lt; lia).
      split; [rewrite <- Hdiff; nra|].
      rewrite Hres, SF2R_pos. exact Herr.
    + exfalso. assert (IZR (Zneg p) < 0) by (apply IZR_lt; lia). nra.
Qed.
End DoubleOps.

Section DoubleProducts.
Local Open Scope R_scope.

(** The product of two positive normal [double]s. *)
Lemma SFmul_error mb eb md ed :
  (2 ^ 52 <= Zpos mb < 2 ^ 53)%Z -> (2 ^ 52 <= Zpos md < 2 ^ 53)%Z ->
  (-900 <= eb + ed <= 900)%Z ->
  let x := IZR (Zpos mb) * bpow eb * (IZR (Zpos md) * bpow ed) in
  exists m e,
    F64.mul (S754_finite false mb eb) (S754_finite false md ed)
    = S754_finite false m e
    /\ (2 ^ 52 <= Zpos m < 2 ^ 53)%Z
    /\ (eb + ed + 52 <= e <= eb + ed + 54)%Z
    /\ x * (1 - bpow (-52)) <= IZR (Zpos m) * bpow e <= x * (1 + bpow (-52)).
Proof.
  intros Hb Hd He x. unfold F64.mul, SFmul. cbn [xorb].
  assert (Hlo : (2 ^ 104 <= Zpos (mb * md))%Z).
  { rewrite Pos2Z.inj_mul. change (2 ^ 104)%Z with (2 ^ 52 * 2 ^ 52)%Z. nia. }
  assert (Hhi : (Zpos (mb * md) < 2 ^ 106)%Z).
  { rewrite Pos2Z.inj_mul. change (2 ^ 106)%Z with (2 ^ 53 * 2 ^ 53)%Z. nia. }
  pose proof (digits2_pos_ge_of_le (mb * md) 105 Hlo) as Hd1.
  pose proof (digits2_pos_le_of_lt (mb * md) 106 ltac:(lia) Hhi) as Hd2.
  assert (Hx : x = IZR (Zpos (mb * md)) * bpow (eb + ed)).
  { unfold x. rewrite Pos2Z.inj_mul, mult_IZR, bpow_add. ring. }
  destruct (binary_round_aux_error false (mb * md) (eb + ed) loc_Exact x)
    as (m & e & Hres & Hm & Hex & Herr); try lia.
  - rewrite Hx. split; [lra|]. rewrite plus_IZR.
    pose proof (bpow_pos (eb + ed)). nra.
  - exists m, e. split; [done|]. split; [done|]. split; [lia|done].
Qed.

(** The quotient of two positive normal [double]s. *)
Lemma SFdiv_error mp ep mr er :
  (2 ^ 52 <= Zpos mp < 2 ^ 53)%Z -> (2 ^ 52 <= Zpos mr < 2 ^ 53)%Z ->
  (-900 <= ep - er <= 900)%Z ->
  let x := IZR (Zpos mp) * bpow ep / (IZR (Zpos mr) * bpow er) in
  exists m e,
    F64.div (S754_finite false mp ep) (S754_finite false mr er)
    = S754_finite false m e
    /\ (2 ^ 52 <= Zpos m < 2 ^ 53)%Z
    /\ (ep - er - 53 <= e <= ep - er - 51)%Z
    /\ x * (1 - bpow (-52)) <= IZR (Zpos m) * bpow e <= x * (1 + bpow (-52)).
Proof.
  intros Hp Hr He x. unfold F64.div, SFdiv. cbn [xorb].
  set (a := (Zpos mp * 2 ^ 53)%Z).
  assert (Hcore : SFdiv_core_binary F64.prec F64.emax (Zpos mp) ep (Zpos mr) er
                  = (a / Zpos mr, ep - er - 53,
                     new_location (Zpos mr) (a mod Zpos mr))%Z).
  { unfold SFdiv_core_binary. cbn [Zdigits2].
    rewrite (digits2_pos_unique mp 53), (digits2_pos_unique mr 53) by done.
    replace (Z.min (fexp F64.prec F64.emax (53 + ep - (53 + er))) (ep - er))
      with (ep - er - 53)%Z
      by (unfold fexp, emin, F64.prec, F64.emax; lia).
    replace (ep - er - (ep - er - 53))%Z with 53%Z by lia.
    rewrite Z.shiftl_mul_pow2 by lia. fold a.
    unfold Z.div, Z.modulo. by destruct (Z.div_eucl a (Zpos mr)). }
  rewrite Hcore.
  pose proof (Z_div_mod_eq_full a (Zpos mr)) as Hdm.
  pose proof (Z.mod_pos_bound a (Zpos mr) ltac:(lia)) as Hmod.
  set (q := (a / Zpos mr)%Z) in *. set (r := (a mod Zpos mr)%Z) in *.
  assert (Ha : (2 ^ 105 <= a < 2 ^ 106)%Z).
  { unfold a. change (2 ^ 105)%Z with (2 ^ 52 * 2 ^ 53)%Z.
    change (2 ^ 106)%Z with (2 ^ 53 * 2 ^ 53)%Z. lia. }
  assert (Hq : (2 ^ 52 <= q < 2 ^ 54)%Z).
  { split.
    - apply Z.div_le_lower_bound; [lia|].
      change (2 ^ 105)%Z with (2 ^ 53 * 2 ^ 52)%Z in Ha. nia.
    - apply Z.div_lt_upper_bound; [lia|].
      change (2 ^ 106)%Z with (2 ^ 52 * 2 ^ 54)%Z in Ha. nia. }
  destruct q as [|qp|qp] eqn:Eq; try lia.
  pose proof (digits2_pos_ge_of_le qp 53 ltac:(lia)) as Hd1.
  pose proof (digits2_pos_le_of_lt qp 54 ltac:(lia) ltac:(lia)) as Hd2.
  assert (Hx : x = IZR a / IZR (Zpos mr) * bpow (ep - er - 53)).
  { unfold x, a. rewrite mult_IZR, <- (bpow_IZR 53) by lia.
    replace ep with ((ep - er - 53) + 53 + er)%Z at 1 by lia.
    rewrite !bpow_add. field.
    pose proof (bpow_pos er). assert (0 < IZR (Zpos mr)) by (apply IZR_lt; lia).
    split; lra. }
  assert (Hmr : 0 < IZR (Zpos mr)) by (apply IZR_lt; lia).
  assert (HaR : IZR a = IZR (Zpos mr) * IZR (Zpos qp) + IZR r)
    by (rewrite Hdm, plus_IZR, mult_IZR; reflexivity).
  assert (Hr0 : 0 <= IZR r < IZR (Zpos mr))
    by (split; [apply IZR_le|apply IZR_lt]; lia).
  assert (Hquot : IZR (Zpos qp) <= IZR a / IZR (Zpos mr) < IZR (Zpos qp) + 1).
  { split.
    - apply Rmult_le_reg_r with (IZR (Zpos mr)); [done|].
      unfold Rdiv. rewrite Rmult_assoc, Rinv_l by lra. nra.
    - apply Rmult_lt_reg_r with (IZR (Zpos mr)); [done|].
      unfold Rdiv. rewrite Rmult_assoc, Rinv_l by lra. nra. }
  destruct (binary_round_aux_error false qp (ep - er - 53)
              (new_location (Zpos mr) r) x)
    as (m & e & Hres & Hm & Hex & Herr); try lia.
  - rewrite Hx, plus_IZR. pose proof (bpow_pos (ep - er - 53)) as Hpos.
    clear - Hpos Hquot. split; nra.
  - exists m, e. split; [done|]. split; [done|]. split; [lia|done].
Qed.

(** The conversion of a bin count to [double]. *)
Lemma of_Z_error B :
  (1 <= B <= INT_MAX)%Z ->
  exists m e,
    F64.of_Z B = S754_finite false m e
    /\ (2 ^ 52 <= Zpos m < 2 ^ 53)%Z /\ (-52 <= e <= -21)%Z
    /\ IZR B * (1 - bpow (-52)) <= IZR (Zpos m) * bpow e
       <= IZR B * (1 + bpow (-52)).
Proof.
  intros HB. destruct B as [|p|p]; try lia.
  unfold F64.of_Z. cbn [binary_normalize].
  pose proof (digits2_pos_le_of_lt p 31 ltac:(lia)
                ltac:(unfold INT_MAX in HB; lia)) as Hd.
  pose proof (Pos2Z.is_pos (digits2_pos p)) as Hd0.
  destruct (binary_round_error p 0) as (m & e & Hres & Hm & He & Herr);
    [lia|].
  exists m, e. split; [done|]. split; [done|]. split; [lia|].
  change (bpow 0) with 1 in Herr. rewrite Rmult_1_r in Herr. exact Herr.
Qed.

(** The order of two [double]s that come from [float]s is the order of
    the reals they stand for. *)
Lemma normal_lt_exponent mx ex my ey :
  (Zpos mx < 2 ^ 53)%Z -> (2 ^ 52 <= Zpos my)%Z -> (ex < ey)%Z ->
  IZR (Zpos mx) * bpow ex < IZR (Zpos my) * bpow ey.
Proof.
  intros Hx Hy He.
  assert (H1 : IZR (Zpos mx) < IZR (2 ^ 53)) by (by apply IZR_lt).
  assert (H2 : IZR (2 ^ 52) <= IZR (Zpos my)) by (by apply IZR_le).
  pose proof (bpow_le (ex + 1) ey ltac:(lia)) as H3.
  rewrite bpow_add in H3.
  replace (bpow 1) with 2 in H3 by (unfold bpow; simpl; lra).
  change (2 ^ 53)%Z with (2 * 2 ^ 52)%Z in H1. rewrite mult_IZR in H1.
  pose proof (bpow_pos ex). assert (0 < IZR (2 ^ 52)) by (apply IZR_lt; lia).
  apply Rlt_le_trans with (2 * IZR (2 ^ 52) * bpow ex); [nra|].
  apply Rle_trans with (IZR (Zpos my) * (bpow ex * 2)); [nra|].
  apply Rmult_le_compat_l; lra.
Qed.

Lemma normal_le_value mx ex my ey :
  (2 ^ 52 <= Zpos mx < 2 ^ 53)%Z -> (2 ^ 52 <= Zpos my < 2 ^ 53)%Z ->
  lex3 (1, ex, Zpos mx)%Z (1, ey, Zpos my)%Z <> Gt ->
  IZR (Zpos mx) * bpow ex <= IZR (Zpos my) * bpow ey.
Proof.
  intros Hx Hy Hl. unfold lex3 in Hl.
  destruct (Z.compare_spec ex ey) as [->|Hlt|Hgt].
  - assert (Zpos mx <= Zpos my)%Z.
    { revert Hl. cbn. rewrite Z.compare_refl.
      destruct (Z.compare_spec (Zpos mx) (Zpos my)); try done; lia. }
    pose proof (bpow_pos ey). assert (IZR (Zpos mx) <= IZR (Zpos my))
      by (by apply IZR_le). nra.
  - left. apply normal_lt_exponent; lia.
  - exfalso. revert Hl. cbn. apply Z.compare_gt_iff in Hgt. by rewrite Hgt.
Qed.
End DoubleProducts.

(** ** The bin index of a pixel *)

Section BinIndex.
Local Open Scope R_scope.

Lemma from_float_not_nan x : from_float x -> isnan x = false.
Proof. by destruct x. Qed.

(** A [float] that is a number converts to a [double] of the shape
    [from_float]. *)
Lemma from_float_of_float v :
  valid_float v = true -> is_number v = true ->
  from_float (float_to_double v).
Proof.
  destruct v as [s|s| |s m e]; try done. intros Hv _.
  rewrite float_to_double_finite by done. cbv zeta.
  apply valid_float_finite in Hv as (Hd & He & _).
  pose proof (Pos2Z.is_pos (digits2_pos m)) as Hd0.
  set (n := Z.to_nat (53 - Zpos (digits2_pos m))).
  pose proof (digits2_pos_bounds (Nat.iter n xO m)) as Hb.
  rewrite nat_iter_xO_digits in Hb.
  replace (Zpos (digits2_pos m) + Z.of_nat n)%Z with 53%Z in Hb
    by (unfold n; lia).
  split; [exact Hb|]. unfold n. lia.
Qed.

Lemma SFleb_SF2R x y :
  from_float x -> from_float y -> SFleb x y = true -> SF2R x <= SF2R y.
Proof.
  intros Hx Hy Hle.
  apply SFleb_key in Hle; [|by apply from_float_not_nan..].
  destruct x as [sx|sx| |sx mx ex]; try done;
    destruct y as [sy|sy| |sy my ey]; try done.
  - destruct sy; [by exfalso; apply Hle|].
    rewrite SF2R_pos. pose proof (SF2R_pos_gt my ey). simpl SF2R. lra.
  - destruct sx; [|by exfalso; apply Hle].
    rewrite SF2R_neg. pose proof (SF2R_pos_gt mx ex). simpl SF2R. lra.
  - destruct Hx as [Hmx _], Hy as [Hmy _].
    pose proof (SF2R_pos_gt mx ex). pose proof (SF2R_pos_gt my ey).
    destruct sx, sy; rewrite ?SF2R_pos, ?SF2R_neg.
    + apply Ropp_le_contravar. apply normal_le_value; [done..|].
      intros Hgt. apply Hle. revert Hgt. unfold lex3, SFkey.
      cbn [fst snd]. rewrite Z.compare_opp.
      change (Zneg mx ?= Zneg my)%Z with (CompOpp (mx ?= my)%positive).
      change (Zpos my ?= Zpos mx)%Z with (my ?= mx)%positive.
      rewrite (Pos.compare_antisym my mx).
      by destruct (ey ?= ex)%Z, (my ?= mx)%positive.
    + lra.
    + by exfalso; apply Hle.
    + by apply normal_le_value.
Qed.

(** The cast to [int] of a positive [double] below [K + 1]. *)
Lemma double_to_int_bound m e K :
  (0 <= K <= INT_MAX)%Z -> IZR (Zpos m) * bpow e < IZR (K + 1) ->
  exists n, double_to_int (S754_finite false m e) = Some n /\ (0 <= n <= K)%Z.
Proof.
  intros HK Hlt. unfold double_to_int. cbn [cond_Zopp].
  set (t := match e with
            | Zneg p => Z.shiftr (Zpos m) (Zpos p)
            | _ => Z.shiftl (Zpos m) e
            end).
  assert (Ht : (0 <= t)%Z /\ IZR t <= IZR (Zpos m) * bpow e).
  { unfold t. destruct e as [|p|p].
    - rewrite Z.shiftl_0_r. change (bpow 0) with 1. split; [lia|lra].
    - rewrite Z.shiftl_mul_pow2 by lia. split; [lia|].
      rewrite mult_IZR, <- bpow_IZR by lia. lra.
    - rewrite Z.shiftr_div_pow2 by lia.
      assert (Hp : (0 < 2 ^ Zpos p)%Z) by (apply Z.pow_pos_nonneg; lia).
      split; [apply Z.div_pos; lia|].
      pose proof (Z.mul_div_le (Zpos m) (2 ^ Zpos p) Hp) as Hdiv.
      apply IZR_le in Hdiv. rewrite mult_IZR, <- bpow_IZR in Hdiv by lia.
      change (Zneg p) with (- Zpos p)%Z. rewrite bpow_opp.
      pose proof (bpow_pos (Zpos p)) as Hb.
      apply Rmult_le_reg_r with (bpow (Zpos p)); [done|].
      rewrite Rmult_assoc, Rinv_l by lra. lra. }
  destruct Ht as [Ht0 Htv].
  assert (Htk : (t < K + 1)%Z) by (apply lt_IZR; lra).
  exists t.
  replace ((INT_MIN <=? t)%Z && (t <=? INT_MAX)%Z) with true; [split; [done|lia]|].
  symmetry. apply andb_true_intro. unfold INT_MIN, INT_MAX in *.
  split; [apply Z.leb_le|apply Z.leb_le]; lia.
Qed.

(** Four roundings of a quotient that is at most [B] stay below [B + 1]. *)
Lemma four_roundings B d rg bb p q :
  1 <= B <= 2147483647 ->
  0 < d -> 0 < rg -> d <= rg ->
  let eps := bpow (-52) in
  bb <= B * (1 + eps) ->
  p <= bb * (d * (1 + eps)) * (1 + eps) ->
  q <= p / (rg * (1 - eps)) * (1 + eps) ->
  q < B + 1.
Proof.
  intros HB Hd Hrg Hle eps Hbb Hp Hq.
  assert (He : eps * 4503599627370496 = 1).
  { assert (Hb : bpow 52 = 4503599627370496)
      by (rewrite bpow_IZR by lia; reflexivity).
    pose proof (bpow_add 52 (-52)) as H. change (bpow (52 + -52)) with 1 in H.
    rewrite Hb in H. unfold eps. lra. }
  assert (He0 : 0 < eps) by apply bpow_pos.
  assert (He1 : eps < 1) by lra.
  assert (Hden : 0 < rg * (1 - eps)) by (apply Rmult_lt_0_compat; lra).
  assert (Hp' : p <= B * d * ((1 + eps) * (1 + eps) * (1 + eps))).
  { set (k := d * (1 + eps) * (1 + eps)).
    assert (Hk : 0 < k) by (unfold k; repeat apply Rmult_lt_0_compat; lra).
    apply Rle_trans with (bb * k);
      [replace (bb * k) with (bb * (d * (1 + eps)) * (1 + eps))
         by (unfold k; ring); exact Hp|].
    replace (B * d * ((1 + eps) * (1 + eps) * (1 + eps)))
      with (B * (1 + eps) * k) by (unfold k; ring).
    apply Rmult_le_compat_r; lra. }
  assert (Hq' : q * (rg * (1 - eps)) <= p * (1 + eps)).
  { apply Rmult_le_reg_r with (/ (rg * (1 - eps))); [by apply Rinv_0_lt_compat|].
    rewrite Rmult_assoc, Rinv_r, Rmult_1_r by lra.
    replace (p * (1 + eps) * / (rg * (1 - eps)))
      with (p / (rg * (1 - eps)) * (1 + eps)) by (unfold Rdiv; ring).
    exact Hq. }
  assert (H4 : (1 + eps) * (1 + eps) * (1 + eps) * (1 + eps) <= 1 + 5 * eps) by nra.
  assert (Hq'' : q * (rg * (1 - eps)) <= B * d * (1 + 5 * eps)).
  { apply Rle_trans with (p * (1 + eps)); [done|].
    apply Rle_trans with (B * d * ((1 + eps) * (1 + eps) * (1 + eps)) * (1 + eps));
      [nra|].
    replace (B * d * ((1 + eps) * (1 + eps) * (1 + eps)) * (1 + eps))
      with (B * d * ((1 + eps) * (1 + eps) * (1 + eps) * (1 + eps))) by ring.
    apply Rmult_le_compat_l; [nra|done]. }
  assert (Hkey : B * (1 + 5 * eps) < (B + 1) * (1 - eps)) by nra.
  apply Rmult_lt_reg_r with (rg * (1 - eps)); [done|].
  apply Rle_lt_trans with (B * d * (1 + 5 * eps)); [done|].
  apply Rle_lt_trans with (B * rg * (1 + 5 * eps)).
  - apply Rmult_le_compat_r; [lra|]. apply Rmult_le_compat_l; lra.
  - replace (B * rg * (1 + 5 * eps)) with (rg * (B * (1 + 5 * eps))) by ring.
    replace ((B + 1) * (rg * (1 - eps))) with (rg * ((B + 1) * (1 - eps))) by ring.
    by apply Rmult_lt_compat_l.
Qed.
End BinIndex.

Section BinIndexRange.
Local Open Scope R_scope.

(** A range that does not compare equal to zero is positive. *)
Lemma range_positive lo hi :
  from_float lo -> from_float hi -> F64.leb lo hi = true ->
  F64.eqb (F64.sub hi lo) F64.zero = false -> SF2R lo < SF2R hi.
Proof.
  intros Hlo Hhi Hle Hrange. apply SFleb_SF2R in Hle; [|done..].
  destruct (SFsub_error hi lo Hhi Hlo Hle)
    as [[[s Hz] _]|(mr & er & _ & _ & _ & Hpos & _)]; [|lra].
  cbv zeta in Hz. rewrite Hz in Hrange. by destruct s.
Qed.

(** The bin index of a number [v] between the bounds [lo] and [hi] of a
    range that is not zero: it is computed, and it is a bin. *)
Lemma bin_index_in_range B v lo hi :
  (1 <= B <= INT_MAX)%Z ->
  from_float (float_to_double v) -> from_float lo -> from_float hi ->
  F64.leb lo (float_to_double v) = true ->
  F64.leb (float_to_double v) hi = true ->
  SF2R lo < SF2R hi ->
  exists b, bin_index B v lo (F64.sub hi lo) = Some b /\ (0 <= b <= B - 1)%Z.
Proof.
  intros HB Hv Hlo Hhi Hle1 Hle2 Hrange.
  apply SFleb_SF2R in Hle1; [|done..]. apply SFleb_SF2R in Hle2; [|done..].
  set (X := SF2R (float_to_double v)) in *.
  set (L := SF2R lo) in *. set (H := SF2R hi) in *.
  pose proof bpow_eps_lt_1 as Heps1. pose proof (bpow_pos (-52)) as Heps0.
  destruct (SFsub_error hi lo Hhi Hlo ltac:(fold L H; lra))
    as [[_ Heq]|(mr & er & Hr & Hmr & Her & Hrpos & Hrerr)].
  { fold L H in Hrange, Heq. lra. }
  cbv zeta in Hr, Hrerr. fold L H in Hrpos, Hrerr.
  rewrite Hr in Hrerr |- *. rewrite SF2R_pos in Hrerr.
  destruct (of_Z_error B HB) as (mb & eb & Hb & Hmb & Heb & Hberr).
  unfold bin_index. rewrite Hb.
  destruct (SFsub_error (float_to_double v) lo Hv Hlo Hle1)
    as [[[s Hz] _]|(md & ed & Hd & Hmd & Hed & Hdpos & Hderr)].
  { cbv zeta in Hz. rewrite Hz. exists 0%Z. cbn. split; [f_equal; lia|lia]. }
  cbv zeta in Hd, Hderr. fold X L in Hdpos, Hderr.
  rewrite Hd in Hderr |- *. rewrite SF2R_pos in Hderr.
  destruct (SFmul_error mb eb md ed Hmb Hmd ltac:(lia))
    as (mp & ep & Hp & Hmp & Hep & Hperr).
  rewrite Hp.
  destruct (SFdiv_error mp ep mr er Hmp Hmr ltac:(lia))
    as (mq & eq & Hq & Hmq & Heq & Hqerr).
  rewrite Hq.
  pose proof (SF2R_pos_gt mb eb) as Hb0. pose proof (SF2R_pos_gt mp ep) as Hp0.
  pose proof (SF2R_pos_gt mr er) as Hr0. pose proof (SF2R_pos_gt md ed) as Hd0.
  set (bb := IZR (Zpos mb) * bpow eb) in *.
  set (dd := IZR (Zpos md) * bpow ed) in *.
  set (pp := IZR (Zpos mp) * bpow ep) in *.
  set (rr := IZR (Zpos mr) * bpow er) in *.
  set (qq := IZR (Zpos mq) * bpow eq) in *.
  set (eps := bpow (-52)) in *.
  assert (HBR : 1 <= IZR B <= 2147483647).
  { unfold INT_MAX in HB. split; apply IZR_le; lia. }
  assert (Hlt : qq < IZR B + 1).
  { apply (four_roundings (IZR B) (X - L) (H - L) bb pp qq HBR Hdpos Hrpos
             ltac:(lra)); fold eps.
    - lra.
    - apply Rle_trans with (bb * dd * (1 + eps)); [lra|].
      apply Rmult_le_compat_r; [lra|]. apply Rmult_le_compat_l; lra.
    - apply Rle_trans with (pp / rr * (1 + eps)); [lra|].
      apply Rmult_le_compat_r; [lra|]. unfold Rdiv.
      apply Rmult_le_compat_l; [lra|].
      apply Rinv_le_contravar; [apply Rmult_lt_0_compat; lra|lra]. }
  destruct (double_to_int_bound mq eq B) as (n & Hn & Hnb).
  - unfold INT_MAX in *. lia.
  - rewrite plus_IZR. exact Hlt.
  - rewrite Hn. exists (Z.min (B - 1) n). split; [done|lia].
Qed.
End BinIndexRange.

(** ** Increments in a histogram vector *)

Lemma row_total_insert l b :
  b < length l ->
  row_total (<[b := (l !!! b + 1)%Z]> l) = (row_total l + 1)%Z.
Proof.
  revert b. induction l as [|x l IH]; intros b Hb; [simpl in Hb; lia|].
  destruct b as [|b].
  - unfold row_total. cbn. lia.
  - cbn in Hb. specialize (IH b ltac:(lia)). unfold row_total in *.
    cbn. rewrite <- Z.add_assoc. f_equal. exact IH.
Qed.

Section Rows.
Variable B : nat.

Lemma row_bound r r' : r' < r -> (r' + 1) * B <= r * B.
Proof. intros H. apply Nat.mul_le_mono_r. lia. Qed.

(** An increment in bin [b] of row [r] adds one to the total of that
    row and leaves the other rows as they are. *)
Lemma incr_row (h : list Z) r b :
  b < B -> r * B + b < length h ->
  let h' := <[r * B + b := Z.add (h !!! (r * B + b)) 1]> h in
  length h' = length h
  /\ row_total (take B (drop (r * B) h')) =
     (row_total (take B (drop (r * B) h)) + 1)%Z
  /\ forall r', r' <> r -> take B (drop (r' * B) h') = take B (drop (r' * B) h).
Proof.
  intros Hb Hlen h'. split; [apply length_insert|]. split.
  - unfold h'. rewrite drop_insert_ge by lia.
    replace (r * B + b - r * B) with b by lia.
    rewrite take_insert_lt by done.
    replace (h !!! (r * B + b)) with (take B (drop (r * B) h) !!! b).
    + apply row_total_insert. rewrite length_take, length_drop. lia.
    + rewrite lookup_total_take_lt by done. by rewrite lookup_total_drop.
  - intros r' Hr. unfold h'.
    destruct (Nat.lt_ge_cases r' r) as [Hlt|Hge].
    + pose proof (row_bound r r' Hlt).
      rewrite drop_insert_ge by lia. rewrite take_insert_ge by lia. done.
    + pose proof (row_bound r' r ltac:(lia)).
      rewrite drop_insert_lt by lia. done.
Qed.
End Rows.

(** The increment [h[base + b]++] of the histogram loop, for a bin [b] of
    row [(currentStokes, i)]. *)
Lemma vec_incr_row depth stokes currentStokes numBins (h : list Z) i b :
  currentStokes < stokes -> i < depth ->
  (0 <= b <= numBins - 1)%Z ->
  length h = depth * stokes * Z.to_nat numBins ->
  exists h',
    vec_incr h (row_start depth currentStokes numBins i + b) = Some h'
    /\ length h' = length h
    /\ row_total (hist_row depth currentStokes numBins h' i)
       = (row_total (hist_row depth currentStokes numBins h i) + 1)%Z
    /\ forall z, z < depth -> z <> i ->
         hist_row depth currentStokes numBins h' z
         = hist_row depth currentStokes numBins h z.
Proof.
  intros Hs Hi Hb Hlen.
  set (Bn := Z.to_nat numBins). set (r := currentStokes * depth + i).
  assert (Hidx : (row_start depth currentStokes numBins i + b)%Z
                 = Z.of_nat (r * Bn + Z.to_nat b)).
  { unfold row_start, r, Bn. rewrite Nat2Z.inj_add, !Nat2Z.inj_mul,
      Nat2Z.inj_add, Nat2Z.inj_mul, !Z2Nat.id by lia. ring. }
  assert (HbB : Z.to_nat b < Bn) by (unfold Bn; lia).
  assert (Hr : r < depth * stokes).
  { unfold r. apply Nat.lt_le_trans with (currentStokes * depth + depth); [lia|].
    replace (currentStokes * depth + depth) with (depth * S currentStokes) by lia.
    apply Nat.mul_le_mono_l. lia. }
  assert (Hin : r * Bn + Z.to_nat b < length h).
  { rewrite Hlen. fold Bn.
    apply Nat.lt_le_trans with ((r + 1) * Bn); [lia|].
    apply Nat.mul_le_mono_r. lia. }
  destruct (incr_row Bn h r (Z.to_nat b) HbB Hin) as (Hl & Ht & Ho).
  eexists. split; [|split; [exact Hl|split; [exact Ht|]]].
  - unfold vec_incr. rewrite Hidx, Nat2Z.id.
    replace ((0 <=? Z.of_nat (r * Bn + Z.to_nat b))%Z
             && (Z.of_nat (r * Bn + Z.to_nat b) <? Z.of_nat (length h))%Z)
      with true; [reflexivity|].
    symmetry. apply andb_true_intro. split; [apply Z.leb_le|apply Z.ltb_lt]; lia.
  - intros z Hz Hne. apply Ho. unfold r. lia.
Qed.

(** ** The [int] arithmetic of the histogram loops *)

Lemma int_mul_defined a b :
  (INT_MIN <= a * b <= INT_MAX)%Z -> int_mul a b = Some (a * b)%Z.
Proof.
  intros H. unfold int_mul. cbv zeta.
  replace ((INT_MIN <=? a * b)%Z && (a * b <=? INT_MAX)%Z) with true;
    [reflexivity|].
  symmetry. apply andb_true_intro. split; apply Z.leb_le; lia.
Qed.

Lemma int_loop_fold {T : Type} bound (body : option T -> nat -> option T) st :
  (Z.of_nat bound <= INT_MAX)%Z ->
  int_loop bound body st = fold_left body (seq 0 bound) st.
Proof.
  intros H. unfold int_loop.
  by replace (INT_MAX <? Z.of_nat bound)%Z with false
    by (symmetry; apply Z.ltb_ge; lia).
Qed.

Lemma int_loop_overflow {T : Type} bound (body : option T -> nat -> option T) st :
  (INT_MAX < Z.of_nat bound)%Z -> int_loop bound body st = None.
Proof.
  intros H. unfold int_loop.
  by replace (INT_MAX <? Z.of_nat bound)%Z with true
    by (symmetry; apply Z.ltb_lt; lia).
Qed.

Lemma slice_size_bound width height :
  (Z.of_nat (width * height) <= INT_MAX)%Z ->
  (Z.of_nat (height * width) < 2 ^ 63)%Z.
Proof. unfold INT_MAX. rewrite (Nat.mul_comm height width). lia. Qed.

Lemma depth_int_bound depth numBins :
  (1 <= numBins)%Z -> (Z.of_nat depth * numBins <= INT_MAX)%Z ->
  (Z.of_nat depth <= INT_MAX)%Z.
Proof. intros HB H. unfold INT_MAX in *. nia. Qed.

(** The rows of a histogram whose last row starts at most at [INT_MAX]:
    the [int] product in the index is defined. *)
Lemma hist_row_base_defined depth currentStokes numBins i :
  i < depth -> (1 <= numBins)%Z -> (Z.of_nat depth * numBins <= INT_MAX)%Z ->
  hist_row_base depth currentStokes numBins i
  = Some (row_start depth currentStokes numBins i).
Proof.
  intros Hi HB Hrows. unfold hist_row_base, row_start.
  rewrite int_mul_defined; [reflexivity|].
  unfold INT_MIN, INT_MAX in *. nia.
Qed.

(** ** The pixels of a slice, by their flat index *)

Lemma seq_rows w h :
  seq 0 (w * h) = j ← seq 0 h; (fun k => k + w * j) <$> seq 0 w.
Proof.
  induction h as [|h IH]; [by rewrite Nat.mul_0_r|].
  rewrite seq_S, bind_app. cbn [seq mbind list_bind]. cbn.
  rewrite app_nil_r, <- IH.
  replace (w * S h) with (w * h + w) by lia. rewrite seq_app. f_equal.
  replace (0 + w * h) with (w * h + 0) by lia.
  rewrite <- (fmap_add_seq (w * h) 0 w).
  apply list_fmap_ext. intros _ k _. lia.
Qed.

Lemma fmap_bind_list {A B C} (f : B -> C) (g : A -> list B) (l : list A) :
  f <$> (l ≫= g) = l ≫= (fun x => f <$> g x).
Proof.
  induction l as [|x l IH]; [done|].
  by rewrite !bind_cons, fmap_app, IH.
Qed.

Lemma slice_pixels_flat width height cube i :
  slice_pixels width height cube i
  = (fun j => cube !!! (i * width * height + j)) <$> seq 0 (width * height).
Proof.
  unfold slice_pixels. rewrite seq_rows, fmap_bind_list.
  apply list_bind_ext; [|done]. intros j.
  rewrite <- list_fmap_compose.
  induction (seq 0 width) as [|k l IH]; [done|].
  rewrite bind_cons, fmap_cons, IH. cbn [app]. f_equal.
  unfold sourceIndex. cbn. f_equal. lia.
Qed.

(** ** The mean of a slice of numbers *)

Section FloatMean.
Local Open Scope Z_scope.

(** A count converts to a [float] that is finite and not zero. *)
Lemma F32_of_Z_finite n :
  1 <= n < 2 ^ 63 -> exists m e, F32.of_Z n = S754_finite false m e.
Proof.
  intros Hn. destruct n as [|p|p]; try lia.
  unfold F32.of_Z. cbn [binary_normalize]. unfold binary_round.
  set (d := Zpos (digits2_pos p)).
  pose proof (Pos2Z.is_pos (digits2_pos p)) as Hd0. fold d in Hd0.
  pose proof (digits2_pos_le_of_lt p 63 ltac:(lia) ltac:(lia)) as Hd63.
  fold d in Hd63.
  assert (Hfexp : fexp F32.prec F32.emax (d + 0) = d - 24)
    by (unfold fexp, emin, F32.prec, F32.emax; lia).
  rewrite Hfexp.
  pose proof (shl_align_spec p 0 (d - 24)) as [He2 Hm2]. cbv zeta in *.
  destruct (shl_align p 0 (d - 24)) as [mz ez]. cbn [fst snd] in He2, Hm2.
  pose proof (digits2_pos_bounds p) as [Hplo Hphi]. fold d in Hplo, Hphi.
  assert (Hdz : Zpos (digits2_pos mz) = d + (0 - ez)).
  { apply digits2_pos_unique. rewrite Hm2.
    assert (H1 : 2 ^ (d + (0 - ez) - 1) = 2 ^ (d - 1) * 2 ^ (0 - ez))
      by (rewrite <- Z.pow_add_r by lia; f_equal; lia).
    assert (H2 : 2 ^ (d + (0 - ez)) = 2 ^ d * 2 ^ (0 - ez))
      by (rewrite <- Z.pow_add_r by lia; f_equal; lia).
    assert (0 < 2 ^ (0 - ez)) by (apply Z.pow_pos_nonneg; lia).
    rewrite H1, H2. nia. }
  destruct (binary_round_aux_normal F32.prec F32.emax eq_refl false mz ez
              loc_Exact) as (m' & e' & Hres & _);
    [unfold F32.prec, F32.emax in *; lia..|].
  by exists m', e'.
Qed.

Lemma F32_add_not_nan s v :
  isnan s = false -> is_number v = true -> isnan (F32.add s v) = false.
Proof.
  intros Hs Hv. unfold F32.add.
  destruct s as [ss|ss| |ss ms es]; try done;
    destruct v as [sv|sv| |sv mv ev]; try done.
  - by destruct ss, sv.
  - unfold SFadd. apply binary_normalize_not_nan.
Qed.

Lemma F32_div_not_nan s m e :
  isnan s = false -> isnan (F32.div s (S754_finite false m e)) = false.
Proof.
  intros Hs. unfold F32.div.
  destruct s as [ss|ss| |ss ms es]; try done.
  unfold SFdiv, SFdiv_core_binary.
  set (e' := Z.min _ _). set (m' := match _ with Zpos _ => _ | _ => _ end).
  assert (Hm' : 0 <= m').
  { unfold m'. destruct (es - e - e'); try lia. by apply Z.shiftl_nonneg. }
  pose proof (Z_div_mod m' (Zpos m) eq_refl) as Hdm.
  destruct (Z.div_eucl m' (Zpos m)) as [q r].
  apply binary_round_aux_not_nan. nia.
Qed.

Lemma fold_add_not_nan l a :
  isnan a = false -> (forall v, v ∈ l -> is_number v = true) ->
  isnan (fold_left F32.add l a) = false.
Proof.
  revert a. induction l as [|v l IH]; intros a Ha Hl; [done|].
  cbn [fold_left]. apply IH.
  - apply F32_add_not_nan; [done|]. apply Hl. by left.
  - intros x Hx. apply Hl. by right.
Qed.

(** The mean a slice publishes when its pixels are numbers or NaN and
    one of them is a number: it is not NaN. *)
Lemma published_mean_not_nan width height cube i :
  (forall v, v ∈ non_nan (slice_pixels width height cube i) ->
     is_number v = true) ->
  Z.of_nat (height * width) < 2 ^ 63 ->
  let a := slice_acc width height cube i in
  nanCount a < Z.of_nat (height * width) ->
  isnan (published_mean (Z.of_nat (height * width))
           (Z.of_nat (height * width)) a) = false.
Proof.
  intros Hpx Hsize a Hlt. unfold published_mean.
  replace (nanCount a =? Z.of_nat (height * width)) with false
    by (symmetry; apply Z.eqb_neq; lia).
  cbn [negb].
  assert (H0 : 0 <= nanCount a).
  { unfold a. rewrite nanCount_slice_acc.
    apply (nan_count_bounds (slice_pixels width height cube i)). }
  destruct (F32_of_Z_finite (Z.of_nat (height * width) - nanCount a)
              ltac:(lia)) as (m & e & ->).
  apply F32_div_not_nan. unfold a, slice_acc. rewrite fold_accumulate.
  cbn [sum]. by apply fold_add_not_nan.
Qed.
End FloatMean.

(** ** The histogram loop on a cube without infinite pixels *)

Lemma SFleb_float_to_double x y :
  valid_float x = true -> valid_float y = true ->
  F64.leb (float_to_double x) (float_to_double y) = F32.leb x y.
Proof.
  intros Hx Hy. unfold F64.leb, F32.leb, SFleb.
  by rewrite SFcompare_float_to_double.
Qed.

Section HistogramFacts.
Variables width height depth stokes : nat.
Variable standardCube : list spec_float.
Variable currentStokes : nat.
Variable numBins : Z.
Hypothesis cube_numbers :
  forall v, v ∈ standardCube -> valid_float v = true /\ isinf v = false.
Hypothesis bins : (1 <= numBins <= INT_MAX)%Z.
Hypothesis stokes_bound : currentStokes < stokes.

Lemma cube_lookup_number idx :
  let v := standardCube !!! idx in
  isnan v = false -> valid_float v = true /\ is_number v = true.
Proof.
  intros v Hv. unfold v in *.
  destruct (standardCube !! idx) as [x|] eqn:E.
  - rewrite (list_lookup_total_correct _ _ _ E) in *.
    apply list_elem_of_lookup_2 in E. destruct (cube_numbers x E) as [H1 H2].
    unfold is_number. by rewrite Hv, H2.
  - by rewrite (list_lookup_total_alt standardCube), E in Hv.
Qed.

Lemma slice_pixel_number i v :
  v ∈ non_nan (slice_pixels width height standardCube i) ->
  valid_float v = true /\ is_number v = true.
Proof.
  intros Hv. apply non_nan_elem in Hv as [Hv Hnn].
  rewrite slice_pixels_flat in Hv.
  apply list_elem_of_fmap in Hv as (j & -> & _).
  by apply cube_lookup_number.
Qed.

(** The extremes a slice accumulates are numbers that bound its
    pixels. *)
Lemma slice_extremes_numbers i :
  let a := slice_acc width height standardCube i in
  (valid_float (minVal a) = true /\ is_number (minVal a) = true)
  /\ (valid_float (maxVal a) = true /\ is_number (maxVal a) = true)
  /\ forall v, v ∈ non_nan (slice_pixels width height standardCube i) ->
       F32.leb (minVal a) v = true /\ F32.leb v (maxVal a) = true.
Proof.
  intros a. unfold a, slice_acc. rewrite fold_accumulate. unfold acc0.
  cbn [minVal maxVal].
  set (px := non_nan (slice_pixels width height standardCube i)).
  assert (Hnn : forall x, x ∈ px -> isnan x = false)
    by (intros x Hx; apply non_nan_elem in Hx as [_ Hx]; exact Hx).
  destruct (fold_std_min px F32.max eq_refl Hnn) as [Hmin Hmin'].
  destruct (fold_std_max px (SFopp F32.max) eq_refl Hnn) as [Hmax Hmax'].
  split; [|split].
  - apply elem_of_cons in Hmin as [->|Hmin]; [done|].
    by apply (slice_pixel_number i).
  - apply elem_of_cons in Hmax as [->|Hmax]; [done|].
    by apply (slice_pixel_number i).
  - intros v Hv. split; [apply Hmin'|apply Hmax']; by right.
Qed.

Section Published.
Variables (rot : list float) (xy : xy_stats).
Hypothesis Lmin : length (minValsXY xy) = depth * stokes.
Hypothesis Lmax : length (maxValsXY xy) = depth * stokes.
Hypothesis Lmean : length (meanValsXY xy) = depth * stokes.
Hypothesis Lnan : length (nanValsXY xy) = depth * stokes.

Local Abbreviation xy' :=
  (snd (slice_stats_pass width height depth standardCube currentStokes rot xy)).
Local Abbreviation sliceMin i := (minValsXY xy' !!! (currentStokes * depth + i)).
Local Abbreviation sliceMax i := (maxValsXY xy' !!! (currentStokes * depth + i)).

(** A slice the histogram loop does not skip published the extremes it
    accumulated. *)
Lemma published_extremes i :
  i < depth -> degenerate (sliceMin i) (sliceMax i) = false ->
  let a := slice_acc width height standardCube i in
  sliceMin i = minVal a /\ sliceMax i = maxVal a
  /\ nanValsXY xy' !!! (currentStokes * depth + i) = nanCount a
  /\ (nanCount a < Z.of_nat (height * width))%Z.
Proof.
  intros Hi Hdeg a.
  destruct (slice_stats_at width height depth stokes standardCube currentStokes
              rot xy i stokes_bound Hi Lmin Lmax Lmean Lnan)
    as (Hn & Hmn & Hmx & _ & Hb).
  fold a in Hn, Hmn, Hmx, Hb.
  destruct (Z.eqb_spec (nanCount a) (Z.of_nat (height * width))) as [Heq|Hne].
  - exfalso. rewrite Hmn in Hdeg. unfold published_min in Hdeg.
    rewrite Heq, Z.eqb_refl in Hdeg. discriminate Hdeg.
  - rewrite Hmn, Hmx. unfold published_min, published_max.
    replace (nanCount a =? Z.of_nat (height * width))%Z with false
      by (symmetry; by apply Z.eqb_neq).
    repeat split; try done. lia.
Qed.

(** The bounds of a slice that is not skipped, as the loop reads them. *)
Lemma slice_bounds i v :
  i < depth -> degenerate (sliceMin i) (sliceMax i) = false ->
  v ∈ non_nan (slice_pixels width height standardCube i) ->
  let lo := float_to_double (sliceMin i) in
  let hi := float_to_double (sliceMax i) in
  from_float lo /\ from_float hi /\ from_float (float_to_double v)
  /\ F64.leb lo (float_to_double v) = true
  /\ F64.leb (float_to_double v) hi = true
  /\ (SF2R lo < SF2R hi)%R.
Proof.
  intros Hi Hdeg Hv lo hi.
  destruct (published_extremes i Hi Hdeg) as (Hmn & Hmx & _ & _).
  destruct (slice_extremes_numbers i) as ((Hv1 & Hn1) & (Hv2 & Hn2) & Hle).
  destruct (Hle v Hv) as [Hle1 Hle2].
  destruct (slice_pixel_number i v Hv) as [Hvv Hvn].
  assert (Hlo : from_float lo)
    by (unfold lo; rewrite Hmn; by apply from_float_of_float).
  assert (Hhi : from_float hi)
    by (unfold hi; rewrite Hmx; by apply from_float_of_float).
  assert (Hfv : from_float (float_to_double v)) by (by apply from_float_of_float).
  assert (H1 : F64.leb lo (float_to_double v) = true)
    by (unfold lo; rewrite Hmn, SFleb_float_to_double; done).
  assert (H2 : F64.leb (float_to_double v) hi = true)
    by (unfold hi; rewrite Hmx, SFleb_float_to_double; done).
  repeat split; try done.
  apply range_positive; try done.
  - apply (SFleb_trans _ (float_to_double v)); try done;
      by apply from_float_not_nan.
  - unfold degenerate in Hdeg. fold lo hi in Hdeg.
    by apply orb_false_elim in Hdeg as [_ Hdeg].
Qed.

(** The XY bin of a pixel. *)
Lemma pixel_bin_xy i j :
  i < depth -> degenerate (sliceMin i) (sliceMax i) = false ->
  j < width * height ->
  let v := standardCube !!! (i * width * height + j) in
  isnan v = false ->
  exists b,
    bin_index numBins v (float_to_double (sliceMin i))
      (F64.sub (float_to_double (sliceMax i)) (float_to_double (sliceMin i)))
    = Some b
    /\ (0 <= b <= numBins - 1)%Z.
Proof.
  intros Hi Hdeg Hj v Hv.
  assert (Hin : v ∈ non_nan (slice_pixels width height standardCube i)).
  { apply non_nan_elem. split; [|done]. rewrite slice_pixels_flat.
    apply list_elem_of_fmap. exists j. split; [done|]. apply elem_of_seq. lia. }
  destruct (slice_bounds i v Hi Hdeg Hin) as (Hlo & Hhi & Hfv & H1 & H2 & Hlt).
  by apply bin_index_in_range.
Qed.

(** *** The bounds of the cube *)

Local Abbreviation rows := (rows_with_data width height depth currentStokes xy').
Local Abbreviation cube := (consolidate_loop width height depth currentStokes xy').

Hypothesis size_bound : (Z.of_nat (height * width) < 2 ^ 63)%Z.

Lemma elem_of_rows z :
  z ∈ rows <->
  z < depth
  /\ Z.lt (nanValsXY xy' !!! (currentStokes * depth + z))
       (Z.of_nat (height * width)).
Proof.
  unfold rows_with_data.
  rewrite list_elem_of_In, filter_In, <- list_elem_of_In, elem_of_seq.
  rewrite Z.ltb_lt. intuition lia.
Qed.

Lemma row_published z :
  z ∈ rows ->
  let a := slice_acc width height standardCube z in
  sliceMin z = minVal a /\ sliceMax z = maxVal a.
Proof.
  intros Hz a. apply elem_of_rows in Hz as [Hz Hlt].
  destruct (slice_stats_at width height depth stokes standardCube currentStokes
              rot xy z stokes_bound Hz Lmin Lmax Lmean Lnan)
    as (Hn & Hmn & Hmx & _ & Hb).
  fold a in Hn, Hmn, Hmx, Hb. rewrite Hn in Hlt.
  rewrite Hmn, Hmx. unfold published_min, published_max.
  replace (nanCount a =? Z.of_nat (height * width))%Z with false
    by (symmetry; apply Z.eqb_neq; lia).
  done.
Qed.

Lemma row_extremes z :
  z ∈ rows ->
  (valid_float (sliceMin z) = true /\ is_number (sliceMin z) = true)
  /\ (valid_float (sliceMax z) = true /\ is_number (sliceMax z) = true).
Proof.
  intros Hz. destruct (row_published z Hz) as [-> ->].
  destruct (slice_extremes_numbers z) as (H1 & H2 & _). done.
Qed.

(** Every slice with data has a mean that is not NaN, so the
    consolidation loop takes it. *)
Lemma slice_mean_not_nan z :
  z ∈ rows -> isnan (meanValsXY xy' !!! (currentStokes * depth + z)) = false.
Proof.
  intros Hz. apply elem_of_rows in Hz as [Hz Hlt].
  destruct (slice_stats_at width height depth stokes standardCube currentStokes
              rot xy z stokes_bound Hz Lmin Lmax Lmean Lnan)
    as (Hn & _ & _ & Hmean & _).
  rewrite Hmean. apply published_mean_not_nan; [|done|by rewrite <- Hn].
  intros v Hv. by apply (slice_pixel_number z).
Qed.

Lemma is_number_not_nan x : is_number x = true -> isnan x = false.
Proof. by destruct x. Qed.

Lemma rows_taken : rows_with_mean depth currentStokes xy' (seq 0 depth) = rows.
Proof.
  unfold rows_with_mean, rows_with_data. apply List.filter_ext_in.
  intros z Hz. apply list_elem_of_In, elem_of_seq in Hz.
  destruct (slice_stats_at width height depth stokes standardCube currentStokes
              rot xy z stokes_bound ltac:(lia) Lmin Lmax Lmean Lnan)
    as (Hn & _ & _ & Hmean & Hb).
  set (hw := Z.of_nat (height * width)) in *.
  destruct (Z.ltb_spec (nanValsXY xy' !!! (currentStokes * depth + z)) hw)
    as [Hlt|Hge].
  - rewrite slice_mean_not_nan; [done|]. apply elem_of_rows. split; [lia|done].
  - rewrite Hmean. unfold published_mean. fold hw.
    replace (nanCount (slice_acc width height standardCube z) =? hw)%Z
      with true by (symmetry; apply Z.eqb_eq; lia).
    reflexivity.
Qed.

(** The consolidated extremes are extremes of slices with data, below
    and above the extremes of every such slice. *)
Lemma cube_extremes :
  rows <> [] ->
  (exists z, z ∈ rows /\ xyzMin cube = float_to_double (sliceMin z))
  /\ (exists z, z ∈ rows /\ xyzMax cube = float_to_double (sliceMax z))
  /\ forall z, z ∈ rows ->
       F64.leb (xyzMin cube) (float_to_double (sliceMin z)) = true
       /\ F64.leb (float_to_double (sliceMax z)) (xyzMax cube) = true.
Proof.
  intros Hrows.
  assert (Hd : 0 < depth).
  { destruct rows as [|z l] eqn:E; [done|].
    assert (Hz : z ∈ rows) by (rewrite E; by left).
    apply elem_of_rows in Hz. lia. }
  assert (Hstart : 0 ∈ rows
            \/ (minValsXY xy' !!! (currentStokes * depth) = NAN
                /\ maxValsXY xy' !!! (currentStokes * depth) = NAN)).
  { destruct (slice_stats_at width height depth stokes standardCube
                currentStokes rot xy 0 stokes_bound Hd Lmin Lmax Lmean Lnan)
      as (Hn & Hmn & Hmx & _ & Hb).
    rewrite Nat.add_0_r in Hn, Hmn, Hmx.
    set (hw := Z.of_nat (height * width)) in *.
    destruct (Z.ltb_spec (nanCount (slice_acc width height standardCube 0)) hw)
      as [Hlt|Hge].
    - left. apply elem_of_rows. rewrite Nat.add_0_r, Hn. split; [lia|done].
    - right. rewrite Hmn, Hmx. unfold published_min, published_max.
      replace (nanCount (slice_acc width height standardCube 0) =? hw)%Z
        with true by (symmetry; apply Z.eqb_eq; lia).
      done. }
  destruct (consolidate_extremes width height depth currentStokes xy'
              (seq 0 depth) (xyz_acc0 depth currentStokes xy')) as [Hmin Hmax].
  unfold consolidate_loop. rewrite Hmin, Hmax, rows_taken.
  unfold xyz_acc0. cbn [xyzMin xyzMax].
  set (dmins := map (fun z => float_to_double (sliceMin z)) rows).
  set (dmaxs := map (fun z => float_to_double (sliceMax z)) rows).
  assert (Hdmins : forall x, x ∈ dmins -> isnan x = false).
  { intros x Hx. apply list_elem_of_fmap in Hx as (z & -> & Hz).
    destruct (row_extremes z Hz) as ((Hv & Hnn) & _).
    rewrite isnan_float_to_double by done. by apply is_number_not_nan. }
  assert (Hdmaxs : forall x, x ∈ dmaxs -> isnan x = false).
  { intros x Hx. apply list_elem_of_fmap in Hx as (z & -> & Hz).
    destruct (row_extremes z Hz) as (_ & (Hv & Hnn)).
    rewrite isnan_float_to_double by done. by apply is_number_not_nan. }
  destruct (fold_fmin dmins
              (float_to_double (minValsXY xy' !!! (currentStokes * depth))))
    as [Hrin Hrle]; [done|by destruct rows| |].
  { destruct Hstart as [H0|[-> _]]; [right|by left].
    apply list_elem_of_fmap. exists 0. by rewrite Nat.add_0_r. }
  destruct (fold_fmax dmaxs
              (float_to_double (maxValsXY xy' !!! (currentStokes * depth))))
    as [Hsin Hsle]; [done|by destruct rows| |].
  { destruct Hstart as [H0|[_ ->]]; [right|by left].
    apply list_elem_of_fmap. exists 0. by rewrite Nat.add_0_r. }
  apply list_elem_of_fmap in Hrin as (zmin & Hrmin & Hzmin).
  apply list_elem_of_fmap in Hsin as (zmax & Hrmax & Hzmax).
  split; [by exists zmin|]. split; [by exists zmax|].
  intros z Hz. split.
  - apply Hrle. apply list_elem_of_fmap. by exists z.
  - apply Hsle. apply list_elem_of_fmap. by exists z.
Qed.

Lemma nondegenerate_row i :
  i < depth -> degenerate (sliceMin i) (sliceMax i) = false -> i ∈ rows.
Proof.
  intros Hi Hdeg. destruct (published_extremes i Hi Hdeg) as (_ & _ & Hn & Hlt).
  apply elem_of_rows. rewrite Hn. done.
Qed.

(** The XYZ bin of a pixel. *)
Lemma pixel_bin_xyz i j :
  i < depth -> degenerate (sliceMin i) (sliceMax i) = false ->
  j < width * height ->
  let v := standardCube !!! (i * width * height + j) in
  isnan v = false ->
  exists b,
    bin_index numBins v (xyzMin cube) (F64.sub (xyzMax cube) (xyzMin cube))
    = Some b
    /\ (0 <= b <= numBins - 1)%Z.
Proof.
  intros Hi Hdeg Hj v Hv.
  assert (Hin : v ∈ non_nan (slice_pixels width height standardCube i)).
  { apply non_nan_elem. split; [|done]. rewrite slice_pixels_flat.
    apply list_elem_of_fmap. exists j. split; [done|]. apply elem_of_seq. lia. }
  destruct (slice_bounds i v Hi Hdeg Hin) as (Hlo & Hhi & Hfv & H1 & H2 & Hlt).
  pose proof (nondegenerate_row i Hi Hdeg) as Hrow.
  destruct cube_extremes as ((zmin & Hzmin & Emin) & (zmax & Hzmax & Emax) & Hall).
  { intros E. rewrite E in Hrow. by apply elem_of_nil in Hrow. }
  destruct (Hall i Hrow) as [Hc1 Hc2].
  destruct (row_extremes zmin Hzmin) as ((Hv1 & Hn1) & _).
  destruct (row_extremes zmax Hzmax) as (_ & (Hv2 & Hn2)).
  assert (Hclo : from_float (xyzMin cube))
    by (rewrite Emin; by apply from_float_of_float).
  assert (Hchi : from_float (xyzMax cube))
    by (rewrite Emax; by apply from_float_of_float).
  pose proof (from_float_not_nan _ Hlo). pose proof (from_float_not_nan _ Hhi).
  pose proof (from_float_not_nan _ Hfv). pose proof (from_float_not_nan _ Hclo).
  pose proof (from_float_not_nan _ Hchi).
  apply bin_index_in_range; try done.
  - by apply (SFleb_trans _ (float_to_double (sliceMin i))).
  - by apply (SFleb_trans _ (float_to_double (sliceMax i))).
  - apply SFleb_SF2R in Hc1, Hc2; try done. lra.
Qed.
End Published.
End HistogramFacts.

(** *** One slice without infinite pixels *)

Section SliceFacts.
Variables width height depth stokes : nat.
Variable standardCube : list spec_float.
Variable currentStokes : nat.
Variable numBins : Z.
Variable i : nat.
Hypothesis slice_numbers :
  forall v, v ∈ slice_pixels width height standardCube i ->
    valid_float v = true /\ isinf v = false.
Hypothesis bins : (1 <= numBins <= INT_MAX)%Z.
Hypothesis stokes_bound : currentStokes < stokes.
Variables (rot : list float) (xy : xy_stats).
Hypothesis Lmin : length (minValsXY xy) = depth * stokes.
Hypothesis Lmax : length (maxValsXY xy) = depth * stokes.
Hypothesis Lmean : length (meanValsXY xy) = depth * stokes.
Hypothesis Lnan : length (nanValsXY xy) = depth * stokes.

Local Abbreviation xy' :=
  (snd (slice_stats_pass width height depth standardCube currentStokes rot xy)).
Local Abbreviation sliceMin := (minValsXY xy' !!! (currentStokes * depth + i)).
Local Abbreviation sliceMax := (maxValsXY xy' !!! (currentStokes * depth + i)).

Lemma slice_pixel_number_at v :
  v ∈ non_nan (slice_pixels width height standardCube i) ->
  valid_float v = true /\ is_number v = true.
Proof.
  intros Hv. apply non_nan_elem in Hv as [Hv Hnn].
  destruct (slice_numbers v Hv) as [H1 H2].
  unfold is_number. by rewrite Hnn, H2.
Qed.

Lemma slice_extremes_numbers_at :
  let a := slice_acc width height standardCube i in
  (valid_float (minVal a) = true /\ is_number (minVal a) = true)
  /\ (valid_float (maxVal a) = true /\ is_number (maxVal a) = true)
  /\ forall v, v ∈ non_nan (slice_pixels width height standardCube i) ->
       F32.leb (minVal a) v = true /\ F32.leb v (maxVal a) = true.
Proof.
  intros a. unfold a, slice_acc. rewrite fold_accumulate. unfold acc0.
  cbn [minVal maxVal].
  set (px := non_nan (slice_pixels width height standardCube i)).
  assert (Hnn : forall x, x ∈ px -> isnan x = false)
    by (intros x Hx; apply non_nan_elem in Hx as [_ Hx]; exact Hx).
  destruct (fold_std_min px F32.max eq_refl Hnn) as [Hmin Hmin'].
  destruct (fold_std_max px (SFopp F32.max) eq_refl Hnn) as [Hmax Hmax'].
  split; [|split].
  - apply elem_of_cons in Hmin as [->|Hmin]; [done|].
    by apply slice_pixel_number_at.
  - apply elem_of_cons in Hmax as [->|Hmax]; [done|].
    by apply slice_pixel_number_at.
  - intros v Hv. split; [apply Hmin'|apply Hmax']; by right.
Qed.

(** The XY bin of a pixel needs the numbers of its own slice only. *)
Lemma pixel_bin_xy_at j :
  i < depth -> degenerate sliceMin sliceMax = false ->
  j < width * height ->
  let v := standardCube !!! (i * width * height + j) in
  isnan v = false ->
  exists b,
    bin_index numBins v (float_to_double sliceMin)
      (F64.sub (float_to_double sliceMax) (float_to_double sliceMin))
    = Some b
    /\ (0 <= b <= numBins - 1)%Z.
Proof.
  intros Hi Hdeg Hj v Hv.
  assert (Hin : v ∈ non_nan (slice_pixels width height standardCube i)).
  { apply non_nan_elem. split; [|done]. rewrite slice_pixels_flat.
    apply list_elem_of_fmap. exists j. split; [done|]. apply elem_of_seq. lia. }
  destruct (published_extremes width height depth stokes standardCube
              currentStokes stokes_bound rot xy Lmin Lmax Lmean Lnan i Hi Hdeg)
    as (Hmn & Hmx & _ & _).
  destruct slice_extremes_numbers_at as ((Hv1 & Hn1) & (Hv2 & Hn2) & Hle).
  destruct (Hle v Hin) as [Hle1 Hle2].
  destruct (slice_pixel_number_at v Hin) as [Hvv Hvn].
  set (lo := float_to_double sliceMin). set (hi := float_to_double sliceMax).
  assert (Hlo : from_float lo)
    by (unfold lo; rewrite Hmn; by apply from_float_of_float).
  assert (Hhi : from_float hi)
    by (unfold hi; rewrite Hmx; by apply from_float_of_float).
  assert (Hfv : from_float (float_to_double v)) by (by apply from_float_of_float).
  assert (H1 : F64.leb lo (float_to_double v) = true)
    by (unfold lo; rewrite Hmn, SFleb_float_to_double; done).
  assert (H2 : F64.leb (float_to_double v) hi = true)
    by (unfold hi; rewrite Hmx, SFleb_float_to_double; done).
  apply bin_index_in_range; try done.
  apply range_positive; try done.
  - apply (SFleb_trans _ (float_to_double v)); try done;
      by apply from_float_not_nan.
  - unfold degenerate in Hdeg. fold lo hi in Hdeg.
    by apply orb_false_elim in Hdeg as [_ Hdeg].
Qed.
End SliceFacts.

Lemma length_non_nan l :
  Z.of_nat (length (non_nan l)) = (Z.of_nat (length l) - nan_count l)%Z.
Proof.
  induction l as [|v l IH]; [done|].
  rewrite nan_count_cons. unfold non_nan in *. cbn [List.filter length].
  destruct (isnan v); cbn [negb length]; lia.
Qed.

Lemma row_total_replicate n : row_total (replicate n 0%Z) = 0%Z.
Proof. induction n as [|n IH]; [done|]. unfold row_total in *. cbn. by rewrite IH. Qed.

Section HistogramPass.
Variables width height depth stokes : nat.
Variable standardCube : list spec_float.
Variable currentStokes : nat.
Variable numBins : Z.
Hypothesis cube_numbers :
  forall v, v ∈ standardCube -> valid_float v = true /\ isinf v = false.
Hypothesis bins : (1 <= numBins <= INT_MAX)%Z.
Hypothesis stokes_bound : currentStokes < stokes.
Variables (rot : list float) (xy : xy_stats).
Hypothesis Lmin : length (minValsXY xy) = depth * stokes.
Hypothesis Lmax : length (maxValsXY xy) = depth * stokes.
Hypothesis Lmean : length (meanValsXY xy) = depth * stokes.
Hypothesis Lnan : length (nanValsXY xy) = depth * stokes.

Local Abbreviation xy' :=
  (snd (slice_stats_pass width height depth standardCube currentStokes rot xy)).
Local Abbreviation sliceMin i := (minValsXY xy' !!! (currentStokes * depth + i)).
Local Abbreviation sliceMax i := (maxValsXY xy' !!! (currentStokes * depth + i)).
Local Abbreviation cube := (consolidate_loop width height depth currentStokes xy').
Local Abbreviation row h z := (hist_row depth currentStokes numBins h z).
Local Abbreviation size := (depth * stokes * Z.to_nat numBins).
Local Abbreviation pixel i j := (standardCube !!! (i * width * height + j)).
Local Abbreviation range i :=
  (F64.sub (float_to_double (sliceMax i)) (float_to_double (sliceMin i))).
Local Abbreviation hist_pixel' i :=
  (hist_pixel width height depth standardCube currentStokes numBins i
     (float_to_double (sliceMin i)) (range i)
     (xyzMin cube) (F64.sub (xyzMax cube) (xyzMin cube))).
Local Abbreviation numbers z :=
  (Z.sub (Z.of_nat (height * width))
     (nanValsXY xy' !!! (currentStokes * depth + z))).
Local Abbreviation hist_slice' :=
  (hist_slice width height depth standardCube currentStokes numBins xy'
     (xyzMin cube) (F64.sub (xyzMax cube) (xyzMin cube))).

Hypothesis pixels_bound : (Z.of_nat (width * height) <= INT_MAX)%Z.
Hypothesis rows_bound : (Z.of_nat depth * numBins <= INT_MAX)%Z.

Local Abbreviation size_bound := (slice_size_bound width height pixels_bound).

(** One pixel of a slice that is not skipped: both increments are done,
    inside their vectors, and the pixel is counted once in its row. *)
Lemma hist_pixel_step i j hxy pxyz :
  i < depth -> degenerate (sliceMin i) (sliceMax i) = false ->
  j < width * height ->
  length hxy = size -> (1 < depth -> length pxyz = size) ->
  exists hxy1 pxyz1,
    hist_pixel' i (Some (hxy, pxyz)) j = Some (hxy1, pxyz1)
    /\ length hxy1 = length hxy /\ length pxyz1 = length pxyz
    /\ row_total (row hxy1 i)
       = (row_total (row hxy i) + (if isnan (pixel i j) then 0 else 1))%Z
    /\ forall z, z < depth -> z <> i -> row hxy1 z = row hxy z.
Proof.
  intros Hi Hdeg Hj Lh Lp. unfold hist_pixel. cbv zeta.
  destruct (isnan (pixel i j)) eqn:Hv; cbn [negb].
  { exists hxy, pxyz. repeat split; try done. lia. }
  destruct (pixel_bin_xy width height depth stokes standardCube currentStokes
              numBins cube_numbers bins stokes_bound rot xy
              Lmin Lmax Lmean Lnan i j Hi Hdeg Hj Hv) as (b & Hb & Hbr).
  rewrite Hb.
  rewrite (hist_row_base_defined depth currentStokes numBins i Hi
             (proj1 bins) rows_bound).
  destruct (vec_incr_row depth stokes currentStokes numBins hxy i b
              stokes_bound Hi Hbr Lh) as (h1 & Hinc & Hl1 & Ht1 & Ho1).
  rewrite Hinc.
  destruct (Nat.ltb_spec 1 depth) as [Hd|Hd].
  - destruct (pixel_bin_xyz width height depth stokes standardCube
                currentStokes numBins cube_numbers bins stokes_bound rot xy
                Lmin Lmax Lmean Lnan size_bound i j Hi Hdeg Hj Hv)
      as (b' & Hb' & Hbr').
    rewrite Hb'.
    destruct (vec_incr_row depth stokes currentStokes numBins pxyz i b'
                stokes_bound Hi Hbr' (Lp Hd)) as (p1 & Hinc' & Hl1' & _ & _).
    rewrite Hinc'. exists h1, p1. repeat split; done.
  - exists h1, pxyz. repeat split; done.
Qed.

Lemma hist_pixels_fold i js hxy pxyz :
  i < depth -> degenerate (sliceMin i) (sliceMax i) = false ->
  (forall j, j ∈ js -> j < width * height) ->
  length hxy = size -> (1 < depth -> length pxyz = size) ->
  exists hxy1 pxyz1,
    fold_left (hist_pixel' i) js (Some (hxy, pxyz)) = Some (hxy1, pxyz1)
    /\ length hxy1 = length hxy /\ length pxyz1 = length pxyz
    /\ row_total (row hxy1 i)
       = (row_total (row hxy i)
          + Z.of_nat (length (non_nan ((fun j => pixel i j) <$> js))))%Z
    /\ forall z, z < depth -> z <> i -> row hxy1 z = row hxy z.
Proof.
  intros Hi Hdeg. revert hxy pxyz.
  induction js as [|j js IH]; intros hxy pxyz Hjs Lh Lp.
  { exists hxy, pxyz. cbn. repeat split; try done. lia. }
  cbn [fold_left].
  destruct (hist_pixel_step i j hxy pxyz Hi Hdeg ltac:(apply Hjs; by left) Lh Lp)
    as (h1 & p1 & Hstep & Lh1 & Lp1 & Ht1 & Ho1).
  rewrite Hstep.
  destruct (IH h1 p1 ltac:(intros; apply Hjs; by right) ltac:(lia)
              ltac:(intros; rewrite Lp1; auto))
    as (h2 & p2 & Hfold & Lh2 & Lp2 & Ht2 & Ho2).
  exists h2, p2. split; [done|]. split; [lia|]. split; [lia|]. split.
  - rewrite Ht2, Ht1. rewrite fmap_cons. unfold non_nan. cbn [List.filter].
    destruct (isnan (pixel i j)); cbn [negb length]; lia.
  - intros z Hz Hne. by rewrite Ho2, Ho1.
Qed.

(** One slice: a skipped slice changes nothing; another adds its numbers
    to its own row. *)
Lemma hist_slice_step i hxy pxyz :
  i < depth -> length hxy = size -> (1 < depth -> length pxyz = size) ->
  exists hxy1 pxyz1,
    hist_slice' (Some (hxy, pxyz)) i = Some (hxy1, pxyz1)
    /\ length hxy1 = length hxy /\ length pxyz1 = length pxyz
    /\ (degenerate (sliceMin i) (sliceMax i) = false ->
        row_total (row hxy1 i)
        = (row_total (row hxy i) + numbers i)%Z)
    /\ (degenerate (sliceMin i) (sliceMax i) = true -> row hxy1 i = row hxy i)
    /\ forall z, z < depth -> z <> i -> row hxy1 z = row hxy z.
Proof.
  intros Hi Lh Lp. unfold hist_slice. cbv zeta.
  change (isnan (float_to_double (sliceMin i))
          || isnan (float_to_double (sliceMax i))
          || F64.eqb (range i) F64.zero)
    with (degenerate (sliceMin i) (sliceMax i)).
  destruct (degenerate (sliceMin i) (sliceMax i)) eqn:Hdeg.
  { exists hxy, pxyz. repeat split; done. }
  rewrite int_loop_fold by exact pixels_bound.
  destruct (hist_pixels_fold i (seq 0 (width * height)) hxy pxyz Hi Hdeg
              ltac:(intros j Hj; apply elem_of_seq in Hj; lia) Lh Lp)
    as (h1 & p1 & Hfold & Lh1 & Lp1 & Ht1 & Ho1).
  exists h1, p1. split; [exact Hfold|]. split; [done|]. split; [done|].
  split; [|split; [done|exact Ho1]].
  intros _. rewrite Ht1. f_equal.
  rewrite <- slice_pixels_flat, length_non_nan, length_slice_pixels.
  destruct (published_extremes width height depth stokes standardCube
              currentStokes stokes_bound rot xy Lmin Lmax Lmean Lnan i Hi Hdeg)
    as (_ & _ & Hn & _).
  rewrite Hn, nanCount_slice_acc. reflexivity.
Qed.

Lemma hist_slices_fold l hxy pxyz :
  NoDup l -> (forall i, i ∈ l -> i < depth) ->
  length hxy = size -> (1 < depth -> length pxyz = size) ->
  exists hxy1 pxyz1,
    fold_left hist_slice' l (Some (hxy, pxyz)) = Some (hxy1, pxyz1)
    /\ length hxy1 = length hxy /\ length pxyz1 = length pxyz
    /\ forall z, z < depth ->
         (z ∈ l -> degenerate (sliceMin z) (sliceMax z) = false ->
          row_total (row hxy1 z)
          = (row_total (row hxy z) + numbers z)%Z)
         /\ (z ∉ l \/ degenerate (sliceMin z) (sliceMax z) = true ->
             row hxy1 z = row hxy z).
Proof.
  revert hxy pxyz. induction l as [|i l IH]; intros hxy pxyz Hnd Hl Lh Lp.
  { exists hxy, pxyz. repeat split; try done. intros Hz. by apply elem_of_nil in Hz. }
  apply NoDup_cons in Hnd as [Hni Hnd]. cbn [fold_left].
  assert (Hi : i < depth) by (apply Hl; by left).
  destruct (hist_slice_step i hxy pxyz Hi Lh Lp)
    as (h1 & p1 & Hstep & Lh1 & Lp1 & Ht1 & Hd1 & Ho1).
  rewrite Hstep.
  destruct (IH h1 p1 Hnd ltac:(intros; apply Hl; by right) ltac:(lia)
              ltac:(intros; rewrite Lp1; auto))
    as (h2 & p2 & Hfold & Lh2 & Lp2 & Hrows).
  exists h2, p2. split; [done|]. split; [lia|]. split; [lia|].
  intros z Hz. destruct (Hrows z Hz) as [Hin Hout].
  destruct (decide (z = i)) as [->|Hne].
  - split.
    + intros _ Hdeg. rewrite Hout by (by left). by apply Ht1.
    + intros [Hn|Hdeg]; [exfalso; apply Hn; by left|].
      rewrite Hout by (by left). by apply Hd1.
  - split.
    + intros Hzl Hdeg. apply elem_of_cons in Hzl as [->|Hzl]; [done|].
      rewrite Hin by done. by rewrite Ho1.
    + intros [Hn|Hdeg].
      * rewrite Hout by (left; intros H; apply Hn; by right). by apply Ho1.
      * rewrite Hout by (by right). by apply Ho1.
Qed.
End HistogramPass.

(** ** The histograms of a polarization *)

(** A slice of more than [INT_MAX] pixels that the loop does not skip:
    the [int] counter of its pixels overflows. *)
Lemma hist_slice_overflow width height depth standardCube currentStokes
    numBins xy cubeMin cubeRange st i :
  degenerate (minValsXY xy !!! (currentStokes * depth + i))
    (maxValsXY xy !!! (currentStokes * depth + i)) = false ->
  (INT_MAX < Z.of_nat (width * height))%Z ->
  hist_slice width height depth standardCube currentStokes numBins xy
    cubeMin cubeRange st i = None.
Proof.
  intros Hdeg Hbig. unfold hist_slice. cbv zeta.
  unfold degenerate in Hdeg. rewrite Hdeg.
  by apply int_loop_overflow.
Qed.

(** C4, amended.  On a cube without infinite pixels, with between 1 and
    [INT_MAX] bins, with [W], [H], [H*W] and [D*B] at most [INT_MAX] (the
    [int] counters of the loops and the [int] product [i * B] in the
    index stay [int]s), and histogram vectors of the allocated size whose
    rows for
    the polarization start at zero, the histogram loop runs to its end;
    then the row of a slice the loop does not skip (published minimum and
    maximum not NaN, range not zero) sums to [H*W - nanXY], and the row of
    a skipped slice is still all zeros. *)
Theorem histogram_conservation width height depth stokes standardCube
    currentStokes numBins rot xy hxy pxyz :
  (forall v, v ∈ standardCube -> valid_float v = true /\ isinf v = false) ->
  (1 <= numBins <= INT_MAX)%Z ->
  (Z.of_nat width <= INT_MAX)%Z -> (Z.of_nat height <= INT_MAX)%Z ->
  (Z.of_nat (width * height) <= INT_MAX)%Z ->
  (Z.of_nat depth * numBins <= INT_MAX)%Z ->
  currentStokes < stokes ->
  length (minValsXY xy) = depth * stokes ->
  length (maxValsXY xy) = depth * stokes ->
  length (meanValsXY xy) = depth * stokes ->
  length (nanValsXY xy) = depth * stokes ->
  length hxy = depth * stokes * Z.to_nat numBins ->
  (1 < depth -> length pxyz = depth * stokes * Z.to_nat numBins) ->
  (forall z, z < depth ->
     hist_row depth currentStokes numBins hxy z
     = replicate (Z.to_nat numBins) 0%Z) ->
  let xy' :=
    snd (slice_stats_pass width height depth standardCube currentStokes rot xy) in
  let c := consolidate_loop width height depth currentStokes xy' in
  exists hxy' pxyz',
    histogram_pass width height depth standardCube currentStokes numBins xy'
      (xyzMin c) (xyzMax c) hxy pxyz = Some (hxy', pxyz')
    /\ forall z, z < depth ->
         let sliceMin := minValsXY xy' !!! (currentStokes * depth + z) in
         let sliceMax := maxValsXY xy' !!! (currentStokes * depth + z) in
         (degenerate sliceMin sliceMax = false ->
          row_total (hist_row depth currentStokes numBins hxy' z)
          = Z.sub (Z.of_nat (height * width))
              (nanValsXY xy' !!! (currentStokes * depth + z)))
         /\ (degenerate sliceMin sliceMax = true ->
             hist_row depth currentStokes numBins hxy' z
             = replicate (Z.to_nat numBins) 0%Z).
Proof.
  intros Hcube HB _ _ Hsize Hrowsb Hs Lmin Lmax Lmean Lnan Lh Lp Hzero xy' c.
  destruct (hist_slices_fold width height depth stokes standardCube
              currentStokes numBins Hcube HB Hs rot xy Lmin Lmax Lmean Lnan
              Hsize Hrowsb (seq 0 depth) hxy pxyz (NoDup_seq 0 depth)
              ltac:(intros i Hi; apply elem_of_seq in Hi; lia) Lh Lp)
    as (h1 & p1 & Hfold & _ & _ & Hrows).
  exists h1, p1. split.
  { unfold histogram_pass.
    rewrite int_loop_fold by (apply (depth_int_bound depth numBins); lia).
    exact Hfold. }
  intros z Hz sliceMin sliceMax. destruct (Hrows z Hz) as [Hin Hout]. split.
  - intros Hdeg. rewrite Hin; [|apply elem_of_seq; lia|exact Hdeg].
    rewrite Hzero, row_total_replicate by done. apply Z.add_0_l.
  - intros Hdeg. rewrite Hout by (by right). by apply Hzero.
Qed.

Lemma histogram_conservation_witness :
  let cube := [F32.of_Z 1; F32.of_Z 2; F32.of_Z 3; F32.of_Z 5] in
  let xy := mkXY [F32.zero; F32.zero] [F32.zero; F32.zero]
              [F32.zero; F32.zero] [0%Z; 0%Z] in
  let xy' := snd (slice_stats_pass 2 1 2 cube 0 [NAN; NAN; NAN; NAN] xy) in
  let c := consolidate_loop 2 1 2 0 xy' in
  exists hxy' pxyz',
    histogram_pass 2 1 2 cube 0 2 xy' (xyzMin c) (xyzMax c)
      [0; 0; 0; 0]%Z [0; 0; 0; 0]%Z = Some (hxy', pxyz')
    /\ row_total (hist_row 2 0 2 hxy' 0) = 2%Z
    /\ row_total (hist_row 2 0 2 hxy' 1) = 2%Z.
Proof.
  intros cube xy xy' c.
  assert (Hcube : forall v, v ∈ cube -> valid_float v = true /\ isinf v = false).
  { intros v Hv.
    repeat (apply elem_of_cons in Hv as [->|Hv]; [split; reflexivity|]).
    by apply elem_of_nil in Hv. }
  assert (Hzero : forall z, z < 2 ->
            hist_row 2 0 2 [0; 0; 0; 0]%Z z = replicate (Z.to_nat 2) 0%Z).
  { intros z Hz. destruct z as [|[|z]]; [reflexivity|reflexivity|lia]. }
  destruct (histogram_conservation 2 1 2 1 cube 0 2 [NAN; NAN; NAN; NAN] xy
              [0; 0; 0; 0]%Z [0; 0; 0; 0]%Z Hcube ltac:(unfold INT_MAX; lia)
              ltac:(unfold INT_MAX; simpl; lia) ltac:(unfold INT_MAX; simpl; lia)
              ltac:(unfold INT_MAX; simpl; lia) ltac:(unfold INT_MAX; simpl; lia)
              ltac:(lia) eq_refl eq_refl eq_refl eq_refl eq_refl
              (fun _ => eq_refl) Hzero)
    as (h1 & p1 & Hpass & Hrows).
  exists h1, p1. split; [exact Hpass|]. split.
  - destruct (Hrows 0 ltac:(lia)) as [H0 _]. exact (H0 eq_refl).
  - destruct (Hrows 1 ltac:(lia)) as [H1 _]. exact (H1 eq_refl).
Defined.

(** A slice with the pixels [-inf] and [1] publishes extremes that are not
    NaN and a range that is not zero, and the loop has no bin for its
    pixels: the cast to [int] is applied to a NaN. *)
Lemma histogram_conservation_counterexample :
  let cube := [S754_infinity true; F32.of_Z 1] in
  let xy := mkXY [F32.zero] [F32.zero] [F32.zero] [0%Z] in
  let xy' := snd (slice_stats_pass 2 1 1 cube 0 [] xy) in
  let c := consolidate_loop 2 1 1 0 xy' in
  minValsXY xy' = [S754_infinity true] /\ maxValsXY xy' = [F32.of_Z 1]
  /\ nanValsXY xy' = [0%Z]
  /\ degenerate (S754_infinity true) (F32.of_Z 1) = false
  /\ ~ exists hxy' pxyz',
         histogram_pass 2 1 1 cube 0 1 xy' (xyzMin c) (xyzMax c) [0%Z] []
         = Some (hxy', pxyz')
         /\ row_total (hist_row 1 0 1 hxy' 0) = 2%Z.
Proof.
  repeat split; try reflexivity.
  intros (h & p & Hpass & _). discriminate Hpass.
Qed.

(** C10, amended.  With between 1 and [INT_MAX] bins, [H*W] and [D*B] at
    most [INT_MAX] and histogram vectors of the allocated size: for every
    pixel that is not NaN in a slice the loop does not skip, if no pixel
    of that slice is infinite the XY bin index is computed and lies in
    [0, B-1], the [int] product in its row base is defined and its cell is
    inside the XY vector; and if no pixel of the cube is infinite and the
    depth is above 1, the same holds for the XYZ bin index and the partial
    XYZ vector. *)
Theorem bin_index_bounds width height depth stokes standardCube
    currentStokes numBins rot xy (hxy pxyz : list Z) i j :
  (1 <= numBins <= INT_MAX)%Z ->
  (Z.of_nat (width * height) <= INT_MAX)%Z ->
  (Z.of_nat depth * numBins <= INT_MAX)%Z ->
  currentStokes < stokes ->
  length (minValsXY xy) = depth * stokes ->
  length (maxValsXY xy) = depth * stokes ->
  length (meanValsXY xy) = depth * stokes ->
  length (nanValsXY xy) = depth * stokes ->
  length hxy = depth * stokes * Z.to_nat numBins ->
  (1 < depth -> length pxyz = depth * stokes * Z.to_nat numBins) ->
  let xy' :=
    snd (slice_stats_pass width height depth standardCube currentStokes rot xy) in
  let c := consolidate_loop width height depth currentStokes xy' in
  i < depth -> j < width * height ->
  let sliceMin := minValsXY xy' !!! (currentStokes * depth + i) in
  let sliceMax := maxValsXY xy' !!! (currentStokes * depth + i) in
  let v := standardCube !!! (i * width * height + j) in
  isnan v = false -> degenerate sliceMin sliceMax = false ->
  ((forall x, x ∈ slice_pixels width height standardCube i ->
      valid_float x = true /\ isinf x = false) ->
   exists b base,
     bin_index numBins v (float_to_double sliceMin)
       (F64.sub (float_to_double sliceMax) (float_to_double sliceMin))
     = Some b
     /\ (0 <= b <= numBins - 1)%Z
     /\ hist_row_base depth currentStokes numBins i = Some base
     /\ (0 <= base + b < Z.of_nat (length hxy))%Z)
  /\ ((forall x, x ∈ standardCube -> valid_float x = true /\ isinf x = false) ->
      1 < depth ->
      exists b base,
        bin_index numBins v (xyzMin c) (F64.sub (xyzMax c) (xyzMin c)) = Some b
        /\ (0 <= b <= numBins - 1)%Z
        /\ hist_row_base depth currentStokes numBins i = Some base
        /\ (0 <= base + b < Z.of_nat (length pxyz))%Z).
Proof.
  intros HB Hsize Hrowsb Hs Lmin Lmax Lmean Lnan Lh Lp xy' c Hi Hj
    sliceMin sliceMax v Hv Hdeg.
  pose proof (hist_row_base_defined depth currentStokes numBins i Hi
                (proj1 HB) Hrowsb) as Hbase.
  assert (Hin : forall (h : list Z) b,
            length h = depth * stokes * Z.to_nat numBins ->
            (0 <= b <= numBins - 1)%Z ->
            (0 <= row_start depth currentStokes numBins i + b
             < Z.of_nat (length h))%Z).
  { intros h b Lh' Hb.
    destruct (vec_incr_row depth stokes currentStokes numBins h i b
                Hs Hi Hb Lh') as (h1 & Hinc & _).
    unfold vec_incr in Hinc.
    destruct ((0 <=? row_start depth currentStokes numBins i + b)%Z
              && (row_start depth currentStokes numBins i + b
                  <? Z.of_nat (length h))%Z) eqn:E; [|discriminate Hinc].
    apply andb_prop in E as [E1 E2].
    apply Z.leb_le in E1. apply Z.ltb_lt in E2. lia. }
  split.
  - intros Hslice.
    destruct (pixel_bin_xy_at width height depth stokes standardCube
                currentStokes numBins i Hslice HB Hs rot xy
                Lmin Lmax Lmean Lnan j Hi Hdeg Hj Hv) as (b & Hb & Hbr).
    exists b, (row_start depth currentStokes numBins i).
    split; [exact Hb|]. split; [exact Hbr|]. split; [exact Hbase|].
    by apply Hin.
  - intros Hcube Hd.
    destruct (pixel_bin_xyz width height depth stokes standardCube
                currentStokes numBins Hcube HB Hs rot xy Lmin Lmax Lmean Lnan
                (slice_size_bound width height Hsize) i j Hi Hdeg Hj Hv)
      as (b & Hb & Hbr).
    exists b, (row_start depth currentStokes numBins i).
    split; [exact Hb|]. split; [exact Hbr|]. split; [exact Hbase|].
    apply Hin; auto.
Qed.

Lemma bin_index_bounds_witness :
  let cube := [F32.of_Z 1; F32.of_Z 2; F32.of_Z 3; F32.of_Z 5] in
  let xy := mkXY [F32.zero; F32.zero] [F32.zero; F32.zero]
              [F32.zero; F32.zero] [0%Z; 0%Z] in
  let xy' := snd (slice_stats_pass 2 1 2 cube 0 [NAN; NAN; NAN; NAN] xy) in
  let c := consolidate_loop 2 1 2 0 xy' in
  (exists b,
     bin_index 2 (F32.of_Z 5) (float_to_double (F32.of_Z 3))
       (F64.sub (float_to_double (F32.of_Z 5)) (float_to_double (F32.of_Z 3)))
     = Some b /\ (0 <= b <= 1)%Z /\ (0 <= 2 + b < 4)%Z)
  /\ (exists b,
        bin_index 2 (F32.of_Z 5) (xyzMin c) (F64.sub (xyzMax c) (xyzMin c))
        = Some b /\ (0 <= b <= 1)%Z /\ (0 <= 2 + b < 4)%Z).
Proof.
  intros cube xy xy' c.
  assert (Hcube : forall v, v ∈ cube -> valid_float v = true /\ isinf v = false).
  { intros v Hv.
    repeat (apply elem_of_cons in Hv as [->|Hv]; [split; reflexivity|]).
    by apply elem_of_nil in Hv. }
  assert (Hslice : forall v, v ∈ slice_pixels 2 1 cube 1 ->
            valid_float v = true /\ isinf v = false).
  { intros v Hv.
    repeat (apply elem_of_cons in Hv as [->|Hv]; [split; reflexivity|]).
    by apply elem_of_nil in Hv. }
  destruct (bin_index_bounds 2 1 2 1 cube 0 2 [NAN; NAN; NAN; NAN] xy
              [0; 0; 0; 0]%Z [0; 0; 0; 0]%Z 1 1
              ltac:(unfold INT_MAX; lia) ltac:(unfold INT_MAX; simpl; lia)
              ltac:(unfold INT_MAX; simpl; lia) ltac:(lia)
              eq_refl eq_refl eq_refl eq_refl eq_refl (fun _ => eq_refl)
              ltac:(lia) ltac:(lia) eq_refl eq_refl)
    as [Hxy Hxyz].
  split.
  - destruct (Hxy Hslice) as (b & base & Hb & Hbr & Hbase & Hcell).
    injection Hbase as <-. exists b. split; [exact Hb|]. split; [lia|exact Hcell].
  - destruct (Hxyz Hcube ltac:(lia)) as (b & base & Hb & Hbr & Hbase & Hcell).
    injection Hbase as <-. exists b. split; [exact Hb|]. split; [lia|exact Hcell].
Defined.

(** The pixel [1] of a slice whose other pixel is [-inf]: it is a number,
    the published extremes are not NaN, the range is not zero, and its bin
    index is the cast to [int] of a NaN. *)
Lemma bin_index_bounds_counterexample :
  let cube := [S754_infinity true; F32.of_Z 1] in
  let xy := mkXY [F32.zero] [F32.zero] [F32.zero] [0%Z] in
  let xy' := snd (slice_stats_pass 2 1 1 cube 0 [] xy) in
  let sliceMin := minValsXY xy' !!! 0 in
  let sliceMax := maxValsXY xy' !!! 0 in
  let v := cube !!! 1 in
  is_number v = true
  /\ isnan sliceMin = false /\ isnan sliceMax = false
  /\ F64.eqb (F64.sub (float_to_double sliceMax) (float_to_double sliceMin))
       F64.zero = false
  /\ F64.div
       (F64.mul (F64.of_Z 1) (F64.sub (float_to_double v)
                                (float_to_double sliceMin)))
       (F64.sub (float_to_double sliceMax) (float_to_double sliceMin))
     = NAN
  /\ bin_index 1 v (float_to_double sliceMin)
       (F64.sub (float_to_double sliceMax) (float_to_double sliceMin))
     = None.
Proof. repeat split; reflexivity. Qed.

(** * Further properties of the code *)

(** ** [trim] *)

Lemma ltrim_spec s :
  exists pre,
    s = (pre ++ ltrim s)%string /\ all_space pre = true
    /\ (ltrim s = EmptyString \/ not_space (String.get 0 (ltrim s)) = true).
Proof.
  induction s as [|c s (pre & Heq & Hpre & Hfirst)].
  - exists EmptyString. by auto.
  - cbn [ltrim]. destruct (isspace c) eqn:Hc.
    + exists (String c pre). cbn [append all_space]. rewrite Hc, Hpre.
      split; [by rewrite <- Heq|done].
    + exists EmptyString. split; [done|]. split; [done|].
      right. cbn. by rewrite Hc.
Qed.

Lemma rtrim_spec s :
  exists post,
    s = (rtrim s ++ post)%string /\ all_space post = true
    /\ (rtrim s = EmptyString \/ not_space (last_char (rtrim s)) = true).
Proof.
  induction s as [|c s (post & Heq & Hpost & Hlast)].
  - exists EmptyString. by auto.
  - cbn [rtrim]. destruct (rtrim s) as [|d r] eqn:Hr.
    + destruct (isspace c) eqn:Hc.
      * exists (String c post). cbn [append all_space]. rewrite Hc, Hpost.
        cbn [append] in Heq. split; [by f_equal|by auto].
      * exists post. cbn [append] in *. split; [by f_equal|].
        split; [done|]. right. cbn. by rewrite Hc.
    + exists post. split; [change (String c s = String c (String d r ++ post));
                           by f_equal|]. split; [done|].
      right. destruct Hlast as [Hlast|Hlast]; [discriminate|exact Hlast].
Qed.

(** [rtrim] keeps the first character of what it leaves. *)
Lemma rtrim_first s :
  rtrim s <> EmptyString -> String.get 0 (rtrim s) = String.get 0 s.
Proof.
  destruct s as [|c s]; [done|]. cbn [rtrim].
  destruct (rtrim s); [destruct (isspace c)|]; done.
Qed.

(** [trim] removes white space at both ends and nothing else: the string
    is white space, then [trim s], then white space, and [trim s] is empty
    or starts and ends with a character that is not white space. *)
Theorem trim_removes_outer_space s :
  exists pre post,
    s = (pre ++ trim s ++ post)%string
    /\ all_space pre = true /\ all_space post = true
    /\ (trim s = EmptyString
        \/ (not_space (String.get 0 (trim s)) = true
            /\ not_space (last_char (trim s)) = true)).
Proof.
  destruct (ltrim_spec s) as (pre & Hs & Hpre & Hfirst).
  destruct (rtrim_spec (ltrim s)) as (post & Ht & Hpost & Hlast).
  exists pre, post. unfold trim. split; [by rewrite <- Ht|].
  split; [done|]. split; [done|].
  destruct Hlast as [Hlast|Hlast]; [by left|]. right. split; [|done].
  destruct (rtrim (ltrim s)) as [|c r] eqn:Hr; [done|].
  rewrite <- Hr, rtrim_first by (by rewrite Hr).
  destruct Hfirst as [Hfirst|Hfirst]; [|done].
  rewrite Hfirst in Hr. discriminate Hr.
Qed.

(** ** The derived output name *)

Lemma substring_all s : String.substring 0 (String.length s) s = s.
Proof. induction s as [|c s IH]; [done|]. cbn. by rewrite IH. Qed.

(** The derived name, for every input: the input is cut four characters
    before its last character among ['.'], ['f'], ['i'], ['t'], ['s'] when
    that character is at index 4 or later; it is kept whole when the
    character is among the first four (the index less 4 wraps around as a
    [size_t]) or when there is none; [.hdf5] is appended. *)
Theorem derive_output_name_cases s :
  (Z.of_nat (String.length s) < 2 ^ 63)%Z ->
  derive_output_name s
  = match find_last_of_nat ".fits" s with
    | Some p =>
        if 4 <=? p then (String.substring 0 (p - 4) s ++ ".hdf5")%string
        else (s ++ ".hdf5")%string
    | None => (s ++ ".hdf5")%string
    end.
Proof.
  intros Hlen. unfold derive_output_name, find_last_of.
  destruct (find_last_of_nat ".fits" s) as [p|] eqn:Hp; [|reflexivity].
  apply find_last_of_nat_lt in Hp. cbn [pos_or_npos].
  replace (Z.of_nat p =? npos)%Z with false
    by (symmetry; apply Z.eqb_neq; unfold npos, SIZE_MAX; lia).
  cbn [negb]. unfold substr.
  destruct (Nat.leb_spec 4 p) as [H4|H4].
  - rewrite size_t_sub_small by lia. do 2 f_equal. lia.
  - rewrite size_t_sub_wrap by lia. f_equal.
    replace (Z.to_nat (Z.min _ _)) with (String.length s) by lia.
    apply substring_all.
Qed.

Lemma derive_output_name_cases_witness :
  derive_output_name "fit" = "fit.hdf5"%string.
Proof.
  rewrite (derive_output_name_cases "fit"); [reflexivity|].
  vm_compute. reflexivity.
Defined.

Lemma derive_output_name_fits_witness :
  derive_output_name "m31.cube.fits" = "m31.cube.hdf5"%string.
Proof.
  apply (derive_output_name_fits "m31.cube"). vm_compute. reflexivity.
Defined.

(** ** The header loop *)

(** Whatever the header holds, the three attributes written before the
    loop keep their values: a record with one of their names is skipped as
    a duplicate. *)
Theorem converter_attributes_kept fits_read_record numHeaders :
  let final :=
    translate_headers fits_read_record numHeaders (fixed_attributes, []) in
  attr_value "SCHEMA_VERSION" (fst final) = Some "0.1"%string
  /\ attr_value "HDF5_CONVERTER" (fst final) = Some "hdf_convert"%string
  /\ attr_value "HDF5_CONVERTER_VERSION" (fst final) = Some "0.1.4"%string.
Proof.
  intros final. unfold final, translate_headers.
  repeat split;
    match goal with
    | |- attr_value ?name _ = _ =>
        destruct (header_steps_keep (map fits_read_record (seq 0 numHeaders))
                    (fixed_attributes, []) name eq_refl) as [_ ->]
    end; reflexivity.
Qed.

Lemma holds_equals record :
  existsb (fun c => Ascii.eqb c "="%char) (list_ascii_of_string record)
  = bool_decide (is_Some (find_first_of_nat "=" record)).
Proof.
  induction record as [|c record IH]; [done|].
  cbn [list_ascii_of_string existsb find_first_of_nat].
  rewrite char_in_single. destruct (Ascii.eqb c "="); cbn [orb].
  - by rewrite bool_decide_eq_true_2 by eauto.
  - rewrite IH. destruct (find_first_of_nat "=" record); cbn [option_map].
    + by rewrite !bool_decide_eq_true_2 by eauto.
    + by rewrite !bool_decide_eq_false_2 by (intros [? ?]; discriminate).
Qed.

(** The records [main] makes an attribute of, or warns about, are the
    keyword records. *)
Lemma header_attribute_keyword_record record :
  String.length record < 255 ->
  bool_decide (is_Some (header_attribute record)) = keyword_record record.
Proof.
  intros Hlen. unfold header_attribute, keyword_record, starts_with.
  destruct (String.prefix "COMMENT" record);
    [by rewrite bool_decide_eq_false_2 by (intros [? ?]; discriminate)|].
  destruct (String.prefix "HISTORY" record);
    [by rewrite bool_decide_eq_false_2 by (intros [? ?]; discriminate)|].
  cbn [negb andb]. rewrite holds_equals. unfold find_char.
  destruct (find_first_of_nat "=" record) as [n|] eqn:E; cbn [pos_or_npos].
  - apply find_first_of_nat_lt in E.
    replace (Z.of_nat n =? npos)%Z with false
      by (symmetry; apply Z.eqb_neq; unfold npos, SIZE_MAX; lia).
    cbn [negb]. by rewrite !bool_decide_eq_true_2 by eauto.
  - rewrite Z.eqb_refl. cbn [negb].
    by rewrite !bool_decide_eq_false_2 by (intros [? ?]; discriminate).
Qed.

Lemma header_step_accounted (st : header_state) record :
  let st' := header_step st record in
  length (fst st') + length (snd st')
  = length (fst st) + length (snd st)
    + (if bool_decide (is_Some (header_attribute record)) then 1 else 0).
Proof.
  unfold header_step. destruct (header_attribute record) as [[name value]|].
  - rewrite bool_decide_eq_true_2 by eauto.
    destruct (negb (attrExists name (fst st))); cbn [fst snd];
      unfold createAttribute; rewrite length_app; simpl; lia.
  - rewrite bool_decide_eq_false_2 by (intros [? ?]; discriminate). cbn. lia.
Qed.

(** Of the records the reader hands back for the indices [main] passes,
    each shorter than the buffer of 255 characters, those that start with
    neither COMMENT nor HISTORY and hold an ['='] add one attribute or one
    warning each, and the others add neither: none is dropped silently. *)
Theorem header_records_accounted fits_read_record numHeaders
    (st : header_state) :
  (forall i, i < numHeaders -> String.length (fits_read_record i) < 255) ->
  let final := translate_headers fits_read_record numHeaders st in
  length (fst final) + length (snd final)
  = length (fst st) + length (snd st)
    + length (keyword_records fits_read_record numHeaders).
Proof.
  intros Hlen. unfold translate_headers, keyword_records.
  assert (Hl : forall i, i ∈ seq 0 numHeaders ->
            String.length (fits_read_record i) < 255)
    by (intros i Hi; apply elem_of_seq in Hi; apply Hlen; lia).
  clear Hlen. revert Hl.
  generalize (seq 0 numHeaders). intros l. revert st.
  induction l as [|i l IH]; intros st Hl; cbn [map fold_left List.filter].
  - cbn. lia.
  - cbv zeta in IH. rewrite IH by (intros; apply Hl; by right).
    pose proof (header_step_accounted st (fits_read_record i)) as Hs.
    cbv zeta in Hs. rewrite Hs.
    rewrite header_attribute_keyword_record by (apply Hl; by left).
    destruct (keyword_record _); cbn [length]; lia.
Qed.

Lemma header_records_accounted_witness :
  let final := translate_headers sample_header 4 (fixed_attributes, []) in
  keyword_records sample_header 4 = [0; 1; 3]
  /\ length (fst final) + length (snd final) = 3 + 0 + 3.
Proof.
  split; [reflexivity|].
  apply (header_records_accounted sample_header 4 (fixed_attributes, [])).
  intros i Hi. destruct i as [|[|[|[|i]]]]; [vm_compute; lia..|lia].
Defined.

Lemma header_step_origin (st : header_state) record kv :
  kv ∈ fst (header_step st record) ->
  kv ∈ fst st \/ header_attribute record = Some kv.
Proof.
  unfold header_step. destruct (header_attribute record) as [[name value]|];
    [|by left].
  destruct (negb (attrExists name (fst st))); cbn [fst]; [|by left].
  unfold createAttribute. intros Hin. apply elem_of_app in Hin as [Hin|Hin];
    [by left|]. apply list_elem_of_singleton in Hin as ->. by right.
Qed.

(** The loop invents nothing: when the names it starts with are distinct,
    the names it ends with are distinct, and every attribute it ends with
    was there at the start or is the name and value of one of the
    records. *)
Theorem attributes_come_from_records fits_read_record numHeaders
    (st : header_state) :
  NoDup (map fst (fst st)) ->
  let final := translate_headers fits_read_record numHeaders st in
  NoDup (map fst (fst final))
  /\ forall kv, kv ∈ fst final ->
       kv ∈ fst st
       \/ exists i, i < numHeaders
                    /\ header_attribute (fits_read_record i) = Some kv.
Proof.
  intros Hnd final. split; [by apply header_steps_NoDup|].
  unfold final, translate_headers. clear Hnd final.
  assert (H : forall l (st0 : header_state) kv,
            kv ∈ fst (fold_left header_step (map fits_read_record l) st0) ->
            kv ∈ fst st0
            \/ exists i, i ∈ l
                         /\ header_attribute (fits_read_record i) = Some kv).
  { induction l as [|i l IH]; intros st0 kv Hin; [by left|].
    cbn [map fold_left] in Hin. apply IH in Hin as [Hin|(i' & Hi' & Heq)].
    - apply header_step_origin in Hin as [Hin|Hin]; [by left|].
      right. exists i. split; [by left|done].
    - right. exists i'. split; [by right|done]. }
  intros kv Hin. apply H in Hin as [Hin|(i & Hi & Heq)]; [by left|].
  right. exists i. apply elem_of_seq in Hi. split; [lia|done].
Qed.

Lemma attributes_come_from_records_witness :
  let final := translate_headers sample_header 4 (fixed_attributes, []) in
  NoDup (map fst (fst final))
  /\ forall kv, kv ∈ fst final ->
       kv ∈ fixed_attributes
       \/ exists i, i < 4 /\ header_attribute (sample_header i) = Some kv.
Proof.
  assert (Hnd : NoDup (map fst (fst (fixed_attributes, @nil string)))).
  { simpl.
    repeat (constructor;
            [intros H;
             repeat (apply elem_of_cons in H as [H|H]; [discriminate H|]);
             by apply elem_of_nil in H|]).
    constructor. }
  exact (attributes_come_from_records sample_header 4 (fixed_attributes, []) Hnd).
Defined.

(** ** The statistics of the Z profiles *)

Lemma length_profile_pixels width height depth cube j k :
  length (profile_pixels width height depth cube j k) = depth.
Proof. unfold profile_pixels. by rewrite length_map, length_seq. Qed.

Section ZStatistics.
Variables width height depth stokes : nat.
Variable standardCube : list spec_float.
Variable currentStokes : nat.

End ZStatistics.


(** ** The NaN counts of the two passes *)

Section NanTotals.
Local Abbreviation zsum f l := (foldr Z.add 0%Z (map f l)).

Lemma zsum_app {X} (f : X -> Z) l1 l2 :
  zsum f (l1 ++ l2) = (zsum f l1 + zsum f l2)%Z.
Proof. induction l1 as [|x l1 IH]; [done|]. cbn. rewrite IH. lia. Qed.

Lemma zsum_bind {X Y} (f : Y -> Z) (g : X -> list Y) l :
  zsum f (l ≫= g) = zsum (fun x => zsum f (g x)) l.
Proof.
  induction l as [|x l IH]; [done|]. rewrite bind_cons, zsum_app, IH. done.
Qed.

Lemma zsum_ext {X} (f g : X -> Z) l :
  (forall x, x ∈ l -> f x = g x) -> zsum f l = zsum g l.
Proof.
  induction l as [|x l IH]; intros H; [done|]. cbn.
  rewrite (H x) by (by left). rewrite IH by (intros; apply H; by right). done.
Qed.

Lemma zsum_add {X} (f g : X -> Z) l :
  zsum (fun x => (f x + g x)%Z) l = (zsum f l + zsum g l)%Z.
Proof. induction l as [|x l IH]; [done|]. cbn. rewrite IH. lia. Qed.

Lemma zsum_zero {X} (l : list X) : zsum (fun _ => 0%Z) l = 0%Z.
Proof. induction l as [|x l IH]; [done|]. cbn. by rewrite IH. Qed.

Lemma zsum_exchange {X Y} (f : X -> Y -> Z) lx ly :
  zsum (fun x => zsum (f x) ly) lx = zsum (fun y => zsum (fun x => f x y) lx) ly.
Proof.
  induction lx as [|x lx IH].
  - cbn. by rewrite zsum_zero.
  - cbn [map foldr]. rewrite IH, <- zsum_add. done.
Qed.

Lemma nan_count_zsum {X} (g : X -> float) l :
  nan_count (map g l) = zsum (fun x => if isnan (g x) then 1 else 0)%Z l.
Proof.
  induction l as [|x l IH]; [done|]. cbn [map foldr].
  by rewrite nan_count_cons, IH.
Qed.

Lemma nan_count_app l1 l2 :
  nan_count (l1 ++ l2) = (nan_count l1 + nan_count l2)%Z.
Proof.
  induction l1 as [|v l1 IH]; [reflexivity|].
  cbn [app]. rewrite !nan_count_cons, IH. lia.
Qed.

Lemma nan_count_bind {X} (g : X -> list float) l :
  nan_count (l ≫= g) = zsum (fun x => nan_count (g x)) l.
Proof.
  induction l as [|x l IH]; [done|].
  rewrite bind_cons, nan_count_app, IH. done.
Qed.

Lemma fmap_lookup_total_seq {A} `{Inhabited A} (l : list A) :
  (fun x => l !!! x) <$> seq 0 (length l) = l.
Proof.
  apply list_eq. intros i. rewrite list_lookup_fmap.
  destruct (decide (i < length l)) as [Hi|Hi].
  - rewrite lookup_seq_lt by done. cbn. symmetry.
    by apply list_lookup_lookup_total_lt.
  - rewrite lookup_seq_ge by lia. cbn. symmetry. apply lookup_ge_None. lia.
Qed.

Variables width height depth stokes : nat.
Variable standardCube : list spec_float.
Variable currentStokes : nat.

Local Abbreviation nan_at i j k :=
  (if isnan (standardCube !!! sourceIndex width height i j k) then 1 else 0)%Z.

Lemma nan_count_slice i :
  nan_count (slice_pixels width height standardCube i)
  = zsum (fun j => zsum (fun k => nan_at i j k) (seq 0 width)) (seq 0 height).
Proof.
  unfold slice_pixels. rewrite nan_count_bind. apply zsum_ext. intros j _.
  rewrite nan_count_bind. apply zsum_ext. intros k _.
  rewrite nan_count_cons. change (nan_count []) with 0%Z.
  destruct (isnan _); reflexivity.
Qed.

Lemma nan_count_profile j k :
  nan_count (profile_pixels width height depth standardCube j k)
  = zsum (fun i => nan_at i j k) (seq 0 depth).
Proof. unfold profile_pixels. apply nan_count_zsum. Qed.

Lemma nan_total_slices rot xy :
  currentStokes < stokes -> length (nanValsXY xy) = depth * stokes ->
  nan_total depth currentStokes
    (snd (slice_stats_pass width height depth standardCube currentStokes rot xy))
  = zsum (fun i => nan_count (slice_pixels width height standardCube i))
      (seq 0 depth).
Proof.
  intros Hs Lnan. unfold nan_total. apply zsum_ext. intros i Hi.
  apply elem_of_seq in Hi. rewrite slice_stats_pass_stats. cbv zeta.
  cbn [nanValsXY].
  rewrite (slice_stats_lookup_total depth stokes currentStokes) by (done || lia).
  apply nanCount_slice_acc.
Qed.

Lemma nan_total_profiles z :
  currentStokes < stokes -> length (nanValsZ z) = width * height * stokes ->
  nan_total_z width height currentStokes
    (profile_stats_pass width height depth standardCube currentStokes z)
  = zsum (fun j =>
            zsum (fun k =>
                    nan_count (profile_pixels width height depth standardCube j k))
              (seq 0 width))
      (seq 0 height).
Proof.
  intros Hs Lnan. unfold nan_total_z, pairs. rewrite zsum_bind.
  apply zsum_ext. intros j Hj. rewrite zsum_bind. apply zsum_ext. intros k Hk.
  apply elem_of_seq in Hj, Hk. cbn [map foldr]. rewrite Z.add_0_r.
  rewrite profile_stats_pass_stats. cbv zeta. cbn [nanValsZ].
  pose proof (profile_stats_lookup width height stokes currentStokes
                (fun t => nanCount
                            (profile_acc width height depth standardCube t.1 t.2))
                (nanValsZ z) j k Hs ltac:(lia) ltac:(lia) Lnan) as Hl.
  apply list_lookup_total_correct in Hl. rewrite Hl.
  cbn [fst snd]. unfold profile_acc. rewrite fold_accumulate. cbn [nanCount acc0].
  lia.
Qed.

End NanTotals.


(** ** Counts added to the rows of the histograms *)

Lemma adds_to_row_refl B r h : adds_to_row B r 0 h h.
Proof. repeat split; try done. lia. Qed.

Lemma adds_to_row_trans B r c1 c2 h h1 h2 :
  adds_to_row B r c1 h h1 -> adds_to_row B r c2 h1 h2 ->
  adds_to_row B r (c1 + c2) h h2.
Proof.
  intros (L1 & T1 & O1) (L2 & T2 & O2). split; [congruence|]. split; [lia|].
  intros r' Hr. by rewrite O2, O1.
Qed.

Lemma vec_incr_adds depth stokes currentStokes numBins (h : list Z) i b :
  currentStokes < stokes -> i < depth ->
  (0 <= b <= numBins - 1)%Z ->
  length h = depth * stokes * Z.to_nat numBins ->
  exists h',
    vec_incr h (row_start depth currentStokes numBins i + b) = Some h'
    /\ adds_to_row (Z.to_nat numBins) (currentStokes * depth + i) 1 h h'.
Proof.
  intros Hs Hi Hb Hlen.
  set (Bn := Z.to_nat numBins). set (r := currentStokes * depth + i).
  assert (Hidx : (row_start depth currentStokes numBins i + b)%Z
                 = Z.of_nat (r * Bn + Z.to_nat b)).
  { unfold row_start, r, Bn. rewrite Nat2Z.inj_add, !Nat2Z.inj_mul,
      Nat2Z.inj_add, Nat2Z.inj_mul, !Z2Nat.id by lia. ring. }
  assert (HbB : Z.to_nat b < Bn) by (unfold Bn; lia).
  assert (Hr : r < depth * stokes).
  { unfold r. apply Nat.lt_le_trans with (currentStokes * depth + depth); [lia|].
    replace (currentStokes * depth + depth) with (depth * S currentStokes) by lia.
    apply Nat.mul_le_mono_l. lia. }
  assert (Hin : r * Bn + Z.to_nat b < length h).
  { rewrite Hlen. fold Bn.
    apply Nat.lt_le_trans with ((r + 1) * Bn); [lia|].
    apply Nat.mul_le_mono_r. lia. }
  destruct (incr_row Bn h r (Z.to_nat b) HbB Hin) as (Hl & Ht & Ho).
  eexists. split; [|split; [exact Hl|split; [exact Ht|exact Ho]]].
  unfold vec_incr. rewrite Hidx, Nat2Z.id.
  replace ((0 <=? Z.of_nat (r * Bn + Z.to_nat b))%Z
           && (Z.of_nat (r * Bn + Z.to_nat b) <? Z.of_nat (length h))%Z)
    with true; [reflexivity|].
  symmetry. apply andb_true_intro. split; [apply Z.leb_le|apply Z.ltb_lt]; lia.
Qed.

Section HistogramRows.
Variables width height depth stokes : nat.
Variable standardCube : list spec_float.
Variable currentStokes : nat.
Variable numBins : Z.
Hypothesis cube_numbers :
  forall v, v ∈ standardCube -> valid_float v = true /\ isinf v = false.
Hypothesis bins : (1 <= numBins <= INT_MAX)%Z.
Hypothesis stokes_bound : currentStokes < stokes.
Variables (rot : list float) (xy : xy_stats).
Hypothesis Lmin : length (minValsXY xy) = depth * stokes.
Hypothesis Lmax : length (maxValsXY xy) = depth * stokes.
Hypothesis Lmean : length (meanValsXY xy) = depth * stokes.
Hypothesis Lnan : length (nanValsXY xy) = depth * stokes.
Hypothesis pixels_bound : (Z.of_nat (width * height) <= INT_MAX)%Z.
Hypothesis rows_bound : (Z.of_nat depth * numBins <= INT_MAX)%Z.

Local Abbreviation size_bound := (slice_size_bound width height pixels_bound).

Local Abbreviation xy' :=
  (snd (slice_stats_pass width height depth standardCube currentStokes rot xy)).
Local Abbreviation sliceMin i := (minValsXY xy' !!! (currentStokes * depth + i)).
Local Abbreviation sliceMax i := (maxValsXY xy' !!! (currentStokes * depth + i)).
Local Abbreviation cube := (consolidate_loop width height depth currentStokes xy').
Local Abbreviation size := (depth * stokes * Z.to_nat numBins).
Local Abbreviation pixel i j := (standardCube !!! (i * width * height + j)).
Local Abbreviation range i :=
  (F64.sub (float_to_double (sliceMax i)) (float_to_double (sliceMin i))).
Local Abbreviation hist_pixel' i :=
  (hist_pixel width height depth standardCube currentStokes numBins i
     (float_to_double (sliceMin i)) (range i)
     (xyzMin cube) (F64.sub (xyzMax cube) (xyzMin cube))).
Local Abbreviation hist_slice' :=
  (hist_slice width height depth standardCube currentStokes numBins xy'
     (xyzMin cube) (F64.sub (xyzMax cube) (xyzMin cube))).
Local Abbreviation adds i c h h' :=
  (adds_to_row (Z.to_nat numBins) (currentStokes * depth + i) c h h').
(** What a pass does to the partial XYZ vector: what it does to the XY
    vector when the depth is above 1, and nothing otherwise. *)
Local Abbreviation adds_xyz i c p p' :=
  (adds_to_row_if (1 <? depth) (Z.to_nat numBins) (currentStokes * depth + i)
     c p p').

Lemma hist_pixel_adds i j hxy pxyz :
  i < depth -> degenerate (sliceMin i) (sliceMax i) = false ->
  j < width * height ->
  length hxy = size -> (1 < depth -> length pxyz = size) ->
  exists hxy1 pxyz1,
    hist_pixel' i (Some (hxy, pxyz)) j = Some (hxy1, pxyz1)
    /\ adds i (if isnan (pixel i j) then 0 else 1)%Z hxy hxy1
    /\ adds_xyz i (if isnan (pixel i j) then 0 else 1)%Z pxyz pxyz1.
Proof.
  intros Hi Hdeg Hj Lh Lp. unfold hist_pixel. cbv zeta.
  destruct (isnan (pixel i j)) eqn:Hv; cbn [negb].
  { exists hxy, pxyz. split; [done|]. split; [apply adds_to_row_refl|].
    unfold adds_to_row_if. destruct (1 <? depth); [apply adds_to_row_refl|done]. }
  destruct (pixel_bin_xy width height depth stokes standardCube currentStokes
              numBins cube_numbers bins stokes_bound rot xy
              Lmin Lmax Lmean Lnan i j Hi Hdeg Hj Hv) as (b & Hb & Hbr).
  rewrite Hb.
  rewrite (hist_row_base_defined depth currentStokes numBins i Hi
             (proj1 bins) rows_bound).
  destruct (vec_incr_adds depth stokes currentStokes numBins hxy i b
              stokes_bound Hi Hbr Lh) as (h1 & Hinc & Hadd).
  rewrite Hinc.
  destruct (Nat.ltb_spec 1 depth) as [Hd|Hd].
  - destruct (pixel_bin_xyz width height depth stokes standardCube
                currentStokes numBins cube_numbers bins stokes_bound rot xy
                Lmin Lmax Lmean Lnan size_bound i j Hi Hdeg Hj Hv)
      as (b' & Hb' & Hbr').
    rewrite Hb'.
    destruct (vec_incr_adds depth stokes currentStokes numBins pxyz i b'
                stokes_bound Hi Hbr' (Lp Hd)) as (p1 & Hinc' & Hadd').
    rewrite Hinc'. exists h1, p1. split; [done|]. split; [done|].
    exact Hadd'.
  - exists h1, pxyz. split; [done|]. split; [done|].
    reflexivity.
Qed.

Lemma adds_xyz_trans i c1 c2 p p1 p2 :
  adds_xyz i c1 p p1 -> adds_xyz i c2 p1 p2 -> adds_xyz i (c1 + c2) p p2.
Proof.
  unfold adds_to_row_if.
  destruct (1 <? depth); [apply adds_to_row_trans|congruence].
Qed.

Lemma adds_xyz_length i c p p1 : adds_xyz i c p p1 -> length p1 = length p.
Proof.
  unfold adds_to_row_if. destruct (1 <? depth); [by intros [? _]|by intros ->].
Qed.

Lemma hist_pixels_adds i js hxy pxyz :
  i < depth -> degenerate (sliceMin i) (sliceMax i) = false ->
  (forall j, j ∈ js -> j < width * height) ->
  length hxy = size -> (1 < depth -> length pxyz = size) ->
  let c := Z.of_nat (length (non_nan ((fun j => pixel i j) <$> js))) in
  exists hxy1 pxyz1,
    fold_left (hist_pixel' i) js (Some (hxy, pxyz)) = Some (hxy1, pxyz1)
    /\ adds i c hxy hxy1 /\ adds_xyz i c pxyz pxyz1.
Proof.
  intros Hi Hdeg. revert hxy pxyz.
  induction js as [|j js IH]; intros hxy pxyz Hjs Lh Lp c.
  { exists hxy, pxyz. split; [done|]. split; [apply adds_to_row_refl|].
    unfold adds_to_row_if. destruct (1 <? depth); [apply adds_to_row_refl|done]. }
  cbn [fold_left].
  destruct (hist_pixel_adds i j hxy pxyz Hi Hdeg ltac:(apply Hjs; by left) Lh Lp)
    as (h1 & p1 & Hstep & Hh1 & Hp1).
  rewrite Hstep.
  destruct (IH h1 p1 ltac:(intros; apply Hjs; by right)
              ltac:(destruct Hh1 as [-> _]; done)
              ltac:(intros; rewrite (adds_xyz_length _ _ _ _ Hp1); auto))
    as (h2 & p2 & Hfold & Hh2 & Hp2).
  exists h2, p2. split; [done|].
  assert (Hc : c = ((if isnan (pixel i j) then 0 else 1)
                    + Z.of_nat (length (non_nan ((fun j => pixel i j) <$> js))))%Z).
  { unfold c. rewrite fmap_cons. unfold non_nan. cbn [List.filter].
    destruct (isnan (pixel i j)); cbn [negb length]; lia. }
  rewrite Hc. split.
  - by apply (adds_to_row_trans _ _ _ _ _ h1).
  - by apply (adds_xyz_trans _ _ _ _ p1).
Qed.

(** The numbers a slice adds to its row: none when the loop skips it. *)
Local Abbreviation counted z :=
  (if degenerate (sliceMin z) (sliceMax z) then 0%Z
   else Z.sub (Z.of_nat (height * width))
          (nanValsXY xy' !!! (currentStokes * depth + z))).

Lemma hist_slice_adds i hxy pxyz :
  i < depth -> length hxy = size -> (1 < depth -> length pxyz = size) ->
  exists hxy1 pxyz1,
    hist_slice' (Some (hxy, pxyz)) i = Some (hxy1, pxyz1)
    /\ adds i (counted i) hxy hxy1 /\ adds_xyz i (counted i) pxyz pxyz1.
Proof.
  intros Hi Lh Lp. unfold hist_slice. cbv zeta.
  change (isnan (float_to_double (sliceMin i))
          || isnan (float_to_double (sliceMax i))
          || F64.eqb (range i) F64.zero)
    with (degenerate (sliceMin i) (sliceMax i)).
  destruct (degenerate (sliceMin i) (sliceMax i)) eqn:Hdeg.
  { exists hxy, pxyz. split; [done|]. split; [apply adds_to_row_refl|].
    unfold adds_to_row_if. destruct (1 <? depth); [apply adds_to_row_refl|done]. }
  rewrite int_loop_fold by exact pixels_bound.
  destruct (hist_pixels_adds i (seq 0 (width * height)) hxy pxyz Hi Hdeg
              ltac:(intros j Hj; apply elem_of_seq in Hj; lia) Lh Lp)
    as (h1 & p1 & Hfold & Hh1 & Hp1).
  exists h1, p1. split; [exact Hfold|].
  assert (Hc : Z.of_nat (length (non_nan ((fun j => pixel i j)
                                            <$> seq 0 (width * height))))
               = Z.sub (Z.of_nat (height * width))
                   (nanValsXY xy' !!! (currentStokes * depth + i))).
  { rewrite <- slice_pixels_flat, length_non_nan, length_slice_pixels.
    destruct (published_extremes width height depth stokes standardCube
                currentStokes stokes_bound rot xy Lmin Lmax Lmean Lnan i Hi Hdeg)
      as (_ & _ & Hn & _).
    rewrite Hn, nanCount_slice_acc. reflexivity. }
  cbv zeta in Hh1, Hp1. rewrite Hc in Hh1, Hp1. by split.
Qed.

(** The loop over the slices [l]: each slice adds its numbers to its own
    row of the XY vector, and of the partial XYZ vector when the depth is
    above 1; every other row of the two vectors is left as it was. *)
Lemma hist_slices_adds l hxy pxyz :
  NoDup l -> (forall i, i ∈ l -> i < depth) ->
  length hxy = size -> (1 < depth -> length pxyz = size) ->
  exists hxy1 pxyz1,
    fold_left hist_slice' l (Some (hxy, pxyz)) = Some (hxy1, pxyz1)
    /\ length hxy1 = length hxy /\ length pxyz1 = length pxyz
    /\ (forall z, z ∈ l ->
          row_total (grid_row (Z.to_nat numBins) (currentStokes * depth + z) hxy1)
          = (row_total (grid_row (Z.to_nat numBins) (currentStokes * depth + z) hxy)
             + counted z)%Z)
    /\ (forall r, (forall z, z ∈ l -> r <> currentStokes * depth + z) ->
          grid_row (Z.to_nat numBins) r hxy1 = grid_row (Z.to_nat numBins) r hxy)
    /\ (if 1 <? depth
        then (forall z, z ∈ l ->
                row_total (grid_row (Z.to_nat numBins)
                             (currentStokes * depth + z) pxyz1)
                = (row_total (grid_row (Z.to_nat numBins)
                                (currentStokes * depth + z) pxyz)
                   + counted z)%Z)
             /\ (forall r, (forall z, z ∈ l -> r <> currentStokes * depth + z) ->
                   grid_row (Z.to_nat numBins) r pxyz1
                   = grid_row (Z.to_nat numBins) r pxyz)
        else pxyz1 = pxyz).
Proof.
  revert hxy pxyz. induction l as [|i l IH]; intros hxy pxyz Hnd Hl Lh Lp.
  { exists hxy, pxyz. split; [done|]. split; [done|]. split; [done|].
    split; [intros z Hz; by apply elem_of_nil in Hz|]. split; [done|].
    destruct (1 <? depth); [|done].
    split; [intros z Hz; by apply elem_of_nil in Hz|done]. }
  apply NoDup_cons in Hnd as [Hni Hnd]. cbn [fold_left].
  assert (Hi : i < depth) by (apply Hl; by left).
  destruct (hist_slice_adds i hxy pxyz Hi Lh Lp)
    as (h1 & p1 & Hstep & (Lh1 & Th1 & Oh1) & Hp1).
  rewrite Hstep.
  pose proof (adds_xyz_length _ _ _ _ Hp1) as Lp1.
  destruct (IH h1 p1 Hnd ltac:(intros; apply Hl; by right) ltac:(lia)
              ltac:(intros; rewrite Lp1; auto))
    as (h2 & p2 & Hfold & Lh2 & Lp2 & Trows & Orows & Hp2).
  exists h2, p2. split; [done|]. split; [lia|]. split; [lia|].
  assert (Hother : forall z, z ∈ l -> currentStokes * depth + i
                                      <> currentStokes * depth + z).
  { intros z Hz Heq. assert (z = i) by lia. subst z. done. }
  split; [|split].
  - intros z Hz. apply elem_of_cons in Hz as [->|Hz].
    + rewrite Orows by done. exact Th1.
    + rewrite Trows by done. rewrite Oh1; [done|].
      intros Heq. by apply (Hother z Hz).
  - intros r Hr. rewrite Orows by (intros z Hz; apply Hr; by right).
    apply Oh1. apply Hr. by left.
  - unfold adds_to_row_if in Hp1. destruct (1 <? depth); [|congruence].
    destruct Hp1 as (_ & Tp1 & Op1). destruct Hp2 as [Tp Op]. split.
    + intros z Hz. apply elem_of_cons in Hz as [->|Hz].
      * rewrite Op by done. exact Tp1.
      * rewrite Tp by done. rewrite Op1; [done|].
        intros Heq. by apply (Hother z Hz).
    + intros r Hr. rewrite Op by (intros z Hz; apply Hr; by right).
      apply Op1. apply Hr. by left.
Qed.
End HistogramRows.

(** ** The consolidation of the partial XYZ histograms *)

Section GridRows.
Local Abbreviation zsum f l := (foldr Z.add 0%Z (map f l)).

Lemma lookup_grid_row B r (h : list Z) j :
  j < B -> grid_row B r h !! j = h !! (r * B + j).
Proof. intros Hj. unfold grid_row. by rewrite lookup_take_lt, lookup_drop. Qed.

Lemma grid_row_ext B r (h h' : list Z) :
  (forall j, j < B -> h' !! (r * B + j) = h !! (r * B + j)) ->
  grid_row B r h' = grid_row B r h.
Proof.
  intros H. apply list_eq. intros j. destruct (decide (j < B)) as [Hj|Hj].
  - rewrite !lookup_grid_row by done. by apply H.
  - unfold grid_row. by rewrite !lookup_take_ge by lia.
Qed.

Lemma grid_row_cells B r (h : list Z) :
  (r + 1) * B <= length h ->
  grid_row B r h = map (fun j => h !!! (r * B + j)) (seq 0 B).
Proof.
  intros Hlen. apply list_eq. intros j. destruct (decide (j < B)) as [Hj|Hj].
  - rewrite lookup_grid_row by done.
    change (map ?f ?l) with (f <$> l). rewrite list_lookup_fmap.
    rewrite lookup_seq_lt by done. cbn.
    apply list_lookup_lookup_total_lt. lia.
  - unfold grid_row. rewrite lookup_take_ge by lia.
    change (map ?f ?l) with (f <$> l). rewrite list_lookup_fmap.
    by rewrite lookup_seq_ge by lia.
Qed.

(** A fold of additions into cells: each cell gains the sum of what was
    added to it. *)
Lemma fold_add_lookup {X} (pos : X -> nat) (v : X -> Z) l (h : list Z) n :
  fold_left (fun h x => <[pos x := Z.add (h !!! pos x) (v x)]> h) l h !! n
  = (fun y => (y + zsum (fun x => if decide (pos x = n) then v x else 0) l)%Z)
      <$> (h !! n).
Proof.
  revert h. induction l as [|x l IH]; intros h.
  - cbn. destruct (h !! n); cbn; [f_equal; lia|done].
  - cbn [fold_left map foldr]. rewrite IH.
    destruct (decide (pos x = n)) as [<-|Hne].
    + destruct (h !! pos x) as [y|] eqn:Hy.
      * rewrite list_lookup_insert_eq by (eapply lookup_lt_Some; exact Hy).
        rewrite (list_lookup_total_correct _ _ _ Hy). cbn. f_equal. lia.
      * rewrite list_insert_ge by (by apply lookup_ge_None in Hy).
        by rewrite Hy.
    + rewrite list_lookup_insert_ne by done.
      destruct (h !! n); cbn; [f_equal; lia|done].
Qed.

Lemma zsum_single (f : nat -> Z) j0 n :
  j0 < n ->
  zsum (fun j => if decide (j = j0) then f j else 0%Z) (seq 0 n) = f j0.
Proof.
  intros Hj. rewrite (seq_split_at j0 n Hj).
  change (map ?g (?a ++ ?b)) with (g <$> (a ++ b)). rewrite fmap_app.
  change (?g <$> ?a) with (map g a). rewrite foldr_app. cbn [map foldr].
  rewrite decide_True by done.
  assert (H0 : forall l, (forall j, j ∈ l -> j <> j0) -> forall a,
            foldr Z.add a (map (fun j => if decide (j = j0) then f j else 0%Z) l)
            = a).
  { induction l as [|j l IH]; intros Hl a; [done|]. cbn [map foldr].
    rewrite decide_False by (apply Hl; by left).
    rewrite IH by (intros; apply Hl; by right). lia. }
  rewrite (H0 (seq 0 j0)) by (intros j Hin; apply elem_of_seq in Hin; lia).
  rewrite (H0 (seq (S j0) _)) by (intros j Hin; apply elem_of_seq in Hin; lia).
  lia.
Qed.

Lemma zsum_none {X} (f : X -> Z) (P : X -> Prop) `{forall x, Decision (P x)} l :
  (forall x, x ∈ l -> ~ P x) ->
  zsum (fun x => if decide (P x) then f x else 0%Z) l = 0%Z.
Proof.
  induction l as [|x l IH]; intros Hl; [done|]. cbn [map foldr].
  rewrite decide_False by (apply Hl; by left).
  rewrite IH by (intros; apply Hl; by right). lia.
Qed.

(** With [D*B] at most [INT_MAX] and [S*B] at most [2^32] the [int]
    product and the [unsigned int] sum of the consolidation are the exact
    ones, and the loop is defined. *)
Lemma reduce_partial_defined depth stokes currentStokes B
    (partial hist : list Z) :
  currentStokes < stokes -> 1 <= B ->
  (Z.of_nat depth * Z.of_nat B <= INT_MAX)%Z ->
  (Z.of_nat stokes * Z.of_nat B <= 2 ^ 32)%Z ->
  reduce_partial depth currentStokes B partial hist
  = Some
      (fold_left
         (fun h i =>
            fold_left
              (fun h j =>
                 let dst := currentStokes * B + j in
                 let src := currentStokes * depth * B + i * B + j in
                 <[dst := Z.add (h !!! dst) (partial !!! src)]> h)
              (seq 0 B) h)
         (seq 0 depth) hist).
Proof.
  intros Hs HB Hrows Hcells. unfold reduce_partial.
  rewrite int_loop_fold by (unfold INT_MAX in *; nia).
  assert (Hall : forall i, i ∈ seq 0 depth -> i < depth)
    by (intros i Hi; apply elem_of_seq in Hi; lia).
  revert Hall. generalize (seq 0 depth). intros l. revert hist.
  induction l as [|i l IH]; intros hist Hl; [done|].
  cbn [fold_left]. rewrite <- IH by (intros; apply Hl; by right). f_equal.
  assert (Hi : i < depth) by (apply Hl; by left).
  assert (Hjs : forall j, j ∈ seq 0 B -> j < B)
    by (intros j Hj; apply elem_of_seq in Hj; lia).
  revert Hjs. generalize (seq 0 B). intros js. generalize hist. clear IH Hl.
  induction js as [|j js IH]; intros h Hjs; [done|].
  cbn [fold_left]. rewrite <- IH by (intros; apply Hjs; by right). f_equal.
  assert (Hj : j < B) by (apply Hjs; by left).
  rewrite int_mul_defined by (unfold INT_MIN, INT_MAX in *; nia).
  cbv zeta. unfold unsigned_index.
  rewrite Z.mod_small by nia.
  rewrite <- !Nat2Z.inj_mul, <- Nat2Z.inj_add, !Nat2Z.id. reflexivity.
Qed.

(** The consolidation adds to the row of the polarization, cell by cell,
    the rows of its slices in the partial vector, and leaves the rows of
    the other polarizations as they are. *)
Lemma reduce_partial_rows depth stokes currentStokes B (partial hist : list Z) :
  currentStokes < stokes -> 1 <= B ->
  (Z.of_nat depth * Z.of_nat B <= INT_MAX)%Z ->
  (Z.of_nat stokes * Z.of_nat B <= 2 ^ 32)%Z ->
  length hist = stokes * B -> length partial = depth * stokes * B ->
  exists hist',
    reduce_partial depth currentStokes B partial hist = Some hist'
    /\ length hist' = length hist
    /\ row_total (grid_row B currentStokes hist')
       = (row_total (grid_row B currentStokes hist)
          + zsum (fun i => row_total (grid_row B (currentStokes * depth + i) partial))
              (seq 0 depth))%Z
    /\ forall t, t <> currentStokes -> grid_row B t hist' = grid_row B t hist.
Proof.
  intros Hs HB Hrows Hcells Lh Lp.
  eexists. split; [by apply (reduce_partial_defined depth stokes)|].
  cbv zeta.
  set (hist' := fold_left _ (seq 0 depth) hist).
  set (pos := fun t : nat * nat => currentStokes * B + t.2).
  set (val := fun t : nat * nat =>
                partial !!! (currentStokes * depth * B + t.1 * B + t.2)).
  set (cells := i ← seq 0 depth; j ← seq 0 B; [(i, j)]).
  assert (Hfold : hist'
            = fold_left (fun h x => <[pos x := Z.add (h !!! pos x) (val x)]> h)
                cells hist).
  { unfold hist', cells. rewrite fold_left_bind.
    apply fold_left_ext_in. intros h i _. rewrite fold_left_bind.
    apply fold_left_ext_in. intros h' j _. reflexivity. }
  assert (Hlen : length hist' = length hist).
  { rewrite Hfold. generalize hist. clear. induction cells as [|x l IH];
      intros h; [done|]. cbn [fold_left]. rewrite IH. apply length_insert. }
  assert (Hrow : (currentStokes + 1) * B <= length hist)
    by (rewrite Lh; apply Nat.mul_le_mono_r; lia).
  assert (Hprow : forall i, i < depth ->
            (currentStokes * depth + i + 1) * B <= length partial).
  { intros i Hi. rewrite Lp. apply Nat.mul_le_mono_r.
    apply Nat.le_trans with (depth * S currentStokes); [lia|].
    apply Nat.mul_le_mono_l. lia. }
  split; [exact Hlen|]. split.
  - rewrite !grid_row_cells by lia. unfold row_total.
    transitivity (zsum (fun j => Z.add (hist !!! (currentStokes * B + j))
                    (zsum (fun i => partial !!! ((currentStokes * depth + i) * B + j))
                        (seq 0 depth))) (seq 0 B)).
    + apply zsum_ext. intros j Hj. apply elem_of_seq in Hj.
      assert (Hl : hist !! (currentStokes * B + j)
                   = Some (hist !!! (currentStokes * B + j)))
        by (apply list_lookup_lookup_total_lt; lia).
      pose proof (fold_add_lookup pos val cells hist (currentStokes * B + j))
        as Hc. rewrite <- Hfold, Hl in Hc. cbn in Hc.
      apply list_lookup_total_correct in Hc. rewrite Hc. f_equal.
      unfold cells. rewrite zsum_bind. apply zsum_ext. intros i _.
      rewrite zsum_bind.
      rewrite (zsum_ext _ (fun j' => if decide (j' = j)
                                     then partial !!! ((currentStokes * depth + i) * B + j')
                                     else 0%Z)).
      * rewrite zsum_single by lia. done.
      * intros j' _. cbn [map foldr]. unfold pos, val. cbn [fst snd].
        rewrite Z.add_0_r.
        destruct (decide (currentStokes * B + j' = currentStokes * B + j));
          destruct (decide (j' = j)); try lia.
        f_equal. lia.
    + rewrite zsum_add. f_equal. rewrite zsum_exchange.
      apply zsum_ext. intros i Hi. apply elem_of_seq in Hi.
      rewrite grid_row_cells by (apply Hprow; lia). done.
  - intros t Ht. apply grid_row_ext. intros j Hj.
    pose proof (fold_add_lookup pos val cells hist (t * B + j)) as Hc.
    rewrite <- Hfold in Hc. rewrite Hc.
    rewrite (zsum_none val (fun x => pos x = t * B + j)).
    + destruct (hist !! (t * B + j)); cbn; [f_equal; lia|done].
    + intros [i j'] Hin Heq. unfold pos in Heq. cbn in Heq.
      unfold cells in Hin. apply list_elem_of_bind in Hin as (i' & Hin & _).
      apply list_elem_of_bind in Hin as (j'' & Hin & Hj'').
      apply list_elem_of_singleton in Hin. inversion Hin; subst.
      apply elem_of_seq in Hj''.
      destruct (mixed_radix_inj B j'' currentStokes j t ltac:(lia) ltac:(lia)
                  ltac:(lia)) as [_ ?]. lia.
Qed.
End GridRows.

(** ** One polarization, from the statistics to the histograms *)

Lemma row_total_zero B r (h : list Z) :
  grid_row B r h = replicate B 0%Z -> row_total (grid_row B r h) = 0%Z.
Proof. intros ->. apply row_total_replicate. Qed.

Section Polarization.
Variables width height depth stokes : nat.
Variable standardCube : list spec_float.
Variable currentStokes : nat.
Variable numBins : Z.
Variable b : buffers.
Hypothesis cube_numbers :
  forall v, v ∈ standardCube -> valid_float v = true /\ isinf v = false.
Hypothesis bins : (1 <= numBins <= INT_MAX)%Z.
Hypothesis width_bound : (Z.of_nat width <= INT_MAX)%Z.
Hypothesis height_bound : (Z.of_nat height <= INT_MAX)%Z.
Hypothesis pixels_bound : (Z.of_nat (width * height) <= INT_MAX)%Z.
Hypothesis rows_bound : (Z.of_nat depth * numBins <= INT_MAX)%Z.
Hypothesis cells_bound : (Z.of_nat stokes * numBins <= 2 ^ 32)%Z.
Hypothesis stokes_bound : currentStokes < stokes.
Hypothesis Lmin : length (minValsXY (statsXY b)) = depth * stokes.
Hypothesis Lmax : length (maxValsXY (statsXY b)) = depth * stokes.
Hypothesis Lmean : length (meanValsXY (statsXY b)) = depth * stokes.
Hypothesis Lnan : length (nanValsXY (statsXY b)) = depth * stokes.
Hypothesis Lhxy :
  length (histogramsXY b) = depth * stokes * Z.to_nat numBins.
Hypothesis Lpxyz :
  1 < depth ->
  length (partialHistogramsXYZ b) = depth * stokes * Z.to_nat numBins.
Hypothesis Lhxyz :
  1 < depth -> length (histogramsXYZ b) = stokes * Z.to_nat numBins.

Local Abbreviation B := (Z.to_nat numBins).
Local Abbreviation xy' :=
  (snd (slice_stats_pass width height depth standardCube currentStokes
          (rotatedCube b) (statsXY b))).
(** The numbers slice [z] adds to the histograms: none when the loop
    skips it. *)
Local Abbreviation counted xy z :=
  (if degenerate (minValsXY xy !!! (currentStokes * depth + z))
        (maxValsXY xy !!! (currentStokes * depth + z))
   then 0%Z
   else Z.sub (Z.of_nat (height * width))
          (nanValsXY xy !!! (currentStokes * depth + z))).

(** The consolidation of the partial vector, under the bounds of the
    section. *)
Lemma reduce_partial_here (pxyz : list Z) :
  1 < depth -> length pxyz = depth * stokes * B ->
  exists hxyz,
    reduce_partial depth currentStokes B pxyz (histogramsXYZ b) = Some hxyz
    /\ length hxyz = length (histogramsXYZ b)
    /\ row_total (grid_row B currentStokes hxyz)
       = (row_total (grid_row B currentStokes (histogramsXYZ b))
          + foldr Z.add 0%Z
              (map (fun i =>
                      row_total (grid_row B (currentStokes * depth + i) pxyz))
                 (seq 0 depth)))%Z
    /\ forall t, t <> currentStokes ->
         grid_row B t hxyz = grid_row B t (histogramsXYZ b).
Proof.
  intros Hd Lp.
  apply (reduce_partial_rows depth stokes currentStokes B pxyz
           (histogramsXYZ b) stokes_bound); try done.
  - lia.
  - rewrite Z2Nat.id by lia. exact rows_bound.
  - rewrite Z2Nat.id by lia. exact cells_bound.
  - by apply Lhxyz.
Qed.

(** What [process_stokes] returns, and what it did to the rows of the
    histogram vectors. *)
Lemma process_stokes_rows :
  exists hxy pxyz hxyz,
    process_stokes width height depth standardCube currentStokes numBins b
    = Some (mkBuffers
              (fst (slice_stats_pass width height depth standardCube
                      currentStokes (rotatedCube b) (statsXY b)))
              xy'
              (if 1 <? depth
               then profile_stats_pass width height depth standardCube
                      currentStokes (statsZ b)
               else statsZ b)
              (if 1 <? depth
               then publish_xyz width height depth currentStokes
                      (consolidate_loop width height depth currentStokes xy')
                      (statsXYZ b)
               else statsXYZ b)
              hxy pxyz hxyz)
    /\ (if 1 <? depth
        then reduce_partial depth currentStokes B pxyz (histogramsXYZ b)
             = Some hxyz
        else hxyz = histogramsXYZ b)
    /\ length hxy = length (histogramsXY b)
    /\ length pxyz = length (partialHistogramsXYZ b)
    /\ (forall z, z < depth ->
          row_total (grid_row B (currentStokes * depth + z) hxy)
          = (row_total (grid_row B (currentStokes * depth + z) (histogramsXY b))
             + counted xy' z)%Z)
    /\ (forall r, (forall z, z < depth -> r <> currentStokes * depth + z) ->
          grid_row B r hxy = grid_row B r (histogramsXY b))
    /\ (if 1 <? depth
        then (forall z, z < depth ->
                row_total (grid_row B (currentStokes * depth + z) pxyz)
                = (row_total (grid_row B (currentStokes * depth + z)
                                (partialHistogramsXYZ b))
                   + counted xy' z)%Z)
             /\ (forall r,
                   (forall z, z < depth -> r <> currentStokes * depth + z) ->
                   grid_row B r pxyz = grid_row B r (partialHistogramsXYZ b))
        else pxyz = partialHistogramsXYZ b).
Proof.
  destruct (hist_slices_adds width height depth stokes standardCube
              currentStokes numBins cube_numbers bins stokes_bound
              (rotatedCube b) (statsXY b) Lmin Lmax Lmean Lnan
              pixels_bound rows_bound
              (seq 0 depth) (histogramsXY b) (partialHistogramsXYZ b)
              (NoDup_seq 0 depth)
              ltac:(intros i Hi; apply elem_of_seq in Hi; lia) Lhxy Lpxyz)
    as (h1 & p1 & Hfold & Lh1 & Lp1 & Th & Oh & Hp).
  assert (Hx : exists hxyz,
            (if 1 <? depth
             then reduce_partial depth currentStokes B p1 (histogramsXYZ b)
             else Some (histogramsXYZ b)) = Some hxyz).
  { destruct (Nat.ltb_spec 1 depth) as [Hd|Hd]; [|by eexists].
    destruct (reduce_partial_here p1 Hd ltac:(rewrite Lp1; auto))
      as (hxyz & Hred & _).
    by exists hxyz. }
  destruct Hx as [hxyz Hx].
  exists h1, p1, hxyz. split.
  { unfold process_stokes. cbv zeta. unfold histogram_pass.
    rewrite int_loop_fold
      by (apply (depth_int_bound depth numBins); [lia|exact rows_bound]).
    rewrite Hfold, Hx. reflexivity. }
  split.
  { destruct (1 <? depth); [exact Hx|]. by injection Hx as <-. }
  split; [done|]. split; [done|]. split.
  { intros z Hz. apply Th. apply elem_of_seq. lia. }
  split.
  { intros r Hr. apply Oh. intros z Hz. apply Hr. apply elem_of_seq in Hz. lia. }
  destruct (1 <? depth); [|done]. destruct Hp as [Tp Op]. split.
  - intros z Hz. apply Tp. apply elem_of_seq. lia.
  - intros r Hr. apply Op. intros z Hz. apply Hr. apply elem_of_seq in Hz. lia.
Qed.

(** The XYZ histogram of a polarization.  On a cube of depth above 1
    without infinite pixels, with between 1 and [INT_MAX] bins, axes and
    slices of at most [INT_MAX] pixels, [D*B] at most [INT_MAX], [S*B] at
    most [2^32] and vectors of the allocated sizes, when the rows of the
    polarization start at zero in the three histogram vectors, the pass
    is defined and the XYZ histogram of the polarization holds as many
    counts as the XY histograms of its slices together: [H*W - nanXY] for
    every slice the histogram loop does not skip. *)
Theorem xyz_histogram_conservation :
  1 < depth ->
  (forall z, z < depth ->
     hist_row depth currentStokes numBins (histogramsXY b) z
     = replicate B 0%Z) ->
  (forall z, z < depth ->
     hist_row depth currentStokes numBins (partialHistogramsXYZ b) z
     = replicate B 0%Z) ->
  hist_row_xyz currentStokes numBins (histogramsXYZ b) = replicate B 0%Z ->
  exists b',
    process_stokes width height depth standardCube currentStokes numBins b
    = Some b'
    /\ row_total (hist_row_xyz currentStokes numBins (histogramsXYZ b'))
       = row_total (map (fun z => counted (statsXY b') z) (seq 0 depth))
    /\ row_total (hist_row_xyz currentStokes numBins (histogramsXYZ b'))
       = row_total
           (map (fun z =>
                   row_total
                     (hist_row depth currentStokes numBins (histogramsXY b') z))
              (seq 0 depth)).
Proof.
  intros Hd Zh Zp Zx.
  pose proof width_bound as _. pose proof height_bound as _.
  destruct process_stokes_rows
    as (h1 & p1 & x1 & Hps & Hred & Lh1 & Lp1 & Th & _ & Hp).
  rewrite (proj2 (Nat.ltb_lt 1 depth) Hd) in Hps, Hp, Hred.
  destruct Hp as [Tp _].
  eexists. split; [exact Hps|]. cbn [histogramsXYZ statsXY histogramsXY].
  destruct (reduce_partial_here p1 Hd ltac:(rewrite Lp1; auto))
    as (x1' & Hred' & _ & Tx & _).
  assert (x1' = x1) as -> by congruence.
  unfold hist_row_xyz in *. rewrite Tx, Zx, row_total_replicate.
  rewrite Z.add_0_l. unfold row_total at 1.
  assert (Heq : forall z, z ∈ seq 0 depth ->
            row_total (grid_row B (currentStokes * depth + z) p1)
            = counted xy' z).
  { intros z Hz. apply elem_of_seq in Hz. rewrite Tp by lia.
    change (grid_row B (currentStokes * depth + z) (partialHistogramsXYZ b))
      with (hist_row depth currentStokes numBins (partialHistogramsXYZ b) z).
    rewrite Zp, row_total_replicate by lia. apply Z.add_0_l. }
  split.
  - unfold row_total. apply zsum_ext. exact Heq.
  - unfold row_total at 1. apply zsum_ext. intros z Hz. rewrite Heq by done.
    apply elem_of_seq in Hz.
    change (hist_row depth currentStokes numBins h1 z)
      with (grid_row B (currentStokes * depth + z) h1).
    rewrite Th by lia.
    change (grid_row B (currentStokes * depth + z) (histogramsXY b))
      with (hist_row depth currentStokes numBins (histogramsXY b) z).
    rewrite Zh, row_total_replicate by lia. symmetry. apply Z.add_0_l.
Qed.

(** What [process_stokes] leaves as it was: everything that belongs to
    another polarization. *)
Lemma process_stokes_frame :
  exists b',
    process_stokes width height depth standardCube currentStokes numBins b
    = Some b'
    /\ forall t, t <> currentStokes ->
         (forall z, z < depth ->
            let idx := t * depth + z in
            minValsXY (statsXY b') !! idx = minValsXY (statsXY b) !! idx
            /\ maxValsXY (statsXY b') !! idx = maxValsXY (statsXY b) !! idx
            /\ meanValsXY (statsXY b') !! idx = meanValsXY (statsXY b) !! idx
            /\ nanValsXY (statsXY b') !! idx = nanValsXY (statsXY b) !! idx
            /\ grid_row B idx (histogramsXY b') = grid_row B idx (histogramsXY b)
            /\ grid_row B idx (partialHistogramsXYZ b')
               = grid_row B idx (partialHistogramsXYZ b))
         /\ grid_row B t (histogramsXYZ b') = grid_row B t (histogramsXYZ b)
         /\ minValsXYZ (statsXYZ b') !! t = minValsXYZ (statsXYZ b) !! t
         /\ maxValsXYZ (statsXYZ b') !! t = maxValsXYZ (statsXYZ b) !! t
         /\ meanValsXYZ (statsXYZ b') !! t = meanValsXYZ (statsXYZ b) !! t
         /\ nanValsXYZ (statsXYZ b') !! t = nanValsXYZ (statsXYZ b) !! t
         /\ (forall j k, j < height -> k < width ->
               let idx := t * width * height + k + j * width in
               minValsZ (statsZ b') !! idx = minValsZ (statsZ b) !! idx
               /\ maxValsZ (statsZ b') !! idx = maxValsZ (statsZ b) !! idx
               /\ meanValsZ (statsZ b') !! idx = meanValsZ (statsZ b) !! idx
               /\ nanValsZ (statsZ b') !! idx = nanValsZ (statsZ b) !! idx).
Proof.
  destruct process_stokes_rows
    as (h1 & p1 & x1 & Hps & Hred & Lh1 & Lp1 & _ & Oh & Hp).
  eexists. split; [exact Hps|]. intros t Ht.
  cbn [statsXY statsZ statsXYZ histogramsXY partialHistogramsXYZ histogramsXYZ].
  assert (Hrow : forall z z', z < depth -> z' < depth ->
            t * depth + z <> currentStokes * depth + z').
  { intros z z' Hz Hz' Heq.
    destruct (mixed_radix_inj depth z t z' currentStokes) as [_ ?]; lia. }
  split; [|split; [|split; [|split; [|split; [|split]]]]].
  - intros z Hz. rewrite slice_stats_pass_stats. cbv zeta.
    cbn [minValsXY maxValsXY meanValsXY nanValsXY].
    rewrite !stores_lookup_other
      by (intros i Hi; apply elem_of_seq in Hi;
          intros Heq; apply (Hrow z i); lia).
    repeat split; try done.
    + apply Oh. intros z' Hz'. by apply Hrow.
    + destruct (1 <? depth); [|by rewrite Hp].
      destruct Hp as [_ Op]. apply Op. intros z' Hz'. by apply Hrow.
  - destruct (Nat.ltb_spec 1 depth) as [Hd|Hd]; [|by rewrite Hred].
    destruct (reduce_partial_here p1 Hd ltac:(rewrite Lp1; auto))
      as (x1' & Hred' & _ & _ & Ox).
    assert (x1' = x1) as -> by congruence.
    by apply Ox.
  - destruct (1 <? depth); [|done]. unfold publish_xyz. cbn [minValsXYZ].
    by rewrite list_lookup_insert_ne.
  - destruct (1 <? depth); [|done]. unfold publish_xyz. cbn [maxValsXYZ].
    by rewrite list_lookup_insert_ne.
  - destruct (1 <? depth); [|done]. unfold publish_xyz. cbn [meanValsXYZ].
    destruct (negb _); [|done]. by rewrite list_lookup_insert_ne.
  - destruct (1 <? depth); [|done]. unfold publish_xyz. cbn [nanValsXYZ].
    by rewrite list_lookup_insert_ne.
  - intros j k Hj Hk. destruct (1 <? depth); [|done].
    rewrite profile_stats_pass_stats. cbv zeta.
    cbn [minValsZ maxValsZ meanValsZ nanValsZ].
    rewrite !stores_lookup_other; [done|..];
      intros [j' k'] Hin; apply elem_of_pairs in Hin as [Hj' Hk'];
      unfold z_pos; cbn [fst snd]; intros Heq;
      pose proof (mixed_radix_lt width height k j Hk Hj);
      pose proof (mixed_radix_lt width height k' j' Hk' Hj');
      destruct (mixed_radix_inj (width * height) (k' + width * j')
                  currentStokes (k + width * j) t) as [_ ?]; lia.
Qed.
(** On an image without depth the first loop leaves the rotated cube
    alone. *)
Lemma slice_stats_pass_flat rot xy :
  depth <= 1 ->
  fst (slice_stats_pass width height depth standardCube currentStokes rot xy)
  = rot.
Proof.
  intros Hd. unfold slice_stats_pass.
  apply Nat.ltb_ge in Hd.
  assert (Hpix : forall i j ks st,
            fst (fold_left (xy_pixel width height depth standardCube i j) ks st)
            = fst st).
  { intros i j. induction ks as [|k ks IH]; intros st; [done|].
    cbn [fold_left]. rewrite IH. unfold xy_pixel. cbn [fst]. by rewrite Hd. }
  assert (Hrow : forall i js st,
            fst (fold_left (xy_row width height depth standardCube i) js st)
            = fst st).
  { intros i. induction js as [|j js IH]; intros st; [done|].
    cbn [fold_left]. rewrite IH. unfold xy_row. apply Hpix. }
  assert (Hfold : forall l st,
            fst (fold_left
                   (slice_iter width height depth standardCube currentStokes)
                   l st) = fst st).
  { induction l as [|i l IH]; intros st; [done|]. cbn [fold_left].
    rewrite IH. unfold slice_iter. cbn [fst]. unfold xy_slice.
    by rewrite Hrow. }
  by rewrite Hfold.
Qed.

(** An image without depth.  When the depth is 1 (or 0), no pixel is
    infinite, there are between 1 and [INT_MAX] bins, the axes and the
    slice have at most [INT_MAX] pixels, [D*B] is at most [INT_MAX] and
    the XY vectors have their allocated sizes, the pass is defined and it
    computes the XY statistics and the XY histograms only: the rotated
    cube, the Z statistics, the XYZ statistics and the two XYZ histogram
    vectors are left as they were. *)
Theorem flat_image_only_xy :
  depth <= 1 ->
  exists b',
    process_stokes width height depth standardCube currentStokes numBins b
    = Some b'
    /\ rotatedCube b' = rotatedCube b
    /\ statsZ b' = statsZ b
    /\ statsXYZ b' = statsXYZ b
    /\ partialHistogramsXYZ b' = partialHistogramsXYZ b
    /\ histogramsXYZ b' = histogramsXYZ b.
Proof.
  intros Hd.
  pose proof width_bound as _. pose proof height_bound as _.
  destruct process_stokes_rows
    as (h1 & p1 & x1 & Hps & Hred & _ & _ & _ & _ & Hp).
  eexists. split; [exact Hps|].
  cbn [rotatedCube statsZ statsXYZ partialHistogramsXYZ histogramsXYZ].
  rewrite slice_stats_pass_flat by done.
  rewrite (proj2 (Nat.ltb_ge 1 depth) Hd) in *. done.
Qed.

(** One polarization does not touch another.  On a cube without infinite
    pixels, with between 1 and [INT_MAX] bins, axes and slices of at most
    [INT_MAX] pixels, [D*B] at most [INT_MAX], [S*B] at most [2^32] and
    vectors of the allocated sizes, the pass is defined, and for every
    other polarization [t] it leaves as they were: the XY statistics of
    every slice, the rows of the XY and partial XYZ histograms of every
    slice, the row of the XYZ histogram, the XYZ statistics and the Z
    statistics of every profile. *)
Theorem polarizations_do_not_interfere :
  exists b',
    process_stokes width height depth standardCube currentStokes numBins b
    = Some b'
    /\ forall t, t <> currentStokes ->
         (forall z, z < depth ->
            let idx := t * depth + z in
            minValsXY (statsXY b') !! idx = minValsXY (statsXY b) !! idx
            /\ maxValsXY (statsXY b') !! idx = maxValsXY (statsXY b) !! idx
            /\ meanValsXY (statsXY b') !! idx = meanValsXY (statsXY b) !! idx
            /\ nanValsXY (statsXY b') !! idx = nanValsXY (statsXY b) !! idx
            /\ hist_row depth t numBins (histogramsXY b') z
               = hist_row depth t numBins (histogramsXY b) z
            /\ hist_row depth t numBins (partialHistogramsXYZ b') z
               = hist_row depth t numBins (partialHistogramsXYZ b) z)
         /\ hist_row_xyz t numBins (histogramsXYZ b')
            = hist_row_xyz t numBins (histogramsXYZ b)
         /\ minValsXYZ (statsXYZ b') !! t = minValsXYZ (statsXYZ b) !! t
         /\ maxValsXYZ (statsXYZ b') !! t = maxValsXYZ (statsXYZ b) !! t
         /\ meanValsXYZ (statsXYZ b') !! t = meanValsXYZ (statsXYZ b) !! t
         /\ nanValsXYZ (statsXYZ b') !! t = nanValsXYZ (statsXYZ b) !! t
         /\ (forall j k, j < height -> k < width ->
               let idx := t * width * height + k + j * width in
               minValsZ (statsZ b') !! idx = minValsZ (statsZ b) !! idx
               /\ maxValsZ (statsZ b') !! idx = maxValsZ (statsZ b) !! idx
               /\ meanValsZ (statsZ b') !! idx = meanValsZ (statsZ b) !! idx
               /\ nanValsZ (statsZ b') !! idx = nanValsZ (statsZ b) !! idx).
Proof.
  pose proof width_bound as _. pose proof height_bound as _.
  destruct process_stokes_frame as (b' & Hps & Hframe).
  exists b'. split; [exact Hps|]. intros t Ht.
  destruct (Hframe t Ht) as (Hxy & Hx & Hrest).
  split; [|split; [exact Hx|exact Hrest]].
  intros z Hz. exact (Hxy z Hz).
Qed.
End Polarization.

Lemma xyz_histogram_conservation_witness :
  let cube := [F32.of_Z 1; F32.of_Z 2; F32.of_Z 3; F32.of_Z 5] in
  let zeros := [F32.zero; F32.zero] in
  let b := mkBuffers [NAN; NAN; NAN; NAN] (mkXY zeros zeros zeros [0%Z; 0%Z])
             (mkZ zeros zeros zeros [0%Z; 0%Z])
             (mkXYZ [F32.zero] [F32.zero] [F32.zero] [0%Z])
             [0; 0; 0; 0]%Z [0; 0; 0; 0]%Z [0; 0]%Z in
  exists b',
    process_stokes 2 1 2 cube 0 2 b = Some b'
    /\ row_total (hist_row_xyz 0 2 (histogramsXYZ b')) = 4%Z.
Proof.
  intros cube zeros b.
  assert (Hcube : forall v, v ∈ cube -> valid_float v = true /\ isinf v = false).
  { intros v Hv.
    repeat (apply elem_of_cons in Hv as [->|Hv]; [split; reflexivity|]).
    by apply elem_of_nil in Hv. }
  assert (Hzero : forall z, z < 2 ->
            hist_row 2 0 2 [0; 0; 0; 0]%Z z = replicate (Z.to_nat 2) 0%Z).
  { intros z Hz. destruct z as [|[|z]]; [reflexivity|reflexivity|lia]. }
  destruct (xyz_histogram_conservation 2 1 2 1 cube 0 2 b Hcube
              ltac:(unfold INT_MAX; lia) ltac:(unfold INT_MAX; simpl; lia) ltac:(unfold INT_MAX; simpl; lia) ltac:(unfold INT_MAX; simpl; lia) ltac:(unfold INT_MAX; simpl; lia)
              ltac:(simpl; lia) ltac:(lia)
              eq_refl eq_refl eq_refl eq_refl eq_refl
              (fun _ => eq_refl) (fun _ => eq_refl) ltac:(lia)
              Hzero Hzero eq_refl)
    as (b' & Hps & Htot & _).
  exists b'. split; [exact Hps|]. rewrite Htot.
  assert (Hxy : statsXY b'
                 = snd (slice_stats_pass 2 1 2 cube 0 (rotatedCube b)
                          (statsXY b))).
  { unfold process_stokes in Hps. cbv zeta in Hps.
    destruct (histogram_pass _ _ _ _ _ _ _ _ _ _ _) as [[h p]|];
      [|discriminate].
    injection Hps as <-. reflexivity. }
  rewrite Hxy. reflexivity.
Defined.

Lemma polarizations_do_not_interfere_witness :
  let cube := [F32.of_Z 1; F32.of_Z 2; F32.of_Z 3; F32.of_Z 5] in
  let fs := [F32.of_Z 7; F32.of_Z 7; F32.of_Z 7; F32.of_Z 7] in
  let b := mkBuffers [NAN; NAN; NAN; NAN] (mkXY fs fs fs [7; 7; 7; 7]%Z)
             (mkZ fs fs fs [7; 7; 7; 7]%Z)
             (mkXYZ [F32.zero; F32.of_Z 7] [F32.zero; F32.of_Z 7]
                [F32.zero; F32.of_Z 7] [0; 7]%Z)
             [0; 0; 0; 0; 1; 2; 3; 4]%Z [0; 0; 0; 0; 5; 6; 7; 8]%Z
             [0; 0; 9; 10]%Z in
  exists b',
    process_stokes 2 1 2 cube 0 2 b = Some b'
    /\ nanValsXY (statsXY b') !! 3 = Some 7%Z
    /\ hist_row 2 1 2 (histogramsXY b') 1 = [3; 4]%Z
    /\ hist_row_xyz 1 2 (histogramsXYZ b') = [9; 10]%Z
    /\ nanValsZ (statsZ b') !! 2 = Some 7%Z.
Proof.
  intros cube fs b.
  assert (Hcube : forall v, v ∈ cube -> valid_float v = true /\ isinf v = false).
  { intros v Hv.
    repeat (apply elem_of_cons in Hv as [->|Hv]; [split; reflexivity|]).
    by apply elem_of_nil in Hv. }
  destruct (polarizations_do_not_interfere 2 1 2 2 cube 0 2 b Hcube
              ltac:(unfold INT_MAX; lia) ltac:(unfold INT_MAX; simpl; lia) ltac:(unfold INT_MAX; simpl; lia) ltac:(unfold INT_MAX; simpl; lia) ltac:(unfold INT_MAX; simpl; lia)
              ltac:(simpl; lia) ltac:(lia)
              eq_refl eq_refl eq_refl eq_refl eq_refl
              (fun _ => eq_refl) (fun _ => eq_refl))
    as (b' & Hps & Hframe).
  exists b'. split; [exact Hps|].
  destruct (Hframe 1 ltac:(lia)) as (Hxy & Hx & _ & _ & _ & _ & Hz).
  destruct (Hxy 1 ltac:(lia)) as (_ & _ & _ & Hn & Hh & _).
  destruct (Hz 0 0 ltac:(lia) ltac:(lia)) as (_ & _ & _ & Hnz).
  split; [exact Hn|]. split; [exact Hh|]. split; [exact Hx|]. exact Hnz.
Defined.

Lemma flat_image_only_xy_witness :
  let cube := [F32.of_Z 1; F32.of_Z 2] in
  let b := mkBuffers [] (mkXY [F32.zero] [F32.zero] [F32.zero] [0%Z])
             (mkZ [] [] [] []) (mkXYZ [] [] [] []) [0; 0]%Z [] [] in
  exists b',
    process_stokes 2 1 1 cube 0 2 b = Some b'
    /\ rotatedCube b' = [] /\ partialHistogramsXYZ b' = []
    /\ histogramsXYZ b' = [].
Proof.
  intros cube b.
  assert (Hcube : forall v, v ∈ cube -> valid_float v = true /\ isinf v = false).
  { intros v Hv.
    repeat (apply elem_of_cons in Hv as [->|Hv]; [split; reflexivity|]).
    by apply elem_of_nil in Hv. }
  destruct (flat_image_only_xy 2 1 1 1 cube 0 2 b Hcube
              ltac:(unfold INT_MAX; lia) ltac:(unfold INT_MAX; simpl; lia) ltac:(unfold INT_MAX; simpl; lia) ltac:(unfold INT_MAX; simpl; lia) ltac:(unfold INT_MAX; simpl; lia)
              ltac:(simpl; lia) ltac:(lia)
              eq_refl eq_refl eq_refl eq_refl eq_refl
              ltac:(intros; lia) ltac:(intros; lia) ltac:(lia))
    as (b' & Hps & Hrot & _ & _ & Hp & Hx).
  exists b'. split; [exact Hps|]. split; [exact Hrot|]. split; [exact Hp|].
  exact Hx.
Defined.

(** ** The shapes of the data sets *)

Lemma three_cases (N : Z) : (2 <= N <= 4)%Z -> N = 2%Z \/ N = 3%Z \/ N = 4%Z.
Proof. lia. Qed.

Lemma to_hsize_small n : (0 <= n <= INT_MAX)%Z -> to_hsize n = n.
Proof. unfold INT_MAX, to_hsize. intros Hn. apply Z.mod_small. lia. Qed.

(** The extents for each number of axes. *)
Lemma make_dims_2 dims numBins :
  make_dims 2 dims numBins
  = mkDims [Z.of_nat (axis_height dims); Z.of_nat (axis_width dims)]
      [Z.of_nat (axis_width dims); Z.of_nat (axis_height dims)]
      [to_hsize numBins] []
      [Z.of_nat (axis_height dims); Z.of_nat (axis_width dims)]
      [to_hsize numBins] [].
Proof. reflexivity. Qed.

Lemma make_dims_3 dims numBins :
  make_dims 3 dims numBins
  = mkDims
      [Z.of_nat (dims !!! 2); Z.of_nat (axis_height dims);
       Z.of_nat (axis_width dims)]
      [Z.of_nat (axis_width dims); Z.of_nat (axis_height dims);
       Z.of_nat (dims !!! 2)]
      [Z.of_nat (dims !!! 2); to_hsize numBins] [Z.of_nat (dims !!! 2)]
      [Z.of_nat (axis_height dims); Z.of_nat (axis_width dims)]
      [to_hsize numBins] [].
Proof. reflexivity. Qed.

Lemma make_dims_4 dims numBins :
  make_dims 4 dims numBins
  = mkDims
      [Z.of_nat (dims !!! 3); Z.of_nat (dims !!! 2);
       Z.of_nat (axis_height dims); Z.of_nat (axis_width dims)]
      [Z.of_nat (dims !!! 3); Z.of_nat (axis_width dims);
       Z.of_nat (axis_height dims); Z.of_nat (dims !!! 2)]
      [Z.of_nat (dims !!! 3); Z.of_nat (dims !!! 2); to_hsize numBins]
      [Z.of_nat (dims !!! 3); Z.of_nat (dims !!! 2)]
      [Z.of_nat (dims !!! 3); Z.of_nat (axis_height dims);
       Z.of_nat (axis_width dims)]
      [Z.of_nat (dims !!! 3); to_hsize numBins] [Z.of_nat (dims !!! 3)].
Proof. reflexivity. Qed.

Lemma hyperslab_2 dims currentStokes :
  hyperslab 2 dims currentStokes
  = ([Z.of_nat (axis_height dims); Z.of_nat (axis_width dims)], [0; 0]%Z).
Proof. reflexivity. Qed.

Lemma hyperslab_3 dims currentStokes :
  hyperslab 3 dims currentStokes
  = ([Z.of_nat (dims !!! 2); Z.of_nat (axis_height dims);
      Z.of_nat (axis_width dims)], [0; 0; 0]%Z).
Proof. reflexivity. Qed.

Lemma hyperslab_4 dims currentStokes :
  hyperslab 4 dims currentStokes
  = ([1%Z; Z.of_nat (dims !!! 2); Z.of_nat (axis_height dims);
      Z.of_nat (axis_width dims)],
     [Z.of_nat currentStokes; 0%Z; 0%Z; 0%Z]).
Proof. reflexivity. Qed.

Ltac axes_cases N axes :=
  destruct (three_cases N axes) as [-> | [-> | ->]];
  [rewrite make_dims_2; change (axis_stokes 2 ?l) with 1;
   change (axis_depth 2 ?l) with 1
  |rewrite make_dims_3; change (axis_stokes 3 ?l) with 1;
   change (axis_depth 3 ?l) with (l !!! 2)
  |rewrite make_dims_4; change (axis_stokes 4 ?l) with (l !!! 3);
   change (axis_depth 4 ?l) with (l !!! 2)].

Ltac found := eexists; split; [reflexivity|].
Ltac extents :=
  repeat match goal with
         | |- context [Z.to_nat (Zpos ?p - Zpos ?q)] =>
             let n := eval vm_compute in (Z.to_nat (Zpos p - Zpos q)) in
             change (Z.to_nat (Zpos p - Zpos q)) with n
         | |- context [Z.to_nat (Zpos ?p)] =>
             let n := eval vm_compute in (Z.to_nat (Zpos p)) in
             change (Z.to_nat (Zpos p)) with n
         end;
  cbn [elements foldr take standardDims swizzledDims xyHistogramDims
       xyStatsDims zStatsDims xyzHistogramDims xyzStatsDims].
Ltac counted :=
  extents; rewrite ?to_hsize_small by done; rewrite ?Nat2Z.inj_mul;
  first [lia|nia].

Section DataSpaces.
Variable N : Z.
Variable dims : list nat.
Variable numBins : Z.
Hypothesis axes : (2 <= N <= 4)%Z.
Hypothesis bins : (0 <= numBins <= INT_MAX)%Z.

Local Abbreviation stokes := (axis_stokes N dims).
Local Abbreviation depth := (axis_depth N dims).
Local Abbreviation height := (axis_height dims).
Local Abbreviation width := (axis_width dims).
Local Abbreviation d := (make_dims N dims numBins).

(** The data sets of the image.  For an image of 2, 3 or 4 axes the two
    data spaces of the image are defined and have [N] extents; both hold
    [stokes * depth * height * width] elements, that is one cube for each
    polarization; the swizzled extents are the standard ones with the
    depth moved from before the height to after the width. *)
Theorem image_data_spaces :
  exists std swz,
    standardDataSpace N d = Some std /\ swizzledDataSpace N d = Some swz
    /\ Z.of_nat (length std) = N /\ Z.of_nat (length swz) = N
    /\ elements std
       = Z.of_nat (stokes * cubeSize width height depth)
    /\ elements swz = elements std
    /\ ((3 <= N)%Z ->
        exists pre,
          std = pre ++ [Z.of_nat depth; Z.of_nat height; Z.of_nat width]
          /\ swz = pre ++ [Z.of_nat width; Z.of_nat height; Z.of_nat depth]).
Proof.
  unfold cubeSize. axes_cases N axes;
    eexists _, _; (split; [reflexivity|]); (split; [reflexivity|]);
    (split; [reflexivity|]); (split; [reflexivity|]);
    (split; [counted|]); (split; [counted|]).
  - lia.
  - intros _. extents. by exists [].
  - intros _. extents. by exists [Z.of_nat (dims !!! 3)].
Qed.

(** The data sets of the statistics and the vectors written into them.
    Each data set is written from the start of its vector without a
    count, so it must not hold more elements than the vector.  For an
    image of 2, 3 or 4 axes every data space [main] builds is defined and
    holds exactly as many elements as the vectors [main] allocated for
    it; this includes the data space of the XYZ statistics, which is
    built from [xyStatsDims] and not from [xyzStatsDims]. *)
Theorem statistics_data_spaces rot0 :
  let b := allocate width height depth stokes numBins rot0 in
  (exists e,
     xyStatsDataSpace N d = Some e
     /\ elements e = Z.of_nat (length (minValsXY (statsXY b)))
     /\ elements e = Z.of_nat (length (maxValsXY (statsXY b)))
     /\ elements e = Z.of_nat (length (meanValsXY (statsXY b)))
     /\ elements e = Z.of_nat (length (nanValsXY (statsXY b))))
  /\ (exists e,
        xyHistogramDataSpace N d = Some e
        /\ elements e = Z.of_nat (length (histogramsXY b)))
  /\ (1 < depth ->
      (exists e,
         xyzStatsDataSpace N d = Some e
         /\ e = take (Z.to_nat (N - 3)) (xyzStatsDims d)
         /\ elements e = Z.of_nat (length (minValsXYZ (statsXYZ b)))
         /\ elements e = Z.of_nat (length (maxValsXYZ (statsXYZ b)))
         /\ elements e = Z.of_nat (length (meanValsXYZ (statsXYZ b)))
         /\ elements e = Z.of_nat (length (nanValsXYZ (statsXYZ b))))
      /\ (exists e,
            xyzHistogramDataSpace N d = Some e
            /\ elements e = Z.of_nat (length (histogramsXYZ b)))
      /\ (exists e,
            zStatsDataSpace N d = Some e
            /\ elements e = Z.of_nat (length (minValsZ (statsZ b)))
            /\ elements e = Z.of_nat (length (maxValsZ (statsZ b)))
            /\ elements e = Z.of_nat (length (meanValsZ (statsZ b)))
            /\ elements e = Z.of_nat (length (nanValsZ (statsZ b))))).
Proof.
  intros b. unfold b, allocate.
  cbn [statsXY statsZ statsXYZ histogramsXY histogramsXYZ minValsXY maxValsXY
       meanValsXY nanValsXY].
  rewrite !length_replicate.
  assert (HB : Z.of_nat (Z.to_nat numBins) = numBins) by lia.
  split; [|split].
  - axes_cases N axes; found; repeat split; counted.
  - axes_cases N axes; found; counted.
  - intros Hd. rewrite (proj2 (Nat.ltb_lt 1 _) Hd).
    cbn [minValsXYZ maxValsXYZ meanValsXYZ nanValsXYZ minValsZ maxValsZ
         meanValsZ nanValsZ].
    rewrite !length_replicate. revert Hd.
    axes_cases N axes; intros Hd; [lia| |];
      (split; [found; split; [reflexivity|]; repeat split; counted|]);
      (split; [found; counted|]); found; repeat split; counted.
Qed.

(** The hyperslab of a polarization.  The block [main] selects to write
    polarization [currentStokes] has one count and one start for each
    extent of the data set, lies inside the data set on every axis, and
    holds as many elements as the cube in memory. *)
Theorem hyperslab_in_bounds currentStokes :
  currentStokes < stokes ->
  let count := fst (hyperslab N dims currentStokes) in
  let start := snd (hyperslab N dims currentStokes) in
  exists std,
    standardDataSpace N d = Some std
    /\ length count = length std /\ length start = length std
    /\ (forall i c s x,
          count !! i = Some c -> start !! i = Some s -> std !! i = Some x ->
          (0 <= s /\ 0 <= c /\ s + c <= x)%Z)
    /\ elements count = Z.of_nat (cubeSize width height depth).
Proof.
  unfold cubeSize. axes_cases N axes; intros Hs; cbv zeta;
    rewrite ?hyperslab_2, ?hyperslab_3, ?hyperslab_4; cbn [fst snd];
    found; (split; [reflexivity|]);
    (split; [reflexivity|]); (split; [|counted]);
    intros i c s x Hc Hst Hx;
    repeat (destruct i as [|i];
            [cbn in Hc, Hst, Hx; injection Hc as <-; injection Hst as <-;
             injection Hx as <-; lia|]);
    done.
Qed.
End DataSpaces.

Lemma hyperslab_in_bounds_witness :
  hyperslab 4 [5; 4; 3; 2] 1 = ([1; 3; 4; 5]%Z, [1; 0; 0; 0]%Z)
  /\ exists std,
       standardDataSpace 4 (make_dims 4 [5; 4; 3; 2] 20) = Some std
       /\ elements (fst (hyperslab 4 [5; 4; 3; 2] 1)) = 60%Z.
Proof.
  split; [reflexivity|].
  destruct (hyperslab_in_bounds 4 [5; 4; 3; 2] 20 ltac:(lia) 1
              ltac:(vm_compute; lia))
    as (std & Hstd & _ & _ & _ & Hel).
  exists std. split; [exact Hstd|exact Hel].
Defined.

Lemma image_data_spaces_witness :
  exists std swz,
    standardDataSpace 3 (make_dims 3 [5; 4; 3; 0] 20) = Some std
    /\ swizzledDataSpace 3 (make_dims 3 [5; 4; 3; 0] 20) = Some swz
    /\ elements swz = 60%Z.
Proof.
  destruct (image_data_spaces 3 [5; 4; 3; 0] 20 ltac:(lia))
    as (std & swz & Hstd & Hswz & _ & _ & Hel & Heq & _).
  exists std, swz. split; [exact Hstd|]. split; [exact Hswz|].
  rewrite Heq, Hel. reflexivity.
Defined.

Lemma statistics_data_spaces_witness :
  exists e,
    xyzStatsDataSpace 4 (make_dims 4 [5; 4; 3; 2] 20) = Some e
    /\ elements e = 2%Z.
Proof.
  destruct (statistics_data_spaces 4 [5; 4; 3; 2] 20 ltac:(lia)
              ltac:(unfold INT_MAX; lia) [])
    as (_ & _ & Hxyz).
  destruct (Hxyz ltac:(vm_compute; lia)) as ((e & He & _ & Hel & _) & _).
  exists e. split; [exact He|]. rewrite Hel. reflexivity.
Defined.

(** ** [Util.cc]: [split] *)

Section Split.
Import Util.
Variable separator : ascii.

Local Abbreviation sep := (String separator EmptyString).
Local Abbreviation plain f := (contains separator f = false).
(** The separator [split] drops at the end of the string. *)
Local Abbreviation dropped s :=
  (if ends_with separator s then sep else EmptyString).

Lemma str_app_assoc (a b c : string) : ((a ++ b) ++ c = a ++ (b ++ c))%string.
Proof. induction a as [|x a IH]; [done|]. cbn. by rewrite IH. Qed.

Lemma str_app_nil_r (a : string) : (a ++ "")%string = a.
Proof. induction a as [|x a IH]; [done|]. cbn. by rewrite IH. Qed.

Lemma last_char_app a c b :
  last_char (a ++ String c b) = last_char (String c b).
Proof.
  induction a as [|x a IH]; [done|].
  change (String x a ++ String c b)%string with (String x (a ++ String c b)).
  cbn [last_char]. rewrite IH.
  destruct (a ++ String c b)%string eqn:E; [by destruct a|done].
Qed.

Lemma plain_last s : plain s -> ends_with separator s = false.
Proof.
  unfold ends_with. induction s as [|c s IH]; [done|].
  cbn [contains]. intros [Hc Hs]%orb_false_elim.
  destruct s as [|d s]; [exact Hc|]. by apply IH.
Qed.

Lemma read_field_spec s :
  plain (fst (read_field separator s))
  /\ match snd (read_field separator s) with
     | Some r => s = (fst (read_field separator s) ++ String separator r)%string
     | None => s = fst (read_field separator s)
     end.
Proof.
  induction s as [|c s [IH1 IH2]]; [done|]. cbn [read_field].
  destruct (Ascii.eqb c separator) eqn:E.
  - apply Ascii.eqb_eq in E as ->. done.
  - cbn [fst snd contains]. rewrite E, IH1. split; [done|].
    destruct (snd (read_field separator s)); cbn [append]; by f_equal.
Qed.

Lemma read_field_app f r :
  plain f -> read_field separator (f ++ String separator r) = (f, Some r).
Proof.
  induction f as [|c f IH]; cbn [append read_field contains].
  - by rewrite Ascii.eqb_refl.
  - intros [Hc Hf]%orb_false_elim. rewrite Hc, IH by done. done.
Qed.

Lemma read_field_plain f : plain f -> read_field separator f = (f, None).
Proof.
  induction f as [|c f IH]; cbn [read_field contains]; [done|].
  intros [Hc Hf]%orb_false_elim. rewrite Hc, IH by done. done.
Qed.

Lemma split_loop_end fuel result :
  split_loop fuel separator None result = result.
Proof. by destruct fuel. Qed.

Lemma split_loop_acc fuel : forall stream result,
  split_loop fuel separator stream result
  = result ++ split_loop fuel separator stream [].
Proof.
  induction fuel as [|fuel IH]; intros stream result; cbn [split_loop].
  - by rewrite app_nil_r.
  - destruct (getline separator stream) as [[f rest]|]; [|by rewrite app_nil_r].
    rewrite IH, (IH rest ([] ++ [f])). by rewrite <- app_assoc.
Qed.

Lemma join_cons f g gs :
  join separator (f :: g :: gs)
  = (f ++ String separator (join separator (g :: gs)))%string.
Proof. reflexivity. Qed.

(** What the loop of [split] collects from the characters [s]. *)
Lemma split_loop_spec fuel : forall s result,
  String.length s < fuel ->
  exists fields,
    split_loop fuel separator (Some s) result = result ++ fields
    /\ Forall (fun f => plain f) fields
    /\ s = (join separator fields ++ dropped s)%string
    /\ (fields = [] <-> s = EmptyString).
Proof.
  induction fuel as [|fuel IH]; intros s result Hlen; [lia|].
  cbn [split_loop]. destruct s as [|c s'].
  { exists []. cbn. by rewrite app_nil_r. }
  set (s := String c s') in *. change (getline separator (Some s))
    with (Some (read_field separator s)).
  destruct (read_field_spec s) as [Hf Hs].
  destruct (read_field separator s) as [f [r|]]; cbn [fst snd] in Hf, Hs.
  - assert (Hr : String.length r < fuel).
    { apply (f_equal String.length) in Hs. rewrite length_append in Hs.
      cbn [String.length] in Hs, Hlen. lia. }
    destruct (IH r (result ++ [f]) Hr) as (fs & Hloop & Hplain & Hjoin & Hnil).
    exists (f :: fs). split; [by rewrite Hloop, <- app_assoc|].
    split; [by constructor|]. split; [|done].
    unfold ends_with. rewrite Hs at 2. rewrite last_char_app.
    destruct fs as [|g gs].
    + destruct Hnil as [Hnil _]. rewrite (Hnil eq_refl) in *.
      cbn. by rewrite Ascii.eqb_refl.
    + destruct r as [|d r']; [by destruct Hnil as [_ Hnil]; specialize (Hnil eq_refl)|].
      rewrite join_cons, str_app_assoc. cbn [append].
      change (last_char (String separator (String d r')))
        with (last_char (String d r')).
      unfold ends_with in Hjoin. rewrite <- Hjoin. exact Hs.
  - rewrite split_loop_end. exists [f]. split; [done|].
    split; [by repeat constructor|]. split; [|done].
    rewrite Hs, plain_last by done. cbn. by rewrite str_app_nil_r.
Qed.

(** [split] and [join].  For every string and separator, no field of
    [split] holds the separator, and the string is its fields joined by
    the separator, followed by one more separator when the string ends
    with one: a separator at the end of the string gives no empty last
    field.  The only string without fields is the empty one. *)
Theorem split_join str :
  let fields := split str separator in
  Forall (fun f => plain f) fields
  /\ str = (join separator fields ++ dropped str)%string
  /\ (fields = [] <-> str = EmptyString).
Proof.
  destruct (split_loop_spec (S (String.length str)) str [] ltac:(lia))
    as (fs & Hloop & Hrest).
  cbv zeta. unfold split. rewrite Hloop. exact Hrest.
Qed.

Lemma split_loop_join fields : forall fuel,
  Forall (fun f => plain f) fields -> last fields <> Some EmptyString ->
  String.length (join separator fields) < fuel ->
  split_loop fuel separator (Some (join separator fields)) [] = fields.
Proof.
  induction fields as [|f fs IH]; intros fuel Hplain Hlast Hlen.
  - destruct fuel; [lia|done].
  - destruct fuel as [|fuel]; [lia|]. cbn [split_loop].
    apply Forall_cons in Hplain as [Hf Hfs]. destruct fs as [|g gs].
    + change (join separator [f]) with f in *.
      destruct f as [|c f']; [done|].
      change (getline separator (Some (String c f')))
        with (Some (read_field separator (String c f'))).
      rewrite read_field_plain by done. by rewrite split_loop_end.
    + rewrite join_cons in *.
      assert (Hget : getline separator
                       (Some (f ++ String separator (join separator (g :: gs)))%string)
                     = Some (f, Some (join separator (g :: gs)))).
      { rewrite <- (read_field_app f) by done. by destruct f. }
      rewrite Hget, split_loop_acc. cbn [app]. f_equal.
      apply IH; [done|done|].
      rewrite length_append in Hlen. cbn [String.length] in Hlen. lia.
Qed.

(** [join] then [split].  Fields that do not hold the separator, the
    last of which is not empty, are the fields of their join. *)
Theorem split_of_join fields :
  Forall (fun f => plain f) fields -> last fields <> Some EmptyString ->
  split (join separator fields) separator = fields.
Proof.
  intros Hplain Hlast. unfold split. apply split_loop_join; [done|done|lia].
Qed.
End Split.

Lemma split_of_join_witness :
  Util.split "a//b" "/" = ["a"; ""; "b"]%string.
Proof.
  apply (split_of_join "/" ["a"; ""; "b"]%string).
  - repeat constructor.
  - cbn. discriminate.
Defined.

(** The path of a data set.  [createHdf5Dataset] takes the name of the
    data set with [back()] from the fields of the path: on the empty path
    there is no field and the call is undefined.  On any other path the
    name and the groups are the fields between the slashes, none holds a
    slash, and a slash at the end of the path is dropped: the name is then
    the field before it. *)
Theorem dataset_path_fields path :
  (Util.dataset_path path = None <-> path = EmptyString)
  /\ (path <> EmptyString ->
      exists groups name,
        Util.dataset_path path = Some (groups, name)
        /\ Forall (fun f => Util.contains "/" f = false) (groups ++ [name])
        /\ path
           = (Util.join "/" (groups ++ [name])
              ++ (if Util.ends_with "/" path then "/" else ""))%string).
Proof.
  unfold Util.dataset_path.
  destruct (split_loop_spec "/" (S (String.length path)) path [] ltac:(lia))
    as (fs & Hloop & Hplain & Hjoin & Hnil).
  change (Util.split path "/") with
    (Util.split_loop (S (String.length path)) "/" (Some path) []).
  rewrite Hloop. cbn [app]. destruct (last fs) as [name|] eqn:Hlast.
  - apply last_Some in Hlast as [groups ->]. split.
    + split; [done|]. intros Hp. apply Hnil in Hp. by destruct groups.
    + intros _. exists groups, name. rewrite removelast_last. done.
  - apply last_None in Hlast as ->. split; [by split; [intros _; apply Hnil|]|].
    intros Hp. by destruct Hp; apply Hnil.
Qed.

Lemma dataset_path_fields_witness :
  Util.dataset_path "Statistics/XY/MIN"
  = Some (["Statistics"; "XY"]%string, "MIN"%string)
  /\ exists groups name,
       Util.dataset_path "0/DATA/" = Some (groups, name)
       /\ Forall (fun f => Util.contains "/" f = false) (groups ++ [name]).
Proof.
  split; [reflexivity|].
  destruct (dataset_path_fields "0/DATA/") as [_ H].
  destruct (H ltac:(discriminate)) as (groups & name & Hp & Hplain & _).
  by exists groups, name.
Defined.

(** ** [Util.cc]: the vectors of extents *)

Lemma trimAxes_drop dims N :
  Util.trimAxes dims N
  = drop (length dims - Z.to_nat (N mod 2 ^ 32)) dims.
Proof.
  assert (Hm : (0 <= N mod 2 ^ 32)%Z) by (apply Z.mod_pos_bound; lia).
  induction dims as [|d dims IH]; [done|]. cbn [Util.trimAxes].
  destruct (Z.ltb_spec (N mod 2 ^ 32) (Z.of_nat (length (d :: dims))))
    as [Hlt|Hge]; cbn [length] in *.
  - rewrite IH.
    replace (S (length dims) - Z.to_nat (N mod 2 ^ 32))
      with (S (length dims - Z.to_nat (N mod 2 ^ 32))) by lia.
    reflexivity.
  - replace (S (length dims) - Z.to_nat (N mod 2 ^ 32)) with 0 by lia.
    reflexivity.
Qed.

(** [trimAxes] with an [int] count.  On a vector of fewer than 2^31
    extents, a count that is not negative keeps the last [N] extents (all
    of them when there are fewer), and a negative count, which the cast
    to [unsigned int] makes larger than the size, removes nothing. *)
Theorem trimAxes_keeps_last dims N :
  (INT_MIN <= N <= INT_MAX)%Z -> (Z.of_nat (length dims) < 2 ^ 31)%Z ->
  Util.trimAxes dims N
  = if (N <? 0)%Z then dims else drop (length dims - Z.to_nat N) dims.
Proof.
  unfold INT_MIN, INT_MAX. intros HN Hlen. rewrite trimAxes_drop.
  destruct (Z.ltb_spec N 0) as [Hneg|Hpos].
  - replace (N mod 2 ^ 32)%Z with (N + 2 ^ 32)%Z
      by (apply (Z.mod_unique_pos _ _ (-1)); lia).
    replace (length dims - Z.to_nat (N + 2 ^ 32)) with 0 by lia.
    reflexivity.
  - rewrite Z.mod_small by lia. reflexivity.
Qed.

Lemma trimAxes_keeps_last_witness :
  Util.trimAxes [2; 3; 4; 5]%Z 2 = [4; 5]%Z
  /\ Util.trimAxes [2; 3; 4; 5]%Z (-1) = [2; 3; 4; 5]%Z.
Proof.
  split.
  - apply (trimAxes_keeps_last [2; 3; 4; 5]%Z 2); vm_compute; done.
  - apply (trimAxes_keeps_last [2; 3; 4; 5]%Z (-1)); vm_compute; done.
Defined.

Lemma product_from a dims :
  fold_left (fun acc d => (acc * d) mod 2 ^ 64)%Z dims (a mod 2 ^ 64)%Z
  = ((a * foldr Z.mul 1 dims) mod 2 ^ 64)%Z.
Proof.
  revert a. induction dims as [|d dims IH]; intros a; cbn [fold_left foldr].
  - by rewrite Z.mul_1_r.
  - rewrite Z.mul_mod_idemp_l by lia. rewrite IH. f_equal. lia.
Qed.

(** [product] and [extend].  The product of a vector of extents is the
    product of its extents modulo 2^64, and the product of two vectors
    put together by [extend] is the product of their products, modulo
    2^64 again. *)
Theorem product_extend left right :
  Util.product left = (elements left mod 2 ^ 64)%Z
  /\ Util.product (Util.extend left right)
     = ((Util.product left * Util.product right) mod 2 ^ 64)%Z.
Proof.
  assert (Hp : forall dims, Util.product dims = (elements dims mod 2 ^ 64)%Z).
  { intros dims. unfold Util.product, elements.
    change 1%Z with (1 mod 2 ^ 64)%Z at 1. rewrite product_from.
    f_equal. lia. }
  split; [apply Hp|]. rewrite !Hp. unfold Util.extend, elements.
  cbn [app]. rewrite foldr_app.
  rewrite <- Z.mul_mod by lia. f_equal.
  generalize (foldr Z.mul 1%Z right). intros r.
  induction left as [|d l IH]; cbn [foldr]; [lia|]. rewrite IH. lia.
Qed.

(** ** [Util.cc]: the checks of the readers *)


(** ** The bins of the extremes *)

Section ExtremeBins.
Local Open Scope R_scope.

(** The cast to [int] of a positive [double] that is at least [K]. *)
Lemma double_to_int_lower m e K n :
  (0 <= K)%Z -> IZR K <= IZR (Zpos m) * bpow e ->
  double_to_int (S754_finite false m e) = Some n -> (K <= n)%Z.
Proof.
  intros HK Hle. unfold double_to_int. cbn [cond_Zopp].
  set (t := match e with
            | Zneg p => Z.shiftr (Zpos m) (Zpos p)
            | _ => Z.shiftl (Zpos m) e
            end).
  assert (Ht : (K <= t)%Z).
  { unfold t. destruct e as [|p|p].
    - rewrite Z.shiftl_0_r. change (bpow 0) with 1 in Hle.
      apply le_IZR. lra.
    - rewrite Z.shiftl_mul_pow2 by lia. apply le_IZR.
      rewrite mult_IZR, <- bpow_IZR by lia. done.
    - rewrite Z.shiftr_div_pow2 by lia.
      assert (Hp : (0 < 2 ^ Zpos p)%Z) by (apply Z.pow_pos_nonneg; lia).
      apply Z.div_le_lower_bound; [done|]. apply le_IZR.
      rewrite mult_IZR, <- bpow_IZR by lia.
      change (Zneg p) with (- Zpos p)%Z in Hle. rewrite bpow_opp in Hle.
      pose proof (bpow_pos (Zpos p)) as Hb.
      apply Rmult_le_compat_l with (r := bpow (Zpos p)) in Hle; [|lra].
      replace (bpow (Zpos p) * (IZR (Zpos m) * / bpow (Zpos p)))
        with (IZR (Zpos m) * (bpow (Zpos p) * / bpow (Zpos p))) in Hle by ring.
      rewrite Rinv_r, Rmult_1_r in Hle by lra. done. }
  destruct ((INT_MIN <=? t)%Z && (t <=? INT_MAX)%Z); [|done].
  intros [= <-]. exact Ht.
Qed.

(** Three roundings of [B * r / r] stay between [B - 1] and [B + 1]. *)
Lemma three_roundings B bb r p q :
  1 <= B <= 2147483647 -> 0 < r ->
  let eps := bpow (-52) in
  B * (1 - eps) <= bb <= B * (1 + eps) ->
  bb * r * (1 - eps) <= p <= bb * r * (1 + eps) ->
  p / r * (1 - eps) <= q <= p / r * (1 + eps) ->
  B - 1 < q < B + 1.
Proof.
  intros HB Hr eps Hbb Hp Hq.
  assert (He : eps * 4503599627370496 = 1).
  { assert (Hb : bpow 52 = 4503599627370496)
      by (rewrite bpow_IZR by lia; reflexivity).
    pose proof (bpow_add 52 (-52)) as H. change (bpow (52 + -52)) with 1 in H.
    rewrite Hb in H. unfold eps. lra. }
  assert (He0 : 0 < eps) by apply bpow_pos.
  assert (He1 : eps < 1) by lra.
  assert (Hbb0 : 0 < bb) by nra.
  assert (Hpr : bb * (1 - eps) <= p / r <= bb * (1 + eps)).
  { assert (Hpx : p / r * r = p) by (field; lra).
    split; (apply Rmult_le_reg_r with r; [done|]); rewrite Hpx; lra. }
  set (x := p / r) in *.
  assert (Hx0 : 0 < x) by nra.
  assert (Hlo : B * ((1 - eps) * (1 - eps) * (1 - eps)) <= q).
  { apply Rle_trans with (x * (1 - eps)); [|lra].
    apply Rle_trans with (bb * (1 - eps) * (1 - eps)); [|nra].
    replace (B * ((1 - eps) * (1 - eps) * (1 - eps)))
      with (B * (1 - eps) * ((1 - eps) * (1 - eps))) by ring.
    replace (bb * (1 - eps) * (1 - eps)) with (bb * ((1 - eps) * (1 - eps)))
      by ring.
    apply Rmult_le_compat_r; [nra|lra]. }
  assert (Hhi : q <= B * ((1 + eps) * (1 + eps) * (1 + eps))).
  { apply Rle_trans with (x * (1 + eps)); [lra|].
    apply Rle_trans with (bb * (1 + eps) * (1 + eps)); [nra|].
    replace (B * ((1 + eps) * (1 + eps) * (1 + eps)))
      with (B * (1 + eps) * ((1 + eps) * (1 + eps))) by ring.
    replace (bb * (1 + eps) * (1 + eps)) with (bb * ((1 + eps) * (1 + eps)))
      by ring.
    apply Rmult_le_compat_r; [nra|lra]. }
  assert (H3lo : 1 - 3 * eps <= (1 - eps) * (1 - eps) * (1 - eps)) by nra.
  assert (H3hi : (1 + eps) * (1 + eps) * (1 + eps) <= 1 + 4 * eps) by nra.
  split.
  - apply Rlt_le_trans with (B * (1 - 3 * eps)); [nra|].
    apply Rle_trans with (B * ((1 - eps) * (1 - eps) * (1 - eps))); [|done].
    apply Rmult_le_compat_l; lra.
  - apply Rle_lt_trans with (B * (1 + 4 * eps)); [|nra].
    apply Rle_trans with (B * ((1 + eps) * (1 + eps) * (1 + eps))); [done|].
    apply Rmult_le_compat_l; lra.
Qed.

(** The bins of the bounds of a range. *)
Lemma bin_index_bounds_of_range B lo hi :
  (1 <= B <= INT_MAX)%Z ->
  from_float (float_to_double lo) -> from_float (float_to_double hi) ->
  SF2R (float_to_double lo) < SF2R (float_to_double hi) ->
  let range := F64.sub (float_to_double hi) (float_to_double lo) in
  bin_index B lo (float_to_double lo) range = Some 0%Z
  /\ bin_index B hi (float_to_double lo) range = Some (B - 1)%Z.
Proof.
  intros HB Hlo Hhi Hlt range.
  set (L := SF2R (float_to_double lo)) in *.
  set (H := SF2R (float_to_double hi)) in *.
  pose proof bpow_eps_lt_1 as Heps1. pose proof (bpow_pos (-52)) as Heps0.
  destruct (SFsub_error _ _ Hhi Hlo ltac:(fold L H; lra))
    as [[_ Heq]|(mr & er & Hr & Hmr & Her & Hrpos & Hrerr)].
  { fold L H in Heq. lra. }
  cbv zeta in Hr, Hrerr. fold range in Hr, Hrerr. fold L H in Hrpos, Hrerr.
  rewrite Hr in Hrerr. rewrite SF2R_pos in Hrerr.
  destruct (of_Z_error B HB) as (mb & eb & Hb & Hmb & Heb & Hberr).
  unfold bin_index. rewrite Hb. split.
  - destruct (SFsub_error _ _ Hlo Hlo ltac:(lra))
      as [[[s Hz] _]|(md & ed & _ & _ & _ & Hdpos & _)]; [|lra].
    cbv zeta in Hz. rewrite Hz, Hr. cbn. f_equal. lia.
  - fold range. rewrite Hr.
    destruct (SFmul_error mb eb mr er Hmb Hmr ltac:(lia))
      as (mp & ep & Hp & Hmp & Hep & Hperr).
    rewrite Hp.
    destruct (SFdiv_error mp ep mr er Hmp Hmr ltac:(lia))
      as (mq & eq & Hq & Hmq & Heq & Hqerr).
    rewrite Hq.
    pose proof (SF2R_pos_gt mr er) as Hr0.
    assert (HBR : 1 <= IZR B <= 2147483647).
    { unfold INT_MAX in HB. split; apply IZR_le; lia. }
    cbv zeta in Hperr, Hqerr.
    destruct (three_roundings (IZR B) (IZR (Zpos mb) * bpow eb)
                (IZR (Zpos mr) * bpow er) (IZR (Zpos mp) * bpow ep)
                (IZR (Zpos mq) * bpow eq) HBR Hr0) as [Hq1 Hq2].
    + done.
    + done.
    + done.
    + destruct (double_to_int_bound mq eq B) as (n & Hn & Hnb).
      * unfold INT_MAX in *. lia.
      * rewrite plus_IZR. exact Hq2.
      * rewrite Hn.
        assert (B - 1 <= n)%Z.
        { apply (double_to_int_lower mq eq (B - 1) n); [lia| |done].
          rewrite minus_IZR. lra. }
        f_equal. lia.
Qed.
End ExtremeBins.

(** The bins of the extremes.  For a slice (or a cube) whose minimum and
    maximum are numbers with a range that is not zero, the bin index of a
    pixel equal to the minimum is 0 and the bin index of a pixel equal to
    the maximum is [numBins - 1], whatever the roundings of the three
    [double] operations: the clamp [min(numBins - 1, ...)] is what puts
    the maximum in the last bin. *)
Theorem extreme_bins numBins sliceMin sliceMax :
  (1 <= numBins <= INT_MAX)%Z ->
  valid_float sliceMin = true -> valid_float sliceMax = true ->
  is_number sliceMin = true -> is_number sliceMax = true ->
  F32.leb sliceMin sliceMax = true ->
  degenerate sliceMin sliceMax = false ->
  let range := F64.sub (float_to_double sliceMax) (float_to_double sliceMin) in
  bin_index numBins sliceMin (float_to_double sliceMin) range = Some 0%Z
  /\ bin_index numBins sliceMax (float_to_double sliceMin) range
     = Some (numBins - 1)%Z.
Proof.
  intros HB Vlo Vhi Nlo Nhi Hle Hdeg.
  pose proof (from_float_of_float _ Vlo Nlo) as Flo.
  pose proof (from_float_of_float _ Vhi Nhi) as Fhi.
  apply bin_index_bounds_of_range; [done..|].
  apply range_positive; [done|done| |].
  - by rewrite SFleb_float_to_double.
  - unfold degenerate in Hdeg. by apply orb_false_elim in Hdeg as [_ ?].
Qed.

Lemma extreme_bins_witness :
  bin_index 7 (F32.of_Z 3) (float_to_double (F32.of_Z 3))
    (F64.sub (float_to_double (F32.of_Z 10)) (float_to_double (F32.of_Z 3)))
  = Some 0%Z
  /\ bin_index 7 (F32.of_Z 10) (float_to_double (F32.of_Z 3))
       (F64.sub (float_to_double (F32.of_Z 10)) (float_to_double (F32.of_Z 3)))
     = Some 6%Z.
Proof.
  apply (extreme_bins 7 (F32.of_Z 3) (F32.of_Z 10));
    [unfold INT_MAX; lia|reflexivity..].
Defined.

(** ** The number of bins *)

Section BinCount.
Local Open Scope R_scope.

(** The conversion of a pixel count to [double]. *)
Lemma of_Z_count_error n :
  (1 <= n <= 2 ^ 60)%Z ->
  exists m e,
    F64.of_Z n = S754_finite false m e
    /\ (2 ^ 52 <= Zpos m < 2 ^ 53)%Z /\ (-52 <= e <= 9)%Z
    /\ IZR n * (1 - bpow (-52)) <= IZR (Zpos m) * bpow e
       <= IZR n * (1 + bpow (-52)).
Proof.
  intros Hn. destruct n as [|p|p]; try lia.
  unfold F64.of_Z. cbn [binary_normalize].
  assert (Hp : (Zpos p < 2 ^ 61)%Z)
    by (apply Z.le_lt_trans with (2 ^ 60)%Z; [apply Hn|reflexivity]).
  pose proof (digits2_pos_le_of_lt p 61 ltac:(clear; lia) Hp) as Hd.
  pose proof (Pos2Z.is_pos (digits2_pos p)) as Hd0.
  destruct (binary_round_error p 0) as (m & e & Hres & Hm & He & Herr);
    [lia|].
  exists m, e. split; [done|]. split; [done|]. split; [lia|].
  change (bpow 0) with 1 in Herr. rewrite Rmult_1_r in Herr. exact Herr.
Qed.

(** Two positive reals are ordered as their squares. *)
Lemma square_le a b : 0 <= a -> 0 <= b -> a * a <= b * b -> a <= b.
Proof. intros Ha Hb Hsq. destruct (Rle_lt_dec a b); [done|nra]. Qed.

Lemma square_lt a b : 0 <= a -> 0 <= b -> a * a < b * b -> a < b.
Proof. intros Ha Hb Hsq. destruct (Rlt_le_dec a b); [done|nra]. Qed.

(** The square root of a positive normal [double]: a [double] within
    [2^-52] of the root, relatively. *)
Lemma F64_sqrt_error m e :
  (2 ^ 52 <= Zpos m < 2 ^ 53)%Z -> (-100 <= e <= 100)%Z ->
  let y := sqrt (IZR (Zpos m) * bpow e) in
  exists m' e',
    F64.sqrt (S754_finite false m e) = S754_finite false m' e'
    /\ (2 ^ 52 <= Zpos m' < 2 ^ 53)%Z
    /\ (e / 2 - 26 <= e' <= e / 2 - 25)%Z
    /\ y * (1 - bpow (-52)) <= IZR (Zpos m') * bpow e' <= y * (1 + bpow (-52)).
Proof.
  intros Hm He y. unfold F64.sqrt, SFsqrt, SFsqrt_core_binary.
  cbn [Zdigits2]. rewrite (digits2_pos_unique m 53) by done.
  rewrite !Z.div2_div.
  assert (Hhalf : ((53 + e + 1) / 2 = e / 2 + 27)%Z).
  { replace (53 + e + 1)%Z with (e + 27 * 2)%Z by lia. apply Z.div_add. lia. }
  assert (He2 : (-50 <= e / 2 <= 50)%Z).
  { split; [apply Z.div_le_lower_bound|apply Z.div_le_upper_bound]; lia. }
  pose proof (Z.div_mod e 2 ltac:(lia)) as Hdm.
  pose proof (Z.mod_pos_bound e 2 ltac:(lia)) as Hmod.
  rewrite Hhalf. set (h := (e / 2)%Z) in *.
  set (e' := (h - 26)%Z).
  replace (Z.min (fexp F64.prec F64.emax (h + 27)) h) with e'
    by (unfold fexp, emin, F64.prec, F64.emax, e'; clear - He2; lia).
  set (s := (e - 2 * e')%Z).
  assert (Hs : s = 52%Z \/ s = 53%Z) by (unfold s, e'; clear - Hdm Hmod; lia).
  set (m2 := (Zpos m * 2 ^ s)%Z).
  assert (Hm2 : match s with
                | Z.pos _ => Z.shiftl (Zpos m) s
                | 0%Z => Zpos m
                | Z.neg _ => 0%Z
                end = m2).
  { unfold m2. destruct Hs as [-> | ->]; by rewrite Z.shiftl_mul_pow2. }
  rewrite Hm2.
  assert (Hm2b : (2 ^ 104 <= m2 < 2 ^ 106)%Z).
  { unfold m2. destruct Hs as [-> | ->]; lia. }
  pose proof (Z.sqrtrem_spec m2 ltac:(lia)) as Hspec.
  destruct (Z.sqrtrem m2) as [q r]. destruct Hspec as [Hq Hr].
  assert (Hqb : (2 ^ 52 <= q < 2 ^ 53)%Z).
  { change (2 ^ 104)%Z with (2 ^ 52 * 2 ^ 52)%Z in Hm2b.
    change (2 ^ 106)%Z with (2 ^ 53 * 2 ^ 53)%Z in Hm2b. nia. }
  destruct q as [|qp|qp]; try lia.
  set (l := if (r =? 0)%Z then loc_Exact
            else loc_Inexact (if (r <=? Zpos qp)%Z then Lt else Gt)).
  pose proof (bpow_pos e') as Hb. pose proof (bpow_pos e) as Hbe.
  assert (Hx : IZR (Zpos m) * bpow e = IZR m2 * (bpow e' * bpow e')).
  { unfold m2. rewrite mult_IZR, <- bpow_IZR by lia.
    rewrite <- !bpow_add, Rmult_assoc, <- bpow_add. do 2 f_equal.
    unfold s. lia. }
  assert (Hx0 : 0 <= IZR (Zpos m) * bpow e).
  { pose proof (SF2R_pos_gt m e). lra. }
  assert (Hy0 : 0 <= y) by apply sqrt_pos.
  assert (Hy2 : y * y = IZR (Zpos m) * bpow e) by (by apply sqrt_sqrt).
  assert (Hq0 : 0 < IZR (Zpos qp)) by (apply IZR_lt; lia).
  assert (Hlo : IZR (Zpos qp) * bpow e' <= y).
  { apply square_le; [nra|done|]. rewrite Hy2, Hx.
    assert (IZR (Zpos qp * Zpos qp) <= IZR m2)
      by (apply IZR_le; clear - Hq Hr; lia).
    rewrite mult_IZR in H.
    replace (IZR (Z.pos qp) * bpow e' * (IZR (Z.pos qp) * bpow e'))
      with (IZR (Z.pos qp) * IZR (Z.pos qp) * (bpow e' * bpow e')) by ring.
    apply Rmult_le_compat_r; [nra|done]. }
  assert (Hhi : y < IZR (Zpos qp + 1) * bpow e').
  { apply square_lt; [done|rewrite plus_IZR; nra|]. rewrite Hy2, Hx.
    assert (IZR m2 < IZR ((Zpos qp + 1) * (Zpos qp + 1)))
      by (apply IZR_lt; clear - Hq Hr; nia).
    rewrite mult_IZR in H.
    replace (IZR (Z.pos qp + 1) * bpow e' * (IZR (Z.pos qp + 1) * bpow e'))
      with (IZR (Z.pos qp + 1) * IZR (Z.pos qp + 1) * (bpow e' * bpow e'))
      by ring.
    apply Rmult_lt_compat_r; [nra|done]. }
  destruct (binary_round_aux_error false qp e' l y)
    as (m' & e1 & Hres & Hm' & He1 & Herr).
  - rewrite (digits2_pos_unique qp 53) by done. lia.
  - rewrite (digits2_pos_unique qp 53) by done. unfold e'. clear - He2. lia.
  - rewrite (digits2_pos_unique qp 53) by done. unfold e'. clear - He2. lia.
  - done.
  - exists m', e1. split; [exact Hres|]. split; [done|].
    rewrite (digits2_pos_unique qp 53) in He1 by done.
    split; [unfold e' in *; clear - He1; lia|done].
Qed.
(** The sum of a positive normal [double] and one half. *)
Lemma F64_add_half_error m e :
  (2 ^ 52 <= Zpos m < 2 ^ 53)%Z -> (-60 <= e <= 60)%Z ->
  let x := IZR (Zpos m) * bpow e in
  exists m' e',
    F64.add (S754_finite false m e) F64.half = S754_finite false m' e'
    /\ (2 ^ 52 <= Zpos m' < 2 ^ 53)%Z
    /\ (x + / 2) * (1 - bpow (-52)) <= IZR (Zpos m') * bpow e'
       <= (x + / 2) * (1 + bpow (-52)).
Proof.
  intros Hm He x. unfold F64.add, F64.half, SFadd.
  set (ez := Z.min e (-53)).
  set (zx := cond_Zopp false (Zpos (fst (shl_align m e ez)))).
  set (zy := cond_Zopp false
               (Zpos (fst (shl_align 4503599627370496 (-53) ez)))).
  assert (Hvx : IZR zx * bpow ez = x).
  { unfold zx, x. rewrite aligned_value by (unfold ez; lia).
    apply SF2R_pos. }
  assert (Hvy : IZR zy * bpow ez = / 2).
  { unfold zy. rewrite aligned_value by (unfold ez; lia).
    rewrite SF2R_pos.
    change 4503599627370496%Z with (2 ^ 52)%Z.
    rewrite <- bpow_IZR, <- bpow_add by lia.
    change (bpow (52 + -53)) with (/ 2 ^ 1)%R. lra. }
  pose proof (bpow_pos ez) as Hbz. pose proof (SF2R_pos_gt m e) as Hx0.
  fold x in Hx0.
  assert (Hsum : IZR (zx + zy) * bpow ez = x + / 2)
    by (rewrite plus_IZR; lra).
  destruct (zx + zy)%Z as [|p|p] eqn:Ez.
  - simpl in Hsum. lra.
  - cbn [binary_normalize].
    assert (Hxlt : x < bpow 113).
    { unfold x. assert (H1 : IZR (Zpos m) < bpow 53)
        by (rewrite bpow_IZR by lia; apply IZR_lt; lia).
      assert (H2 : bpow e <= bpow 60) by (apply bpow_le; lia).
      pose proof (bpow_pos e). pose proof (bpow_pos 53).
      replace 113%Z with (53 + 60)%Z by lia. rewrite bpow_add. nra. }
    assert (Hplt : IZR (Zpos p) * bpow ez < bpow 114).
    { rewrite Hsum. replace 114%Z with (113 + 1)%Z by lia.
      rewrite bpow_add. replace (bpow 1) with 2 by (unfold bpow; simpl; lra).
      assert (1 <= bpow 113) by (change 1 with (bpow 0); apply bpow_le; lia).
      lra. }
    assert (Hdp : (Zpos (digits2_pos p) + ez <= 114)%Z).
    { assert (Hlt : (Zpos p < 2 ^ (114 - ez))%Z).
      { apply lt_IZR. rewrite <- bpow_IZR by (unfold ez; lia).
        apply Rmult_lt_reg_r with (bpow ez); [done|].
        rewrite <- bpow_add. replace (114 - ez + ez)%Z with 114%Z by lia.
        done. }
      pose proof (digits2_pos_le_of_lt p (114 - ez) ltac:(unfold ez; lia) Hlt).
      lia. }
    pose proof (Pos2Z.is_pos (digits2_pos p)) as Hd0.
    destruct (binary_round_error p ez) as (m' & e' & Hres & Hm' & He' & Herr);
      [unfold ez in *; lia|].
    exists m', e'. split; [exact Hres|]. split; [exact Hm'|].
    rewrite Hsum in Herr. exact Herr.
  - exfalso. assert (IZR (Zneg p) < 0) by (apply IZR_lt; lia). nra.
Qed.

(** The cast to [int] of a positive [double] is its integer part. *)
Lemma double_to_int_floor m e n :
  double_to_int (S754_finite false m e) = Some n ->
  IZR n <= IZR (Zpos m) * bpow e < IZR n + 1.
Proof.
  unfold double_to_int. cbn [cond_Zopp].
  set (t := match e with
            | Zneg p => Z.shiftr (Zpos m) (Zpos p)
            | _ => Z.shiftl (Zpos m) e
            end).
  assert (Ht : IZR t <= IZR (Zpos m) * bpow e < IZR t + 1).
  { unfold t. destruct e as [|p|p].
    - rewrite Z.shiftl_0_r. change (bpow 0) with 1. lra.
    - rewrite Z.shiftl_mul_pow2 by lia.
      rewrite mult_IZR, <- bpow_IZR by lia. lra.
    - rewrite Z.shiftr_div_pow2 by lia.
      assert (Hp : (0 < 2 ^ Zpos p)%Z) by (apply Z.pow_pos_nonneg; lia).
      pose proof (Z.div_mod (Zpos m) (2 ^ Zpos p) ltac:(lia)) as Hdm.
      pose proof (Z.mod_pos_bound (Zpos m) (2 ^ Zpos p) Hp) as Hmod.
      set (q := (Zpos m / 2 ^ Zpos p)%Z) in *.
      set (r := (Zpos m mod 2 ^ Zpos p)%Z) in *.
      change (Zneg p) with (- Zpos p)%Z. rewrite bpow_opp.
      pose proof (bpow_pos (Zpos p)) as Hb.
      assert (Hm : IZR (Zpos m) = bpow (Zpos p) * IZR q + IZR r).
      { rewrite Hdm, plus_IZR, mult_IZR, bpow_IZR by lia. done. }
      assert (Hr : 0 <= IZR r < bpow (Zpos p)).
      { rewrite bpow_IZR by lia. split; [apply IZR_le|apply IZR_lt]; lia. }
      rewrite Hm. split.
      + apply Rmult_le_reg_r with (bpow (Zpos p)); [done|].
        rewrite Rmult_assoc, Rinv_l by lra. lra.
      + apply Rmult_lt_reg_r with (bpow (Zpos p)); [done|].
        rewrite Rmult_assoc, Rinv_l by lra. lra. }
  destruct ((INT_MIN <=? t)%Z && (t <=? INT_MAX)%Z); [|done].
  intros [= <-]. exact Ht.
Qed.

(** Three roundings of [sqrt N + 1/2]. *)
Lemma root_roundings N y f yf s t :
  1 <= N <= 1152921504606846976 -> 0 <= y -> y * y = N ->
  0 <= yf -> yf * yf = f ->
  let eps := bpow (-52) in
  N * (1 - eps) <= f <= N * (1 + eps) ->
  yf * (1 - eps) <= s <= yf * (1 + eps) ->
  (s + / 2) * (1 - eps) <= t <= (s + / 2) * (1 + eps) ->
  1 <= y <= 1073741824
  /\ y + / 4 < t < y + 3 / 4.
Proof.
  intros HN Hy Hy2 Hyf Hyf2 eps Hf Hs Ht.
  assert (He : eps * 4503599627370496 = 1).
  { assert (Hb : bpow 52 = 4503599627370496)
      by (rewrite bpow_IZR by lia; reflexivity).
    pose proof (bpow_add 52 (-52)) as H. change (bpow (52 + -52)) with 1 in H.
    rewrite Hb in H. unfold eps. lra. }
  assert (He0 : 0 < eps) by apply bpow_pos.
  assert (He1 : eps < 1) by lra.
  assert (Hy1 : 1 <= y) by (apply square_le; lra).
  assert (Hy30 : y <= 1073741824) by (apply square_le; lra).
  assert (Hyf_hi : yf <= y * (1 + eps)).
  { apply square_le; [done|nra|]. rewrite Hyf2.
    apply Rle_trans with (N * (1 + eps)); [lra|]. rewrite <- Hy2.
    replace (y * (1 + eps) * (y * (1 + eps)))
      with (y * y * ((1 + eps) * (1 + eps))) by ring.
    apply Rmult_le_compat_l; nra. }
  assert (Hyf_lo : y * (1 - eps) <= yf).
  { apply square_le; [nra|done|]. rewrite Hyf2.
    apply Rle_trans with (N * (1 - eps)); [|lra]. rewrite <- Hy2.
    replace (y * (1 - eps) * (y * (1 - eps)))
      with (y * y * ((1 - eps) * (1 - eps))) by ring.
    apply Rmult_le_compat_l; nra. }
  assert (Hye : y * eps <= / 4194304).
  { apply Rle_trans with (1073741824 * eps); [nra|]. lra. }
  assert (Hs_hi : s <= y + 3 * (y * eps)) by nra.
  assert (Hs_lo : y - 2 * (y * eps) <= s) by nra.
  assert (Hs0 : 0 < s) by nra.
  assert (Hs31 : s <= 1073741825) by nra.
  assert (Hse : (s + / 2) * eps <= / 2097152) by nra.
  split; [done|]. split; lra.
Qed.
(** The value of [numBinsHist], next to the square root. *)
Lemma numBinsHist_value width height :
  (1 <= Z.of_nat (width * height) <= 2 ^ 60)%Z ->
  exists n,
    numBinsHist width height = Some n
    /\ (1 <= n <= INT_MAX)%Z
    /\ 4 * IZR n - 3 < 4 * sqrt (IZR (Z.of_nat (width * height)))
       < 4 * IZR n + 3.
Proof.
  intros HN. unfold numBinsHist. set (N := Z.of_nat (width * height)) in *.
  destruct (of_Z_count_error N HN) as (mf & ef & Hf & Hmf & Hef & Hferr).
  rewrite Hf.
  destruct (F64_sqrt_error mf ef Hmf ltac:(lia))
    as (ms & es & Hs & Hms & Hes & Hserr).
  rewrite Hs.
  assert (Hes' : (-60 <= es <= 60)%Z).
  { assert (-26 <= ef / 2 <= 5)%Z
      by (split; [apply Z.div_le_lower_bound|apply Z.div_le_upper_bound]; lia).
    lia. }
  destruct (F64_add_half_error ms es Hms Hes')
    as (mt & et & Ht & Hmt & Hterr).
  rewrite Ht. cbv zeta in Hserr, Hterr.
  set (f := IZR (Zpos mf) * bpow ef) in *.
  set (sv := IZR (Zpos ms) * bpow es) in *.
  set (tv := IZR (Zpos mt) * bpow et) in *.
  assert (HNR : 1 <= IZR N <= 1152921504606846976).
  { split; [apply (IZR_le 1); lia|].
    change 1152921504606846976 with (IZR (2 ^ 60)). apply IZR_le. lia. }
  assert (Hf0 : 0 <= f) by (pose proof (SF2R_pos_gt mf ef); unfold f; lra).
  destruct (root_roundings (IZR N) (sqrt (IZR N)) f (sqrt f) sv tv HNR
              (sqrt_pos _) ltac:(apply sqrt_sqrt; lra)
              (sqrt_pos _) (sqrt_sqrt _ Hf0) Hferr Hserr Hterr)
    as [[Hy1 Hy30] [Ht1 Ht2]].
  set (y := sqrt (IZR N)) in *.
  destruct (double_to_int_bound mt et INT_MAX) as (n & Hn & Hnb).
  - unfold INT_MAX. lia.
  - fold tv. unfold INT_MAX. rewrite plus_IZR, minus_IZR.
    change (IZR (2 ^ 31)) with 2147483648. lra.
  - exists n. split; [exact Hn|].
    pose proof (double_to_int_floor mt et n Hn) as [Hfl1 Hfl2].
    fold tv in Hfl1, Hfl2.
    assert (Hn1 : (1 <= n)%Z).
    { apply (double_to_int_lower mt et 1 n); [lia| |done]. fold tv. lra. }
    split; [lia|]. split; lra.
Qed.

(** The number of bins.  For slices of at least one and at most 2^60
    pixels, [numBinsHist] is defined (the cast to [int] is applied to a
    number an [int] can hold), it lies between 1 and [INT_MAX], which is
    what the histogram loop needs to find a bin for every pixel, and it is
    within 3/4 of the square root of the number of pixels of a slice. *)
Theorem number_of_bins width height :
  (1 <= Z.of_nat (width * height) <= 2 ^ 60)%Z ->
  exists n,
    numBinsHist width height = Some n
    /\ (1 <= n <= INT_MAX)%Z
    /\ ((4 * n - 3) * (4 * n - 3) < 16 * Z.of_nat (width * height)
        < (4 * n + 3) * (4 * n + 3))%Z.
Proof.
  intros HN.
  destruct (numBinsHist_value width height HN) as (n & Hn & Hr & Hlo & Hhi).
  exists n. split; [exact Hn|]. split; [exact Hr|].
  set (N := Z.of_nat (width * height)) in *.
  assert (HN0 : 0 <= IZR N) by (apply (IZR_le 0); lia).
  pose proof (sqrt_pos (IZR N)) as Hy0.
  pose proof (sqrt_sqrt (IZR N) HN0) as Hy2.
  set (y := sqrt (IZR N)) in *.
  assert (HnR : 1 <= IZR n) by (apply (IZR_le 1); lia).
  split; apply lt_IZR;
    rewrite !mult_IZR, ?minus_IZR, ?plus_IZR, !mult_IZR;
    change (IZR 16) with 16; change (IZR 4) with 4; change (IZR 3) with 3;
    rewrite <- Hy2; nra.
Qed.
End BinCount.

Lemma number_of_bins_witness :
  exists n,
    numBinsHist 640 480 = Some n /\ (1 <= n <= INT_MAX)%Z
    /\ ((4 * n - 3) * (4 * n - 3) < 16 * 307200 < (4 * n + 3) * (4 * n + 3))%Z.
Proof.
  apply (number_of_bins 640 480). vm_compute. split; discriminate.
Defined.

(** ** The loop over the polarizations *)

Lemma grid_row_replicate B n r :
  r < n -> grid_row B r (replicate (n * B) 0%Z) = replicate B 0%Z.
Proof.
  intros Hr. unfold grid_row. rewrite drop_replicate, take_replicate.
  f_equal. nia.
Qed.

Section Run.
Variables width height depth stokes : nat.
Variable numBins : Z.
Variable cubes : nat -> list float.
Hypothesis cubes_numbers :
  forall s v, s < stokes -> v ∈ cubes s ->
    valid_float v = true /\ isinf v = false.
Hypothesis bins : (1 <= numBins <= INT_MAX)%Z.
Hypothesis pixels_bound : (Z.of_nat (width * height) <= INT_MAX)%Z.
Hypothesis rows_bound : (Z.of_nat depth * numBins <= INT_MAX)%Z.
Hypothesis cells_bound : (Z.of_nat stokes * numBins <= 2 ^ 32)%Z.

Local Abbreviation B := (Z.to_nat numBins).
Local Abbreviation hw := (Z.of_nat (height * width)).

(** The vectors have the sizes they were allocated with. *)
Local Abbreviation sized b :=
  (length (minValsXY (statsXY b)) = depth * stokes
   /\ length (maxValsXY (statsXY b)) = depth * stokes
   /\ length (meanValsXY (statsXY b)) = depth * stokes
   /\ length (nanValsXY (statsXY b)) = depth * stokes
   /\ length (histogramsXY b) = depth * stokes * B
   /\ (1 < depth -> length (partialHistogramsXYZ b) = depth * stokes * B)
   /\ (1 < depth -> length (histogramsXYZ b) = stokes * B)).

(** The histogram rows of polarization [t] are still at zero. *)
Local Abbreviation fresh t b :=
  ((forall z, z < depth ->
      grid_row B (t * depth + z) (histogramsXY b) = replicate B 0%Z)
   /\ (1 < depth ->
       (forall z, z < depth ->
          grid_row B (t * depth + z) (partialHistogramsXYZ b)
          = replicate B 0%Z)
       /\ grid_row B t (histogramsXYZ b) = replicate B 0%Z)).

(** Polarization [t] has been processed: its XY statistics and its
    histogram rows hold what its cube gives. *)
Local Abbreviation settled t b :=
  ((forall z, z < depth ->
      let a := slice_acc width height (cubes t) z in
      minValsXY (statsXY b) !! (t * depth + z) = Some (published_min hw a)
      /\ maxValsXY (statsXY b) !! (t * depth + z) = Some (published_max hw a)
      /\ meanValsXY (statsXY b) !! (t * depth + z)
         = Some (published_mean hw hw a)
      /\ nanValsXY (statsXY b) !! (t * depth + z) = Some (nanCount a)
      /\ row_total (grid_row B (t * depth + z) (histogramsXY b))
         = slice_counted width height (cubes t) z)
   /\ (1 < depth ->
       row_total (grid_row B t (histogramsXYZ b))
       = row_total (map (slice_counted width height (cubes t))
                      (seq 0 depth)))).

(** One turn of the loop. *)
Lemma stokes_pass_step s b :
  s < stokes -> sized b -> fresh s b ->
  exists b',
    process_stokes width height depth (cubes s) s numBins b = Some b'
    /\ sized b' /\ settled s b'
    /\ (forall t, t <> s -> fresh t b -> fresh t b')
    /\ (forall t, t <> s -> settled t b -> settled t b').
Proof.
  intros Hs (Lmin & Lmax & Lmean & Lnan & Lhxy & Lp & Lx) [Fh Fp].
  pose proof (process_stokes_rows width height depth stokes (cubes s) s
                numBins b (fun v => cubes_numbers s v Hs) bins pixels_bound
                rows_bound cells_bound Hs
                Lmin Lmax Lmean Lnan Lhxy Lp Lx)
    as (h1 & p1 & x1 & Hps & Hred & Lh1 & Lp1 & Th & _ & Hp).
  pose proof (process_stokes_frame width height depth stokes (cubes s) s
                numBins b (fun v => cubes_numbers s v Hs) bins pixels_bound
                rows_bound cells_bound Hs
                Lmin Lmax Lmean Lnan Lhxy Lp Lx)
    as (b' & Hps' & Hframe).
  assert (Hsum : 1 < depth ->
            length x1 = length (histogramsXYZ b)
            /\ row_total (grid_row B s x1)
               = (row_total (grid_row B s (histogramsXYZ b))
                  + foldr Z.add 0%Z
                      (map (fun i => row_total (grid_row B (s * depth + i) p1))
                         (seq 0 depth)))%Z).
  { intros Hd.
    destruct (reduce_partial_here width height depth stokes s numBins b
                bins pixels_bound rows_bound cells_bound Hs
                Lmin Lmax Lmean Lnan Lhxy Lp Lx p1 Hd
                ltac:(rewrite Lp1; auto))
      as (x1' & Hred' & Hlen & Tx & _).
    rewrite (proj2 (Nat.ltb_lt 1 depth) Hd) in Hred.
    assert (x1' = x1) as -> by congruence. done. }
  exists b'. split; [exact Hps'|].
  assert (Hb' : b' = mkBuffers
            (fst (slice_stats_pass width height depth (cubes s) s
                    (rotatedCube b) (statsXY b)))
            (snd (slice_stats_pass width height depth (cubes s) s
                    (rotatedCube b) (statsXY b)))
            (statsZ b') (statsXYZ b') h1 p1 x1).
  { rewrite Hps in Hps'. injection Hps' as <-. reflexivity. }
  assert (Hxy : statsXY b'
                = snd (slice_stats_pass width height depth (cubes s) s
                         (rotatedCube b) (statsXY b)))
    by (by rewrite Hb').
  assert (Hh : histogramsXY b' = h1) by (by rewrite Hb').
  assert (Hpx : partialHistogramsXYZ b' = p1) by (by rewrite Hb').
  assert (Hx : histogramsXYZ b' = x1) by (by rewrite Hb').
  clear Hb'.
  assert (Hlook : forall z, z < depth ->
            let a := slice_acc width height (cubes s) z in
            minValsXY (statsXY b') !! (s * depth + z)
            = Some (published_min hw a)
            /\ maxValsXY (statsXY b') !! (s * depth + z)
               = Some (published_max hw a)
            /\ meanValsXY (statsXY b') !! (s * depth + z)
               = Some (published_mean hw hw a)
            /\ nanValsXY (statsXY b') !! (s * depth + z)
               = Some (nanCount a)).
  { intros z Hz a. rewrite Hxy, slice_stats_pass_stats. cbv zeta.
    cbn [minValsXY maxValsXY meanValsXY nanValsXY].
    rewrite !(slice_stats_lookup depth stokes s) by done. done. }
  assert (Hcount : forall z, z < depth ->
            (if degenerate
                  (minValsXY (statsXY b') !!! (s * depth + z))
                  (maxValsXY (statsXY b') !!! (s * depth + z))
             then 0%Z
             else Z.sub hw (nanValsXY (statsXY b') !!! (s * depth + z)))
            = slice_counted width height (cubes s) z).
  { intros z Hz. destruct (Hlook z Hz) as (Hmin & Hmax & _ & Hnan).
    rewrite (list_lookup_total_correct _ _ _ Hmin),
      (list_lookup_total_correct _ _ _ Hmax),
      (list_lookup_total_correct _ _ _ Hnan). reflexivity. }
  rewrite <- Hxy in Th, Hp.
  split; [|split; [|split]].
  - rewrite Hxy, slice_stats_pass_stats. cbv zeta.
    cbn [minValsXY maxValsXY meanValsXY nanValsXY].
    rewrite !length_stores, Hh, Hpx, Hx, Lh1.
    repeat (split; [done|]). split.
    + intros Hd. rewrite Lp1. by apply Lp.
    + intros Hd. destruct (Hsum Hd) as [Hlen _].
      rewrite Hlen. by apply Lx.
  - split.
    + intros z Hz a. destruct (Hlook z Hz) as (Hmin & Hmax & Hmean & Hnan).
      repeat (split; [done|]).
      rewrite Hh, Th, Fh, row_total_replicate, Hcount by done.
      apply Z.add_0_l.
    + intros Hd. rewrite Hx.
      rewrite (proj2 (Nat.ltb_lt 1 depth) Hd) in Hp. destruct Hp as [Tp _].
      destruct (Fp Hd) as [Fp1 Fx].
      destruct (Hsum Hd) as [_ Tx].
      rewrite Tx, Fx, row_total_replicate, Z.add_0_l.
      unfold row_total at 2. apply zsum_ext. intros z Hz.
      apply elem_of_seq in Hz.
      rewrite Tp, Fp1, row_total_replicate, Hcount by lia.
      apply Z.add_0_l.
  - intros t Ht [Fth Ftp].
    destruct (Hframe t Ht) as (Hrows & Hxyz & _). split.
    + intros z Hz. destruct (Hrows z Hz) as (_ & _ & _ & _ & Hr & _).
      cbv zeta in Hr. rewrite Hr. by apply Fth.
    + intros Hd. destruct (Ftp Hd) as [Ftp1 Ftx]. split.
      * intros z Hz. destruct (Hrows z Hz) as (_ & _ & _ & _ & _ & Hr).
        cbv zeta in Hr. rewrite Hr. by apply Ftp1.
      * by rewrite Hxyz.
  - intros t Ht [St Sx].
    destruct (Hframe t Ht) as (Hrows & Hxyz & _). split.
    + intros z Hz a.
      destruct (Hrows z Hz) as (H1 & H2 & H3 & H4 & Hr & _).
      cbv zeta in H1, H2, H3, H4, Hr. rewrite H1, H2, H3, H4, Hr.
      by apply St.
    + intros Hd. rewrite Hxyz. by apply Sx.
Qed.

(** The turns [n], [n + 1], ... of the loop. *)
Lemma stokes_passes_from k : forall n b,
  n + k <= stokes -> sized b ->
  (forall t, n <= t < stokes -> fresh t b) ->
  (forall t, t < n -> settled t b) ->
  exists b',
    fold_left
      (fun st s =>
         match st with
         | None => None
         | Some b => process_stokes width height depth (cubes s) s numBins b
         end)
      (seq n k) (Some b) = Some b'
    /\ sized b'
    /\ (forall t, n + k <= t < stokes -> fresh t b')
    /\ (forall t, t < n + k -> settled t b').
Proof.
  induction k as [|k IH]; intros n b Hn Hsized Hfresh Hsettled.
  - exists b. cbn [seq fold_left]. rewrite Nat.add_0_r. done.
  - cbn [seq fold_left].
    destruct (stokes_pass_step n b ltac:(lia) Hsized
                (Hfresh n ltac:(lia)))
      as (b1 & Hps & Hsized1 & Hset & Hfr & Hst).
    rewrite Hps.
    destruct (IH (S n) b1 ltac:(lia) Hsized1) as (b' & Hfold & Hrest).
    + intros t Ht. apply Hfr; [lia|]. apply Hfresh. lia.
    + intros t Ht. destruct (Nat.eq_dec t n) as [->|Hne]; [exact Hset|].
      apply Hst; [done|]. apply Hsettled. lia.
    + exists b'. split; [exact Hfold|].
      replace (n + S k) with (S n + k) by lia. exact Hrest.
Qed.

(** The whole loop, from the vectors [main] allocates. *)
Lemma stokes_passes_settled rot0 :
  exists b,
    stokes_passes width height depth stokes numBins cubes
      (allocate width height depth stokes numBins rot0) = Some b
    /\ forall s, s < stokes ->
         (forall z, z < depth ->
            let a := slice_acc width height (cubes s) z in
            minValsXY (statsXY b) !! (s * depth + z)
            = Some (published_min hw a)
            /\ maxValsXY (statsXY b) !! (s * depth + z)
               = Some (published_max hw a)
            /\ meanValsXY (statsXY b) !! (s * depth + z)
               = Some (published_mean hw hw a)
            /\ nanValsXY (statsXY b) !! (s * depth + z)
               = Some (nan_count (slice_pixels width height (cubes s) z))
            /\ row_total (hist_row depth s numBins (histogramsXY b) z)
               = slice_counted width height (cubes s) z)
         /\ (1 < depth ->
             row_total (hist_row_xyz s numBins (histogramsXYZ b))
             = row_total (map (slice_counted width height (cubes s))
                            (seq 0 depth))).
Proof.
  destruct (stokes_passes_from stokes 0
              (allocate width height depth stokes numBins rot0))
    as (b & Hfold & _ & _ & Hsettled).
  - lia.
  - unfold allocate. cbn [statsXY minValsXY maxValsXY meanValsXY nanValsXY
      histogramsXY partialHistogramsXYZ histogramsXYZ].
    rewrite !length_replicate.
    repeat (split; [done|]). split; intros Hd;
      rewrite (proj2 (Nat.ltb_lt 1 depth) Hd); by rewrite length_replicate.
  - intros t Ht. unfold allocate.
    cbn [histogramsXY partialHistogramsXYZ histogramsXYZ].
    assert (Hrow : forall z, z < depth -> t * depth + z < depth * stokes).
    { intros z Hz. apply (stats_index_lt depth stokes t z); lia. }
    split.
    + intros z Hz. apply grid_row_replicate. by apply Hrow.
    + intros Hd. rewrite (proj2 (Nat.ltb_lt 1 depth) Hd). split.
      * intros z Hz. apply grid_row_replicate. by apply Hrow.
      * apply grid_row_replicate. lia.
  - intros t Ht. lia.
  - exists b. split; [exact Hfold|]. intros s Hs.
    destruct (Hsettled s ltac:(lia)) as [Sz Sx]. split; [|exact Sx].
    intros z Hz a. destruct (Sz z Hz) as (H1 & H2 & H3 & H4 & H5).
    repeat (split; [done|]). split; [|exact H5].
    rewrite H4. f_equal. apply nanCount_slice_acc.
Qed.
End Run.

(** The number of bins is at most one above the integer square root of
    the number of pixels of a slice. *)
Lemma numBinsHist_sqrt width height n :
  (1 <= Z.of_nat (width * height) <= 2 ^ 60)%Z ->
  numBinsHist width height = Some n ->
  (1 <= n <= Z.sqrt (Z.of_nat (width * height)) + 1)%Z.
Proof.
  intros HN Hn.
  destruct (numBinsHist_value width height HN) as (n' & Hn' & Hr & Hlo & _).
  assert (n' = n) as -> by congruence.
  split; [lia|].
  set (N := Z.of_nat (width * height)) in *.
  assert (HN0 : (0 <= IZR N)%R) by (apply (IZR_le 0); lia).
  pose proof (sqrt_pos (IZR N)) as Hy0.
  pose proof (sqrt_sqrt (IZR N) HN0) as Hy2.
  set (y := sqrt (IZR N)) in *.
  assert (HnR : (1 <= IZR n)%R) by (apply (IZR_le 1); lia).
  assert (Hsq : ((4 * n - 3) * (4 * n - 3) < 16 * N)%Z).
  { apply lt_IZR.
    rewrite !mult_IZR, ?minus_IZR, !mult_IZR.
    change (IZR 16) with 16%R; change (IZR 4) with 4%R;
      change (IZR 3) with 3%R.
    rewrite <- Hy2. nra. }
  pose proof (Z.sqrt_spec N ltac:(lia)) as [_ Hs].
  pose proof (Z.sqrt_nonneg N) as Hs0.
  unfold Z.succ in Hs. nia.
Qed.

(** The whole conversion of the pixels.  For slices of at least one and
    at most [INT_MAX] pixels, with [D*(r+1)] at most [INT_MAX] and
    [S*(r+1)] at most [2^32] where [r] is the integer square root of
    [H*W] (the [int] counters and products and the [unsigned int] sums of
    the loops stay in their types), when no pixel of any polarization is
    infinite: the number of bins is computed, the vectors are allocated
    and the loop over the polarizations runs to its end without an
    undefined step; then for every polarization [s] and slice [z] the XY
    statistics at [(s, z)] are the ones of slice [z] of the cube read for
    [s] (later polarizations have not overwritten them), the XY histogram
    row [(s, z)] holds one count for each pixel of the slice that is not
    NaN (none if the slice is all NaN or has a zero range), and, when the
    depth is above 1, the XYZ histogram row of [s] holds the counts of all
    its slices together. *)
Theorem conversion_run width height depth stokes cubes rot0 :
  (1 <= Z.of_nat (width * height) <= INT_MAX)%Z ->
  (Z.of_nat depth * (Z.sqrt (Z.of_nat (width * height)) + 1) <= INT_MAX)%Z ->
  (Z.of_nat stokes * (Z.sqrt (Z.of_nat (width * height)) + 1) <= 2 ^ 32)%Z ->
  (forall s v, s < stokes -> v ∈ cubes s ->
     valid_float v = true /\ isinf v = false) ->
  exists numBins b,
    numBinsHist width height = Some numBins
    /\ convert width height depth stokes cubes rot0 = Some b
    /\ forall s, s < stokes ->
         (forall z, z < depth ->
            let hw := Z.of_nat (height * width) in
            let a := slice_acc width height (cubes s) z in
            minValsXY (statsXY b) !! (s * depth + z)
            = Some (published_min hw a)
            /\ maxValsXY (statsXY b) !! (s * depth + z)
               = Some (published_max hw a)
            /\ meanValsXY (statsXY b) !! (s * depth + z)
               = Some (published_mean hw hw a)
            /\ nanValsXY (statsXY b) !! (s * depth + z)
               = Some (nan_count (slice_pixels width height (cubes s) z))
            /\ row_total (hist_row depth s numBins (histogramsXY b) z)
               = slice_counted width height (cubes s) z)
         /\ (1 < depth ->
             row_total (hist_row_xyz s numBins (histogramsXYZ b))
             = row_total (map (slice_counted width height (cubes s))
                            (seq 0 depth))).
Proof.
  intros Hsize Hdepth Hstokes Hcubes.
  assert (Hsize60 : (1 <= Z.of_nat (width * height) <= 2 ^ 60)%Z)
    by (unfold INT_MAX in Hsize; lia).
  destruct (numBinsHist_value width height Hsize60) as (n & Hn & Hbins & _).
  pose proof (numBinsHist_sqrt width height n Hsize60 Hn) as [_ Hroot].
  assert (Hrows : (Z.of_nat depth * n <= INT_MAX)%Z)
    by (unfold INT_MAX in *; nia).
  assert (Hcells : (Z.of_nat stokes * n <= 2 ^ 32)%Z) by nia.
  assert (Hpixels : (Z.of_nat (width * height) <= INT_MAX)%Z) by lia.
  destruct (stokes_passes_settled width height depth stokes n cubes Hcubes
              Hbins Hpixels Hrows Hcells rot0) as (b & Hrun & Hall).
  exists n, b. split; [exact Hn|]. split; [|exact Hall].
  unfold convert. rewrite Hn.
  destruct (Z.ltb_spec n 0) as [Hneg|_]; [lia|exact Hrun].
Qed.

Lemma conversion_run_witness :
  let cubes := fun s : nat =>
    match s with
    | 0 => [F32.of_Z 1; F32.of_Z 2; F32.of_Z 3; F32.of_Z 5]
    | _ => [F32.of_Z 4; NAN; F32.of_Z 6; F32.of_Z 6]
    end in
  exists b,
    convert 2 1 2 2 cubes [NAN; NAN; NAN; NAN] = Some b
    /\ nanValsXY (statsXY b) !! 2 = Some 1%Z
    /\ row_total (hist_row 2 0 1 (histogramsXY b) 1) = 2%Z
    /\ row_total (hist_row 2 1 1 (histogramsXY b) 1) = 0%Z
    /\ row_total (hist_row_xyz 0 1 (histogramsXYZ b)) = 4%Z.
Proof.
  intros cubes.
  assert (Hcube : forall s v, s < 2 -> v ∈ cubes s ->
            valid_float v = true /\ isinf v = false).
  { intros s v Hs Hv. destruct s as [|[|s]]; [| |lia]; cbn in Hv;
      repeat (apply elem_of_cons in Hv as [->|Hv]; [split; reflexivity|]);
      by apply elem_of_nil in Hv. }
  destruct (conversion_run 2 1 2 2 cubes [NAN; NAN; NAN; NAN]
              ltac:(vm_compute; split; discriminate)
              ltac:(vm_compute; discriminate)
              ltac:(vm_compute; discriminate) Hcube)
    as (n & b & Hn & Hrun & Hall).
  assert (n = 1%Z) as -> by (vm_compute in Hn; congruence).
  exists b. split; [exact Hrun|].
  destruct (Hall 0 ltac:(lia)) as [H0 X0].
  destruct (Hall 1 ltac:(lia)) as [H1 _].
  destruct (H0 1 ltac:(lia)) as (_ & _ & _ & _ & R01).
  destruct (H1 0 ltac:(lia)) as (_ & _ & _ & N10 & _).
  destruct (H1 1 ltac:(lia)) as (_ & _ & _ & _ & R11).
  split; [exact N10|]. split; [exact R01|]. split; [exact R11|].
  exact (X0 ltac:(lia)).
Defined.

(** ** [Util.cc]: [mipDims] *)

Section ExactRounding.
Local Open Scope Z_scope.

(** Shifting out zeros leaves an exact record. *)
Lemma shr_iter_exact n : forall m,
  0 <= m -> (2 ^ Z.of_nat n | m) ->
  Nat.iter n shr_1 (Build_shr_record m false false)
  = Build_shr_record (m / 2 ^ Z.of_nat n) false false.
Proof.
  induction n as [|n IH]; intros m Hm Hdiv.
  - cbn [Nat.iter Z.of_nat]. by rewrite Z.div_1_r.
  - change (Nat.iter (S n) shr_1 ?x) with (shr_1 (Nat.iter n shr_1 x)).
    destruct Hdiv as [k Hk].
    assert (Hpow : 2 ^ Z.of_nat (S n) = 2 * 2 ^ Z.of_nat n)
      by (rewrite Nat2Z.inj_succ, Z.pow_succ_r by lia; lia).
    assert (Hp : 0 < 2 ^ Z.of_nat n) by (apply Z.pow_pos_nonneg; lia).
    rewrite IH; [|done|exists (k * 2); lia].
    assert (H1 : m / 2 ^ Z.of_nat n = 2 * k).
    { rewrite Hk, Hpow. replace (k * (2 * 2 ^ Z.of_nat n))
        with (2 * k * 2 ^ Z.of_nat n) by lia. apply Z.div_mul. lia. }
    assert (H2 : m / 2 ^ Z.of_nat (S n) = k).
    { rewrite Hk. apply Z.div_mul. lia. }
    rewrite H1, H2. assert (Hk0 : 0 <= k) by nia.
    destruct k as [|p|p]; [reflexivity|reflexivity|lia].
Qed.

Variables prec emax : Z.
Hypothesis Hprec : 0 < prec.

(** The rounding of a mantissa whose digits beyond the first [prec] are
    zeros, in the normal range: these digits are dropped and nothing is
    rounded. *)
Lemma binary_round_aux_exact s (mx : positive) ex :
  let d := Zpos (digits2_pos mx) in
  prec <= d -> 3 - emax - prec <= d + ex - prec -> d + ex <= emax - 1 ->
  (2 ^ (d - prec) | Zpos mx) ->
  exists m',
    binary_round_aux prec emax s (Zpos mx) ex loc_Exact
    = S754_finite s m' (ex + (d - prec))
    /\ Zpos m' * 2 ^ (d - prec) = Zpos mx
    /\ 2 ^ (prec - 1) <= Zpos m' < 2 ^ prec.
Proof.
  intros d Hd Hn Ho Hdiv.
  pose proof (digits2_pos_bounds mx) as [Hlo Hhi]. fold d in Hlo, Hhi.
  assert (Hp : 0 < 2 ^ (d - prec)) by (apply Z.pow_pos_nonneg; lia).
  set (m1 := Zpos mx / 2 ^ (d - prec)).
  assert (Hm1 : m1 * 2 ^ (d - prec) = Zpos mx).
  { destruct Hdiv as [k Hk]. unfold m1. rewrite Hk, Z.div_mul by lia. done. }
  assert (H1 : 2 ^ (d - 1) = 2 ^ (prec - 1) * 2 ^ (d - prec))
    by (rewrite <- Z.pow_add_r by lia; f_equal; lia).
  assert (H2 : 2 ^ d = 2 ^ prec * 2 ^ (d - prec))
    by (rewrite <- Z.pow_add_r by lia; f_equal; lia).
  assert (Hm1b : 2 ^ (prec - 1) <= m1 < 2 ^ prec) by nia.
  assert (Hhalf : 0 < 2 ^ (prec - 1)) by (apply Z.pow_pos_nonneg; lia).
  assert (Hshr : shr_fexp prec emax (Zpos mx) ex loc_Exact
                 = (Build_shr_record m1 false false, ex + (d - prec))).
  { unfold shr_fexp. cbn [Zdigits2 shr_record_of_loc]. fold d.
    replace (fexp prec emax (d + ex) - ex) with (d - prec)
      by (unfold fexp, emin; lia).
    unfold shr. destruct (d - prec) as [|p|p] eqn:E; [| |lia].
    - unfold m1. rewrite Z.add_0_r. cbn. by rewrite Z.div_1_r.
    - rewrite iter_pos_nat, shr_iter_exact; [|lia|by rewrite positive_nat_Z].
      by rewrite positive_nat_Z. }
  unfold binary_round_aux. rewrite Hshr.
  cbn [shr_m loc_of_shr_record round_nearest_even].
  destruct m1 as [|p1|p1] eqn:E1; [lia| |lia].
  unfold shr_fexp. cbn [Zdigits2].
  rewrite (digits2_pos_unique p1 prec) by done.
  replace (fexp prec emax (prec + (ex + (d - prec))) - (ex + (d - prec)))
    with 0 by (unfold fexp, emin; lia).
  cbn [shr shr_record_of_loc shr_m].
  replace (ex + (d - prec) <=? emax - prec) with true
    by (symmetry; apply Z.leb_le; lia).
  exists p1. done.
Qed.
End ExactRounding.

Section MipDims.
Import Util.
Local Open Scope R_scope.

(** The rounding to [float] of a positive real [x] known between the
    mantissa [mx] and the next, at exponent [ex]: a [float] within [2^-23]
    of [x], relatively. *)
Lemma binary_round_aux_error32 s (mx : positive) ex lx x :
  let d := Zpos (digits2_pos mx) in
  (24 <= d)%Z -> (-149 <= d + ex - 24)%Z -> (d + ex <= 127)%Z ->
  IZR (Zpos mx) * bpow ex <= x < IZR (Zpos mx + 1) * bpow ex ->
  exists m' e',
    binary_round_aux F32.prec F32.emax s (Zpos mx) ex lx = S754_finite s m' e'
    /\ (2 ^ 23 <= Zpos m' < 2 ^ 24)%Z
    /\ x * (1 - bpow (-23)) <= IZR (Zpos m') * bpow e' <= x * (1 + bpow (-23)).
Proof.
  intros d Hd Hn Ho [Hxlo Hxhi].
  destruct (binary_round_aux_normal F32.prec F32.emax eq_refl s mx ex lx
              Hd Hn Ho) as (m' & e' & Hres & Hm' & _ & Hcases).
  cbv zeta in Hcases. fold d in Hcases.
  change F32.prec with 24%Z in *. change (24 - 1)%Z with 23%Z in *.
  set (n := (d - 24)%Z) in *. set (m1 := (Zpos mx / 2 ^ n)%Z) in *.
  set (e1 := (ex + n)%Z) in *.
  exists m', e'. split; [exact Hres|]. split; [exact Hm'|].
  assert (Hp : (0 < 2 ^ n)%Z) by (apply Z.pow_pos_nonneg; unfold n; lia).
  pose proof (Z.div_mod (Zpos mx) (2 ^ n) ltac:(lia)) as Hdm.
  pose proof (Z.mod_pos_bound (Zpos mx) (2 ^ n) Hp) as Hmod.
  fold m1 in Hdm. set (r := (Zpos mx mod 2 ^ n)%Z) in *.
  assert (Hb1 : bpow e1 = IZR (2 ^ n) * bpow ex).
  { unfold e1. rewrite Z.add_comm, bpow_add, bpow_IZR by (unfold n; lia).
    done. }
  pose proof (bpow_pos ex) as Hbex. pose proof (bpow_pos e1) as Hbe1.
  assert (Hmx : IZR (Zpos mx) = IZR (2 ^ n) * IZR m1 + IZR r)
    by (rewrite Hdm at 1; rewrite plus_IZR, mult_IZR; done).
  assert (Hr : 0 <= IZR r /\ IZR r + 1 <= IZR (2 ^ n)).
  { split; [apply IZR_le; lia|]. rewrite <- plus_IZR. apply IZR_le. lia. }
  assert (Hx1 : IZR m1 * bpow e1 <= x).
  { apply Rle_trans with (IZR (Zpos mx) * bpow ex); [|done].
    rewrite Hb1, Hmx. nra. }
  assert (Hx2 : x < (IZR m1 + 1) * bpow e1).
  { apply Rlt_le_trans with (IZR (Zpos mx + 1) * bpow ex); [done|].
    rewrite Hb1, plus_IZR, Hmx. nra. }
  assert (Hm1 : (2 ^ 23 <= m1)%Z).
  { destruct Hcases as [[H _]|[[H _]|[H _]]]; [lia| |lia].
    unfold m1. apply Z.div_le_lower_bound; [done|].
    pose proof (digits2_pos_bounds mx) as [Hlo _]. fold d in Hlo.
    replace (d - 1)%Z with (23 + n)%Z in Hlo by (unfold n; lia).
    rewrite Z.pow_add_r in Hlo by (unfold n; lia). lia. }
  assert (Hm1R : 8388608 <= IZR m1) by (apply (IZR_le 8388608); exact Hm1).
  assert (He : bpow (-23) * 8388608 = 1).
  { assert (Hb : bpow 23 = 8388608)
      by (rewrite bpow_IZR by lia; reflexivity).
    pose proof (bpow_add 23 (-23)) as H. change (bpow (23 + -23)) with 1 in H.
    rewrite Hb in H. lra. }
  set (eps := bpow (-23)) in *.
  assert (Hx0 : 8388608 * bpow e1 <= x) by nra.
  assert (Hxe : bpow e1 <= x * eps) by nra.
  destruct Hcases as [[Hm He']|[[Hm He']|(Hc & Hm & He')]]; subst e'.
  - rewrite Hm. split; nra.
  - rewrite Hm, plus_IZR. split; nra.
  - rewrite Hm. replace (e1 + 1)%Z with (1 + e1)%Z by lia. rewrite bpow_add.
    replace (bpow 1) with 2 by (unfold bpow; simpl; lra).
    change (IZR (2 ^ 23)) with 8388608.
    assert (IZR m1 + 1 = 16777216).
    { rewrite <- plus_IZR, Hc. reflexivity. }
    split; nra.
Qed.

(** The conversion of a small count to [float] is exact. *)
Lemma F32_of_Z_exact n :
  (1 <= n < 2 ^ 24)%Z ->
  exists m e,
    F32.of_Z n = S754_finite false m e
    /\ (2 ^ 23 <= Zpos m < 2 ^ 24)%Z /\ (-23 <= e <= 0)%Z
    /\ (Zpos m = n * 2 ^ (- e))%Z.
Proof.
  intros Hn. destruct n as [|p|p]; try lia.
  unfold F32.of_Z. cbn [binary_normalize]. unfold binary_round.
  set (d := Zpos (digits2_pos p)).
  pose proof (Pos2Z.is_pos (digits2_pos p)) as Hd0. fold d in Hd0.
  pose proof (digits2_pos_le_of_lt p 24 ltac:(lia) ltac:(lia)) as Hd24.
  fold d in Hd24.
  assert (Hfexp : fexp F32.prec F32.emax (d + 0) = (d - 24)%Z)
    by (unfold fexp, emin, F32.prec, F32.emax; lia).
  rewrite Hfexp.
  pose proof (shl_align_spec p 0 (d - 24)) as [He2 Hm2]. cbv zeta in *.
  destruct (shl_align p 0 (d - 24)) as [mz ez]. cbn [fst snd] in He2, Hm2.
  pose proof (digits2_pos_bounds p) as [Hplo Hphi]. fold d in Hplo, Hphi.
  assert (Hez : ez = (d - 24)%Z) by lia.
  assert (Hdz : Zpos (digits2_pos mz) = 24%Z).
  { apply digits2_pos_unique. rewrite Hm2, Hez.
    replace (0 - (d - 24))%Z with (24 - d)%Z by lia.
    assert (H1 : (2 ^ (24 - 1) = 2 ^ (d - 1) * 2 ^ (24 - d))%Z)
      by (rewrite <- Z.pow_add_r by lia; f_equal; lia).
    assert (H2 : (2 ^ 24 = 2 ^ d * 2 ^ (24 - d))%Z)
      by (rewrite <- Z.pow_add_r by lia; f_equal; lia).
    assert (0 < 2 ^ (24 - d))%Z by (apply Z.pow_pos_nonneg; lia).
    rewrite H1, H2. nia. }
  destruct (binary_round_aux_normal F32.prec F32.emax eq_refl false mz ez
              loc_Exact) as (m' & e' & Hres & Hm' & Hexact & _);
    [unfold F32.prec, F32.emax in *; lia..|].
  destruct (Hexact eq_refl Hdz) as [-> ->].
  exists mz, ez. split; [exact Hres|]. split; [exact Hm'|].
  split; [lia|]. rewrite Hm2. reflexivity.
Qed.
(** The quotient of two [float]s of 24 digits, before it is rounded. *)
Lemma F32_div_core m1 e1 m2 e2 :
  (2 ^ 23 <= Zpos m1 < 2 ^ 24)%Z -> (2 ^ 23 <= Zpos m2 < 2 ^ 24)%Z ->
  (-100 <= e1 - e2 <= 100)%Z ->
  let a := (Zpos m1 * 2 ^ 24)%Z in
  F32.div (S754_finite false m1 e1) (S754_finite false m2 e2)
  = binary_round_aux F32.prec F32.emax false (a / Zpos m2) (e1 - e2 - 24)
      (new_location (Zpos m2) (a mod Zpos m2)).
Proof.
  intros H1 H2 He a. unfold F32.div, SFdiv, SFdiv_core_binary.
  cbn [xorb Zdigits2].
  rewrite (digits2_pos_unique m1 24), (digits2_pos_unique m2 24) by done.
  replace (Z.min (fexp F32.prec F32.emax (24 + e1 - (24 + e2))) (e1 - e2))
    with (e1 - e2 - 24)%Z
    by (unfold fexp, emin, F32.prec, F32.emax; clear - He; lia).
  replace (e1 - e2 - (e1 - e2 - 24))%Z with 24%Z by lia.
  rewrite Z.shiftl_mul_pow2 by lia. fold a.
  unfold Z.div, Z.modulo. by destruct (Z.div_eucl a (Zpos m2)).
Qed.

Lemma new_location_exact n : new_location n 0 = loc_Exact.
Proof. unfold new_location. by destruct (Z.even n). Qed.

(** The quotient of two small counts, as a [float]: between the ceiling
    of the exact quotient less one, excluded, and the ceiling. *)
Lemma F32_div_counts d mip :
  (1 <= d < 2 ^ 23)%Z -> (1 <= mip < 2 ^ 24)%Z ->
  let K := ((d + mip - 1) / mip)%Z in
  exists m e,
    F32.div (F32.of_Z d) (F32.of_Z mip) = S754_finite false m e
    /\ (2 ^ 23 <= Zpos m < 2 ^ 24)%Z
    /\ IZR K - 1 < IZR (Zpos m) * bpow e <= IZR K.
Proof.
  intros Hd Hmip K.
  destruct (F32_of_Z_exact d ltac:(lia)) as (m1 & e1 & Hx & Hm1 & He1 & Hv1).
  destruct (F32_of_Z_exact mip Hmip) as (m2 & e2 & Hy & Hm2 & He2 & Hv2).
  rewrite Hx, Hy, F32_div_core by (done || lia). cbv zeta.
  set (a := (Zpos m1 * 2 ^ 24)%Z).
  set (t := (24 - e1 + e2)%Z).
  assert (Ht : (1 <= t <= 47)%Z) by (unfold t; lia).
  assert (Hp1 : (0 < 2 ^ (- e1))%Z) by (apply Z.pow_pos_nonneg; lia).
  assert (Hp2 : (0 < 2 ^ (- e2))%Z) by (apply Z.pow_pos_nonneg; lia).
  assert (Hpt : (0 < 2 ^ t)%Z) by (apply Z.pow_pos_nonneg; lia).
  assert (Ha : (a * mip = d * 2 ^ t * Zpos m2)%Z).
  { unfold a. rewrite Hv1, Hv2.
    assert (H : (2 ^ t * 2 ^ (- e2) = 2 ^ (- e1) * 2 ^ 24)%Z).
    { rewrite <- !Z.pow_add_r by lia. f_equal. unfold t. lia. }
    clear - H. nia. }
  pose proof (Z.div_mod d mip ltac:(lia)) as Hdm.
  pose proof (Z.mod_pos_bound d mip ltac:(lia)) as Hrho.
  set (k := (d / mip)%Z) in *. set (rho := (d mod mip)%Z) in *.
  assert (Hk0 : (0 <= k)%Z) by (apply Z.div_pos; lia).
  assert (Hk23 : (k < 2 ^ 23)%Z) by nia.
  pose proof (Z.div_mod a (Zpos m2) ltac:(lia)) as Hqr.
  pose proof (Z.mod_pos_bound a (Zpos m2) ltac:(lia)) as Hr.
  set (q := (a / Zpos m2)%Z) in *. set (r := (a mod Zpos m2)%Z) in *.
  assert (Hab : (2 ^ 47 <= a < 2 ^ 48)%Z).
  { unfold a. change (2 ^ 47)%Z with (2 ^ 23 * 2 ^ 24)%Z.
    change (2 ^ 48)%Z with (2 ^ 24 * 2 ^ 24)%Z. lia. }
  assert (Hq : (2 ^ 23 <= q < 2 ^ 25)%Z).
  { change (2 ^ 47)%Z with (2 ^ 24 * 2 ^ 23)%Z in Hab.
    change (2 ^ 48)%Z with (2 ^ 23 * 2 ^ 25)%Z in Hab. clear - Hab Hqr Hr Hm2.
    nia. }
  destruct q as [|qp|qp] eqn:Eq; try lia.
  pose proof (digits2_pos_ge_of_le qp 24 ltac:(lia)) as Hd1.
  pose proof (digits2_pos_le_of_lt qp 25 ltac:(lia) ltac:(lia)) as Hd2.
  set (dq := Zpos (digits2_pos qp)) in *.
  pose proof (bpow_pos (e1 - e2 - 24)) as Hb.
  assert (Hbt : bpow (e1 - e2 - 24) * IZR (2 ^ t) = 1).
  { rewrite <- bpow_IZR, <- bpow_add by lia.
    replace (e1 - e2 - 24 + t)%Z with 0%Z by (unfold t; lia). reflexivity. }
  assert (Hmip0 : 0 < IZR mip) by (apply IZR_lt; lia).
  assert (Hm20 : 0 < IZR (Zpos m2)) by (apply IZR_lt; lia).
  assert (HaR : IZR a * IZR mip = IZR d * IZR (2 ^ t) * IZR (Zpos m2))
    by (rewrite <- !mult_IZR; f_equal; exact Ha).
  destruct (Z.eq_dec rho 0%Z) as [Hz|Hnz].
  - (* the count is a multiple of [mip]: nothing is rounded *)
    assert (HK : K = k).
    { unfold K. rewrite Hdm, Hz, Z.add_0_r.
      replace (mip * k + mip - 1)%Z with (k * mip + (mip - 1))%Z by lia.
      rewrite Z.div_add_l by lia. rewrite (Z.div_small (mip - 1)) by lia. lia. }
    assert (Hqk : (Zpos qp = k * 2 ^ t /\ r = 0)%Z).
    { assert (H : (a = k * 2 ^ t * Zpos m2)%Z).
      { apply Z.mul_reg_r with mip; [lia|]. rewrite Ha, Hdm, Hz. lia. }
      set (u := (k * 2 ^ t)%Z) in *.
      assert (Hu : (Zpos m2 * (u - Zpos qp) = r)%Z) by lia.
      assert (u - Zpos qp = 0)%Z by (clear - Hu Hr; nia).
      split; lia. }
    destruct Hqk as [Hqk ->]. rewrite new_location_exact.
    assert (Hdt : (dq - 24 < t)%Z).
    { destruct (Z.ltb_spec (dq - 24) t) as [|Hge]; [done|].
      pose proof (digits2_pos_bounds qp) as [Hlo _]. fold dq in Hlo.
      assert (2 ^ (23 + t) <= 2 ^ (dq - 1))%Z
        by (apply Z.pow_le_mono_r; lia).
      rewrite Z.pow_add_r in H by lia. nia. }
    destruct (binary_round_aux_exact F32.prec F32.emax eq_refl false qp
                (e1 - e2 - 24)) as (m' & Hres & Hmq & Hm').
    + exact Hd1.
    + fold dq. unfold F32.prec, F32.emax. lia.
    + fold dq. unfold F32.prec, F32.emax. lia.
    + fold dq. change F32.prec with 24%Z. rewrite Hqk.
      exists (k * 2 ^ (t - (dq - 24)))%Z.
      rewrite <- Z.mul_assoc, <- Z.pow_add_r by lia. do 2 f_equal. lia.
    + fold dq in Hres, Hmq. change F32.prec with 24%Z in *.
      exists m', (e1 - e2 - 24 + (dq - 24))%Z.
      split; [exact Hres|]. split; [exact Hm'|]. rewrite HK.
      assert (Hval : IZR (Zpos m') * bpow (e1 - e2 - 24 + (dq - 24)) = IZR k).
      { rewrite Z.add_comm, bpow_add, bpow_IZR by lia.
        rewrite <- Rmult_assoc, <- mult_IZR, Hmq, Hqk, mult_IZR.
        rewrite Rmult_assoc, (Rmult_comm (IZR (2 ^ t))), Hbt. ring. }
      rewrite Hval. lra.
  - (* a remainder is left: the quotient is rounded, and stays between
       the two integers *)
    assert (HK : K = (k + 1)%Z).
    { unfold K. rewrite Hdm.
      replace (mip * k + rho + mip - 1)%Z
        with ((k + 1) * mip + (rho - 1))%Z by lia.
      rewrite Z.div_add_l by lia. rewrite (Z.div_small (rho - 1)) by lia. lia. }
    set (x := IZR d / IZR mip).
    assert (Hx1 : x * IZR mip = IZR d) by (unfold x; field; lra).
    assert (HdR : IZR d = IZR mip * IZR k + IZR rho)
      by (rewrite Hdm at 1; rewrite plus_IZR, mult_IZR; done).
    assert (Hrho1 : 1 <= IZR rho <= IZR mip - 1).
    { split; [apply (IZR_le 1); lia|]. rewrite <- minus_IZR. apply IZR_le. lia. }
    assert (HqR : IZR a = IZR (Zpos m2) * IZR (Zpos qp) + IZR r)
      by (rewrite Hqr at 1; rewrite plus_IZR, mult_IZR; done).
    assert (Hr0 : 0 <= IZR r /\ IZR r + 1 <= IZR (Zpos m2)).
    { split; [apply IZR_le; lia|]. rewrite <- plus_IZR. apply IZR_le. lia. }
    assert (Hxa : x * IZR (2 ^ t) * IZR (Zpos m2) = IZR a).
    { apply Rmult_eq_reg_r with (IZR mip); [|lra]. rewrite HaR, <- Hx1. ring. }
    assert (Hpt0 : 0 < IZR (2 ^ t)) by (apply IZR_lt; lia).
    assert (Hxq : IZR (Zpos qp) * bpow (e1 - e2 - 24) <= x
                  < IZR (Zpos qp + 1) * bpow (e1 - e2 - 24)).
    { rewrite plus_IZR.
      assert (Hxt : x = x * IZR (2 ^ t) * bpow (e1 - e2 - 24))
        by (rewrite Rmult_assoc, (Rmult_comm (IZR (2 ^ t))), Hbt; ring).
      assert (Hyq : IZR (Zpos qp) <= x * IZR (2 ^ t) < IZR (Zpos qp) + 1).
      { set (y := x * IZR (2 ^ t)) in *. clear - Hxa HqR Hr0 Hm20.
        split; nra. }
      rewrite Hxt.
      split; [apply Rmult_le_compat_r|apply Rmult_lt_compat_r]; lra. }
    destruct (binary_round_aux_error32 false qp (e1 - e2 - 24)
                (new_location (Zpos m2) r) x)
      as (m' & e' & Hres & Hm' & Herr).
    + exact Hd1.
    + fold dq. lia.
    + fold dq. lia.
    + exact Hxq.
    + exists m', e'. split; [exact Hres|]. split; [exact Hm'|].
      rewrite HK, plus_IZR.
      assert (He : bpow (-23) * 8388608 = 1).
      { assert (Hb23 : bpow 23 = 8388608)
          by (rewrite bpow_IZR by lia; reflexivity).
        pose proof (bpow_add 23 (-23)) as H.
        change (bpow (23 + -23)) with 1 in H. rewrite Hb23 in H. lra. }
      set (eps := bpow (-23)) in *.
      assert (HdR23 : IZR d <= 8388607).
      { apply (IZR_le d 8388607). lia. }
      assert (Hxe : x * eps * IZR mip < 1).
      { replace (x * eps * IZR mip) with (IZR d * eps) by (rewrite <- Hx1; ring).
        nra. }
      assert (Hxk : (x - IZR k) * IZR mip = IZR rho) by (rewrite Rmult_minus_distr_r, Hx1; lra).
      set (v := IZR (Zpos m') * bpow e') in *.
      split.
      * apply Rmult_lt_reg_r with (IZR mip); [done|]. nra.
      * apply Rmult_le_reg_r with (IZR mip); [done|]. nra.
Qed.

(** The ceiling of a positive [float] between two integers, as an
    [hsize_t]. *)
Lemma ceil_to_hsize m e K :
  (2 ^ 23 <= Zpos m < 2 ^ 24)%Z -> (1 <= K < 2 ^ 24)%Z ->
  IZR K - 1 < IZR (Zpos m) * bpow e <= IZR K ->
  float_to_hsize (ceilf (S754_finite false m e)) = Some K.
Proof.
  intros Hm HK [Hlo Hhi].
  assert (HKR : IZR K < 16777216) by (apply (IZR_lt K 16777216); lia).
  assert (HmR : 8388608 <= IZR (Zpos m)) by (apply (IZR_le 8388608); lia).
  destruct e as [|p|p].
  - change (bpow 0) with 1 in *. rewrite Rmult_1_r in *.
    assert (Zpos m = K) as <-.
    { assert (K - 1 < Zpos m)%Z by (apply lt_IZR; rewrite minus_IZR; lra).
      assert (Zpos m <= K)%Z by (apply le_IZR; lra). lia. }
    unfold ceilf, float_to_hsize. cbn [cond_Zopp]. rewrite Z.shiftl_0_r.
    replace ((0 <=? Zpos m)%Z && (Zpos m <? 2 ^ 64)%Z) with true; [done|].
    symmetry. apply andb_true_intro.
    split; [apply Z.leb_le|apply Z.ltb_lt]; lia.
  - exfalso. assert (2 <= bpow (Zpos p)).
    { replace 2 with (bpow 1) by (unfold bpow; simpl; lra).
      apply bpow_le. lia. }
    nra.
  - change (Zneg p) with (- Zpos p)%Z in Hlo, Hhi. rewrite bpow_opp in *.
    pose proof (bpow_pos (Zpos p)) as Hb.
    assert (Hp : (0 < 2 ^ Zpos p)%Z) by (apply Z.pow_pos_nonneg; lia).
    assert (Hmul : IZR (Zpos m) * / bpow (Zpos p) * bpow (Zpos p)
                   = IZR (Zpos m)) by (field; lra).
    assert (H1 : ((K - 1) * 2 ^ Zpos p < Zpos m)%Z).
    { apply lt_IZR. rewrite mult_IZR, minus_IZR, <- bpow_IZR by lia.
      rewrite <- Hmul. apply Rmult_lt_compat_r; [done|lra]. }
    assert (H2 : (Zpos m <= K * 2 ^ Zpos p)%Z).
    { apply le_IZR. rewrite mult_IZR, <- bpow_IZR by lia.
      rewrite <- Hmul. apply Rmult_le_compat_r; lra. }
    unfold ceilf. cbn [cond_Zopp].
    match goal with
    | |- context [binary_normalize _ _ ?c _ _] => assert (Hc : c = K)
    end.
    { assert ((- Zpos m) / 2 ^ Zpos p = - K)%Z as ->; [|lia].
      symmetry. apply (Z.div_unique_pos _ _ _ (K * 2 ^ Zpos p - Zpos m)); lia. }
    rewrite Hc.
    destruct (F32_of_Z_exact K HK) as (mk & ek & Hof & Hmk & Hek & Hvk).
    unfold F32.of_Z in Hof. rewrite Hof. unfold float_to_hsize.
    cbn [cond_Zopp].
    assert (Ht : match ek with
                 | Zneg p0 => Z.shiftr (Zpos mk) (Zpos p0)
                 | _ => Z.shiftl (Zpos mk) ek
                 end = K).
    { destruct ek as [|pk|pk]; [|lia|].
      - rewrite Z.shiftl_0_r, Hvk. cbn. lia.
      - rewrite Z.shiftr_div_pow2 by lia. rewrite Hvk.
        change (- Zneg pk)%Z with (Zpos pk). apply Z.div_mul.
        apply Z.pow_nonzero; lia. }
    rewrite Ht.
    replace ((0 <=? K)%Z && (K <? 2 ^ 64)%Z) with true; [done|].
    symmetry. apply andb_true_intro.
    split; [apply Z.leb_le|apply Z.ltb_lt]; lia.
Qed.

(** One extent: the ceiling of the exact quotient. *)
Lemma mip_extent_exact d mip :
  (0 <= d < 2 ^ 23)%Z -> (1 <= mip < 2 ^ 24)%Z ->
  mip_extent d mip = Some ((d + mip - 1) / mip)%Z.
Proof.
  intros Hd Hmip. unfold mip_extent.
  destruct (Z.eq_dec d 0%Z) as [-> | Hd0].
  - destruct (F32_of_Z_exact mip Hmip) as (m2 & e2 & Hy & _).
    rewrite Hy. cbn. f_equal. symmetry. apply Z.div_small. lia.
  - destruct (F32_div_counts d mip ltac:(lia) Hmip)
      as (m & e & Hq & Hm & Hv).
    rewrite Hq. apply ceil_to_hsize; [done| |done].
    split.
    + apply Z.div_le_lower_bound; lia.
    + apply Z.div_lt_upper_bound; [lia|]. nia.
Qed.

(** [mipDims] on extents below 2^23.  For a factor from 1 to 2^24 - 1
    and a vector whose last two extents are below 2^23 (8388608),
    [mipDims] is defined and replaces each of the last two extents [d] by
    the exact ceiling of [d / mip]: the single-precision division and
    [std::ceil] lose nothing.  The other extents are kept, and a vector
    of fewer than two extents has all of them replaced. *)
Theorem mipDims_exact dims mip :
  (1 <= mip < 2 ^ 24)%Z ->
  (forall d, d ∈ drop (length dims - 2) dims -> (0 <= d < 2 ^ 23)%Z) ->
  mipDims dims mip
  = Some (take (length dims - 2) dims
          ++ map (fun d => ((d + mip - 1) / mip)%Z)
               (drop (length dims - 2) dims)).
Proof.
  intros Hmip Hdims. unfold mipDims. cbv zeta.
  set (n := length dims) in *.
  replace (Z.to_nat (Z.max 0 (Z.of_nat n - 2))) with (n - 2)%nat by lia.
  replace (Z.to_nat (Z.of_nat n - Z.max 0 (Z.of_nat n - 2)))
    with (Nat.min n 2) by lia.
  pose proof (take_drop (n - 2) dims) as Hsplit.
  assert (Hpre : length (take (n - 2) dims) = (n - 2)%nat)
    by (rewrite length_take; unfold n; lia).
  assert (Hsuf : length (drop (n - 2) dims) = Nat.min n 2)
    by (rewrite length_drop; unfold n; lia).
  set (pre := take (n - 2) dims) in *. set (suf := drop (n - 2) dims) in *.
  assert (Hle : (length suf <= 2)%nat) by lia.
  rewrite <- Hsplit. rewrite <- Hsuf, <- Hpre. clear Hsplit Hsuf.
  destruct suf as [|a [|b [|c suf]]].
  - reflexivity.
  - cbn [length seq fold_left map].
    rewrite lookup_total_app_r, Nat.sub_diag by lia.
    cbn [lookup_total list_lookup_total].
    rewrite mip_extent_exact by (done || apply Hdims; by left).
    rewrite insert_app_r_alt, Nat.sub_diag by lia. reflexivity.
  - cbn [length seq fold_left map].
    rewrite lookup_total_app_r, Nat.sub_diag by lia.
    cbn [lookup_total list_lookup_total].
    rewrite mip_extent_exact by (done || apply Hdims; by left).
    rewrite insert_app_r_alt, Nat.sub_diag by lia. cbn [insert list_insert].
    rewrite lookup_total_app_r by lia.
    replace (S (length pre) - length pre)%nat with 1%nat by lia.
    cbn [lookup_total list_lookup_total].
    rewrite mip_extent_exact by (done || apply Hdims; right; by left).
    rewrite insert_app_r_alt by lia.
    replace (S (length pre) - length pre)%nat with 1%nat by lia.
    reflexivity.
  - cbn [length] in Hle. lia.
Qed.
End MipDims.

Lemma mipDims_exact_witness :
  Util.mipDims [4; 1000; 1001]%Z 2 = Some [4; 500; 501]%Z.
Proof.
  apply (mipDims_exact [4; 1000; 1001]%Z 2); [vm_compute; done|].
  intros d Hd. cbn in Hd.
  repeat (apply elem_of_cons in Hd as [->|Hd]; [vm_compute; done|]).
  by apply elem_of_nil in Hd.
Defined.
